(* ===== verification/_CoqProject ===== *)
-Q . S2P
Prelude.v
Part.v
PartMulti.v
Codec.v
LruCache.v
Uuid.v
UuidGen.v
Topic.v
Event.v
Config.v
Socket.v
Poller.v
Session.v
Timer.v
BrokerSession.v
ConnMachine.v
SyncMachine.v
WorkerSession.v
WorkerInvariant.v
WorkerDelivery.v
Network.v
Runner.v
RunnerEvents.v
RunnerSystem.v
TokenPool.v
Arg.v
Log.v
Texts.v
Context.v
CBindings.v
Grpc.v
GrpcEvents.v
GrpcSystem.v
GrpcOrder.v
GrpcClients.v
