(* ===== verification/Prelude.v ===== *)
(** * Verification of the fuurin communication library: root file

    fuurin connects workers through brokers over ZeroMQ.  A worker dispatches topics (a name,
    data and a per-worker sequence number); every broker it is connected to stores the last
    topics of each name and forwards them to the subscribed workers, which deliver each topic
    to their user once; a worker that (re)connects can download a snapshot of the topics a
    broker stores.  Each worker and broker is a main-thread object ([Runner]) plus an
    asynchronous task ([Session]) in a thread of its own; the two exchange operations and
    events over inproc sockets, tagged with an execution token.  Everything that travels is a
    [zmq::Part] packed by [zmq::PartMulti].

    ** Files (paths below are in the repository)

    - [Prelude] (this file): outcomes of C++ code ([Ok], an exception, an aborted process,
      undefined behaviour), the state monad [M] over them, lenses ([zoom]), frames, machine
      integers with wrap-around, bytes, the class [Platform] (byte order of the host and of the
      wire, signedness of [char]), tactics and hint databases.
    - [Part] (src/zmqpart.cpp, include/fuurin/zmqpart.h), [PartMulti]
      (include/fuurin/zmqpartmulti.h), [Codec] (the interface of the types with
      toPart/fromPart), [Uuid] (src/uuid.cpp), [Topic] (src/topic.cpp), [Event]
      (src/event.cpp and src/operation.cpp), [Config] (src/workerconfig.cpp,
      src/brokerconfig.cpp): the data and its wire format; [UuidGen] (src/uuid.cpp,
      vendor/boost/boost/uuid/): the generators of uuids with their SHA-1.
    - [LruCache] (include/fuurin/lrucache.h): the list of nodes, the map of iterators and their
      validity, against an association list.
    - [Socket] (src/zmqsocket.cpp, include/fuurin/zmqsocket.h): opening, closing and sending,
      with the ZMQ library as the parameter [Zmq].
    - [Poller] (src/zmqpoller.cpp, src/zmqpollable.cpp, include/fuurin/zmqpoller.h): pollers
      that follow the sockets they observe, with the pollers of the ZMQ library as a parameter
      with laws, and the iteration over what a poller reports.
    - [Timer] (src/zmqtimer.cpp, src/zmqiotimer.cpp, src/zmqcancel.cpp, src/stopwatch.cpp): the
      two threads of a timer and all their interleavings, the sequential view the machines use,
      and the stop watch.
    - [Session] (src/session.cpp): events, operations with their token and the loop of the
      task, over the interface [SessionOps] that [BrokerSession] and [WorkerSession] implement.
    - [BrokerSession] (src/sessionbroker.cpp): the storage of topics, the forwarding and the
      snapshots.
    - [ConnMachine] (src/connmachine.cpp), [SyncMachine] (src/syncmachine.cpp): the state
      machines of a worker, over an arbitrary host that keeps the contracts [ConnHost] and
      [SyncHost].
    - [WorkerSession] (src/sessionworker.cpp): all the handlers of the worker's task, which
      implement those contracts; [WorkerInvariant] and [WorkerDelivery]: its theorems.
    - [Network]: any number of workers and brokers, built from the sessions above, whose
      messages may be lost, repeated and reordered on the way.
    - [Runner] (src/runner.cpp, src/worker.cpp, src/broker.cpp) and [RunnerSystem]: the main
      thread, and its interleavings with the session thread; [RunnerEvents]: what the calls that
      wait for events return.
    - [TokenPool] (src/tokenpool.cpp); [Arg] (src/arg.cpp): the arguments of log lines and
      errors, over a heap of shared storage with reference counts; [Log] (src/logger.cpp,
      src/failure.cpp): texts, the logger with its handlers, failed assertions; [Texts]: the
      stream operators of the other files, src/errors.cpp and src/log.cpp; [Context]
      (src/zmqcontext.cpp).
    - [CBindings] (src/c/): the C interface, and a C program that runs beside the sessions.
    - [Grpc] (grpc/fuurin_worker_impl.cpp): the requests of the gRPC service and the thread that
      serves them on the worker; [GrpcEvents] (the same file, grpc/fuurin_cli_impl.cpp and
      grpc/utils.cpp): the stream of events, the client and the command line; [GrpcSystem]: the
      service and the session of its worker together, until the service is destroyed;
      [GrpcOrder]: what the requests become over whole runs; [GrpcClients]: what the getters
      answer and what a start sends over whole runs.

    One definition models one C++ function and keeps its name; a member function of a class is
    an action of the monad [M] on the record of the class's members, so a function that throws
    half way leaves the state it has reached.  Logging has no effect on the state and is left
    out.  Messages for a handler are its argument: what the poller reports and [recv] returns.

    ** What the theorems show

    - Wire: what is packed is unpacked to the same values, also between hosts of different byte
      order; [unpack] accepts exactly the encodings (bounds of the buffer, lengths that wrap)
      and never reads outside of the buffer; round trips of topics, events, operations,
      configurations and uuids; the number in a packed topic can be overwritten in place;
      integers read back by toUint16/32/64 are right exactly when sign extension does no harm.
    - Uuids: the name based generator gives the version-5 uuid of RFC 4122 over the SHA-1 of the
      padded message, and it and the random one keep every bit that does not mark the version.
    - Containers: the LRU cache refines its abstract list and never uses a stale iterator.
    - Broker: [storeTopic] refines an abstract storage; topics of a worker are accepted in
      strictly increasing order, each at most once, and none that is newer is refused; the
      topic kept for a name is the last accepted one; what is accepted is forwarded unchanged;
      a snapshot is exactly the stored topics the worker asked for, up to the first name that has
      none, where the broker aborts.
    - Machines: each refines a table of states and calls (the code's; where the comments of the
      headers say otherwise, the theorems tell), keeps its invariant on
      every path, cannot be left waiting without a running timer, gives up after the maximum
      of attempts, and ignores replies to earlier requests.
    - Worker session: a joint invariant of the two machines, the sockets and the flags the user
      sees; no input but a start whose flag is neither 0 nor 1 is undefined behaviour; delivery at
      most once and in order, of every group but the one of the keepalives; the number
      of a dispatch is fresh.
    - Network: what one worker dispatches is delivered by another through a broker with every
      field intact; whatever the network does, no worker delivers a topic that its author did
      not dispatch.
    - Pollers: every open socket that is observed is registered with its poller and no other,
      over any sequence of openings and closings, failed ones included.
    - Arguments of log lines: copies, moves and assignments have the values of plain copies,
      the counts are the number of owners, and storage is released once; the one operation that
      reads released storage is the assignment of an element to the only owner of its array.
    - Logging: a failed assertion aborts the process with every handler whose [fatal] does not
      throw, which is what [Abort] stands for in the other files; log calls do not throw; the
      text of an argument is the one of its value; lines of several threads do not mix; the
      printed text of a topic, an event, an operation or a configuration tells which it was.
    - Waiting for an event takes the first one of the type out of the queue, of any session.
    - C interface: the future that a C object holds is the one of its session, so waiting
      returns exactly when the session is over; a stop ends it; what is dispatched from C is
      what C reads.
    - gRPC: requests are performed on the worker in their order, as if called directly; remote
      configuration takes effect; the events of the session reach the client in order, between
      a setup and a teardown, with their fields.  With the session thread beside it, the service
      is one of the programs that use the worker through its interface; what remote programs
      ask becomes the operations it stands for, in order; only a stop waits, for a session that
      ends; getters that are called one at a time answer the identity and the last number that
      a session reported, and every start sends the remote settings and that number; and a service that is shut down and destroyed comes to its end.
    - Threads: calls on a timer always end and do what the sequential view says; a session handles
      the operations sent to it, in order, up to its stop, and so it is with sessions that throw
      as long as at most 256 were started; the running flag is exact.
    - Defects of the code, as theorems: a topic refused under a new name makes the next
      snapshot abort the broker; a deadline that expires twice uses a deleted timer; the
      sequence number read by the main thread is wrong from 128 on where [char] is signed; a
      token pool up to the largest number is never built; an argument that is assigned an
      element of its own array reads it after its destruction; a topic named as the keepalives
      is never delivered; deleting a running worker from C waits for ever; two gRPC calls at
      the same time may exchange their replies; a handler whose [fatal] throws makes a failed
      assertion recurse without end; bytes from 0x80 on are printed with their sign extended;
      an event of an earlier session is taken for the one that is waited for; after 256 sessions
      that threw, one takes the operations of the first.

    ** Bounds and fuel

    Loops over containers and messages are structural recursions on what they iterate over.
    [Socket.bind_loop] has fuel: one attempt per 10 ms of the timeout, which the code sleeps
    between attempts; [bind_terminates] shows it is enough (a timeout of 0, which no caller uses,
    tries for ever: [bind_loop_forever]).  The loops of [UuidGen.get_digest] have a fuel of 65
    rounds, one more than a block has bytes, and the theorem shows that it is never used up.  [TokenPool.fill] has the fuel as
    an argument, and the theorem says which is enough.  [Session.run_loop] iterates over the
    results of the poller, which is what the thread waits for.  Buffers are assumed to fit the
    64-bit address space ([fits]).

    ** Not modelled

    The ZMQ and Boost libraries (vendor/), except the two functions of ZMQ on routing ids and
    groups and those of Boost on the text and the generation of uuids, which are translated; the
    gRPC library and the code that it generates, a parameter; the texts that the C++ and C
    libraries make of doubles, error numbers and printf formats, parameters of the texts that
    hold them; plain getters, which are the fields of the records.  A custom log handler whose
    [fatal] returns lets the code go on after a fatal log line that is not an assertion; the
    models take it for the end of the process, as the two handlers of the library do. *)

From Stdlib Require Export ZArith Lia.
From stdpp Require Export base list numbers gmap option strings.

From Stdlib Require Import Strings.Byte.

Local Open Scope Z_scope.

(** ** Automation shared by every file *)

Create HintDb fuurin.
Create Rewrite HintDb fuurin_rw.

(** Case analysis on the scrutinee of a [match] or [if] in the goal or in the
    hypotheses, keeping the equation. *)
Ltac case_goal :=
  match goal with
  | |- context [match ?x with _ => _ end] => destruct x eqn:?
  end.

Ltac case_hyp :=
  match goal with
  | H : context [match ?x with _ => _ end] |- _ => destruct x eqn:?
  end.

(** Decides the tests on values that are known. *)
Ltac decs :=
  repeat match goal with
  | |- context [decide ?P] =>
    first [ rewrite (decide_True (P:=P)) by (done || congruence)
          | rewrite (decide_False (P:=P)) by (congruence || (let H := fresh in intros H; by destruct H)) ]
  end.

(** Turns the boolean tests of the code into propositions. *)
Ltac bools :=
  repeat match goal with
  | H : (_ && _)%bool = true |- _ => apply andb_prop in H; destruct H
  | H : (_ || _)%bool = false |- _ => apply orb_false_elim in H; destruct H
  | H : negb _ = true |- _ => apply negb_true_iff in H
  | H : negb _ = false |- _ => apply negb_false_iff in H
  | H : (_ =? _)%Z = true |- _ => apply Z.eqb_eq in H
  | H : (_ =? _)%Z = false |- _ => apply Z.eqb_neq in H
  | H : (_ <=? _)%Z = true |- _ => apply Z.leb_le in H
  | H : (_ <=? _)%Z = false |- _ => apply Z.leb_gt in H
  | H : (_ <? _)%Z = true |- _ => apply Z.ltb_lt in H
  | H : (_ <? _)%Z = false |- _ => apply Z.ltb_ge in H
  | H : bool_decide _ = true |- _ => apply bool_decide_eq_true in H
  | H : bool_decide _ = false |- _ => apply bool_decide_eq_false in H
  end.

(** ** Outcomes of C++ code

    A C++ expression returns a value, throws one of the library's exceptions,
    aborts the process ([ASSERT], [LOG_FATAL]) or has undefined behaviour (an
    access outside of a buffer, a dangling iterator). *)

(** The exception classes of include/fuurin/errors.h. *)
Inductive err_kind :=
  | Error
  | ZMQContextCreateFailed
  | ZMQSocketCreateFailed
  | ZMQSocketOptionSetFailed
  | ZMQSocketOptionGetFailed
  | ZMQSocketConnectFailed
  | ZMQSocketBindFailed
  | ZMQSocketSendFailed
  | ZMQSocketRecvFailed
  | ZMQSocketGroupFailed
  | ZMQPartCreateFailed
  | ZMQPartMoveFailed
  | ZMQPartCopyFailed
  | ZMQPartAccessFailed
  | ZMQPartRoutingIDFailed
  | ZMQPartGroupFailed
  | ZMQPollerCreateFailed
  | ZMQPollerAddSocketFailed
  | ZMQPollerWaitFailed.

#[export] Instance err_kind_eq_dec : EqDecision err_kind.
Proof. solve_decision. Defined.

(** A thrown exception: its class and what [e.arg().toInt()] gives (the errno
    carried by the argument, 0 when it carries none). *)
Record error := mkError { e_kind : err_kind; e_int : Z }.

#[export] Instance error_eq_dec : EqDecision error.
Proof. solve_decision. Defined.

Inductive outcome (A : Type) :=
  | Ok (a : A)
  | Throw (e : error)
  | Abort
  | Undef.
Arguments Ok {A} _.
Arguments Throw {A} _.
Arguments Abort {A}.
Arguments Undef {A}.

#[export] Instance outcome_eq_dec {A} `{EqDecision A} : EqDecision (outcome A).
Proof. solve_decision. Defined.

#[export] Instance outcome_ret : MRet outcome := fun A a => Ok a.
#[export] Instance outcome_bind : MBind outcome := fun A B f m =>
  match m with
  | Ok a => f a
  | Throw e => Throw e
  | Abort => Abort
  | Undef => Undef
  end.

(** [ASSERT(expr, msg)] of src/failure.h: the process is aborted when the
    expression is false. *)
Definition ASSERT (b : bool) : outcome unit := if b then Ok tt else Abort.

(** Stateful code: what was done before a [throw] stays done. *)
Definition M (S A : Type) : Type := S -> outcome A * S.

#[export] Instance M_ret {S} : MRet (M S) := fun A a s => (Ok a, s).
#[export] Instance M_bind {S} : MBind (M S) := fun A B f m s =>
  match m s with
  | (Ok a, s') => f a s'
  | (Throw e, s') => (Throw e, s')
  | (Abort, s') => (Abort, s')
  | (Undef, s') => (Undef, s')
  end.

Definition get {S} : M S S := fun s => (Ok s, s).
Definition modify {S} (f : S -> S) : M S unit := fun s => (Ok tt, f s).
Definition lift {S A} (o : outcome A) : M S A := fun s => (o, s).
Definition throw {S A} (e : error) : M S A := fun s => (Throw e, s).

(** [try { m } catch (e) { h(e) }]; aborts and undefined behaviour are not caught. *)
Definition try_catch {S A} (m : M S A) (h : error -> M S A) : M S A := fun s =>
  match m s with
  | (Throw e, s') => h e s'
  | r => r
  end.

(** Runs a computation on a component [T] of the state [S]. *)
Definition zoom {S T A} (pr : S -> T) (upd : T -> S -> S) (m : M T A) : M S A := fun s =>
  match m (pr s) with
  | (o, t) => (o, upd t s)
  end.

(** A scope guard ([BOOST_SCOPE_EXIT]): the clean-up runs when the body does not return. *)
Definition guard_exit {S A} (m : M S A) (cleanup : M S unit) : M S A := fun s =>
  match m s with
  | (Ok a, s') => (Ok a, s')
  | (o, s') => (o, (cleanup s').2)
  end.

Fixpoint mfor {S A} (l : list A) (f : A -> M S unit) : M S unit :=
  match l with
  | [] => mret tt
  | a :: l => f a ;; mfor l f
  end.

Lemma bind_Ok {A B} (m : outcome A) (f : A -> outcome B) b :
  (m ≫= f) = Ok b <-> exists a, m = Ok a /\ f a = Ok b.
Proof. destruct m; cbn; split; try (intros (?&?&?)); eauto; congruence. Qed.

Lemma bind_not_Undef {A B} (m : outcome A) (f : A -> outcome B) :
  m <> Undef -> (forall a, m = Ok a -> f a <> Undef) -> (m ≫= f) <> Undef.
Proof. destruct m; cbn; auto; congruence. Qed.

Lemma M_bind_Ok {S A B} (m : M S A) (f : A -> M S B) s b s' :
  (m ≫= f) s = (Ok b, s') <-> exists a s1, m s = (Ok a, s1) /\ f a s1 = (Ok b, s').
Proof.
  unfold mbind, M_bind.
  destruct (m s) as [[] s1]; split; try (intros (?&?&?&?)); eauto; congruence.
Qed.

Lemma M_bind_eq {S A B} (m : M S A) (f : A -> M S B) s a s1 :
  m s = (Ok a, s1) -> (m ≫= f) s = f a s1.
Proof. unfold mbind, M_bind. by intros ->. Qed.

(** The first step of a sequence *)
Lemma step_Ok {S A} (m : M S A) (s : S) (a : A) : (m s).1 = Ok a -> m s = (Ok a, (m s).2).
Proof. intros <-. apply surjective_pairing. Qed.

Lemma bind_get {S B} (k : S -> M S B) s : (get ≫= k) s = k s s.
Proof. done. Qed.
Lemma bind_ret {S A B} (a : A) (k : A -> M S B) s : (mret a ≫= k) s = k a s.
Proof. done. Qed.
Lemma bind_lift {S A B} (a : A) (k : A -> M S B) s : (lift (Ok a) ≫= k) s = k a s.
Proof. done. Qed.
Lemma bind_modify {S B} f (k : unit -> M S B) s : (modify f ≫= k) s = k tt (f s).
Proof. done. Qed.

Lemma M_bind_ext {S A B} (m1 m2 : M S A) (k1 k2 : A -> M S B) s :
  m1 s = m2 s -> (forall a s, k1 a s = k2 a s) -> (m1 ≫= k1) s = (m2 ≫= k2) s.
Proof. intros E Hk. unfold mbind, M_bind. rewrite E. by destruct (m2 s) as [[]]. Qed.

(** Code that leaves a component of the state alone, however it ends. *)
Definition frames {S A B} (f : S -> A) (m : M S B) : Prop := forall s, f (m s).2 = f s.

Section Frames.
Context {S A : Type} (f : S -> A).

Lemma frames_bind {B C} (m : M S B) (k : B -> M S C) :
  frames f m -> (forall b, frames f (k b)) -> frames f (m ≫= k).
Proof.
  intros Hm Hk s. specialize (Hm s). unfold mbind, M_bind.
  destruct (m s) as [[b| | |] s1]; cbn in *; try done. by rewrite (Hk b s1).
Qed.
Lemma frames_ret {B} (b : B) : frames f (mret b).
Proof. done. Qed.
Lemma frames_get : frames f get.
Proof. done. Qed.
Lemma frames_lift {B} (o : outcome B) : frames f (lift o).
Proof. done. Qed.
Lemma frames_throw {B} e : frames f (throw (A := B) e).
Proof. done. Qed.
Lemma frames_modify g : (forall s, f (g s) = f s) -> frames f (modify g).
Proof. intros Hg s. apply Hg. Qed.
Lemma frames_zoom {T B} (pr : S -> T) upd (m : M T B) :
  (forall t s, f (upd t s) = f s) -> frames f (zoom pr upd m).
Proof. intros Hu s. unfold zoom. destruct (m (pr s)). apply Hu. Qed.
Lemma frames_zoom_in {T B} (g : T -> A) (pr : S -> T) upd (m : M T B) :
  (forall t s, f (upd t s) = g t) -> (forall s, g (pr s) = f s) -> frames g m -> frames f (zoom pr upd m).
Proof.
  intros Hu Hp Hm s. unfold zoom. specialize (Hm (pr s)). destruct (m (pr s)) as [o t].
  cbn in *. by rewrite Hu, Hm, Hp.
Qed.
Lemma frames_try {B} (m : M S B) h : frames f m -> (forall e, frames f (h e)) -> frames f (try_catch m h).
Proof.
  intros Hm Hh s. specialize (Hm s). unfold try_catch.
  destruct (m s) as [[b|e| |] s1]; cbn in *; try done. by rewrite (Hh e s1).
Qed.
Lemma frames_mfor {B} (l : list B) (g : B -> M S unit) : (forall b, frames f (g b)) -> frames f (mfor l g).
Proof. intros Hg. induction l; cbn [mfor]; [done|]. by apply frames_bind. Qed.

End Frames.

(** Splits the code into its steps. *)
Ltac frame :=
  repeat first
    [ assumption
    | apply frames_ret | apply frames_get | apply frames_lift | apply frames_throw
    | apply frames_modify; (done || (intros; repeat case_goal; done))
    | apply frames_zoom; done
    | apply frames_bind; [|intros ?] | apply frames_try; [|intros ?] | apply frames_mfor; intros ?
    | match goal with |- frames _ (match ?x with _ => _ end) => destruct x end ].

(** Code that changes the state along a preorder, however it ends. *)
Definition respects {S B} (R : S -> S -> Prop) (m : M S B) : Prop := forall s, R s (m s).2.

Section Respects.
Context {S : Type} (R : S -> S -> Prop) `{!PreOrder R}.

(** What follows may use the result. *)
Lemma respects_bind_with {B C} (m : M S B) (k : B -> M S C) :
  respects R m -> (forall s b s1, m s = (Ok b, s1) -> respects R (k b)) -> respects R (m ≫= k).
Proof.
  intros Hm Hk s. specialize (Hm s). unfold mbind, M_bind.
  destruct (m s) as [[b| | |] s1] eqn:E; cbn in *; try done. etrans; [done|]. by eapply Hk.
Qed.
Lemma respects_bind {B C} (m : M S B) (k : B -> M S C) :
  respects R m -> (forall b, respects R (k b)) -> respects R (m ≫= k).
Proof. intros Hm Hk. apply respects_bind_with; [done|]. intros s b s1 _. apply Hk. Qed.
Lemma respects_ret {B} (b : B) : respects R (mret b).
Proof. intros s. cbn. reflexivity. Qed.
Lemma respects_get : respects R get.
Proof. intros s. cbn. reflexivity. Qed.
Lemma respects_lift {B} (o : outcome B) : respects R (lift o).
Proof. intros s. cbn. reflexivity. Qed.
Lemma respects_throw {B} e : respects R (throw (A := B) e).
Proof. intros s. cbn. reflexivity. Qed.
Lemma respects_modify g : (forall s, R s (g s)) -> respects R (modify g).
Proof. intros Hg s. apply Hg. Qed.
Lemma respects_zoom {T B} (Q : T -> T -> Prop) (pr : S -> T) upd (m : M T B) :
  respects Q m -> (forall s t, Q (pr s) t -> R s (upd t s)) -> respects R (zoom pr upd m).
Proof. intros Hm Hu s. unfold zoom. specialize (Hm (pr s)). destruct (m (pr s)). by apply Hu. Qed.
Lemma respects_try {B} (m : M S B) h :
  respects R m -> (forall e, respects R (h e)) -> respects R (try_catch m h).
Proof.
  intros Hm Hh s. specialize (Hm s). unfold try_catch.
  destruct (m s) as [[b|e| |] s1]; cbn in *; try done. etrans; [done|]. apply Hh.
Qed.
Lemma respects_mfor {B} (l : list B) (g : B -> M S unit) : (forall b, respects R (g b)) -> respects R (mfor l g).
Proof. intros Hg. induction l; cbn [mfor]; [apply respects_ret|]. by apply respects_bind. Qed.

End Respects.

(** Splits the code into its steps. *)
Ltac respect_step :=
  first
    [ assumption
    | match goal with
      | |- respects ?R (mret ?b) => exact (respects_ret R b)
      | |- respects ?R get => exact (respects_get R)
      | |- respects ?R (lift ?o) => exact (respects_lift R o)
      | |- respects ?R (throw ?e) => exact (respects_throw R e)
      | |- respects ?R (try_catch ?m ?h) => apply (respects_try R m h); [|intros ?]
      | |- respects ?R (mfor ?l ?g) => apply (respects_mfor R l g); intros ?
      | |- respects _ (match ?x with _ => _ end) => destruct x eqn:?
      end ].
Ltac respect :=
  repeat first
    [ respect_step
    | match goal with |- respects ?R (mbind ?k ?m) => apply (respects_bind R m k); [|intros ?] end ].

Lemma mfor_app {S A} (l1 l2 : list A) (f : A -> M S unit) s :
  mfor (l1 ++ l2) f s = (mfor l1 f;; mfor l2 f) s.
Proof.
  revert s. induction l1 as [|a l1 IH]; intros s; [done|]. cbn [app mfor].
  unfold mbind, M_bind in *. destruct (f a s) as [[]]; done || apply IH.
Qed.

(** ** Lists with distinct keys *)

Lemma NoDup_fmap_inj {A B} (f : A -> B) (l : list A) x y :
  NoDup (f <$> l) -> x ∈ l -> y ∈ l -> f x = f y -> x = y.
Proof.
  induction l as [|a l IH]; intros Hnd Hx Hy E; [by apply not_elem_of_nil in Hx|].
  rewrite fmap_cons in Hnd. apply NoDup_cons in Hnd as [Hn Hnd].
  apply elem_of_cons in Hx as [->|Hx], Hy as [->|Hy]; [done| | |by apply IH];
    destruct Hn; apply list_elem_of_fmap; eauto.
Qed.

Lemma NoDup_fmap_filter {A B} (f : A -> B) (Q : A -> Prop) `{!forall x, Decision (Q x)} (l : list A) :
  NoDup (f <$> l) -> NoDup (f <$> filter Q l).
Proof.
  induction l as [|a l IH]; [done|]. rewrite fmap_cons. intros [Hn Hnd]%NoDup_cons.
  rewrite filter_cons. case_decide; [|by apply IH]. rewrite fmap_cons. apply NoDup_cons.
  split; [|by apply IH]. intros (x & Hx & [_ Hin]%list_elem_of_filter)%list_elem_of_fmap.
  apply Hn, list_elem_of_fmap. eauto.
Qed.

(** ** Machine integers *)

Definition u8_max : Z := 2 ^ 8.
Definition u16_max : Z := 2 ^ 16.
Definition u32_max : Z := 2 ^ 32.
Definition u64_max : Z := 2 ^ 64.
Definition int_max : Z := 2 ^ 31 - 1.
Definition long_max : Z := 2 ^ 63 - 1.

(** [getMillis<T>] of src/types.h: a duration as an integer whose largest value is [max] *)
Definition getMillis (max val : Z) : Z := if val <? 0 then -1 else if max <? val then max else val.

(** Wrap-around of an unsigned type of [n] bytes. *)
Definition wrapn (n : nat) (z : Z) : Z := z mod 256 ^ Z.of_nat n.
Definition wrap8 (z : Z) : Z := wrapn 1 z.
Definition wrap32 (z : Z) : Z := wrapn 4 z.
Definition wrap64 (z : Z) : Z := wrapn 8 z.

Definition in_width (n : nat) (z : Z) : Prop := 0 <= z < 256 ^ Z.of_nat n.

Lemma wrapn_in_width n z : in_width n (wrapn n z).
Proof. unfold in_width, wrapn. apply Z.mod_pos_bound. lia. Qed.

Lemma wrapn_id n z : in_width n z -> wrapn n z = z.
Proof. apply Z.mod_small. Qed.

#[export] Hint Resolve wrapn_in_width : fuurin.

(** ** Bytes and byte strings *)

Abbreviation byte := Byte.byte.
Abbreviation bytes := (list byte).

Definition byte_Z (b : byte) : Z := Z.of_N (Byte.to_N b).
Definition Z_byte (z : Z) : byte :=
  match Byte.of_N (Z.to_N (z mod 256)) with
  | Some b => b
  | None => Byte.x00
  end.

#[export] Instance byte_eq_dec : EqDecision byte := Byte.byte_eq_dec.

Lemma byte_Z_range b : 0 <= byte_Z b < 256.
Proof. unfold byte_Z. pose proof (Byte.to_N_bounded b). lia. Qed.

Lemma byte_Z_byte z : byte_Z (Z_byte z) = z mod 256.
Proof.
  unfold Z_byte, byte_Z. pose proof (Z.mod_pos_bound z 256).
  destruct (Byte.of_N (Z.to_N (z mod 256))) eqn:E.
  - apply Byte.to_of_N in E. rewrite E. lia.
  - apply Byte.of_N_None_iff in E. lia.
Qed.

Lemma Z_byte_Z b : Z_byte (byte_Z b) = b.
Proof.
  unfold Z_byte. rewrite Z.mod_small by apply byte_Z_range.
  unfold byte_Z. rewrite N2Z.id. by rewrite Byte.of_to_N.
Qed.

Lemma byte_Z_inj b1 b2 : byte_Z b1 = byte_Z b2 -> b1 = b2.
Proof. intros H. by rewrite <-(Z_byte_Z b1), <-(Z_byte_Z b2), H. Qed.

#[export] Instance byte_countable : Countable byte.
Proof.
  refine (inj_countable' (fun b => Byte.to_N b)
            (fun n => match Byte.of_N n with Some b => b | None => Byte.x00 end) _).
  intros b. by rewrite Byte.of_to_N.
Defined.

(** A string literal of the source, as the bytes of its characters. *)
Definition str (s : string) : bytes := String.list_byte_of_string s.

(** Little-endian split and combine. *)
Fixpoint le_split (n : nat) (z : Z) : bytes :=
  match n with
  | O => []
  | S n => Z_byte z :: le_split n (z / 256)
  end.

Fixpoint le_combine (l : bytes) : Z :=
  match l with
  | [] => 0
  | b :: l => byte_Z b + 256 * le_combine l
  end.

Lemma pow256_succ n : 256 ^ Z.of_nat (S n) = 256 * 256 ^ Z.of_nat n.
Proof. rewrite Nat2Z.inj_succ, Z.pow_succ_r; lia. Qed.

Lemma length_le_split n z : length (le_split n z) = n.
Proof. revert z; induction n; intros; simpl; auto. Qed.

Lemma le_combine_split n z : le_combine (le_split n z) = wrapn n z.
Proof.
  unfold wrapn. revert z; induction n as [|n IH]; intros z; simpl le_split; simpl le_combine.
  - by rewrite Z.mod_1_r.
  - rewrite byte_Z_byte, IH, pow256_succ, Z.rem_mul_r; lia.
Qed.

Lemma le_combine_range l : in_width (length l) (le_combine l).
Proof.
  unfold in_width. induction l as [|b l IH]; cbn [le_combine length].
  - change (Z.of_nat 0) with 0. lia.
  - rewrite pow256_succ. pose proof (byte_Z_range b). lia.
Qed.

Lemma le_split_combine l : le_split (length l) (le_combine l) = l.
Proof.
  induction l as [|b l IH]; cbn [le_combine length le_split]; [done|].
  pose proof (byte_Z_range b).
  replace ((byte_Z b + 256 * le_combine l) / 256) with (le_combine l).
  2: { rewrite Z.mul_comm, Z.div_add by lia. rewrite Z.div_small by lia. lia. }
  rewrite IH. f_equal. apply byte_Z_inj. rewrite byte_Z_byte.
  rewrite Z.mul_comm, Z.mod_add by lia. apply Z.mod_small. lia.
Qed.

Lemma le_combine_split_id n z : in_width n z -> le_combine (le_split n z) = z.
Proof. intros. rewrite le_combine_split. by apply wrapn_id. Qed.

#[export] Hint Rewrite length_le_split le_combine_split le_split_combine : fuurin_rw.
#[export] Hint Resolve le_combine_range byte_Z_range : fuurin.

(** ** The platform

    The byte order of the host, the byte order chosen for the wire
    (FUURIN_ENDIANESS_LITTLE, the default, or FUURIN_ENDIANESS_BIG), and whether
    plain [char] is signed, which C++ leaves to the implementation. *)
Class Platform := {
  host_little : bool;
  wire_little : bool;
  char_signed : bool;
}.

(** GCC on x86-64 with the default configuration. *)
Definition x86_64 : Platform :=
  {| host_little := true; wire_little := true; char_signed := true |}.

(** GCC on AArch64 with the default configuration. *)
Definition aarch64 : Platform :=
  {| host_little := true; wire_little := true; char_signed := false |}.
