(* ===== verification/Part.v ===== *)
(** * zmq::Part: a ZMQ message part (src/zmqpart.cpp, include/fuurin/zmqpart.h)

    A [part] is the content of the underlying [zmq_msg_t]: its bytes, the
    routing id and the group.  The file models the constructors, the copy and
    move operations, the two properties with their errors, and the conversions
    between integers and bytes for every host byte order, wire byte order and
    signedness of [char].  Allocation of the message buffer is taken to succeed. *)

From S2P Require Import Prelude.

Local Open Scope Z_scope.

Module Part.

(** The content of a [zmq_msg_t]. *)
Record part := mkPart {
  p_data : bytes;
  p_rid : Z;
  p_group : bytes;
  p_more : bool;
}.

#[export] Instance part_eq_dec : EqDecision part.
Proof. solve_decision. Defined.

Definition EINVAL : Z := 22.
Definition ZMQ_GROUP_MAX_LENGTH : nat := 255.

(** [msg_t::set_routing_id]: 0 is refused. *)
Definition zmq_msg_set_routing_id (id : Z) (p : part) : option part :=
  if id =? 0 then None else Some (mkPart (p_data p) id (p_group p) (p_more p)).

(** The characters of a null terminated string. *)
Fixpoint cstr (l : bytes) : bytes :=
  match l with
  | [] => []
  | b :: l => if decide (b = Byte.x00) then [] else b :: cstr l
  end.

(** [msg_t::set_group] of a string whose length was measured by [strnlen] *)
Definition zmq_msg_set_group (group : bytes) (p : part) : part :=
  mkPart (p_data p) (p_rid p) (take ZMQ_GROUP_MAX_LENGTH (cstr group)) (p_more p).

(** [::setRoutingID] *)
Definition setRoutingID (id : Z) (p : part) : outcome part :=
  match zmq_msg_set_routing_id id p with
  | Some p' => Ok p'
  | None => Throw (mkError ZMQPartRoutingIDFailed EINVAL)
  end.

(** [::setGroup]; [None] is the null pointer.  The error of a group that is too
    long carries no errno. *)
Definition setGroup (group : option bytes) (p : part) : outcome part :=
  match group with
  | None => Throw (mkError ZMQPartGroupFailed 0)
  | Some g =>
    if decide (ZMQ_GROUP_MAX_LENGTH < length (cstr g))%nat
    then Throw (mkError ZMQPartGroupFailed 0)
    else Ok (zmq_msg_set_group g p)
  end.

(** [Part::Part()] *)
Definition Part_empty : part := mkPart [] 0 [] false.

(** [Part::Part(const char*, size_t)], [Part(std::string_view)] and
    [Part(const std::string&)] *)
Definition Part_bytes (data : bytes) : part := mkPart data 0 [] false.

(** [Part::Part(const Part&)]: a hard copy, whose buffer is initialised first. *)
Definition Part_copy (other : part) : outcome part :=
  let p := Part_bytes (p_data other) in
  p ← (if p_rid other =? 0 then Ok p else setRoutingID (p_rid other) p);
  if decide (p_group other = []) then Ok p else setGroup (Some (p_group other)) p.

(** [Part::operator=(const Part&)]: the old content is released only after
    the new one was built. *)
Definition Part_assign (this other : part) : outcome part :=
  tmp ← (let p := Part_bytes (p_data other) in
         if p_rid other =? 0 then Ok p else setRoutingID (p_rid other) p);
  if decide (p_group other = []) then Ok tmp else setGroup (Some (p_group other)) tmp.

(** [moveMsg]: the destination takes everything and the source is left empty;
    gives (destination, source). *)
Definition move (dst src : part) : part * part := (src, Part_empty).

(** [Part::Part(Part&&)] *)
Definition Part_move (other : part) : part * part := move Part_empty other.

(** [Part::share] : [zmq_msg_copy], the content is the same. *)
Definition share (this other : part) : part := other.

Definition size (p : part) : Z := Z.of_nat (length (p_data p)).
Definition empty (p : part) : bool := size p =? 0.

(** [Part::operator==]: the bytes only, neither the routing id nor the group. *)
Definition part_eqb (a b : part) : bool :=
  (size a =? size b) && bool_decide (p_data a = p_data b).

Definition withRoutingID (id : Z) (p : part) : outcome part := setRoutingID id p.
Definition withGroup (g : option bytes) (p : part) : outcome part := setGroup g p.
Definition routingID (p : part) : Z := p_rid p.
Definition group (p : part) : bytes := p_group p.
Definition toString (p : part) : bytes := p_data p.

(** ** Integers *)

Section Integers.
Context {P : Platform}.

(** How an unsigned integer of [n] bytes sits in the memory of the host. *)
Definition mem_repr (n : nat) (v : Z) : bytes :=
  if host_little then le_split n v else reverse (le_split n v).

Definition mem_value (l : bytes) : Z :=
  if host_little then le_combine l else le_combine (reverse l).

(** [Part::memcpyWithEndian(void*, const void*, size_t)]: a plain copy when the
    host has the byte order of the wire, a reversed one otherwise. *)
Definition memcpyWithEndian (source : bytes) : bytes :=
  if Bool.eqb host_little wire_little then source else reverse source.

(** [Part::memcpyWithEndian<T>(void*, T&&)] *)
Definition memcpyWithEndian_to (n : nat) (v : Z) : bytes := memcpyWithEndian (mem_repr n v).

(** [Part::memcpyWithEndian<T>] reading from a source buffer *)
Definition memcpyWithEndian_from (source : bytes) : Z := mem_value (memcpyWithEndian source).

Definition Part_uint8 (val : Z) : part := Part_bytes (memcpyWithEndian_to 1 val).
Definition Part_uint16 (val : Z) : part := Part_bytes (memcpyWithEndian_to 2 val).
Definition Part_uint32 (val : Z) : part := Part_bytes (memcpyWithEndian_to 4 val).
Definition Part_uint64 (val : Z) : part := Part_bytes (memcpyWithEndian_to 8 val).

(** A [char] converted to an unsigned type of [n] bytes: a negative one is
    sign extended. *)
Definition char_value (b : byte) : Z :=
  if (char_signed && (128 <=? byte_Z b))%bool then byte_Z b - 256 else byte_Z b.

Definition static_cast_uint (n : nat) (b : byte) : Z := wrapn n (char_value b).

(** [T(0) | (static_cast<T>(d[n-1]) << 8*(n-1)) | ... | static_cast<T>(d[0])],
    on the bytes from the least significant one. *)
Definition or_chars (n : nat) (l : bytes) : Z :=
  foldr Z.lor 0
    (imap (fun i b => wrapn n (Z.shiftl (static_cast_uint n b) (8 * Z.of_nat i))) l).

Definition toUint (n : nat) (p : part) : Z :=
  if decide (length (p_data p) = n)
  then or_chars n (if wire_little then p_data p else reverse (p_data p))
  else 0.

Definition toUint8 (p : part) : Z :=
  match p_data p with
  | [b] => static_cast_uint 1 b
  | _ => 0
  end.
Definition toUint16 (p : part) : Z := toUint 2 p.
Definition toUint32 (p : part) : Z := toUint 4 p.
Definition toUint64 (p : part) : Z := toUint 8 p.

End Integers.

(** ** Byte order *)

Section Facts.
Context {P : Platform}.

Lemma memcpyWithEndian_wire n v :
  memcpyWithEndian_to n v = if wire_little then le_split n v else reverse (le_split n v).
Proof.
  unfold memcpyWithEndian_to, memcpyWithEndian, mem_repr.
  destruct host_little, wire_little; cbn [Bool.eqb]; by rewrite ?reverse_involutive.
Qed.

Lemma memcpyWithEndian_from_wire l :
  memcpyWithEndian_from l = le_combine (if wire_little then l else reverse l).
Proof.
  unfold memcpyWithEndian_from, memcpyWithEndian, mem_value.
  destruct host_little, wire_little; cbn [Bool.eqb]; by rewrite ?reverse_involutive.
Qed.

Lemma length_memcpyWithEndian_to n v : length (memcpyWithEndian_to n v) = n.
Proof.
  rewrite memcpyWithEndian_wire. destruct wire_little;
    by rewrite ?length_reverse, length_le_split.
Qed.

Lemma memcpyWithEndian_from_to n v :
  in_width n v -> memcpyWithEndian_from (memcpyWithEndian_to n v) = v.
Proof.
  intros. rewrite memcpyWithEndian_from_wire, memcpyWithEndian_wire.
  destruct wire_little; rewrite ?reverse_involutive; by apply le_combine_split_id.
Qed.

Lemma memcpyWithEndian_to_from l :
  memcpyWithEndian_to (length l) (memcpyWithEndian_from l) = l.
Proof.
  rewrite memcpyWithEndian_wire, memcpyWithEndian_from_wire.
  destruct wire_little; [apply le_split_combine|].
  rewrite <-(length_reverse l), le_split_combine. apply reverse_involutive.
Qed.

Lemma memcpyWithEndian_from_width l : in_width (length l) (memcpyWithEndian_from l).
Proof.
  rewrite memcpyWithEndian_from_wire. destruct wire_little; [auto with fuurin|].
  rewrite <-(length_reverse l). auto with fuurin.
Qed.

(** ** Conversions back to integers *)

(** The or-ed characters without the width, from the least significant one. *)
Fixpoint or_rec (l : bytes) : Z :=
  match l with
  | [] => 0
  | b :: l => Z.lor (char_value b) (Z.shiftl (or_rec l) 8)
  end.

Lemma wrapn_lor n a b : wrapn n (Z.lor a b) = Z.lor (wrapn n a) (wrapn n b).
Proof.
  unfold wrapn. change 256 with (2 ^ 8).
  rewrite <-Z.pow_mul_r, <-!Z.land_ones by lia. apply Z.land_lor_distr_l.
Qed.

Lemma wrapn_shiftl n z k : 0 <= k -> wrapn n (Z.shiftl (wrapn n z) k) = wrapn n (Z.shiftl z k).
Proof.
  intros. unfold wrapn. rewrite !Z.shiftl_mul_pow2 by lia.
  by rewrite Z.mul_mod_idemp_l by lia.
Qed.

Lemma or_chars_shift n l k :
  foldr Z.lor 0
    (imap (fun i b => wrapn n (Z.shiftl (static_cast_uint n b) (8 * Z.of_nat (k + i)))) l) =
  wrapn n (Z.shiftl (or_rec l) (8 * Z.of_nat k)).
Proof.
  revert k; induction l as [|b l IH]; intros k; cbn [imap foldr or_rec].
  - rewrite Z.shiftl_0_l. unfold wrapn. by rewrite Z.mod_0_l by lia.
  - rewrite Z.shiftl_lor, wrapn_lor, Z.shiftl_shiftl by lia.
    unfold static_cast_uint. rewrite wrapn_shiftl by lia.
    rewrite Nat.add_0_r. f_equal.
    replace (8 + 8 * Z.of_nat k) with (8 * Z.of_nat (S k)) by lia.
    rewrite <-IH. f_equal. apply imap_ext. intros i x _. cbn.
    unfold static_cast_uint. by replace (k + S i)%nat with (S k + i)%nat by lia.
Qed.

Lemma or_chars_rec n l : or_chars n l = wrapn n (or_rec l).
Proof. unfold or_chars. pose proof (or_chars_shift n l 0) as H. by rewrite Z.shiftl_0_r in H. Qed.

Lemma land_byte_shift b x : 0 <= b < 256 -> Z.land b (Z.shiftl x 8) = 0.
Proof.
  intros Hb. apply Z.bits_inj'. intros k Hk. rewrite Z.land_spec, Z.bits_0.
  destruct (decide (k < 8)); [rewrite (Z.shiftl_spec_low x) by lia; apply andb_false_r|].
  rewrite (Z.bits_above_log2 b k); [done|lia|].
  destruct (decide (b = 0)) as [->|]; [cbn; lia|].
  apply Z.log2_lt_pow2; [lia|]. apply Z.lt_le_trans with (2 ^ 8); [lia|].
  apply Z.pow_le_mono_r; lia.
Qed.

Lemma lor_byte_shift b x : 0 <= b < 256 -> Z.lor b (Z.shiftl x 8) = b + 256 * x.
Proof.
  intros Hb. pose proof (land_byte_shift b x Hb).
  rewrite <-Z.lxor_lor, <-Z.add_nocarry_lxor by done.
  rewrite Z.shiftl_mul_pow2 by lia. change (2 ^ 8) with 256. lia.
Qed.

(** A sign extended character sets every higher bit. *)
Lemma lor_negative_shift b x : 0 <= b < 256 -> Z.lor (b - 256) (Z.shiftl x 8) = b - 256.
Proof.
  intros Hb. replace (b - 256) with (b + 256 * -1) by lia.
  rewrite <-lor_byte_shift, <-Z.lor_assoc, <-Z.shiftl_lor, Z.lor_m1_l by done. done.
Qed.

Lemma or_rec_unsigned l : char_signed = false -> or_rec l = le_combine l.
Proof.
  intros Hc. induction l as [|b l IH]; [done|]. cbn [or_rec le_combine].
  unfold char_value. rewrite Hc, IH. cbn [andb]. apply lor_byte_shift, byte_Z_range.
Qed.

Lemma le_combine_all_ones l :
  le_combine l = 256 ^ Z.of_nat (length l) - 1 <-> Forall (eq Byte.xff) l.
Proof.
  induction l as [|b l IH]; cbn [le_combine length].
  - change (Z.of_nat 0) with 0. split; [constructor|lia].
  - rewrite pow256_succ, Forall_cons.
    pose proof (byte_Z_range b). destruct (le_combine_range l) as [H0 H1].
    split.
    + intros H2. split; [|apply IH; lia]. apply byte_Z_inj.
      assert (byte_Z b = 255) as -> by lia. done.
    + intros [<- ?%IH]. change (byte_Z Byte.xff) with 255. lia.
Qed.

(** Whether sign extension of the characters leaves the value alone: either no
    byte below the last one has its high bit set, or all the bytes above the
    first one that has are 0xff. *)
Fixpoint sext_ok (l : bytes) : bool :=
  match l with
  | [] => true
  | b :: l => if byte_Z b <? 128 then sext_ok l else bool_decide (Forall (eq Byte.xff) l)
  end.

Lemma or_rec_signed l :
  char_signed = true ->
  wrapn (length l) (or_rec l) = le_combine l <-> sext_ok l = true.
Proof.
  intros Hc. induction l as [|b l IH]; [done|].
  cbn [or_rec le_combine length sext_ok]. unfold wrapn in *.
  pose proof (byte_Z_range b). destruct (le_combine_range l).
  unfold char_value. rewrite Hc. cbn [andb]. rewrite pow256_succ.
  destruct (byte_Z b <? 128) eqn:E; bools.
  - destruct (128 <=? byte_Z b) eqn:E2; bools; [lia|].
    rewrite lor_byte_shift, <-IH by done.
    rewrite Z.rem_mul_r by lia.
    rewrite (Z.mul_comm 256 (or_rec l)), Z.mod_add, Z.mod_small by lia.
    rewrite Z.div_add, Z.div_small, Z.add_0_l by lia.
    generalize (or_rec l mod 256 ^ Z.of_nat (length l)). lia.
  - destruct (128 <=? byte_Z b) eqn:E2; bools; [|lia].
    rewrite lor_negative_shift, bool_decide_eq_true, <-le_combine_all_ones by done.
    replace (byte_Z b - 256) with (byte_Z b + -1 * 256) by lia.
    rewrite Z.rem_mul_r, Z.mod_add, Z.mod_small, Z.div_add, Z.div_small by lia.
    change (0 + -1) with (-1).
    set (w := 256 ^ Z.of_nat (length l)) in *.
    assert (-1 mod w = w - 1) as ->; [|lia].
    symmetry. apply Z.mod_unique with (-1); lia.
Qed.

Lemma toUint_or_rec n v :
  toUint n (Part_bytes (memcpyWithEndian_to n v)) = wrapn n (or_rec (le_split n v)).
Proof.
  unfold toUint. cbn [p_data Part_bytes].
  rewrite decide_True by apply length_memcpyWithEndian_to.
  rewrite or_chars_rec, memcpyWithEndian_wire.
  destruct wire_little; by rewrite ?reverse_involutive.
Qed.

Lemma toUint_unsigned n v :
  char_signed = false -> in_width n v ->
  toUint n (Part_bytes (memcpyWithEndian_to n v)) = v.
Proof.
  intros Hc Hv. rewrite toUint_or_rec, or_rec_unsigned, le_combine_split by done.
  by rewrite !wrapn_id by auto with fuurin.
Qed.

Lemma toUint_signed n v :
  char_signed = true -> in_width n v ->
  toUint n (Part_bytes (memcpyWithEndian_to n v)) = v <-> sext_ok (le_split n v) = true.
Proof.
  intros Hc Hv. rewrite toUint_or_rec, <-or_rec_signed, length_le_split, le_combine_split by done.
  by rewrite (wrapn_id n v).
Qed.

Lemma toUint8_Part v : in_width 1 v -> toUint8 (Part_uint8 v) = v.
Proof.
  intros Hv. unfold toUint8, Part_uint8. cbn [p_data Part_bytes].
  rewrite memcpyWithEndian_wire. unfold in_width in Hv. change (256 ^ Z.of_nat 1) with 256 in Hv.
  assert (static_cast_uint 1 (Z_byte v) = v) as Hs.
  { unfold static_cast_uint, char_value, wrapn. rewrite byte_Z_byte, (Z.mod_small v) by lia.
    change (256 ^ Z.of_nat 1) with 256. case_match; [|by apply Z.mod_small].
    symmetry. apply Z.mod_unique with (-1); lia. }
  by destruct wire_little.
Qed.

(** Copies keep the bytes and the two properties, and never fail on a part whose
    group fits the limit. *)
Lemma cstr_no_nul l : Byte.x00 ∉ cstr l.
Proof.
  induction l as [|b l IH]; cbn [cstr]; [apply not_elem_of_nil|].
  case_decide; [apply not_elem_of_nil|]. rewrite elem_of_cons. intros [?|?]; congruence.
Qed.

Lemma cstr_id l : Byte.x00 ∉ l -> cstr l = l.
Proof.
  induction l as [|b l IH]; cbn [cstr]; [done|].
  rewrite elem_of_cons. intros H. rewrite decide_False, IH; auto.
Qed.

(** What holds of the group of every message ([zmq_msg_group]). *)
Definition group_ok (p : part) : Prop :=
  (Byte.x00 ∉ p_group p) /\ (length (p_group p) <= ZMQ_GROUP_MAX_LENGTH)%nat.

Lemma setGroup_Ok g p q :
  setGroup (Some g) p = Ok q ->
  q = mkPart (p_data p) (p_rid p) (cstr g) (p_more p) /\ group_ok q.
Proof.
  unfold setGroup. case_decide; [done|]. intros [= <-].
  unfold zmq_msg_set_group, group_ok. cbn [p_group].
  rewrite take_ge by lia. repeat split; [apply cstr_no_nul|lia].
Qed.

Lemma Part_copy_Ok p :
  group_ok p ->
  Part_copy p = Ok (mkPart (p_data p) (p_rid p) (p_group p) false).
Proof.
  intros [Hn Hl]. destruct p as [d r g m]. unfold Part_copy, setRoutingID, setGroup,
    zmq_msg_set_routing_id, zmq_msg_set_group in *. cbn in *.
  destruct (r =? 0) eqn:Er; bools; subst; cbn; rewrite ?Er; cbn;
    (case_decide; [by subst|]); rewrite cstr_id, decide_False, take_ge by (done || lia); done.
Qed.

End Facts.

(** Interoperability of the wire format: an unsigned integer of [n] bytes
    written by any host is read back by any other host (whatever its byte order)
    configured for the same wire byte order. *)
Theorem wire_interoperable (P1 P2 : Platform) (n : nat) (v : Z) :
  @wire_little P1 = @wire_little P2 ->
  in_width n v ->
  @memcpyWithEndian_from P2 (@memcpyWithEndian_to P1 n v) = v.
Proof.
  intros Hw Hv. rewrite memcpyWithEndian_from_wire, memcpyWithEndian_wire, Hw.
  destruct (@wire_little P2); rewrite ?reverse_involutive; by apply le_combine_split_id.
Qed.

Definition big_host : Platform :=
  {| host_little := false; wire_little := true; char_signed := true |}.

Lemma wire_interoperable_witness :
  @memcpyWithEndian_from big_host (@memcpyWithEndian_to x86_64 8 12345) = 12345.
Proof. apply (wire_interoperable x86_64 big_host 8 12345); [reflexivity|unfold in_width; lia]. Defined.

(** [Part::toUint16], [toUint32] and [toUint64] give back the integer the part
    was built from exactly when plain [char] is unsigned or sign extension of the
    single bytes leaves the value alone. *)
Theorem toUint_roundtrip_iff (P : Platform) (v2 v4 v8 : Z) :
  in_width 2 v2 -> in_width 4 v4 -> in_width 8 v8 ->
  (toUint16 (Part_uint16 v2) = v2 <-> char_signed = false \/ sext_ok (le_split 2 v2) = true) /\
  (toUint32 (Part_uint32 v4) = v4 <-> char_signed = false \/ sext_ok (le_split 4 v4) = true) /\
  (toUint64 (Part_uint64 v8) = v8 <-> char_signed = false \/ sext_ok (le_split 8 v8) = true).
Proof.
  intros H2 H4 H8.
  unfold toUint16, toUint32, toUint64, Part_uint16, Part_uint32, Part_uint64.
  destruct char_signed eqn:E.
  - rewrite !toUint_signed by done. intuition congruence.
  - rewrite !toUint_unsigned by done. intuition congruence.
Qed.

Lemma toUint_roundtrip_iff_witness :
  in_width 8 12345 /\ @toUint64 x86_64 (@Part_uint64 x86_64 12345) = 12345.
Proof.
  split; [unfold in_width; lia|].
  apply (toUint_roundtrip_iff x86_64 0 0 12345); try (unfold in_width; lia).
  right. vm_compute. reflexivity.
Defined.

(** Where [char] is signed, a one-byte value with its high bit set comes back
    from [Part::toUint64] with all the higher bits set. *)
Theorem toUint64_sign_extends (P : Platform) (v : Z) :
  char_signed = true ->
  128 <= v < 256 ->
  toUint64 (Part_uint64 v) = 2 ^ 64 - 256 + v.
Proof.
  intros Hc Hv. unfold toUint64, Part_uint64. rewrite toUint_or_rec.
  cbn [le_split or_rec]. rewrite Z.div_small by lia. unfold char_value at 1.
  rewrite Hc, byte_Z_byte, Z.mod_small by lia. cbn [andb].
  destruct (128 <=? v) eqn:E; bools; [|lia].
  rewrite lor_negative_shift by lia. unfold wrapn.
  symmetry. apply Z.mod_unique with (-1); [|change (256 ^ Z.of_nat 8) with (2 ^ 64)]; lia.
Qed.

Lemma toUint64_sign_extends_witness :
  @toUint64 x86_64 (@Part_uint64 x86_64 200) = 18446744073709551560.
Proof. rewrite (toUint64_sign_extends x86_64 200); [reflexivity|reflexivity|lia]. Defined.

End Part.
