(* ===== verification/PartMulti.v ===== *)
(** * zmq::PartMulti: typed fields in one buffer (include/fuurin/zmqpartmulti.h)

    The template functions [pack] and [unpack] take a list of argument types.
    The types the class supports (its traits [isIntegralType], [isStringType],
    [isCharArrayType]) are the codes [ftype] below, and a tuple of arguments is a
    list of [field]s.  Positions and sizes are [size_t] with its wrap-around, and
    every access to the buffer is checked by the model: an access outside of it
    is undefined behaviour ([Undef]). *)

From S2P Require Import Prelude Part.

Local Open Scope Z_scope.

Module PartMulti.
Import Part.

(** The types accepted by the traits: unsigned integers of [n] bytes, [bool],
    strings ([std::string_view], [std::string], [Part]) and arrays of [n] characters. *)
Inductive ftype :=
  | TInt (n : nat)
  | TBool
  | TStr
  | TArr (n : nat).

Inductive field :=
  | FInt (n : nat) (v : Z)
  | FBool (b : bool)
  | FStr (s : bytes)
  | FArr (a : bytes).

#[export] Instance ftype_eq_dec : EqDecision ftype.
Proof. solve_decision. Defined.
#[export] Instance field_eq_dec : EqDecision field.
Proof. solve_decision. Defined.

Definition type_of (f : field) : ftype :=
  match f with
  | FInt n _ => TInt n
  | FBool _ => TBool
  | FStr _ => TStr
  | FArr a => TArr (length a)
  end.

Definition zlen (l : bytes) : Z := Z.of_nat (length l).

(** [sizeof(string_length_t)], [sizeof(iterable_length_t)] *)
Definition sizeof_len : Z := 4.

Definition throwCreateError {A} : outcome A := Throw (mkError ZMQPartCreateFailed 0).
Definition throwAccessError {A} : outcome A := Throw (mkError ZMQPartAccessFailed 0).

(** Memory accesses of [sz] bytes at [pos]. *)
Definition load (pm : bytes) (pos sz : Z) : outcome bytes :=
  if ((0 <=? pos) && (0 <=? sz) && (pos + sz <=? zlen pm))%bool
  then Ok (take (Z.to_nat sz) (drop (Z.to_nat pos) pm))
  else Undef.

Definition store (pm : bytes) (pos : Z) (data : bytes) : outcome bytes :=
  if ((0 <=? pos) && (pos + zlen data <=? zlen pm))%bool
  then Ok (take (Z.to_nat pos) pm ++ data ++ drop (Z.to_nat pos + length data) pm)
  else Undef.

(** [PartMulti::accessOutOfBoundary] *)
Definition accessOutOfBoundary (pm : bytes) (pos sz : Z) : bool :=
  negb ((pos <=? zlen pm) && (pos <=? wrap64 (pos + sz)) && (wrap64 (pos + sz) <=? zlen pm)).

(** [PartMulti::tsize] *)
Definition tsize (f : field) : Z :=
  match f with
  | FInt n _ => Z.of_nat n
  | FBool _ => 1
  | FStr s => wrap64 (sizeof_len + zlen s)
  | FArr a => zlen a
  end.

Section WithPlatform.
Context {P : Platform}.

(** [PartMulti::pack2(Part&, size_t, T&&)]: the size of the packed argument and the
    buffer after it was written. *)
Definition pack2_one (pm : bytes) (pos : Z) (f : field) : outcome (Z * bytes) :=
  let sz := tsize f in
  if accessOutOfBoundary pm pos sz then throwCreateError else
  match f with
  | FInt n v =>
    pm ← store pm pos (memcpyWithEndian_to n v); Ok (sz, pm)
  | FBool b =>
    pm ← store pm pos (memcpyWithEndian_to 1 (if b then 1 else 0)); Ok (sz, pm)
  | FStr s =>
    if zlen s >? u32_max - 1 then throwCreateError else
    pm ← store pm pos (memcpyWithEndian_to 4 (zlen s));
    if zlen s >? 0
    then pm ← store pm (pos + sizeof_len) (take (Z.to_nat (sz - sizeof_len)) s); Ok (sz, pm)
    else Ok (sz, pm)
  | FArr a =>
    if zlen a >? 0
    then pm ← store pm pos (take (Z.to_nat sz) a); Ok (sz, pm)
    else Ok (sz, pm)
  end.

(** [PartMulti::pack2(Part&, size_t, T&&, Args&&...)] and its empty case *)
Fixpoint pack2 (pm : bytes) (pos : Z) (fs : list field) : outcome bytes :=
  match fs with
  | [] => Ok pm
  | f :: fs =>
    '(sz, pm) ← pack2_one pm pos f;
    pack2 pm (wrap64 (pos + sz)) fs
  end.

(** [(tsize(args) + ... + 0)] *)
Definition total_size (fs : list field) : Z :=
  foldr (fun f acc => wrap64 (tsize f + acc)) 0 fs.

(** [PartMulti::pack(Args&&...)]; the buffer comes uninitialised, [fill] is what it
    happens to hold. *)
Definition pack_over (fill : byte) (fs : list field) : outcome part :=
  pm ← pack2 (replicate (Z.to_nat (total_size fs)) fill) 0 fs;
  Ok (Part_bytes pm).

Definition pack (fs : list field) : outcome part := pack_over Byte.x00 fs.

(** [PartMulti::psize] *)
Definition psize (t : ftype) (pm : bytes) (pos : Z) : outcome Z :=
  match t with
  | TInt n =>
    if accessOutOfBoundary pm pos (Z.of_nat n) then throwAccessError else Ok (Z.of_nat n)
  | TBool =>
    if accessOutOfBoundary pm pos 1 then throwAccessError else Ok 1
  | TStr =>
    if accessOutOfBoundary pm pos sizeof_len then throwAccessError else
    buf ← load pm pos sizeof_len;
    let len := memcpyWithEndian_from buf in
    let pos := wrap64 (pos + sizeof_len) in
    if accessOutOfBoundary pm pos len then throwAccessError else
    Ok (wrap64 (sizeof_len + len))
  | TArr n =>
    if accessOutOfBoundary pm pos (Z.of_nat n) then throwAccessError else Ok (Z.of_nat n)
  end.

(** [PartMulti::unpack1].  A [bool] whose representation is neither 0 nor 1 has
    no value. *)
Definition unpack1 (t : ftype) (pm : bytes) (pos : Z) : outcome field :=
  len ← psize t pm pos;
  match t with
  | TInt n =>
    buf ← load pm pos (Z.of_nat n);
    Ok (FInt n (memcpyWithEndian_from buf))
  | TBool =>
    buf ← load pm pos 1;
    let v := memcpyWithEndian_from buf in
    if v =? 0 then Ok (FBool false) else if v =? 1 then Ok (FBool true) else Undef
  | TStr =>
    buf ← load pm (pos + sizeof_len) (len - sizeof_len);
    Ok (FStr buf)
  | TArr n =>
    buf ← load pm pos len;
    Ok (FArr buf)
  end.

(** [PartMulti::unpack2<T, Args...>], at least two types *)
Fixpoint unpack2 (t : ftype) (args : list ftype) (pm : bytes) (pos : Z)
    : outcome (list field) :=
  v ← unpack1 t pm pos;
  let sz := tsize v in
  match args with
  | [] => Ok [v]
  | [t'] => v' ← unpack1 t' pm (wrap64 (pos + sz)); Ok [v; v']
  | t' :: args' => vs ← unpack2 t' args' pm (wrap64 (pos + sz)); Ok (v :: vs)
  end.

(** [PartMulti::unpack<Args...>(P&&)], from a part or from a string *)
Definition unpack (ts : list ftype) (pm : bytes) : outcome (list field) :=
  match ts with
  | [] => Ok []
  | [t] => v ← unpack1 t pm 0; Ok [v]
  | t :: ts => unpack2 t ts pm 0
  end.

(** The measuring loop of [PartMulti::pack(InputIt, InputIt)]: total size and
    number of items, both [uint32_t]. *)
Fixpoint pack_measure (size count : Z) (items : list field) : outcome (Z * Z) :=
  match items with
  | [] => Ok (size, count)
  | f :: items =>
    let sz := tsize f in
    if ((wrap64 (size + sz) <? size) || (u32_max - 1 <? wrap64 (size + sz)))%bool
    then throwCreateError
    else if u32_max - 1 <? wrap64 (count + 1) then throwCreateError
    else pack_measure (wrap32 (size + sz)) (wrap32 (count + 1)) items
  end.

(** [PartMulti::pack(InputIt, InputIt)] *)
Definition pack_iter_over (fill : byte) (items : list field) : outcome part :=
  '(size, count) ← pack_measure (sizeof_len + sizeof_len) 0 items;
  '(pos, pm) ← pack2_one (replicate (Z.to_nat size) fill) 0 (FInt 4 size);
  '(sz, pm) ← pack2_one pm pos (FInt 4 count);
  pm ← pack2 pm (wrap64 (pos + sz)) items;
  Ok (Part_bytes pm).

Definition pack_iter (items : list field) : outcome part := pack_iter_over Byte.x00 items.

(** The visiting loop of [PartMulti::unpack<T>(P&&, Visitor)] *)
Fixpoint unpack_loop (n : nat) (t : ftype) (pm : bytes) (pos : Z) : outcome (list field) :=
  match n with
  | O => Ok []
  | S n =>
    item ← unpack1 t pm pos;
    items ← unpack_loop n t pm (wrap64 (pos + tsize item));
    Ok (item :: items)
  end.

(** [PartMulti::unpack<T>(P&&, Visitor)] and [unpack<T>(P&&, OutputIt)]: the items
    in the order they are visited; the total length in front is not looked at. *)
Definition unpack_iter (t : ftype) (pm : bytes) : outcome (list field) :=
  hd ← unpack2 (TInt 4) [TInt 4] pm 0;
  match hd with
  | [FInt _ _; FInt _ count] =>
    unpack_loop (Z.to_nat count) t pm (sizeof_len + sizeof_len)
  | _ => Undef
  end.

(** ** The encoding *)

(** What is written for a field. *)
Definition enc (f : field) : bytes :=
  match f with
  | FInt n v => memcpyWithEndian_to n v
  | FBool b => memcpyWithEndian_to 1 (if b then 1 else 0)
  | FStr s => memcpyWithEndian_to 4 (zlen s) ++ s
  | FArr a => a
  end.

Definition encs (fs : list field) : bytes := concat (enc <$> fs).

(** The values the C++ types can hold; the length of a string is limited by its
    4 bytes header. *)
Definition field_ok (f : field) : Prop :=
  match f with
  | FInt n v => (n <= 8)%nat /\ in_width n v
  | FBool _ => True
  | FStr s => zlen s < u32_max
  | FArr a => zlen a < u64_max
  end.

(** A buffer fits the address space. *)
Definition fits (l : bytes) : Prop := zlen l < u64_max.

Lemma zlen_nonneg l : 0 <= zlen l.
Proof. unfold zlen. lia. Qed.
Lemma zlen_app l1 l2 : zlen (l1 ++ l2) = zlen l1 + zlen l2.
Proof. unfold zlen. rewrite length_app. lia. Qed.
Lemma zlen_to n v : zlen (memcpyWithEndian_to n v) = Z.of_nat n.
Proof. unfold zlen. by rewrite length_memcpyWithEndian_to. Qed.

Lemma wrap64_id z : 0 <= z < u64_max -> wrap64 z = z.
Proof. apply (wrapn_id 8). Qed.

Lemma oob_false pm pos sz :
  0 <= pos -> 0 <= sz < u64_max -> fits pm ->
  accessOutOfBoundary pm pos sz = false <-> pos + sz <= zlen pm.
Proof.
  unfold fits, accessOutOfBoundary. intros Hp Hs Hf.
  rewrite negb_false_iff, !andb_true_iff, !Z.leb_le.
  pose proof (zlen_nonneg pm).
  destruct (decide (pos + sz < u64_max)).
  - rewrite !wrap64_id by lia. lia.
  - split; [|lia]. intros [[H1 H2] H3]. unfold wrap64, wrapn in *.
    change (256 ^ Z.of_nat 8) with u64_max in *.
    assert ((pos + sz) mod u64_max = pos + sz - u64_max); [|lia].
    symmetry. apply Z.mod_unique with 1; lia.
Qed.

Lemma oob_in pm pos sz :
  0 <= pos -> 0 <= sz -> fits pm -> pos + sz <= zlen pm ->
  accessOutOfBoundary pm pos sz = false.
Proof. intros. apply oob_false; unfold fits in *; lia. Qed.

Lemma load_slice pm pos sz :
  0 <= pos -> 0 <= sz -> pos + sz <= zlen pm ->
  load pm pos sz = Ok (take (Z.to_nat sz) (drop (Z.to_nat pos) pm)).
Proof.
  intros. unfold load. by rewrite (proj2 (Z.leb_le 0 pos)), (proj2 (Z.leb_le 0 sz)),
    (proj2 (Z.leb_le (pos + sz) _)).
Qed.

Lemma load_app pre mid post :
  load (pre ++ mid ++ post) (zlen pre) (zlen mid) = Ok mid.
Proof.
  rewrite load_slice; rewrite ?zlen_app; pose proof (zlen_nonneg pre);
    pose proof (zlen_nonneg mid); pose proof (zlen_nonneg post); [|lia..].
  unfold zlen. rewrite !Nat2Z.id, drop_app_length, take_app_length. done.
Qed.

Lemma store_app pre old post data :
  length old = length data ->
  store (pre ++ old ++ post) (zlen pre) data = Ok (pre ++ data ++ post).
Proof.
  intros Hl. unfold store. pose proof (zlen_nonneg pre). pose proof (zlen_nonneg post).
  rewrite (proj2 (Z.leb_le 0 _)) by done. rewrite (proj2 (Z.leb_le _ _)).
  2: { rewrite !zlen_app. unfold zlen in *. lia. }
  cbn [andb]. unfold zlen. rewrite Nat2Z.id, take_app_length, <-Hl.
  by rewrite <-drop_drop, !drop_app_length.
Qed.

Lemma tsize_enc f : field_ok f -> tsize f = zlen (enc f).
Proof.
  destruct f; cbn [tsize enc field_ok]; rewrite ?zlen_app, ?zlen_to; intros; try done.
  pose proof (zlen_nonneg s). rewrite wrap64_id; unfold sizeof_len, u64_max, u32_max in *; lia.
Qed.

Lemma encs_cons f fs : encs (f :: fs) = enc f ++ encs fs.
Proof. done. Qed.

Lemma encs_app fs1 fs2 : encs (fs1 ++ fs2) = encs fs1 ++ encs fs2.
Proof. unfold encs. by rewrite fmap_app, concat_app. Qed.

(** ** Packing *)

Lemma pack2_one_enc pre old post f :
  field_ok f -> fits (pre ++ old ++ post) -> length old = length (enc f) ->
  pack2_one (pre ++ old ++ post) (zlen pre) f = Ok (tsize f, pre ++ enc f ++ post).
Proof.
  intros Hf Hfit Hl. unfold pack2_one.
  pose proof (zlen_nonneg pre). pose proof (zlen_nonneg post). pose proof (zlen_nonneg (enc f)).
  assert (zlen old = zlen (enc f)) as Ho by (unfold zlen; lia).
  pose proof (tsize_enc f Hf) as Ht.
  rewrite oob_in by (done || rewrite ?zlen_app; lia).
  destruct f as [n v|b|s|a]; cbn [enc field_ok] in *.
  - by rewrite store_app.
  - by rewrite store_app.
  - rewrite zlen_app, zlen_to in Ht, Ho. rewrite Z.gtb_ltb, (proj2 (Z.ltb_ge _ _)) by lia.
    rewrite <-(take_drop 4 old), <-app_assoc.
    rewrite length_app, length_memcpyWithEndian_to in Hl.
    rewrite store_app by (rewrite length_take, length_memcpyWithEndian_to; lia).
    cbn [mbind outcome_bind]. rewrite Z.gtb_ltb. destruct (0 <? zlen s) eqn:E; bools.
    + rewrite Ht. unfold sizeof_len.
      replace (Z.to_nat (Z.of_nat 4 + zlen s - 4)) with (length s) by (unfold zlen in *; lia).
      rewrite firstn_all. rewrite app_assoc.
      replace (zlen pre + 4) with (zlen (pre ++ memcpyWithEndian_to 4 (zlen s)))
        by (rewrite zlen_app, zlen_to; lia).
      rewrite store_app by (rewrite length_drop; lia).
      cbn [mbind outcome_bind]. by rewrite <-!app_assoc.
    + assert (s = []) as -> by (destruct s; unfold zlen in *; cbn in *; [done|lia]).
      assert (drop 4 old = []) as -> by (apply nil_length_inv; rewrite length_drop; cbn in Hl; lia).
      by rewrite app_nil_r.
  - rewrite Z.gtb_ltb. cbn [tsize]. destruct (0 <? zlen a) eqn:E; bools.
    + rewrite take_ge by (unfold zlen; lia). by rewrite store_app.
    + assert (a = []) as -> by (destruct a; unfold zlen in *; cbn in *; [done|lia]).
      by destruct old.
Qed.

Lemma pack2_enc fs : forall pre old post,
  Forall field_ok fs -> fits (pre ++ old ++ post) -> length old = length (encs fs) ->
  pack2 (pre ++ old ++ post) (zlen pre) fs = Ok (pre ++ encs fs ++ post).
Proof.
  induction fs as [|f fs IH]; intros pre old post Hok Hfit Hl; cbn [pack2].
  - by destruct old.
  - apply Forall_cons in Hok as [Hf Hfs]. rewrite encs_cons, length_app in Hl.
    rewrite <-(take_drop (length (enc f)) old), <-app_assoc.
    assert (length (take (length (enc f)) old) = length (enc f)) as Htl
      by (rewrite length_take; lia).
    rewrite pack2_one_enc; [|done| |done].
    2: { by rewrite (app_assoc (take _ _)), take_drop. }
    cbn [mbind outcome_bind]. rewrite (tsize_enc f Hf), <-zlen_app.
    rewrite wrap64_id.
    2: { unfold fits in *. rewrite !zlen_app in *. pose proof (zlen_nonneg pre).
         pose proof (zlen_nonneg (enc f)). pose proof (zlen_nonneg post).
         unfold zlen in *. lia. }
    rewrite app_assoc, IH; [by rewrite encs_cons, <-!app_assoc|done| |].
    + unfold fits in *. rewrite !zlen_app in *. unfold zlen in *. rewrite length_drop. lia.
    + rewrite length_drop. lia.
Qed.

Lemma total_size_enc fs :
  Forall field_ok fs -> fits (encs fs) -> total_size fs = zlen (encs fs).
Proof.
  induction 1 as [|f fs Hf Hfs IH]; intros Hfit; [done|].
  unfold fits in *. rewrite encs_cons, zlen_app in *. cbn [total_size foldr].
  pose proof (zlen_nonneg (enc f)). pose proof (zlen_nonneg (encs fs)).
  fold (total_size fs). rewrite IH, tsize_enc by (done || lia). apply wrap64_id. lia.
Qed.

Lemma pack_over_enc fill fs :
  Forall field_ok fs -> fits (encs fs) -> pack_over fill fs = Ok (Part_bytes (encs fs)).
Proof.
  intros Hok Hfit. unfold pack_over. rewrite total_size_enc by done.
  set (buf := replicate _ fill).
  assert (length buf = length (encs fs)) as Hb
    by (unfold buf; rewrite length_replicate; unfold zlen; lia).
  pose proof (pack2_enc fs [] buf [] Hok) as H. rewrite app_nil_l, !app_nil_r in H.
  change (zlen []) with 0 in H.
  rewrite H; [done| |done]. unfold fits, zlen in *. by rewrite Hb.
Qed.

Lemma pack_enc fs :
  Forall field_ok fs -> fits (encs fs) -> pack fs = Ok (Part_bytes (encs fs)).
Proof. apply pack_over_enc. Qed.

(** ** Unpacking *)

Lemma load_to n v k pre post :
  k = Z.of_nat n ->
  load (pre ++ memcpyWithEndian_to n v ++ post) (zlen pre) k = Ok (memcpyWithEndian_to n v).
Proof. intros ->. rewrite <-(zlen_to n v). apply load_app. Qed.

(** [slice pm pos f]: the encoding of the field [f] is at [pos] in the buffer. *)
Definition slice (pm : bytes) (pos : Z) (f : field) : Prop :=
  exists pre post, pm = pre ++ enc f ++ post /\ pos = zlen pre.

Lemma slice_bound pm pos f : field_ok f -> slice pm pos f -> 0 <= pos /\ pos + tsize f <= zlen pm.
Proof.
  intros Hf (pre & post & -> & ->). rewrite (tsize_enc f Hf), !zlen_app.
  pose proof (zlen_nonneg pre). pose proof (zlen_nonneg post). lia.
Qed.

Lemma slice_cut pm pos f :
  0 <= pos -> pos + zlen (enc f) <= zlen pm ->
  take (length (enc f)) (drop (Z.to_nat pos) pm) = enc f -> slice pm pos f.
Proof.
  intros Hp Hb Ht. exists (take (Z.to_nat pos) pm), (drop (length (enc f)) (drop (Z.to_nat pos) pm)).
  split.
  - transitivity (take (Z.to_nat pos) pm ++ drop (Z.to_nat pos) pm); [by rewrite take_drop|].
    f_equal. rewrite <-Ht at 1. by rewrite take_drop.
  - unfold zlen in *. rewrite length_take. lia.
Qed.

Lemma unpack1_complete pm pos f :
  field_ok f -> fits pm -> slice pm pos f -> unpack1 (type_of f) pm pos = Ok f.
Proof.
  intros Hf Hfit (pre & post & -> & ->). unfold unpack1.
  pose proof (zlen_nonneg pre). pose proof (zlen_nonneg post). pose proof (zlen_nonneg (enc f)).
  assert (zlen (pre ++ enc f ++ post) = zlen pre + zlen (enc f) + zlen post) as Hz
    by (rewrite !zlen_app; lia).
  destruct f as [n v|b|s|a]; cbn [type_of psize enc field_ok] in *.
  - rewrite zlen_to in Hz. rewrite oob_in by (done || lia). cbn [mbind outcome_bind].
    rewrite load_to by done. cbn [mbind outcome_bind].
    by rewrite memcpyWithEndian_from_to by apply Hf.
  - rewrite zlen_to in Hz. rewrite oob_in by (done || lia). cbn [mbind outcome_bind].
    rewrite load_to by done.
    cbn [mbind outcome_bind]. rewrite memcpyWithEndian_from_to by (destruct b; done).
    by destruct b.
  - rewrite (zlen_app (memcpyWithEndian_to _ _)), zlen_to in Hz. pose proof (zlen_nonneg s).
    rewrite oob_in by (done || unfold sizeof_len; lia).
    unfold sizeof_len. rewrite <-app_assoc.
    rewrite load_to by done. cbn [mbind outcome_bind]. rewrite memcpyWithEndian_from_to
      by (unfold in_width; change (256 ^ Z.of_nat 4) with u32_max; lia).
    rewrite app_assoc in *. unfold fits in *.
    rewrite wrap64_id, oob_in by (done || unfold fits; rewrite ?zlen_app, ?zlen_to in *; lia).
    cbn [mbind outcome_bind].
    rewrite wrap64_id by (unfold u64_max, u32_max in *; lia).
    replace (4 + zlen s - 4) with (zlen s) by lia.
    replace (zlen pre + 4) with (zlen (pre ++ memcpyWithEndian_to 4 (zlen s)))
      by (rewrite zlen_app, zlen_to; lia).
    by rewrite load_app.
  - rewrite oob_in by (done || unfold zlen in *; lia). cbn [mbind outcome_bind].
    fold (zlen a). by rewrite load_app.
Qed.

(** The types of the program: integers of at most 8 bytes, arrays that fit memory. *)
Definition ftype_ok (t : ftype) : Prop :=
  match t with
  | TInt n => (n <= 8)%nat
  | TArr n => Z.of_nat n < u64_max
  | TBool | TStr => True
  end.

Lemma from_width_lt buf n : length buf = n -> in_width n (memcpyWithEndian_from buf).
Proof. intros <-. apply memcpyWithEndian_from_width. Qed.

(** What a load of [n] bytes that the bound check let through gives. *)
Lemma load_checked pm pos sz :
  0 <= pos -> 0 <= sz < u64_max -> fits pm -> accessOutOfBoundary pm pos sz = false ->
  exists buf, load pm pos sz = Ok buf /\ length buf = Z.to_nat sz /\
    buf = take (Z.to_nat sz) (drop (Z.to_nat pos) pm) /\ pos + sz <= zlen pm.
Proof.
  intros Hp Hs Hf Ho. apply oob_false in Ho; [|done..].
  rewrite load_slice by lia. eexists. split_and!; [done| |done|done].
  rewrite length_take, length_drop. unfold zlen in *. lia.
Qed.

Lemma slice_int pm pos n buf f :
  0 <= pos -> pos + Z.of_nat n <= zlen pm ->
  buf = take n (drop (Z.to_nat pos) pm) -> length buf = n ->
  enc f = memcpyWithEndian_to n (memcpyWithEndian_from buf) ->
  slice pm pos f.
Proof.
  intros Hp Hz Hb Hl He. rewrite <-Hl, memcpyWithEndian_to_from in He.
  apply slice_cut; rewrite ?He; unfold zlen in *; [lia|lia|]. by rewrite Hl, Hb.
Qed.

Definition decodes (t : ftype) (pm : bytes) (pos : Z) (f : field) : Prop :=
  type_of f = t /\ field_ok f /\ slice pm pos f.

Lemma unpack1_sound_int n pm pos f :
  (n <= 8)%nat -> 0 <= pos -> fits pm -> unpack1 (TInt n) pm pos = Ok f ->
  decodes (TInt n) pm pos f.
Proof.
  intros Ht Hp Hfit. unfold unpack1. cbn [psize].
  destruct (accessOutOfBoundary _ _ _) eqn:E; [done|]. cbn [mbind outcome_bind].
  destruct (load_checked pm pos (Z.of_nat n)) as (buf & -> & Hl & Hb & Hz);
    [done|unfold u64_max; lia|done..|].
  cbn [mbind outcome_bind]. intros [= <-]. rewrite Nat2Z.id in *.
  split_and!; [done|split; [done|by apply from_width_lt]|]. by eapply slice_int.
Qed.

Lemma unpack1_sound_bool pm pos f :
  0 <= pos -> fits pm -> unpack1 TBool pm pos = Ok f -> decodes TBool pm pos f.
Proof.
  intros Hp Hfit. unfold unpack1. cbn [psize].
  destruct (accessOutOfBoundary _ _ _) eqn:E; [done|]. cbn [mbind outcome_bind].
  destruct (load_checked pm pos 1) as (buf & -> & Hl & Hb & Hz);
    [done|unfold u64_max; lia|done..|].
  cbn [mbind outcome_bind]. set (v := memcpyWithEndian_from buf).
  destruct (v =? 0) eqn:E0; bools; [|destruct (v =? 1) eqn:E1; bools; [|done]];
    intros [= <-]; (split_and!; [done|done|]);
    apply (slice_int pm pos 1 buf); try done; cbn [enc]; fold v; congruence.
Qed.

Lemma slice_string pm pos hd buf :
  0 <= pos -> length hd = 4%nat -> pos + 4 + zlen buf <= zlen pm ->
  hd = take 4 (drop (Z.to_nat pos) pm) ->
  buf = take (length buf) (drop (Z.to_nat (pos + 4)) pm) ->
  memcpyWithEndian_from hd = zlen buf ->
  slice pm pos (FStr buf).
Proof.
  intros Hp Hl Hz Hh Hb Hv.
  assert (enc (FStr buf) = hd ++ buf) as He.
  { cbn [enc]. rewrite <-Hv, <-Hl. by rewrite memcpyWithEndian_to_from. }
  apply slice_cut; rewrite ?He, ?zlen_app; [done|unfold zlen in *; lia|].
  rewrite <-(take_drop 4 (drop (Z.to_nat pos) pm)), <-Hh, length_app, take_app_add'
    by done.
  rewrite drop_drop. f_equal.
  replace (Z.to_nat pos + 4)%nat with (Z.to_nat (pos + 4)) by lia. done.
Qed.

Lemma unpack1_sound_str pm pos f :
  0 <= pos -> fits pm -> unpack1 TStr pm pos = Ok f -> decodes TStr pm pos f.
Proof.
  intros Hp Hfit. unfold unpack1. cbn [psize]. unfold sizeof_len.
  destruct (accessOutOfBoundary _ _ _) eqn:E; [done|].
  destruct (load_checked pm pos 4) as (hd & -> & Hl & Hb & Hz);
    [done|unfold u64_max; lia|done..|].
  cbn [mbind outcome_bind]. set (len := memcpyWithEndian_from hd).
  assert (0 <= len < u32_max) as Hlen by (apply (from_width_lt hd 4 Hl)).
  unfold fits in *. rewrite (wrap64_id (pos + 4)) by lia.
  destruct (accessOutOfBoundary pm (pos + 4) len) eqn:E2; [done|]. cbn [mbind outcome_bind].
  rewrite wrap64_id by (unfold u64_max, u32_max in *; lia).
  replace (4 + len - 4) with len by lia.
  destruct (load_checked pm (pos + 4) len) as (buf & -> & Hl2 & Hb2 & Hz2);
    [lia|unfold u64_max, u32_max in *; lia|done..|].
  cbn [mbind outcome_bind]. intros [= <-].
  assert (zlen buf = len) as Hbl by (unfold zlen; lia).
  split_and!; [done|cbn; lia|].
  apply (slice_string pm pos hd); try done; [lia|]. by rewrite Hl2.
Qed.

Lemma unpack1_sound_arr n pm pos f :
  Z.of_nat n < u64_max -> 0 <= pos -> fits pm -> unpack1 (TArr n) pm pos = Ok f ->
  decodes (TArr n) pm pos f.
Proof.
  intros Ht Hp Hfit. unfold unpack1. cbn [psize].
  destruct (accessOutOfBoundary _ _ _) eqn:E; [done|]. cbn [mbind outcome_bind].
  destruct (load_checked pm pos (Z.of_nat n)) as (buf & -> & Hl & Hb & Hz);
    [done|lia|done..|].
  cbn [mbind outcome_bind]. intros [= <-]. rewrite Nat2Z.id in *.
  split_and!; [cbn; by rewrite Hl|cbn; unfold zlen; lia|].
  apply slice_cut; cbn [enc]; [lia| |by rewrite Hl, Hb]. unfold zlen in *. lia.
Qed.

Lemma unpack1_sound t pm pos f :
  ftype_ok t -> 0 <= pos -> fits pm -> unpack1 t pm pos = Ok f -> decodes t pm pos f.
Proof.
  destruct t; intros; [apply unpack1_sound_int|apply unpack1_sound_bool
    |apply unpack1_sound_str|apply unpack1_sound_arr]; done.
Qed.

(** A [bool] apart, reading a field is safe on any buffer. *)
Lemma unpack1_safe t pm pos :
  ftype_ok t -> t <> TBool -> 0 <= pos -> fits pm ->
  unpack1 t pm pos <> Undef /\ unpack1 t pm pos <> Abort.
Proof.
  intros Ht Hb Hp Hfit. unfold unpack1.
  destruct t as [n| | |n]; cbn [psize ftype_ok] in *; [|done| |];
    (destruct (accessOutOfBoundary _ _ _) eqn:E; [done|]); cbn [mbind outcome_bind].
  - destruct (load_checked pm pos (Z.of_nat n)) as (buf & -> & _); [done|unfold u64_max; lia|done..].
  - unfold sizeof_len in *.
    destruct (load_checked pm pos 4) as (hd & -> & Hl & _ & Hz); [done|unfold u64_max; lia|done..|].
    cbn [mbind outcome_bind].
    pose proof (from_width_lt hd 4 Hl) as Hw. unfold in_width in Hw.
    change (256 ^ Z.of_nat 4) with u32_max in Hw. set (len := memcpyWithEndian_from hd) in *.
    unfold fits in *. rewrite (wrap64_id (pos + 4)) by lia.
    destruct (accessOutOfBoundary pm (pos + 4) len) eqn:E2; [done|]. cbn [mbind outcome_bind].
    rewrite wrap64_id by (unfold u64_max, u32_max in *; lia).
    replace (4 + len - 4) with len by lia.
    destruct (load_checked pm (pos + 4) len) as (buf & -> & _);
      [lia|unfold u64_max, u32_max in *; lia|done..].
  - destruct (load_checked pm pos (Z.of_nat n)) as (buf & -> & _); [done|lia|done..].
Qed.

(** ** Sequences of fields *)

(** [unpack] as one loop. *)
Fixpoint unpack_seq (ts : list ftype) (pm : bytes) (pos : Z) : outcome (list field) :=
  match ts with
  | [] => Ok []
  | t :: ts =>
    v ← unpack1 t pm pos;
    vs ← unpack_seq ts pm (wrap64 (pos + tsize v));
    Ok (v :: vs)
  end.

Lemma unpack2_seq args : forall t pm pos, unpack2 t args pm pos = unpack_seq (t :: args) pm pos.
Proof.
  induction args as [|t' args IH]; intros t pm pos; [done|].
  destruct args as [|t'' args].
  - cbn [unpack2 unpack_seq]. destruct (unpack1 t pm pos); cbn [mbind outcome_bind]; try done.
    by destruct (unpack1 t' pm _).
  - change (unpack2 t (t' :: t'' :: args) pm pos) with
      (v ← unpack1 t pm pos;
       vs ← unpack2 t' (t'' :: args) pm (wrap64 (pos + tsize v)); Ok (v :: vs)).
    change (unpack_seq (t :: t' :: t'' :: args) pm pos) with
      (v ← unpack1 t pm pos;
       vs ← unpack_seq (t' :: t'' :: args) pm (wrap64 (pos + tsize v)); Ok (v :: vs)).
    destruct (unpack1 t pm pos); cbn [mbind outcome_bind]; try done. by rewrite IH.
Qed.

Lemma unpack_unpack_seq ts pm : unpack ts pm = unpack_seq ts pm 0.
Proof.
  destruct ts as [|t [|t' ts]]; [done| |by rewrite <-unpack2_seq].
  cbn [unpack unpack_seq]. by destruct (unpack1 t pm 0).
Qed.

Lemma unpack_loop_seq n t pm pos : unpack_loop n t pm pos = unpack_seq (replicate n t) pm pos.
Proof.
  revert pos; induction n as [|n IH]; intros pos; cbn [unpack_loop unpack_seq replicate]; [done|].
  destruct (unpack1 t pm pos); cbn [mbind outcome_bind]; try done. by rewrite IH.
Qed.

Lemma unpack_seq_complete fs : forall pre post,
  Forall field_ok fs -> fits (pre ++ encs fs ++ post) ->
  unpack_seq (type_of <$> fs) (pre ++ encs fs ++ post) (zlen pre) = Ok fs.
Proof.
  induction fs as [|f fs IH]; intros pre post Hok Hfit; [done|].
  apply Forall_cons in Hok as [Hf Hfs]. rewrite encs_cons, <-app_assoc in *. cbn [fmap list_fmap unpack_seq].
  rewrite (unpack1_complete _ _ f) by (done || by exists pre, (encs fs ++ post)).
  cbn [mbind outcome_bind]. rewrite tsize_enc, <-zlen_app by done.
  rewrite wrap64_id.
  2: { unfold fits in *. rewrite !zlen_app in *. pose proof (zlen_nonneg pre).
       pose proof (zlen_nonneg (enc f)). pose proof (zlen_nonneg post).
       pose proof (zlen_nonneg (encs fs)). lia. }
  rewrite app_assoc in *. rewrite IH; done.
Qed.

Lemma unpack_seq_sound ts : forall pm pre suf fs,
  Forall ftype_ok ts -> fits pm -> pm = pre ++ suf ->
  unpack_seq ts pm (zlen pre) = Ok fs ->
  type_of <$> fs = ts /\ Forall field_ok fs /\ exists post, pm = pre ++ encs fs ++ post.
Proof.
  induction ts as [|t ts IH]; intros pm pre suf fs Hts Hfit Hpm; cbn [unpack_seq].
  - intros [= <-]. split_and!; [done|done|by exists suf].
  - apply Forall_cons in Hts as [Ht Hts]. intros H.
    apply bind_Ok in H as (v & Hv & H). apply bind_Ok in H as (vs & Hvs & [= <-]).
    apply unpack1_sound in Hv as (Hty & Hok & Hsl); [|done|apply zlen_nonneg|done].
    pose proof (slice_bound _ _ _ Hok Hsl) as [_ Hbd].
    destruct Hsl as (pre' & post' & Hpm' & Hz).
    assert (pre' = pre /\ enc v ++ post' = suf) as [-> Hsuf].
    { rewrite Hpm' in Hpm. apply app_inj_1 in Hpm; [done|]. unfold zlen in Hz. lia. }
    rewrite tsize_enc, wrap64_id in Hvs by (done || rewrite <-?tsize_enc by done;
      unfold fits in *; pose proof (zlen_nonneg pre); pose proof (zlen_nonneg (enc v));
      rewrite <-?(tsize_enc v Hok) in *; lia).
    rewrite <-zlen_app in Hvs.
    edestruct (IH pm (pre ++ enc v) post' vs) as (Htys & Hoks & post & Hpost); try done.
    { by rewrite <-app_assoc. }
    split_and!; [by cbn; f_equal|by constructor|].
    exists post. by rewrite encs_cons, Hpost, <-!app_assoc.
Qed.

Lemma unpack_seq_safe ts : forall pm pos,
  Forall ftype_ok ts -> TBool ∉ ts -> fits pm -> 0 <= pos ->
  unpack_seq ts pm pos <> Undef /\ unpack_seq ts pm pos <> Abort.
Proof.
  induction ts as [|t ts IH]; intros pm pos Hts Hb Hfit Hp; [done|]. cbn [unpack_seq].
  apply Forall_cons in Hts as [Ht Hts]. rewrite not_elem_of_cons in Hb. destruct Hb as [Hb1 Hb2].
  destruct (unpack1_safe t pm pos) as [H1 H2]; [done|congruence|done|done|].
  destruct (unpack1 t pm pos) as [v| | |] eqn:E; cbn [mbind outcome_bind]; try done.
  destruct (IH pm (wrap64 (pos + tsize v))) as [H3 H4]; [done..|apply wrapn_in_width|].
  by destruct (unpack_seq ts pm _).
Qed.

(** The only exception of the decoder. *)
Lemma unpack1_throw t pm pos e :
  unpack1 t pm pos = Throw e -> e = mkError ZMQPartAccessFailed 0.
Proof.
  unfold unpack1, psize, load, throwAccessError, mbind, outcome_bind.
  destruct t; intros H; repeat case_hyp; simplify_eq; done.
Qed.

Lemma unpack_seq_throw ts : forall pm pos e,
  unpack_seq ts pm pos = Throw e -> e = mkError ZMQPartAccessFailed 0.
Proof.
  induction ts as [|t ts IH]; intros pm pos e; cbn [unpack_seq]; [done|].
  destruct (unpack1 t pm pos) as [v| | |] eqn:E; cbn [mbind outcome_bind]; try done.
  - destruct (unpack_seq ts pm _) eqn:E2; cbn [mbind outcome_bind]; try done.
    intros [= <-]. by eapply IH.
  - intros [= <-]. by eapply unpack1_throw.
Qed.

(** ** Iterables *)

Lemma enc_fits f : field_ok f -> fits (enc f).
Proof.
  unfold fits, u64_max, u32_max. destruct f; cbn [enc field_ok]; rewrite ?zlen_app, ?zlen_to;
    unfold u64_max, u32_max; lia.
Qed.

(** The overflow test of the measuring loop, [size + sz < size || size + sz > max]. *)
Lemma wrap64_add_check size sz :
  0 <= size < u32_max -> 0 <= sz < u64_max ->
  ((wrap64 (size + sz) <? size) || (u32_max - 1 <? wrap64 (size + sz)))%bool =
  negb (bool_decide (size + sz < u32_max)).
Proof.
  intros Hs Hz. destruct (decide (size + sz < u64_max)).
  - rewrite wrap64_id by lia. destruct (bool_decide (size + sz < u32_max)) eqn:E; bools; lia.
  - rewrite bool_decide_eq_false_2 by (unfold u64_max, u32_max in *; lia).
    unfold wrap64, wrapn. change (256 ^ Z.of_nat 8) with u64_max.
    assert ((size + sz) mod u64_max = size + sz - u64_max) as ->.
    { symmetry. apply Z.mod_unique with 1; unfold u64_max, u32_max in *; lia. }
    rewrite (proj2 (Z.ltb_lt _ _)) by lia. done.
Qed.

Lemma pack_measure_spec items : forall size count,
  Forall field_ok items -> 0 <= size < u32_max -> 0 <= count < u32_max ->
  pack_measure size count items =
    if decide (size + zlen (encs items) < u32_max /\ count + Z.of_nat (length items) < u32_max)
    then Ok (size + zlen (encs items), count + Z.of_nat (length items))
    else throwCreateError.
Proof.
  induction items as [|f items IH]; intros size count Hok Hs Hc; cbn [pack_measure].
  - change (zlen (encs [])) with 0. cbn [length]. rewrite decide_True by lia. do 2 f_equal; lia.
  - apply Forall_cons in Hok as [Hf Hfs]. rewrite encs_cons, zlen_app, (tsize_enc f Hf).
    pose proof (zlen_nonneg (enc f)). pose proof (zlen_nonneg (encs items)).
    pose proof (enc_fits f Hf). unfold fits in *.
    rewrite wrap64_add_check by (unfold u64_max, u32_max in *; lia).
    destruct (decide (size + zlen (enc f) < u32_max)) as [Hlt|Hge].
    2: { rewrite bool_decide_eq_false_2, decide_False by lia. done. }
    rewrite bool_decide_eq_true_2 by done. cbn [negb].
    rewrite (wrap64_id (count + 1)) by (unfold u64_max, u32_max in *; lia).
    destruct (u32_max - 1 <? count + 1) eqn:E; bools.
    { rewrite decide_False; [done|]. cbn [length]. lia. }
    unfold wrap32. rewrite !(wrapn_id 4)
      by (unfold in_width; change (256 ^ Z.of_nat 4) with u32_max; lia).
    rewrite IH by (done || lia). cbn [length].
    replace (size + zlen (enc f) + zlen (encs items))
      with (size + (zlen (enc f) + zlen (encs items))) by lia.
    replace (count + 1 + Z.of_nat (length items)) with (count + Z.of_nat (S (length items))) by lia.
    done.
Qed.

(** The bytes [pack(first, last)] writes: total length, number of items, items. *)
Definition iter_enc (items : list field) : bytes :=
  encs (FInt 4 (8 + zlen (encs items)) :: FInt 4 (Z.of_nat (length items)) :: items).

Definition iter_fits (items : list field) : Prop :=
  8 + zlen (encs items) < u32_max /\ Z.of_nat (length items) < u32_max.

#[export] Instance iter_fits_dec items : Decision (iter_fits items).
Proof. unfold iter_fits. apply _. Defined.

Lemma zlen_iter_enc items : zlen (iter_enc items) = 8 + zlen (encs items).
Proof. unfold iter_enc. rewrite !encs_cons, !zlen_app. cbn [enc]. rewrite !zlen_to. lia. Qed.

Lemma iter_head_ok items :
  iter_fits items -> Forall field_ok items ->
  Forall field_ok (FInt 4 (8 + zlen (encs items)) :: FInt 4 (Z.of_nat (length items)) :: items).
Proof.
  intros [H1 H2] Hok. pose proof (zlen_nonneg (encs items)).
  repeat constructor; unfold in_width; try change (256 ^ Z.of_nat 4) with u32_max; try lia; done.
Qed.

Lemma pack_iter_over_enc fill items :
  Forall field_ok items ->
  pack_iter_over fill items =
    if decide (iter_fits items) then Ok (Part_bytes (iter_enc items)) else throwCreateError.
Proof.
  intros Hok. unfold pack_iter_over, sizeof_len.
  rewrite pack_measure_spec by (done || unfold u32_max; lia).
  change (4 + 4) with 8. change (0 + Z.of_nat (length items)) with (Z.of_nat (length items)).
  fold (iter_fits items). case_decide as Hfit; case_decide; try done.
  cbn [mbind outcome_bind].
  pose proof (iter_head_ok items Hfit Hok) as Hall.
  set (size := 8 + zlen (encs items)) in *. set (count := Z.of_nat (length items)) in *.
  assert (length (replicate (Z.to_nat size) fill) = length (iter_enc items)) as Hlen.
  { rewrite length_replicate. pose proof (zlen_iter_enc items). unfold zlen in *. lia. }
  assert (fits (replicate (Z.to_nat size) fill)) as Hf.
  { pose proof (zlen_iter_enc items). destruct Hfit. unfold fits, u64_max, u32_max, zlen in *. lia. }
  pose proof (pack2_enc _ [] (replicate (Z.to_nat size) fill) [] Hall) as Hp.
  rewrite app_nil_l, !app_nil_r in Hp. change (zlen []) with 0 in Hp.
  specialize (Hp Hf Hlen). cbn [pack2] in Hp.
  destruct (pack2_one _ 0 (FInt 4 size)) as [[pos pm]| | |] eqn:E1; try done.
  assert (pos = 4) as ->.
  { unfold pack2_one in E1. destruct (accessOutOfBoundary _ _ _); [done|].
    destruct (store _ _ _); [|done..]. by injection E1. }
  cbn [mbind outcome_bind] in *. change (wrap64 (0 + 4)) with 4 in Hp.
  destruct (pack2_one pm 4 (FInt 4 count)) as [[sz pm']| | |]; try done.
  cbn [mbind outcome_bind] in *. by rewrite Hp.
Qed.

Lemma pack_iter_enc items :
  Forall field_ok items ->
  pack_iter items =
    if decide (iter_fits items) then Ok (Part_bytes (iter_enc items)) else throwCreateError.
Proof. apply pack_iter_over_enc. Qed.

Lemma unpack_iter_complete t items post :
  Forall field_ok items -> Forall (fun f => type_of f = t) items ->
  iter_fits items -> fits (iter_enc items ++ post) ->
  unpack_iter t (iter_enc items ++ post) = Ok items.
Proof.
  intros Hok Ht Hfit Hf. unfold unpack_iter. rewrite unpack2_seq.
  pose proof (iter_head_ok items Hfit Hok) as Hall. unfold iter_enc in *.
  set (size := 8 + zlen (encs items)) in *. set (count := Z.of_nat (length items)) in *.
  change (FInt 4 size :: FInt 4 count :: items) with ([FInt 4 size; FInt 4 count] ++ items) in *.
  rewrite encs_app, <-app_assoc in *. apply Forall_app in Hall as [Hh _].
  pose proof (unpack_seq_complete [FInt 4 size; FInt 4 count] [] (encs items ++ post) Hh Hf) as H.
  rewrite app_nil_l in H. change (zlen []) with 0 in H. cbn [fmap list_fmap type_of] in H.
  rewrite H. cbn [mbind outcome_bind]. rewrite unpack_loop_seq. unfold count. rewrite Nat2Z.id.
  replace (replicate (length items) t) with (type_of <$> items).
  2: { clear -Ht. induction Ht; cbn; [done|by f_equal]. }
  assert (sizeof_len + sizeof_len = zlen (encs [FInt 4 size; FInt 4 count])) as ->.
  { rewrite !encs_cons, !zlen_app. cbn [enc]. by rewrite !zlen_to. }
  by apply unpack_seq_complete.
Qed.

(** ** Packing never writes outside of its buffer *)

(** Every argument the C++ types allow. *)
Definition field_sized (f : field) : Prop :=
  match f with
  | FInt n _ => (n <= 8)%nat
  | FArr a => zlen a < u64_max
  | FBool _ | FStr _ => True
  end.

Lemma store_Ok pm pos data : 0 <= pos -> pos + zlen data <= zlen pm ->
  exists pm', store pm pos data = Ok pm' /\ length pm' = length pm.
Proof.
  intros Hp Hl. unfold store. rewrite (proj2 (Z.leb_le 0 pos)), (proj2 (Z.leb_le _ _)) by done.
  eexists. split; [done|]. unfold zlen in *.
  rewrite !length_app, length_take, length_drop. lia.
Qed.

Lemma tsize_range f : field_sized f -> 0 <= tsize f < u64_max.
Proof.
  destruct f; cbn [tsize field_sized]; intros Hf.
  - unfold u64_max. lia.
  - unfold u64_max. lia.
  - apply (wrapn_in_width 8).
  - pose proof (zlen_nonneg a). lia.
Qed.

(** One argument: it is written in bounds, or the creation error is thrown. *)
Lemma pack2_one_safe pm pos f : field_sized f -> fits pm -> 0 <= pos ->
  pack2_one pm pos f = throwCreateError \/
  exists pm', pack2_one pm pos f = Ok (tsize f, pm') /\ length pm' = length pm.
Proof.
  intros Hf Hfit Hp. pose proof (tsize_range f Hf) as Ht. unfold pack2_one.
  destruct (accessOutOfBoundary pm pos (tsize f)) eqn:E; [by left|].
  apply oob_false in E; [|done|done|done].
  destruct f as [n v|b|s|a]; cbn [tsize] in *.
  - right. destruct (store_Ok pm pos (memcpyWithEndian_to n v)) as (pm' & -> & Hl);
      [done|rewrite zlen_to; lia|]. by exists pm'.
  - right. destruct (store_Ok pm pos (memcpyWithEndian_to 1 (if b then 1 else 0))) as (pm' & -> & Hl);
      [done|rewrite zlen_to; lia|]. by exists pm'.
  - destruct (Z.gtb_spec (zlen s) (u32_max - 1)) as [|Hs]; [by left|right].
    pose proof (zlen_nonneg s). rewrite wrap64_id in * by (unfold sizeof_len, u64_max, u32_max in *; lia).
    destruct (store_Ok pm pos (memcpyWithEndian_to 4 (zlen s))) as (pm' & -> & Hl);
      [done|rewrite zlen_to; unfold sizeof_len in *; lia|]. cbn [mbind outcome_bind].
    destruct (Z.gtb_spec (zlen s) 0); [|by exists pm'].
    destruct (store_Ok pm' (pos + sizeof_len) (take (Z.to_nat (sizeof_len + zlen s - sizeof_len)) s))
      as (pm2 & -> & Hl2); [unfold sizeof_len; lia| |exists pm2; split; [done|congruence]].
    assert (zlen pm' = zlen pm) as -> by (unfold zlen; lia).
    unfold zlen at 1. rewrite length_take. unfold zlen, sizeof_len in *. lia.
  - right. destruct (Z.gtb_spec (zlen a) 0); [|by exists pm].
    destruct (store_Ok pm pos (take (Z.to_nat (zlen a)) a)) as (pm' & -> & Hl); [done| |by exists pm'].
    unfold zlen at 1. rewrite length_take. unfold zlen in *. lia.
Qed.

Lemma pack2_safe fs : forall pm pos, Forall field_sized fs -> fits pm -> 0 <= pos ->
  pack2 pm pos fs = throwCreateError \/ exists pm', pack2 pm pos fs = Ok pm' /\ length pm' = length pm.
Proof.
  induction fs as [|f fs IH]; intros pm pos Hfs Hfit Hp; cbn [pack2]; [right; by exists pm|].
  apply Forall_cons in Hfs as [Hf Hfs].
  destruct (pack2_one_safe pm pos f Hf Hfit Hp) as [->|(pm' & -> & Hl)]; [by left|].
  cbn [mbind outcome_bind]. destruct (IH pm' (wrap64 (pos + tsize f)) Hfs) as [->|(pm2 & -> & Hl2)].
  - unfold fits, zlen in *. by rewrite Hl.
  - apply wrapn_in_width.
  - by left.
  - right. exists pm2. split; [done|congruence].
Qed.

Lemma total_size_range fs : 0 <= total_size fs < u64_max.
Proof. destruct fs; cbn; [unfold u64_max; lia|]. apply (wrapn_in_width 8). Qed.

Lemma pack_over_safe fill fs : Forall field_sized fs ->
  pack_over fill fs = throwCreateError \/ exists d, pack_over fill fs = Ok (Part_bytes d).
Proof.
  intros Hfs. unfold pack_over. pose proof (total_size_range fs).
  destruct (pack2_safe fs (replicate (Z.to_nat (total_size fs)) fill) 0 Hfs) as [->|(pm & -> & _)];
    [unfold fits, zlen; rewrite length_replicate; lia|done|by left|right; by exists pm].
Qed.

Lemma pack_measure_range items : forall size count size' count',
  0 <= size < u32_max -> 0 <= count < u32_max ->
  pack_measure size count items = Ok (size', count') -> 0 <= size' < u32_max /\ 0 <= count' < u32_max.
Proof.
  induction items as [|f items IH]; intros size count size' count' Hs Hc; cbn [pack_measure].
  - by intros [= <- <-].
  - case_goal; [done|]. case_goal; [done|]. apply IH; apply (wrapn_in_width 4).
Qed.

Lemma pack_measure_safe items : forall size count,
  pack_measure size count items = throwCreateError \/ exists r, pack_measure size count items = Ok r.
Proof.
  induction items as [|f items IH]; intros size count; cbn [pack_measure]; [by right; eexists|].
  case_goal; [by left|]. case_goal; [by left|]. apply IH.
Qed.

Lemma pack_iter_over_safe fill items : Forall field_sized items ->
  pack_iter_over fill items = throwCreateError \/ exists d, pack_iter_over fill items = Ok (Part_bytes d).
Proof.
  intros Hfs. unfold pack_iter_over.
  destruct (pack_measure_safe items (sizeof_len + sizeof_len) 0) as [->|([size count] & E)]; [by left|].
  rewrite E. cbn [mbind outcome_bind].
  apply pack_measure_range in E as [Hs Hc]; [|unfold sizeof_len, u32_max; lia|unfold u32_max; lia].
  assert (fits (replicate (Z.to_nat size) fill)) as Hfit.
  { unfold fits, zlen. rewrite length_replicate. unfold u64_max, u32_max in *. lia. }
  destruct (pack2_one_safe (replicate (Z.to_nat size) fill) 0 (FInt 4 size)) as [->|(pm1 & -> & L1)];
    [cbn; lia|done|done|by left|]. cbn [mbind outcome_bind].
  assert (fits pm1) as Hfit1 by (unfold fits, zlen in *; by rewrite L1).
  destruct (pack2_one_safe pm1 (tsize (FInt 4 size)) (FInt 4 count)) as [->|(pm2 & -> & L2)];
    [cbn; lia|done|cbn; lia|by left|]. cbn [mbind outcome_bind].
  assert (fits pm2) as Hfit2 by (unfold fits, zlen in *; by rewrite L2).
  destruct (pack2_safe items pm2 (wrap64 (tsize (FInt 4 size) + tsize (FInt 4 count))) Hfs Hfit2)
    as [->|(pm3 & -> & _)]; [apply wrapn_in_width|by left|right; by exists pm3].
Qed.

Lemma field_ok_type f : field_ok f -> ftype_ok (type_of f).
Proof. destruct f; cbn; [by intros []|done..]. Qed.

End WithPlatform.

(** C28: [PartMulti::unpack<Args...>] succeeds with a tuple exactly when the buffer
    starts with the encoding of that tuple; trailing bytes are ignored. *)
Theorem unpack_correct (P : Platform) (ts : list ftype) (pm : bytes) (fs : list field) :
  Forall ftype_ok ts -> fits pm ->
  unpack ts pm = Ok fs <->
    type_of <$> fs = ts /\ Forall field_ok fs /\ exists post, pm = encs fs ++ post.
Proof.
  intros Hts Hfit. rewrite unpack_unpack_seq. split.
  - intros H. by apply (unpack_seq_sound ts pm [] pm fs).
  - intros (<- & Hok & post & ->). by apply (unpack_seq_complete fs [] post).
Qed.

Lemma unpack_correct_witness :
  @unpack x86_64 [TInt 1; TStr] [Byte.x07; Byte.x01; Byte.x00; Byte.x00; Byte.x00; Byte.x41; Byte.x42]
  = Ok [FInt 1 7; FStr [Byte.x41]].
Proof.
  apply (unpack_correct x86_64).
  - repeat constructor.
  - vm_compute. reflexivity.
  - split_and!; [reflexivity| |exists [Byte.x42]; vm_compute; reflexivity].
    repeat constructor; vm_compute; congruence.
Defined.

(** C38: Memory safety of the decoder on untrusted input: on any buffer, [unpack] of
    integers, strings and arrays never reads outside of the buffer and never
    aborts: it returns a tuple or throws [ZMQPartAccessFailed]. *)
Theorem unpack_safe (P : Platform) (ts : list ftype) (pm : bytes) :
  Forall ftype_ok ts -> TBool ∉ ts -> fits pm ->
  (exists fs, unpack ts pm = Ok fs) \/ unpack ts pm = throwAccessError.
Proof.
  intros Hts Hb Hfit. rewrite unpack_unpack_seq.
  destruct (unpack_seq_safe ts pm 0) as [H1 H2]; [done..|].
  destruct (unpack_seq ts pm 0) as [fs|e| |] eqn:E; [eauto| |done..].
  right. apply unpack_seq_throw in E. by rewrite E.
Qed.

(** A string whose header announces more than the buffer holds. *)
Lemma unpack_safe_witness :
  (exists fs, @unpack x86_64 [TStr] [Byte.xff; Byte.xff; Byte.xff; Byte.xff] = Ok fs) \/
  @unpack x86_64 [TStr] [Byte.xff; Byte.xff; Byte.xff; Byte.xff] = throwAccessError.
Proof.
  apply (unpack_safe x86_64); [repeat constructor| |vm_compute; reflexivity].
  intros H. inversion H as [|? ? ? H2]; subst. inversion H2.
Defined.

(** C29: Round trip of [PartMulti::pack] and [unpack] for any tuple of supported types:
    whatever the uninitialised buffer held, every field comes back, on any host
    with the same wire byte order. *)
Theorem pack_unpack_roundtrip (P1 P2 : Platform) (fill : byte) (fs : list field) :
  @wire_little P1 = @wire_little P2 ->
  Forall field_ok fs -> fits (@encs P1 fs) ->
  exists p, @pack_over P1 fill fs = Ok p /\ @unpack P2 (type_of <$> fs) (p_data p) = Ok fs.
Proof.
  intros Hw Hok Hfit. exists (Part_bytes (@encs P1 fs)). split; [by apply pack_over_enc|].
  assert (@encs P1 fs = @encs P2 fs) as He.
  { unfold encs. f_equal. apply list_fmap_ext. intros i f _.
    destruct f; cbn [enc]; rewrite ?memcpyWithEndian_wire; by rewrite ?Hw. }
  rewrite He in *. cbn [p_data Part_bytes]. rewrite unpack_unpack_seq.
  pose proof (unpack_seq_complete (P:=P2) fs [] [] Hok) as Hc. rewrite app_nil_l, app_nil_r in Hc.
  by apply Hc.
Qed.

Lemma pack_unpack_roundtrip_witness :
  exists p, @pack_over x86_64 Byte.xaa [FInt 8 5; FBool true; FStr (str "UPDT"); FArr [Byte.x01]] = Ok p /\
    @unpack big_host [TInt 8; TBool; TStr; TArr 1] (p_data p) =
      Ok [FInt 8 5; FBool true; FStr (str "UPDT"); FArr [Byte.x01]].
Proof.
  apply (pack_unpack_roundtrip x86_64 big_host); [reflexivity| |vm_compute; reflexivity].
  repeat constructor; vm_compute; congruence.
Defined.

(** [pack(first, last)] throws [ZMQPartCreateFailed] exactly when the total length
    or the number of items does not fit in 32 bits, and otherwise the items come
    back from [unpack<T>(pm, visit)] in their order. *)
Theorem pack_iter_roundtrip (P : Platform) (fill : byte) (t : ftype) (items : list field) :
  Forall field_ok items -> Forall (fun f => type_of f = t) items ->
  if decide (iter_fits items)
  then exists p, pack_iter_over fill items = Ok p /\ unpack_iter t (p_data p) = Ok items
  else pack_iter_over fill items = throwCreateError.
Proof.
  intros Hok Ht. rewrite pack_iter_over_enc by done. case_decide as Hfit; [|done].
  eexists. split; [done|]. cbn [p_data Part_bytes].
  rewrite <-(app_nil_r (iter_enc items)). apply unpack_iter_complete; try done.
  rewrite app_nil_r. unfold fits. rewrite zlen_iter_enc. destruct Hfit.
  unfold u64_max, u32_max in *. lia.
Qed.

Lemma pack_iter_roundtrip_witness :
  exists p, @pack_iter_over x86_64 Byte.xff [FStr (str "a"); FStr []; FStr (str "bc")] = Ok p /\
    @unpack_iter x86_64 TStr (p_data p) = Ok [FStr (str "a"); FStr []; FStr (str "bc")].
Proof.
  apply (pack_iter_roundtrip x86_64 Byte.xff TStr [FStr (str "a"); FStr []; FStr (str "bc")]);
    repeat constructor; vm_compute; congruence.
Defined.

(** Packing is memory safe for every argument list and iterable of the supported types, also
    when sizes overflow: either a part is built without a write outside of its buffer, or
    [ZMQPartCreateFailed] is thrown. *)
Theorem pack_safe (P : Platform) (fill : byte) (fs : list field) :
  Forall field_sized fs ->
  (pack_over fill fs = throwCreateError \/ exists d, pack_over fill fs = Ok (Part_bytes d)) /\
  (pack_iter_over fill fs = throwCreateError \/ exists d, pack_iter_over fill fs = Ok (Part_bytes d)).
Proof. intros Hfs. split; [by apply pack_over_safe|by apply pack_iter_over_safe]. Qed.

Lemma pack_safe_witness :
  @pack_over x86_64 Byte.x00 [FInt 2 513; FStr []] = throwCreateError \/
  exists d, @pack_over x86_64 Byte.x00 [FInt 2 513; FStr []] = Ok (Part_bytes d).
Proof. apply (pack_safe x86_64 Byte.x00 [FInt 2 513; FStr []]). repeat constructor. Defined.

End PartMulti.
