(* ===== verification/Codec.v ===== *)
(** * Types with a packed form

    Every type the components exchange has a pair of functions [toPart] and
    [fromPart] over [zmq::PartMulti] (Uuid, Topic, Event, Operation, WorkerConfig,
    BrokerConfig).  [PartCodec] is the interface they offer to the sessions and the
    runner: a value within its limits is encoded without error, and decoding gives
    it back.  Each type's file declares its instance. *)

From S2P Require Import Prelude Part PartMulti.

Local Open Scope Z_scope.

Module Codec.
Import Part PartMulti.

Class PartCodec {P : Platform} (T : Type) := {
  toPart : T -> outcome part;
  fromPart : part -> outcome T;
  codec_ok : T -> Prop;
  codec_roundtrip : forall t, codec_ok t ->
    exists d, toPart t = Ok (Part_bytes d) /\ fits d /\ fromPart (Part_bytes d) = Ok t;
}.

Section Facts.
Context {P : Platform}.

(** Small bound for the encoding of a short tuple. *)
Lemma encs_fits fs n :
  (length fs <= 1000)%nat -> Forall (fun f => field_ok f /\ zlen (enc f) <= n) fs ->
  0 <= n <= 2 ^ 40 -> fits (encs fs).
Proof.
  intros Hl Hf Hn. assert (zlen (encs fs) <= Z.of_nat (length fs) * n) as Hb.
  { clear Hl. induction Hf as [|f fs [_ Hf] Hfs IH]; [change (zlen (encs [])) with 0; lia|].
    rewrite encs_cons, zlen_app. cbn [length]. lia. }
  unfold fits, u64_max. pose proof (zlen_nonneg (encs fs)). nia.
Qed.

(** A field of at most 4 GiB plus its header. *)
Definition small_field (f : field) : Prop :=
  match f with
  | FInt n v => (n <= 8)%nat /\ in_width n v
  | FBool _ => True
  | FStr s => zlen s < u32_max
  | FArr a => zlen a < u32_max
  end.

Lemma small_field_ok f : small_field f -> field_ok f /\ zlen (enc f) <= u32_max + 8.
Proof.
  destruct f; cbn [small_field field_ok enc]; rewrite ?zlen_app, ?zlen_to;
    unfold u64_max, u32_max; intuition lia.
Qed.

(** The common shape of the six codecs: pack the fields, unpack them. *)
Lemma pack_fields fs :
  (length fs <= 1000)%nat -> Forall small_field fs ->
  pack fs = Ok (Part_bytes (encs fs)) /\ fits (encs fs) /\
  unpack (type_of <$> fs) (encs fs) = Ok fs.
Proof.
  intros Hl Hs.
  assert (Forall (fun f => field_ok f /\ zlen (enc f) <= u32_max + 8) fs) as Hs'.
  { eapply Forall_impl; [exact Hs|]. apply small_field_ok. }
  assert (Forall field_ok fs) as Hok by (eapply Forall_impl; [exact Hs'|]; by intros ? []).
  assert (fits (encs fs)) as Hfit.
  { eapply encs_fits; [done|exact Hs'|]. unfold u32_max. lia. }
  split_and!; [by apply pack_enc|done|].
  rewrite unpack_unpack_seq. pose proof (unpack_seq_complete fs [] []) as H.
  rewrite app_nil_l, app_nil_r in H. by apply H.
Qed.

(** What a decoded tuple looks like, and when decoding is defined on any bytes. *)
Lemma unpack_types ts d fs : Forall ftype_ok ts -> fits d -> unpack ts d = Ok fs ->
  type_of <$> fs = ts /\ Forall field_ok fs.
Proof.
  rewrite unpack_unpack_seq. intros Hts Hd Hu.
  by apply (unpack_seq_sound _ _ [] d) in Hu as (? & ? & _).
Qed.

Lemma types_cons fs t ts : type_of <$> fs = t :: ts ->
  exists f fs', fs = f :: fs' /\ type_of f = t /\ type_of <$> fs' = ts.
Proof. destruct fs as [|f fs]; [done|]. intros [= <- <-]. by exists f, fs. Qed.

Lemma unpack_defined ts d : Forall ftype_ok ts -> TBool ∉ ts -> fits d ->
  unpack ts d <> Undef /\ unpack ts d <> Abort.
Proof. intros. rewrite unpack_unpack_seq. by apply unpack_seq_safe. Qed.

End Facts.
(** Cases on the fields of a tuple of known types. *)
Ltac shape Ht :=
  repeat match type of Ht with
  | type_of <$> ?l = _ :: _ =>
    let f := fresh "f" in let fs := fresh "fs" in let E := fresh "E" in let Hf := fresh "Hf" in
    apply types_cons in Ht as (f & fs & E & Hf & Ht); subst l;
    destruct f; try discriminate Hf; injection Hf as Hf || clear Hf
  end;
  apply fmap_nil_inv in Ht; subst.

End Codec.
