(* ===== verification/LruCache.v ===== *)
(** * LRUCache (include/fuurin/lrucache.h)

    The class keeps a [std::list] of items and an [unordered_map] from the keys to
    iterators of that list.  An iterator is modelled as the address of its node, so
    that a stale iterator is visible: erasing or reading through an address that
    is not in the list is undefined behaviour.  The file proves that the class
    implements the abstract cache [spec_put], [spec_get], [assoc]: a list of
    distinct keys from the least to the most recently put one. *)

From S2P Require Import Prelude.

Local Open Scope Z_scope.

Module LruCache.

Section Cache.
Context {K V : Type} `{Countable K}.

(** A node of the list with its address. *)
Definition node : Type := nat * (K * V).

Record lru := mkLru {
  capacity_ : nat;
  list_ : list node;
  map_ : gmap K nat;
  next_ : nat;  (** the address of the next allocated node *)
}.

(** [LRUCache()] and [LRUCache(size_t)]; capacity 0 is an infinite capacity. *)
Definition LRUCache (sz : nat) : lru := mkLru sz [] ∅ 0.

Definition capacity (c : lru) : nat := capacity_ c.
Definition size (c : lru) : nat := length (list_ c).
Definition empty (c : lru) : bool := Nat.eqb (size c) 0.

Definition clear (c : lru) : lru := mkLru (capacity_ c) [] ∅ (next_ c).

(** The items, as [list()] gives them. *)
Definition items (c : lru) : list (K * V) := snd <$> list_ c.

(** Dereference of an iterator. *)
Definition deref (c : lru) (it : nat) : option (K * V) :=
  snd <$> find (fun n => Nat.eqb (fst n) it) (list_ c).

Definition erase_node (it : nat) (l : list node) : list node := filter (fun n => n.1 <> it) l.

(** [list_.erase(it)] *)
Definition list_erase (it : nat) (l : list node) : outcome (list node) :=
  if decide (it ∈ l.*1) then Ok (erase_node it l) else Undef.

(** [LRUCache::put]: the iterator of the new item and the cache. *)
Definition put (k : K) (v : V) (c : lru) : outcome (nat * lru) :=
  '(l, m) ←
    match map_ c !! k with
    | None =>
      if ((0 <? Z.of_nat (capacity_ c)) && (Z.of_nat (capacity_ c) <=? Z.of_nat (base.size (map_ c))))%bool
      then match list_ c with
           | [] => Undef
           | el :: l => Ok (l, delete (el.2.1) (map_ c))
           end
      else Ok (list_ c, map_ c)
    | Some it =>
      l ← list_erase it (list_ c);
      Ok (l, map_ c)
    end;
  Ok (next_ c, mkLru (capacity_ c) (l ++ [(next_ c, (k, v))]) (<[k := next_ c]> m) (S (next_ c))).

(** [LRUCache::get]: the item is removed and returned. *)
Definition get (k : K) (c : lru) : outcome (option (K * V) * lru) :=
  match map_ c !! k with
  | None => Ok (None, c)
  | Some vit =>
    match deref c vit with
    | None => Undef
    | Some ret =>
      l ← list_erase vit (list_ c);
      Ok (Some ret, mkLru (capacity_ c) l (delete k (map_ c)) (next_ c))
    end
  end.

(** [LRUCache::find]; [None] is [list_.end()]. *)
Definition find (k : K) (c : lru) : option nat := map_ c !! k.

(** Assignment through a (non-const) iterator, [it->second = v]. *)
Definition set_at (it : nat) (v : V) (c : lru) : lru :=
  mkLru (capacity_ c)
    ((fun n => if Nat.eqb n.1 it then (n.1, (n.2.1, v)) else n) <$> list_ c)
    (map_ c) (next_ c).

(** [LRUCache::operator==] *)
Definition lru_eqb `{EqDecision V} (a b : lru) : bool := bool_decide (items a = items b).

(** [LRUCache(std::initializer_list)] *)
Definition LRUCache_of (l : list (K * V)) : outcome lru :=
  foldl (fun c kv => c ← c; '(_, c) ← put kv.1 kv.2 c; Ok c) (Ok (LRUCache (length l))) l.

(** The copy constructor the compiler generates: the nodes are new ones, the
    iterators of the map are copied as they are. *)
Definition copy (c : lru) : lru :=
  mkLru (capacity_ c) (imap (fun i n => ((next_ c + i)%nat, n.2)) (list_ c)) (map_ c)
    (next_ c + length (list_ c)).

(** ** The abstract cache *)

Fixpoint assoc (k : K) (l : list (K * V)) : option V :=
  match l with
  | [] => None
  | kv :: l => if decide (kv.1 = k) then Some kv.2 else assoc k l
  end.

Definition remove (k : K) (l : list (K * V)) : list (K * V) := filter (fun kv => kv.1 <> k) l.

Definition spec_put (cap : nat) (k : K) (v : V) (l : list (K * V)) : list (K * V) :=
  (match assoc k l with
   | Some _ => remove k l
   | None => if decide (0 < cap <= length l)%nat then tail l else l
   end) ++ [(k, v)].

Definition spec_get (k : K) (l : list (K * V)) : option (K * V) * list (K * V) :=
  match assoc k l with
  | None => (None, l)
  | Some v => (Some (k, v), remove k l)
  end.

(** ** The invariant *)

Record inv (c : lru) : Prop := mkInv {
  inv_addr : NoDup ((list_ c).*1);
  inv_fresh : Forall (fun n => n.1 < next_ c)%nat (list_ c);
  inv_keys : NoDup ((items c).*1);
  inv_map : forall k it, map_ c !! k = Some it <-> exists v, (it, (k, v)) ∈ list_ c;
  inv_cap : (0 < capacity_ c -> length (list_ c) <= capacity_ c)%nat;
}.

Lemma assoc_Some k v l : NoDup (l.*1) -> assoc k l = Some v <-> (k, v) ∈ l.
Proof.
  induction l as [|[k' v'] l IH]; cbn [assoc fmap list_fmap].
  - intros _. split; [done|]. by intros ?%not_elem_of_nil.
  - intros [Hn Hnd]%NoDup_cons. cbn [fst snd]. rewrite elem_of_cons. case_decide as E; subst.
    + split; [intros [= ->]; by left|]. intros [[= ->]|Hin]; [done|].
      destruct Hn. apply list_elem_of_fmap. by exists (k, v).
    + rewrite IH by done. split; [by right|]. intros [[= ? ?]|?]; congruence.
Qed.

Lemma assoc_None k l : assoc k l = None <-> k ∉ l.*1.
Proof.
  induction l as [|[k' v'] l IH]; cbn [assoc fmap list_fmap fst snd].
  - split; [|done]. intros _. apply not_elem_of_nil.
  - rewrite not_elem_of_cons. case_decide; [|rewrite IH]; intuition congruence.
Qed.

Lemma length_items c : length (items c) = length (list_ c).
Proof. unfold items. apply length_fmap. Qed.

(** Removing a node by its address is removing its key. *)
Lemma erase_items it k v (l : list node) :
  NoDup (l.*1) -> NoDup (l.*2.*1) -> (it, (k, v)) ∈ l ->
  (erase_node it l).*2 = remove k (l.*2).
Proof.
  unfold remove, erase_node. induction l as [|[a [k' v']] l IH]; intros Ha Hk Hin; [done|].
  rewrite !fmap_cons in *; cbn [fst snd] in *. apply NoDup_cons in Ha as [Ha1 Ha2].
  apply NoDup_cons in Hk as [Hk1 Hk2]. rewrite !filter_cons. cbn [fst snd].
  apply elem_of_cons in Hin as [[= <- <- <-]|Hin].
  - rewrite !decide_False by auto. clear IH. revert Ha1 Hk1.
    clear Ha2 Hk2. induction l as [|[a2 [k2 v2]] l IH]; intros Ha1 Hk1; [done|].
    rewrite !fmap_cons in *; cbn [fst snd] in *. apply not_elem_of_cons in Ha1 as [Ha1 Ha2].
    apply not_elem_of_cons in Hk1 as [Hk1 Hk2].
    rewrite !filter_cons. cbn [fst snd]. rewrite !decide_True by done.
    cbn. f_equal. by apply IH.
  - assert (a <> it) by (intros ->; apply Ha1, list_elem_of_fmap; by exists (it, (k, v))).
    assert (k' <> k).
    { intros ->. apply Hk1, list_elem_of_fmap. exists (k, v). split; [done|].
      apply list_elem_of_fmap. by exists (it, (k, v)). }
    rewrite !decide_True by done. cbn. f_equal. by apply IH.
Qed.

Lemma map_assoc c k : inv c -> map_ c !! k = None <-> assoc k (items c) = None.
Proof.
  intros Hi. rewrite assoc_None, eq_None_not_Some. unfold is_Some, items.
  rewrite list_elem_of_fmap. split.
  - intros Hn ([k' v] & -> & Hin). apply Hn. apply list_elem_of_fmap in Hin as ([a kv] & ? & Hin).
    cbn in *. subst. exists a. apply inv_map; [done|]. by exists v.
  - intros Hn [a [v Ha]%inv_map]; [|done]. apply Hn. exists (k, v). split; [done|].
    apply list_elem_of_fmap. by exists (a, (k, v)).
Qed.

Lemma keys_swap (l : list node) : ((fun n => (n.2.1, n.1)) <$> l).*1 = l.*2.*1.
Proof. by rewrite <-!list_fmap_compose. Qed.

Lemma map_size c : inv c -> base.size (map_ c) = length (list_ c).
Proof.
  intros Hi. assert (map_ c = list_to_map ((fun n => (n.2.1, n.1)) <$> list_ c)) as ->.
  - apply map_eq. intros k. apply option_eq. intros it. rewrite (inv_map c Hi).
    rewrite <-elem_of_list_to_map.
    + rewrite list_elem_of_fmap. split.
      * intros [v Hv]. by exists (it, (k, v)).
      * intros ([a [k' v]] & [= -> ->] & Hin). by exists v.
    + rewrite keys_swap. apply (inv_keys c Hi).
  - rewrite map_size_list_to_map; [by rewrite length_fmap|].
    rewrite keys_swap. apply (inv_keys c Hi).
Qed.

Lemma map_in c a k v : inv c -> (a, (k, v)) ∈ list_ c -> map_ c !! k = Some a.
Proof. intros Hi Hin. apply (inv_map c Hi). by exists v. Qed.

Lemma in_items c a k v : (a, (k, v)) ∈ list_ c -> (k, v) ∈ items c.
Proof. intros. apply list_elem_of_fmap. by exists (a, (k, v)). Qed.

(** ** Adding a node at the end *)

(** [put] after the old node or the evicted one is gone. *)
Lemma inv_push cap (l : list node) (m : gmap K nat) nx k v :
  NoDup (l.*1) -> Forall (fun n => n.1 < nx)%nat l -> NoDup (l.*2.*1) ->
  (forall k' it, k' <> k -> m !! k' = Some it <-> exists v, (it, (k', v)) ∈ l) ->
  k ∉ l.*2.*1 -> (0 < cap -> S (length l) <= cap)%nat ->
  inv (mkLru cap (l ++ [(nx, (k, v))]) (<[k := nx]> m) (S nx)).
Proof.
  intros Ha Hf Hk Hm Hnk Hc. split; unfold items; cbn [list_ map_ capacity_ next_].
  - rewrite fmap_app. apply NoDup_app. split_and!; [done| |apply NoDup_singleton].
    intros a (n & -> & Hn)%list_elem_of_fmap Hin%list_elem_of_singleton.
    rewrite Forall_forall in Hf. specialize (Hf n Hn). cbn in *. lia.
  - apply Forall_app. split; [|repeat constructor].
    eapply Forall_impl; [exact Hf|]. cbn. lia.
  - rewrite !fmap_app. apply NoDup_app. split_and!; [done| |apply NoDup_singleton].
    intros x Hx ->%list_elem_of_singleton. by apply Hnk.
  - intros k' it. rewrite lookup_insert. case_decide as E; subst.
    + split; [intros [= ->]; exists v; apply elem_of_app; right; by apply list_elem_of_singleton|].
      intros [v' [Hin|[= ->]%list_elem_of_singleton]%elem_of_app]; [|done].
      destruct Hnk. apply list_elem_of_fmap. exists (k', v'). split; [done|].
      apply list_elem_of_fmap. by exists (it, (k', v')).
    + rewrite Hm by done. split; intros [v' Hin]; exists v'; [apply elem_of_app; by left|].
      apply elem_of_app in Hin as [?|Heq%list_elem_of_singleton]; [done|congruence].
  - rewrite length_app. cbn. lia.
Qed.

(** ** The operations implement the abstract ones *)

Lemma not_in_remove k (l : list (K * V)) : k ∉ (remove k l).*1.
Proof.
  intros ([k' v] & -> & [Hn _]%list_elem_of_filter)%list_elem_of_fmap. by apply Hn.
Qed.

Lemma node_unique (l : list node) a k1 v1 k2 v2 :
  NoDup (l.*1) -> (a, (k1, v1)) ∈ l -> (a, (k2, v2)) ∈ l -> k1 = k2 /\ v1 = v2.
Proof.
  intros Hnd H1 H2. assert ((a, (k1, v1)) = (a, (k2, v2))) as [= -> ->]; [|done].
  by apply (NoDup_fmap_inj fst l).
Qed.

(** The list and the map after the node of [k] was erased. *)
Lemma erase_map c k it v' :
  inv c -> (it, (k, v')) ∈ list_ c ->
  forall k' it', k' <> k ->
    map_ c !! k' = Some it' <-> exists v, (it', (k', v)) ∈ erase_node it (list_ c).
Proof.
  intros Hi Hin k' it' Hne. rewrite (inv_map c Hi). split; intros [v2 Hin2]; exists v2.
  - apply list_elem_of_filter. split; [|done]. cbn. intros ->.
    destruct (node_unique _ _ _ _ _ _ (inv_addr c Hi) Hin Hin2). congruence.
  - by apply list_elem_of_filter in Hin2 as [_ ?].
Qed.

Lemma put_old c k v it :
  inv c -> map_ c !! k = Some it ->
  exists c', put k v c = Ok (next_ c, c') /\ inv c' /\ capacity_ c' = capacity_ c /\
    items c' = remove k (items c) ++ [(k, v)].
Proof.
  intros Hi Hm. unfold put. rewrite Hm. apply (inv_map c Hi) in Hm as [v' Hin].
  assert (it ∈ (list_ c).*1) as Hit by (apply list_elem_of_fmap; by exists (it, (k, v'))).
  unfold list_erase. rewrite decide_True by done.
  cbn [mbind outcome_bind]. eexists. split; [done|].
  pose proof (erase_items it k v' (list_ c) (inv_addr c Hi) (inv_keys c Hi) Hin) as He.
  split; [|unfold items; cbn; by rewrite fmap_app, He].
  apply inv_push.
  - by apply NoDup_fmap_filter, inv_addr.
  - apply Forall_forall. intros n [_ Hn]%list_elem_of_filter.
    pose proof (inv_fresh c Hi) as Hf. rewrite Forall_forall in Hf. by apply Hf.
  - rewrite He. unfold remove. by apply NoDup_fmap_filter, inv_keys.
  - by apply (erase_map c k it v').
  - rewrite He. apply not_in_remove.
  - intros Hc. pose proof (inv_cap c Hi Hc).
    apply list_elem_of_fmap in Hit as (n & -> & Hn).
    eapply Nat.le_trans; [|done]. apply (length_filter_lt _ _ n Hn). cbn. auto.
Qed.

Lemma put_new_room c k v :
  inv c -> map_ c !! k = None -> ~ (0 < capacity_ c <= length (list_ c))%nat ->
  exists c', put k v c = Ok (next_ c, c') /\ inv c' /\ capacity_ c' = capacity_ c /\
    items c' = items c ++ [(k, v)].
Proof.
  intros Hi Hm Hc. unfold put. rewrite Hm, (map_size c Hi).
  replace ((0 <? _) && (_ <=? _))%bool with false
    by (symmetry; apply andb_false_iff; rewrite Z.ltb_ge, Z.leb_gt; lia).
  cbn [mbind outcome_bind]. eexists. split; [done|].
  split; [|unfold items; cbn; by rewrite fmap_app].
  apply inv_push; [apply Hi..| | |lia].
  - intros k' it' _. apply (inv_map c Hi).
  - apply assoc_None. by apply map_assoc.
Qed.

Lemma put_new_full c k v :
  inv c -> map_ c !! k = None -> (0 < capacity_ c <= length (list_ c))%nat ->
  exists c', put k v c = Ok (next_ c, c') /\ inv c' /\ capacity_ c' = capacity_ c /\
    items c' = tail (items c) ++ [(k, v)].
Proof.
  intros Hi Hm Hc. unfold put. rewrite Hm, (map_size c Hi).
  replace ((0 <? _) && (_ <=? _))%bool with true
    by (symmetry; apply andb_true_iff; rewrite Z.ltb_lt, Z.leb_le; lia).
  pose proof Hm as Hm'. apply (map_assoc c k Hi), assoc_None in Hm'.
  destruct Hi as [Ha Hf Hk Hmap Hcap].
  destruct (list_ c) as [|[a [k0 v0]] l] eqn:El; cbn [length] in *; [lia|].
  unfold items in *. rewrite El in *. rewrite !fmap_cons in *. cbn [fst snd] in *.
  apply NoDup_cons in Ha as [Ha0 Ha]. apply NoDup_cons in Hk as [Hk0 Hk].
  apply Forall_cons in Hf as [_ Hf]. apply not_elem_of_cons in Hm' as [Hk1 Hk2].
  cbn [mbind outcome_bind]. eexists. split; [done|].
  split; [|cbn; by rewrite fmap_app]. apply inv_push; try done.
  intros k' it' _. rewrite lookup_delete. case_decide as E.
  - subst. split; [done|]. intros [v2 Hin]. destruct Hk0. apply list_elem_of_fmap.
    exists (k', v2). split; [done|]. apply list_elem_of_fmap. by exists (it', (k', v2)).
  - rewrite Hmap. split; intros [v2 Hin]; exists v2; [|by right].
    apply elem_of_cons in Hin as [Heq|?]; [congruence|done].
Qed.

(** [put] never goes wrong and implements [spec_put]; its iterator is the new
    last item. *)
Lemma put_spec c k v :
  inv c ->
  exists c', put k v c = Ok (next_ c, c') /\ inv c' /\ capacity_ c' = capacity_ c /\
    items c' = spec_put (capacity_ c) k v (items c).
Proof.
  intros Hi. unfold spec_put. rewrite length_items.
  destruct (map_ c !! k) as [it|] eqn:Hm.
  - destruct (assoc k (items c)) eqn:E; [by apply put_old with it|].
    apply map_assoc in E; [|done]. congruence.
  - pose proof Hm as E. apply map_assoc in E as ->; [|done].
    case_decide; [by apply put_new_full|by apply put_new_room].
Qed.

Lemma put_in c k v it c' : put k v c = Ok (it, c') -> (it, (k, v)) ∈ list_ c'.
Proof.
  unfold put. intros Hp. apply bind_Ok in Hp as ([l m] & _ & [= <- <-]). cbn [list_].
  apply elem_of_app. right. by apply list_elem_of_singleton.
Qed.

Lemma find_node (l : list node) a kv :
  NoDup (l.*1) -> (a, kv) ∈ l -> List.find (fun n => Nat.eqb n.1 a) l = Some (a, kv).
Proof.
  induction l as [|[b kv'] l IH]; intros Hnd Hin; [by apply not_elem_of_nil in Hin|].
  rewrite fmap_cons in Hnd. apply NoDup_cons in Hnd as [Hn Hnd]. cbn [List.find fst] in *.
  apply elem_of_cons in Hin as [[= <- <-]|Hin]; [by rewrite Nat.eqb_refl|].
  destruct (Nat.eqb_spec b a) as [->|]; [|by apply IH].
  destruct Hn. apply list_elem_of_fmap. by exists (a, kv).
Qed.

Lemma deref_node c a kv : inv c -> (a, kv) ∈ list_ c -> deref c a = Some kv.
Proof. intros Hi Hin. unfold deref. by rewrite (find_node _ a kv (inv_addr c Hi)). Qed.

(** [find] gives an iterator exactly to the item of the key. *)
Lemma find_spec c k :
  inv c ->
  match find k c with
  | Some it => exists v, assoc k (items c) = Some v /\ deref c it = Some (k, v)
  | None => assoc k (items c) = None
  end.
Proof.
  intros Hi. unfold find. destruct (map_ c !! k) as [it|] eqn:Hm; [|by apply map_assoc].
  apply (inv_map c Hi) in Hm as [v Hin]. exists v. split; [|by apply deref_node].
  apply assoc_Some; [apply Hi|]. by eapply in_items.
Qed.

Lemma inv_erase c k it v :
  inv c -> (it, (k, v)) ∈ list_ c ->
  inv (mkLru (capacity_ c) (erase_node it (list_ c)) (delete k (map_ c)) (next_ c)).
Proof.
  intros Hi Hin. pose proof (erase_items it k v _ (inv_addr c Hi) (inv_keys c Hi) Hin) as He.
  split; unfold items; cbn [list_ map_ capacity_ next_].
  - by apply NoDup_fmap_filter, inv_addr.
  - apply Forall_forall. intros n [_ Hn]%list_elem_of_filter.
    pose proof (inv_fresh c Hi) as Hf. rewrite Forall_forall in Hf. by apply Hf.
  - rewrite He. unfold remove. by apply NoDup_fmap_filter, inv_keys.
  - intros k' it'. rewrite lookup_delete. case_decide as E; subst.
    + split; [done|]. intros [v' Hin']. destruct (not_in_remove k' (items c)).
      unfold items. rewrite <-He. apply list_elem_of_fmap. exists (k', v'). split; [done|].
      apply list_elem_of_fmap. by exists (it', (k', v')).
    + by apply (erase_map c k it v).
  - intros Hc. pose proof (inv_cap c Hi Hc). etrans; [|done]. apply length_filter.
Qed.

Lemma get_spec c k :
  inv c ->
  exists c', get k c = Ok ((spec_get k (items c)).1, c') /\ inv c' /\
    capacity_ c' = capacity_ c /\ items c' = (spec_get k (items c)).2.
Proof.
  intros Hi. pose proof (find_spec c k Hi) as Hf. unfold find in Hf.
  unfold get, spec_get. destruct (map_ c !! k) as [it|] eqn:Hm; [|rewrite Hf; eauto].
  destruct Hf as (v & -> & ->). apply (inv_map c Hi) in Hm as [v' Hin].
  unfold list_erase. rewrite decide_True by (apply list_elem_of_fmap; by exists (it, (k, v'))).
  cbn [mbind outcome_bind fst snd]. eexists. split; [done|]. split; [by apply inv_erase with v'|].
  split; [done|]. unfold items. cbn. by apply erase_items with v'; [apply Hi..|].
Qed.

Lemma inv_LRUCache n : inv (LRUCache n).
Proof.
  split; unfold items; cbn; [constructor|constructor|constructor| |lia].
  intros k it. rewrite lookup_empty. split; [done|]. by intros [v ?%not_elem_of_nil].
Qed.

Lemma inv_clear c : inv (clear c).
Proof.
  split; unfold items; cbn; [constructor|constructor|constructor| |lia].
  intros k it. rewrite lookup_empty. split; [done|]. by intros [v ?%not_elem_of_nil].
Qed.

(** Assignment through an iterator. *)
Definition update (k : K) (v : V) (l : list (K * V)) : list (K * V) :=
  (fun kv => if decide (kv.1 = k) then (kv.1, v) else kv) <$> l.

Lemma update_keys k v l : (update k v l).*1 = l.*1.
Proof.
  unfold update. rewrite <-list_fmap_compose. apply list_fmap_ext.
  intros ? [] _. cbn. by case_decide.
Qed.

Lemma assoc_update k k' v l :
  assoc k (update k' v l) = if decide (k = k') then (fun _ => v) <$> assoc k l else assoc k l.
Proof.
  induction l as [|[k2 v2] l IH]; cbn [update fmap list_fmap assoc fst snd]; [by case_decide|].
  fold (update k' v l). repeat case_decide; cbn [fst snd] in *; subst; try done; congruence.
Qed.

Lemma set_at_spec c k it v :
  inv c -> find k c = Some it ->
  inv (set_at it v c) /\ capacity_ (set_at it v c) = capacity_ c /\
  items (set_at it v c) = update k v (items c).
Proof.
  intros Hi Hf. unfold find in Hf. apply (inv_map c Hi) in Hf as [v0 Hin].
  assert (items (set_at it v c) = update k v (items c)) as Hit.
  { unfold items, set_at, update. cbn [list_]. rewrite <-!list_fmap_compose.
    apply list_fmap_ext. intros i [a [k' v']] Hl. apply list_elem_of_lookup_2 in Hl. cbn.
    destruct (Nat.eqb_spec a it) as [->|Hne].
    - destruct (node_unique _ _ _ _ _ _ (inv_addr c Hi) Hin Hl) as [<- <-]. by rewrite decide_True.
    - case_decide as E; [|done]. subst. exfalso. apply Hne.
      apply (map_in c _ _ _ Hi) in Hin, Hl. congruence. }
  assert ((list_ (set_at it v c)).*1 = (list_ c).*1) as Ha.
  { unfold set_at. cbn [list_]. rewrite <-list_fmap_compose. apply list_fmap_ext.
    intros ? [] _. cbn. by case_match. }
  split; [|done]. split.
  - rewrite Ha. apply Hi.
  - apply Forall_fmap. eapply Forall_impl; [apply (inv_fresh c Hi)|].
    intros n Hn. cbn. by case_match.
  - rewrite Hit, update_keys. apply Hi.
  - intros k' it'. unfold set_at. cbn [map_ list_]. rewrite (inv_map c Hi). split.
    + intros [v' Hin']. exists (if Nat.eqb it' it then v else v'). apply list_elem_of_fmap.
      exists (it', (k', v')). split; [|done]. cbn. by destruct (Nat.eqb it' it).
    + intros [v' ([a [k2 v2]] & Heq & Hin')%list_elem_of_fmap]. cbn in Heq.
      destruct (Nat.eqb a it); injection Heq as -> -> ->; eauto.
  - unfold set_at. cbn [capacity_ list_]. rewrite length_fmap. apply Hi.
Qed.

(** ** Sequences of operations *)

Inductive op :=
  | OpPut (k : K) (v : V)
  | OpGet (k : K)
  | OpClear.

(** Runs the class; the observations are what [get] returns. *)
Fixpoint run (ops : list op) (c : lru) : outcome (list (option (K * V)) * lru) :=
  match ops with
  | [] => Ok ([], c)
  | OpPut k v :: ops => '(_, c) ← put k v c; run ops c
  | OpGet k :: ops => '(r, c) ← get k c; '(rs, c) ← run ops c; Ok (r :: rs, c)
  | OpClear :: ops => run ops (clear c)
  end.

Fixpoint spec_run (cap : nat) (ops : list op) (l : list (K * V))
    : list (option (K * V)) * list (K * V) :=
  match ops with
  | [] => ([], l)
  | OpPut k v :: ops => spec_run cap ops (spec_put cap k v l)
  | OpGet k :: ops =>
    let (r, l) := spec_get k l in
    let (rs, l) := spec_run cap ops l in (r :: rs, l)
  | OpClear :: ops => spec_run cap ops []
  end.

Lemma run_spec ops : forall c,
  inv c ->
  exists c', run ops c = Ok ((spec_run (capacity_ c) ops (items c)).1, c') /\ inv c' /\
    capacity_ c' = capacity_ c /\ items c' = (spec_run (capacity_ c) ops (items c)).2.
Proof.
  induction ops as [|[k v|k|] ops IH]; intros c Hi; cbn [run spec_run].
  - by exists c.
  - destruct (put_spec c k v Hi) as (c1 & -> & Hi1 & Hc1 & Hl1). cbn [mbind outcome_bind].
    destruct (IH c1 Hi1) as (c2 & -> & Hi2 & Hc2 & Hl2). exists c2.
    by rewrite Hc1, Hl1 in *.
  - destruct (get_spec c k Hi) as (c1 & -> & Hi1 & Hc1 & Hl1). cbn [mbind outcome_bind].
    destruct (IH c1 Hi1) as (c2 & -> & Hi2 & Hc2 & Hl2). exists c2.
    rewrite Hc1, Hl1 in *. destruct (spec_get k (items c)) as [r l]. cbn [fst snd] in *.
    destruct (spec_run _ _ l) as [rs l']. cbn [mbind outcome_bind fst snd] in *. done.
  - by destruct (IH (clear c) (inv_clear c)) as (c2 & -> & ?); exists c2.
Qed.

Lemma inv_run ops c obs c' : inv c -> run ops c = Ok (obs, c') -> inv c'.
Proof.
  intros Hi Hr. destruct (run_spec ops c Hi) as (c2 & Hr2 & Hi2 & _). congruence.
Qed.

(** The compiler generated copy keeps iterators of the source. *)
Lemma copy_put c k v :
  inv c -> is_Some (assoc k (items c)) -> put k v (copy c) = Undef.
Proof.
  intros Hi [v0 Hv]. unfold put, copy. cbn [map_ list_ capacity_ next_].
  destruct (map_ c !! k) as [it|] eqn:Hm; [|apply map_assoc in Hm; [congruence|done]].
  apply (inv_map c Hi) in Hm as [v1 Hin]. unfold list_erase. rewrite decide_False; [done|].
  intros (n & -> & (i & m & -> & Hm)%elem_of_lookup_imap_1)%list_elem_of_fmap.
  pose proof (inv_fresh c Hi) as Hf. rewrite Forall_forall in Hf. apply Hf in Hin. cbn in Hin. lia.
Qed.

(** Consequences for the clients of the cache. *)
Lemma assoc_app k (l1 l2 : list (K * V)) :
  assoc k (l1 ++ l2) = match assoc k l1 with Some v => Some v | None => assoc k l2 end.
Proof.
  induction l1 as [|[k' v'] l1 IH]; cbn [assoc app fst snd]; [done|]. by case_decide.
Qed.

Lemma assoc_remove k k' (l : list (K * V)) :
  assoc k (remove k' l) = if decide (k = k') then None else assoc k l.
Proof.
  unfold remove. induction l as [|[k2 v2] l IH]; [by case_decide|].
  rewrite filter_cons. cbn [fst]. repeat case_decide; cbn [assoc fst snd];
    repeat case_decide; subst; try done; congruence.
Qed.

Lemma spec_put_same cap k v (l : list (K * V)) :
  NoDup (l.*1) -> assoc k (spec_put cap k v l) = Some v.
Proof.
  intros Hl. unfold spec_put. rewrite assoc_app.
  destruct (assoc k l) eqn:E.
  - rewrite assoc_remove, decide_True by done. cbn. by rewrite decide_True.
  - assert (assoc k (if decide (0 < cap <= length l)%nat then tail l else l) = None) as ->.
    { case_decide; [|done]. destruct l as [|[k' v'] l]; [done|].
      cbn [tail assoc fst] in *. by case_decide. }
    cbn. by rewrite decide_True.
Qed.

(** A key that is not the least recently put one survives. *)
Lemma spec_put_other cap k k' v (l : list (K * V)) :
  k' <> k -> (forall x, head l = Some x -> x.1 <> k' \/ is_Some (assoc k l) \/ ~ (0 < cap <= length l)%nat) ->
  assoc k' (spec_put cap k v l) = assoc k' l.
Proof.
  intros Hne Hh. unfold spec_put. rewrite assoc_app. cbn [assoc fst].
  rewrite (decide_False (P := k = k')) by congruence.
  destruct (assoc k l) eqn:E.
  - rewrite assoc_remove, decide_False by done. by destruct (assoc k' l).
  - case_decide as Hc; [|by destruct (assoc k' l)]. destruct l as [|[k2 v2] l]; [done|].
    cbn [tail assoc fst snd].
    destruct (Hh (k2, v2) eq_refl) as [?|[[? ?]|?]]; cbn [fst] in *; [|congruence|done].
    rewrite decide_False by done. by destruct (assoc k' l).
Qed.

Lemma spec_put_evicts cap k k' v (l : list (K * V)) n :
  NoDup (l.*1) -> assoc k l = None -> (0 < cap <= n)%nat -> n = length l ->
  fst <$> head l = Some k' -> k' <> k -> assoc k' (spec_put cap k v l) = None.
Proof.
  intros Hl E Hc -> Hh Hne. unfold spec_put. rewrite E, decide_True by done.
  destruct l as [|[k2 v2] l]; [done|]. injection Hh as ->. cbn [tail].
  rewrite fmap_cons in Hl. apply NoDup_cons in Hl as [Hn _]. cbn [fst] in Hn.
  rewrite assoc_app. apply assoc_None in Hn as ->. cbn. rewrite decide_False; congruence.
Qed.

Lemma spec_put_last cap k v (l : list (K * V)) : last (spec_put cap k v l) = Some (k, v).
Proof. unfold spec_put. apply last_snoc. Qed.

End Cache.
Arguments lru K V {_ _}.

Lemma find_None_assoc {K V} `{Countable K} (c : lru K V) k :
  inv c -> find k c = None <-> assoc k (items c) = None.
Proof. intros Hi. by apply map_assoc. Qed.

Lemma lru_lookup {K V} `{Countable K} (c : lru K V) k it :
  inv c -> find k c = Some it ->
  exists v, assoc k (items c) = Some v /\ deref c it = Some (k, v) /\ (k, v) ∈ items c.
Proof.
  intros Hi Hf. pose proof (find_spec c k Hi) as H1. rewrite Hf in H1. destruct H1 as (v & Ha & Hd).
  exists v. split_and!; [done..|]. apply assoc_Some in Ha; [done|]. by apply inv_keys.
Qed.

Lemma spec_put_keys {K V} `{Countable K} cap k (v : V) (l : list (K * V)) :
  NoDup l.*1 -> NoDup ((spec_put cap k v l).*1) /\ (forall x, x ∈ ((spec_put cap k v l).*1) -> x = k \/ x ∈ l.*1).
Proof.
  intros Hnd. unfold spec_put. rewrite fmap_app. cbn [fmap list_fmap fst].
  set (l' := match assoc k l with Some _ => _ | None => _ end).
  assert (NoDup (l'.*1) /\ (k ∉ l'.*1) /\ (forall x, (x ∈ l'.*1) -> x ∈ l.*1)) as (H1 & H2 & H3).
  { unfold l'. destruct (assoc k l) eqn:E.
    - split_and!; [by apply NoDup_fmap_filter|apply not_in_remove|].
      intros x (y & -> & [_ Hy]%list_elem_of_filter)%list_elem_of_fmap.
      apply list_elem_of_fmap. eauto.
    - apply assoc_None in E. case_decide; [|done]. destruct l as [|a l]; [done|].
      rewrite fmap_cons in *. apply NoDup_cons in Hnd as [_ Hnd].
      apply not_elem_of_cons in E as [_ E]. split_and!; try done. intros x Hx. by right. }
  split.
  - apply NoDup_app. split_and!; [done| |apply NoDup_singleton].
    intros x Hx ->%list_elem_of_singleton. done.
  - intros x [Hx|Hx%list_elem_of_singleton]%elem_of_app; auto.
Qed.

(** Without a capacity nothing is ever lost. *)
Lemma spec_put_unbounded {K V} `{Countable K} k k' (v : V) (l : list (K * V)) :
  NoDup l.*1 -> assoc k' (spec_put 0 k v l) = if decide (k' = k) then Some v else assoc k' l.
Proof.
  intros Hl. case_decide as E; [subst; by apply spec_put_same|].
  apply spec_put_other; [done|]. intros x _. right. right. lia.
Qed.

(** C33: Refinement: on any sequence of [put], [get] and [clear], the class (list of
    nodes plus map of iterators) never uses a stale iterator, returns what the
    abstract cache returns, holds its items in the same order (least recently put
    first), and never exceeds a non-zero capacity. *)
Theorem lru_refines_spec {K V} `{Countable K} (cap : nat) (ops : list (@op K V)) :
  exists c, run ops (LRUCache cap) = Ok ((spec_run cap ops []).1, c) /\
    items c = (spec_run cap ops []).2 /\
    ((0 < cap)%nat -> (size c <= cap)%nat) /\
    NoDup ((items c).*1).
Proof.
  destruct (run_spec ops (LRUCache cap) (inv_LRUCache cap)) as (c & Hr & Hi & Hc & Hl).
  exists c. split_and!; [done|done| |apply Hi]. pose proof (inv_cap c Hi). by rewrite Hc in *.
Qed.

(** Lookups: after [put(k, v)] the cache finds [v] at [k], the new item is the last
    of the list, and every other key keeps its value unless it was the least
    recently put one of a full cache that did not hold [k]. *)
Theorem put_lookup {K V} `{Countable K} (c : lru K V) (k : K) (v : V) :
  inv c ->
  exists it c', put k v c = Ok (it, c') /\ inv c' /\
    deref c' it = Some (k, v) /\ last (items c') = Some (k, v) /\
    find k c' = Some it /\
    forall k', k' <> k ->
      assoc k' (items c') =
        if bool_decide (assoc k (items c) = None /\ (0 < capacity_ c <= size c)%nat /\
                        fst <$> head (items c) = Some k')
        then None else assoc k' (items c).
Proof.
  intros Hi. destruct (put_spec c k v Hi) as (c' & Hp & Hi' & Hc & Hl).
  exists (next_ c), c'. split_and!; [done|done| | | |].
  - apply deref_node; [done|]. by eapply put_in.
  - rewrite Hl. apply spec_put_last.
  - unfold find. apply (inv_map c' Hi'). exists v. by eapply put_in.
  - intros k' Hne. rewrite Hl. case_bool_decide as E.
    + destruct E as (E1 & E2 & E3). apply (spec_put_evicts _ _ _ _ _ (size c)); try done; [apply Hi|].
      unfold size. by rewrite length_items.
    + apply spec_put_other; [done|]. intros [k2 v2] Hh. cbn [fst].
      destruct (decide (k2 = k')) as [->|]; [|by left]. right.
      destruct (assoc k (items c)) eqn:Ea; [left; eauto|]. right. intros Hcap. apply E.
      rewrite length_items in Hcap. by rewrite Hh.
Qed.

(** The copy the compiler generates for the class is unsafe unless the cache is
    empty: its map still holds iterators into the list of the source, so that the
    next [put] of a key it holds erases through a stale iterator. *)
Theorem copy_unsafe {K V} `{Countable K} (c : lru K V) (k : K) (v : V) :
  inv c -> is_Some (assoc k (items c)) -> put k v (copy c) = Undef.
Proof. apply copy_put. Qed.

(** A cache of capacity 2 after four operations. *)
Definition sample : lru nat nat :=
  match run [OpPut 1 10; OpPut 2 20; OpPut 1 11; OpPut 3 30]%nat (LRUCache 2) with
  | Ok (_, c) => c
  | _ => LRUCache 2
  end.

Lemma inv_sample : inv sample.
Proof.
  apply (inv_run [OpPut 1 10; OpPut 2 20; OpPut 1 11; OpPut 3 30]%nat (LRUCache 2) []);
    [apply inv_LRUCache|vm_compute; reflexivity].
Qed.

Example sample_items : items sample = [(1, 11); (3, 30)]%nat.
Proof. vm_compute. reflexivity. Qed.

Lemma put_lookup_witness :
  exists it c', put 5%nat 50%nat sample = Ok (it, c') /\ deref c' it = Some (5, 50)%nat /\
    assoc 1%nat (items c') = None /\ assoc 3%nat (items c') = Some 30%nat.
Proof.
  destruct (put_lookup sample 5%nat 50%nat inv_sample) as (it & c' & H1 & _ & H2 & _ & _ & H3).
  exists it, c'. split_and!; [exact H1|exact H2| |].
  - rewrite (H3 1%nat) by lia. vm_compute. reflexivity.
  - rewrite (H3 3%nat) by lia. vm_compute. reflexivity.
Defined.

Lemma copy_unsafe_witness : put 3%nat 31%nat (copy sample) = Undef.
Proof. apply (copy_unsafe sample 3%nat 31%nat inv_sample). vm_compute. eexists. reflexivity. Defined.

End LruCache.
