(* ===== verification/Uuid.v ===== *)
(** * Uuid (src/uuid.cpp, include/fuurin/uuid.h)

    The identity of a uuid is its 16 bytes.  The textual form is produced by
    boost::uuids::to_string and read by boost::uuids::string_generator, both
    vendored with the repository and modelled here; the object caches the text,
    and the file shows the cache never goes stale. *)

From S2P Require Import Prelude Part PartMulti Codec.

Local Open Scope Z_scope.

Module Uuid.
Import Part PartMulti Codec.

(** [Uuid::Bytes]: an array of 16 bytes. *)
Abbreviation uuid := bytes.
Definition uuid_size : nat := 16.
Definition uuid_ok (u : uuid) : Prop := length u = uuid_size.

(** [Uuid::Uuid()] *)
Definition nil_uuid : uuid := replicate uuid_size Byte.x00.

(** [Uuid::isNull] *)
Definition isNull (u : uuid) : bool := bool_decide (Forall (eq Byte.x00) u).

(** [Uuid::operator==] *)
Definition uuid_eqb (a b : uuid) : bool := bool_decide (a = b).

(** ** Text *)

Definition hex_digits : bytes := str "0123456789abcdef".

(** [detail::to_char] of a nibble *)
Definition to_char (n : Z) : byte := default Byte.x00 (hex_digits !! Z.to_nat n).

Definition dash : byte := Byte.x2d.
Definition open_brace : byte := Byte.x7b.
Definition close_brace : byte := Byte.x7d.

(** [boost::uuids::to_chars]: two digits a byte, a dash after the bytes 3, 5, 7, 9. *)
Fixpoint to_chars (i : nat) (u : bytes) : bytes :=
  match u with
  | [] => []
  | b :: u =>
    [to_char (Z.land (Z.shiftr (byte_Z b) 4) 15); to_char (Z.land (byte_Z b) 15)] ++
    (if (Nat.eqb i 3 || Nat.eqb i 5 || Nat.eqb i 7 || Nat.eqb i 9)%bool then [dash] else []) ++
    to_chars (S i) u
  end.

(** [boost::uuids::to_string] *)
Definition to_string (u : uuid) : bytes := to_chars 0 u.

(** [string_generator::get_value]; [None] is the [std::runtime_error]. *)
Definition get_value (c : byte) : option Z :=
  match list_find (eq c) (str "0123456789abcdefABCDEF") with
  | Some (pos, _) => Some (if decide (pos < 16)%nat then Z.of_nat pos else Z.of_nat pos - 6)
  | None => None
  end.

(** [string_generator::get_next_char] *)
Definition get_next_char (s : bytes) : option (byte * bytes) :=
  match s with
  | [] => None
  | c :: s => Some (c, s)
  end.

(** The dashes in front of byte [i], whose next character is [c]: gives the flag,
    the first digit and the rest. *)
Definition skip_dash (i : nat) (has_dashes : bool) (c : byte) (s : bytes)
    : option (bool * byte * bytes) :=
  if Nat.eqb i 4 then
    if decide (c = dash)
    then '(c, s) ← get_next_char s; Some (true, c, s)
    else Some (false, c, s)
  else if (Nat.eqb i 6 || Nat.eqb i 8 || Nat.eqb i 10)%bool then
    if has_dashes then
      if decide (c = dash) then '(c, s) ← get_next_char s; Some (has_dashes, c, s) else None
    else Some (has_dashes, c, s)
  else Some (has_dashes, c, s).

(** The loop over the bytes of the uuid; the first character is already read. *)
Fixpoint parse_bytes (n i : nat) (has_dashes : bool) (first : option byte) (s : bytes)
    : option (bytes * bytes) :=
  match n with
  | O => Some ([], s)
  | S n =>
    '(c, s) ← match first with Some c => Some (c, s) | None => get_next_char s end;
    '(has_dashes, c, s) ← skip_dash i has_dashes c s;
    hi ← get_value c;
    '(c, s) ← get_next_char s;
    lo ← get_value c;
    '(u, s) ← parse_bytes n (S i) has_dashes None s;
    Some (Z_byte (Z.lor (Z.shiftl hi 4) lo) :: u, s)
  end.

(** [string_generator::operator()] *)
Definition string_generator (s : bytes) : option uuid :=
  '(c, s) ← get_next_char s;
  let has_open_brace := bool_decide (c = open_brace) in
  '(c, s) ← (if has_open_brace then get_next_char s else Some (c, s));
  '(u, s) ← parse_bytes uuid_size 0 false (Some c) s;
  s ← (if has_open_brace
       then '(c, s) ← get_next_char s; if decide (c = close_brace) then Some s else None
       else Some s);
  match s with
  | [] => Some u
  | _ => None
  end.

(** [Uuid::fromBytes], [Uuid::fromString] *)
Definition fromBytes (b : bytes) : uuid := b.
Definition fromString (s : bytes) : option uuid := fromBytes <$> string_generator s.

(** [Uuid::Ns], initialised from their texts *)
Definition Ns (s : bytes) : uuid := default nil_uuid (fromString s).
Definition Ns_Dns : uuid := Ns (str "6ba7b810-9dad-11d1-80b4-00c04fd430c8").
Definition Ns_Url : uuid := Ns (str "6ba7b811-9dad-11d1-80b4-00c04fd430c8").
Definition Ns_Oid : uuid := Ns (str "6ba7b812-9dad-11d1-80b4-00c04fd430c8").
Definition Ns_X500dn : uuid := Ns (str "6ba7b814-9dad-11d1-80b4-00c04fd430c8").

(** ** The object and its cached text *)

Record obj := mkObj { bytes_ : uuid; cached_ : bool; srepr_ : bytes }.

(** [Uuid::Uuid()], the text is not initialised *)
Definition Uuid_default (junk : bytes) : obj := mkObj nil_uuid false junk.

(** [Uuid::fromBytes] *)
Definition obj_fromBytes (junk b : bytes) : obj := mkObj b false junk.

(** [Uuid::cacheSrepr] *)
Definition cacheSrepr (o : obj) : obj :=
  if cached_ o then o else mkObj (bytes_ o) true (to_string (bytes_ o)).

(** [Uuid::operator=] and the copy constructor *)
Definition obj_assign (this rhs : obj) : obj := mkObj (bytes_ rhs) (cached_ rhs) (srepr_ rhs).

(** [Uuid::toString], [Uuid::toShortString] *)
Definition toString (o : obj) : bytes * obj :=
  let o := cacheSrepr o in (srepr_ o, o).
Definition toShortString (o : obj) : bytes * obj :=
  let o := cacheSrepr o in (take 8 (srepr_ o), o).

Definition obj_inv (o : obj) : Prop := cached_ o = true -> srepr_ o = to_string (bytes_ o).

(** ** Packed form *)

Section Codec.
Context {P : Platform}.

(** [Uuid::toPart] *)
Definition uuid_toPart (u : uuid) : outcome part := pack [FArr u].

(** [Uuid::fromPart] *)
Definition uuid_fromPart (p : part) : outcome uuid :=
  fs ← unpack [TArr uuid_size] (p_data p);
  match fs with
  | [FArr b] => Ok (fromBytes b)
  | _ => Undef
  end.

Lemma uuid_roundtrip u :
  uuid_ok u ->
  exists d, uuid_toPart u = Ok (Part_bytes d) /\ fits d /\ uuid_fromPart (Part_bytes d) = Ok u.
Proof.
  intros Hu. destruct (pack_fields [FArr u]) as (H1 & H2 & H3); [cbn; lia| |].
  { repeat constructor. cbn. unfold zlen. rewrite Hu. done. }
  exists (encs [FArr u]). split_and!; [done|done|].
  unfold uuid_fromPart. cbn [p_data Part_bytes]. rewrite <-Hu.
  change [TArr (length u)] with (type_of <$> [FArr u]). by rewrite H3.
Qed.

Lemma uuid_fromPart_result p : fits (p_data p) ->
  uuid_fromPart p <> Undef /\ uuid_fromPart p <> Abort /\
  forall u, uuid_fromPart p = Ok u -> uuid_ok u.
Proof.
  intros Hd. unfold uuid_fromPart.
  assert (Forall ftype_ok [TArr uuid_size]) as Hts by (by repeat constructor).
  destruct (unpack_defined [TArr uuid_size] (p_data p)) as [H1 H2]; [done|set_solver|done|].
  destruct (unpack _ _) as [fs| | |] eqn:E; cbn [mbind outcome_bind]; try done.
  apply unpack_types in E as [Ht _]; [|done..].
  destruct fs as [|[] [|]]; try discriminate Ht. injection Ht as Hl. split_and!; [done..|].
  by intros u [= <-].
Qed.

#[export] Instance uuid_codec : PartCodec uuid :=
  {| toPart := uuid_toPart; fromPart := uuid_fromPart; codec_ok := uuid_ok;
     codec_roundtrip := uuid_roundtrip |}.

End Codec.

(** ** Text round trip *)

Lemma get_value_to_char n : 0 <= n < 16 -> get_value (to_char n) = Some n.
Proof.
  intros Hn. assert (n ∈ (Z.of_nat <$> seq 0 16)) as Hin.
  { apply list_elem_of_fmap. exists (Z.to_nat n). split; [lia|]. apply elem_of_seq. lia. }
  revert n Hin Hn. apply (Forall_forall (fun n => 0 <= n < 16 -> get_value (to_char n) = Some n)).
  repeat (constructor; [by intros _; vm_compute|]). constructor.
Qed.

Lemma to_char_no_dash n : 0 <= n < 16 -> to_char n <> dash /\ to_char n <> open_brace.
Proof.
  intros Hn. assert (n ∈ (Z.of_nat <$> seq 0 16)) as Hin.
  { apply list_elem_of_fmap. exists (Z.to_nat n). split; [lia|]. apply elem_of_seq. lia. }
  revert n Hin Hn.
  apply (Forall_forall (fun n => 0 <= n < 16 -> to_char n <> dash /\ to_char n <> open_brace)).
  repeat (constructor; [by intros _; vm_compute|]). constructor.
Qed.

Lemma nibbles b :
  let hi := Z.land (Z.shiftr (byte_Z b) 4) 15 in
  let lo := Z.land (byte_Z b) 15 in
  0 <= hi < 16 /\ 0 <= lo < 16 /\ Z_byte (Z.lor (Z.shiftl hi 4) lo) = b.
Proof. by destruct b; vm_compute. Qed.

(** The two digits of a byte. *)
Definition digits (b : byte) : bytes :=
  [to_char (Z.land (Z.shiftr (byte_Z b) 4) 15); to_char (Z.land (byte_Z b) 15)].

Lemma to_chars_cons i b u :
  to_chars i (b :: u) =
    digits b ++ (if (Nat.eqb i 3 || Nat.eqb i 5 || Nat.eqb i 7 || Nat.eqb i 9)%bool
                 then [dash] else []) ++ to_chars (S i) u.
Proof. done. Qed.

(** Reading the digits of a byte once the dash in front of it is dealt with. *)
Lemma parse_digits n i hd first s b s' d :
  (match first with Some c => Some (c, s) | None => get_next_char s end ≫=
     fun '(c, s) => skip_dash i hd c s) = Some (d, to_char (Z.land (Z.shiftr (byte_Z b) 4) 15),
                                             to_char (Z.land (byte_Z b) 15) :: s') ->
  parse_bytes (S n) i hd first s = ('(u, s) ← parse_bytes n (S i) d None s'; Some (b :: u, s)).
Proof.
  intros Hd. destruct (nibbles b) as (Hhi & Hlo & Hb). cbn [parse_bytes].
  destruct (match first with Some c => Some (c, s) | None => get_next_char s end)
    as [[c1 s1]|]; [|done]. cbn [mbind option_bind] in *. rewrite Hd. cbn [mbind option_bind].
  rewrite get_value_to_char by done. cbn [mbind option_bind get_next_char].
  rewrite get_value_to_char by done. cbn [mbind option_bind]. by rewrite Hb.
Qed.

Lemma parse_plain n i hd b s :
  (Nat.eqb i 4 || Nat.eqb i 6 || Nat.eqb i 8 || Nat.eqb i 10)%bool = false ->
  parse_bytes (S n) i hd None (digits b ++ s) =
    ('(u, s) ← parse_bytes n (S i) hd None s; Some (b :: u, s)).
Proof.
  intros Hi. apply parse_digits. cbn. unfold skip_dash.
  apply orb_false_elim in Hi as [[[-> ->]%orb_false_elim ->]%orb_false_elim ->]. done.
Qed.

Lemma parse_dash n i hd b s :
  (i = 4%nat \/ hd = true /\ (i = 6 \/ i = 8 \/ i = 10)%nat) ->
  parse_bytes (S n) i hd None (dash :: digits b ++ s) =
    ('(u, s) ← parse_bytes n (S i) true None s; Some (b :: u, s)).
Proof. intros [->|[-> [->|[->| ->]]]]; by apply parse_digits. Qed.

Lemma parse_first n b s c s1 :
  digits b ++ s = c :: s1 ->
  parse_bytes (S n) 0 false (Some c) s1 =
    ('(u, s) ← parse_bytes n 1 false None s; Some (b :: u, s)).
Proof. unfold digits. cbn [app]. intros [= <- <-]. by apply parse_digits. Qed.

Lemma parse_to_chars u rest c s1 :
  uuid_ok u -> to_chars 0 u ++ rest = c :: s1 ->
  parse_bytes uuid_size 0 false (Some c) s1 = Some (u, rest).
Proof.
  unfold uuid_ok, uuid_size. intros Hu Hs.
  do 16 (destruct u as [|? u]; [done|]). destruct u; [|done].
  rewrite !to_chars_cons in Hs. cbn [Nat.eqb orb to_chars] in Hs. rewrite <-!app_assoc in Hs.
  cbn [app] in Hs. rewrite (parse_first 15 _ _ _ _ Hs).
  repeat first [rewrite parse_plain by done | rewrite parse_dash by auto 6].
  done.
Qed.

Lemma to_string_head u : uuid_ok u -> exists c s, to_string u = c :: s /\ c <> open_brace.
Proof.
  destruct u as [|b u]; [done|]. intros _. unfold to_string. rewrite to_chars_cons.
  do 2 eexists. split; [done|]. destruct (nibbles b) as (Hhi & _). by apply to_char_no_dash.
Qed.

Lemma cacheSrepr_inv o : obj_inv o -> srepr_ (cacheSrepr o) = to_string (bytes_ o) /\
  bytes_ (cacheSrepr o) = bytes_ o /\ obj_inv (cacheSrepr o).
Proof.
  unfold obj_inv, cacheSrepr. destruct (cached_ o) eqn:E; cbn; intros H; auto.

Qed.

(** Text round trip: the text of a uuid (36 characters) is read back by
    [Uuid::fromString], also when it is put in braces. *)
Theorem uuid_text_roundtrip (u : uuid) :
  uuid_ok u ->
  length (to_string u) = 36%nat /\
  fromString (to_string u) = Some u /\
  fromString (open_brace :: to_string u ++ [close_brace]) = Some u.
Proof.
  intros Hu. destruct (to_string_head u Hu) as (c & s & Hs & Hc).
  split_and!.
  - unfold to_string, uuid_ok, uuid_size in *. clear -Hu.
    do 16 (destruct u as [|? u]; [done|]). by destruct u.
  - unfold fromString, string_generator. rewrite Hs. cbn [get_next_char mbind option_bind].
    rewrite bool_decide_eq_false_2 by done. cbn [mbind option_bind].
    rewrite (parse_to_chars u [] c s Hu); [done|]. by rewrite app_nil_r.
  - unfold fromString, string_generator. cbn [get_next_char mbind option_bind].
    rewrite bool_decide_eq_true_2 by done. rewrite Hs. cbn [app get_next_char mbind option_bind].
    rewrite (parse_to_chars u [close_brace] c _ Hu); [done|]. fold (to_string u). by rewrite Hs.
Qed.

Lemma uuid_text_roundtrip_witness :
  fromString (str "6ba7b810-9dad-11d1-80b4-00c04fd430c8") =
  Some [Byte.x6b; Byte.xa7; Byte.xb8; Byte.x10; Byte.x9d; Byte.xad; Byte.x11; Byte.xd1;
        Byte.x80; Byte.xb4; Byte.x00; Byte.xc0; Byte.x4f; Byte.xd4; Byte.x30; Byte.xc8].
Proof.
  apply (uuid_text_roundtrip
    [Byte.x6b; Byte.xa7; Byte.xb8; Byte.x10; Byte.x9d; Byte.xad; Byte.x11; Byte.xd1;
     Byte.x80; Byte.xb4; Byte.x00; Byte.xc0; Byte.x4f; Byte.xd4; Byte.x30; Byte.xc8]).
  reflexivity.
Defined.

(** The cached text of a uuid object is never stale: [toString] and
    [toShortString] give the text of its bytes, before and after assignments. *)
Lemma toString_fresh o : obj_inv o ->
  (toString o).1 = to_string (bytes_ o) /\ (toShortString o).1 = take 8 (to_string (bytes_ o)) /\
  obj_inv (toString o).2 /\ (forall this, obj_inv (obj_assign this o)).
Proof.
  intros H. destruct (cacheSrepr_inv o H) as (H1 & H2 & H3). unfold toString, toShortString.
  cbn. rewrite H1. split_and!; auto.
Qed.

(** The four namespaces are read from their texts, and differ. *)
Lemma namespaces : NoDup [nil_uuid; Ns_Dns; Ns_Url; Ns_Oid; Ns_X500dn] /\ Forall uuid_ok [Ns_Dns; Ns_Url; Ns_Oid; Ns_X500dn].
Proof. split; [by apply (bool_decide_unpack _)|by repeat constructor]. Qed.

End Uuid.
