(* ===== verification/UuidGen.v ===== *)
(** * Generated uuids (src/uuid.cpp, vendor/boost/boost/uuid/)

    [Uuid::createNamespaceUuid] and [Uuid::createRandomUuid] with the generators of the vendored
    Boost: the byte-oriented SHA-1, which keeps a block that is being filled and a count of the
    bits, and the bits that mark the version and the variant.  The file shows that the SHA-1 of
    the code is that of the padded message, block by block, and what the generators give. *)

From S2P Require Import Prelude Part PartMulti Codec Uuid.

Local Open Scope Z_scope.

Module UuidGen.
Import Uuid.

(** ** SHA-1 of a block *)

(** [left_rotate] on [unsigned int] *)
Definition left_rotate (x : Z) (n : Z) : Z := Z.lxor (wrap32 (Z.shiftl x n)) (Z.shiftr x (32 - n)).
(** [~x] on [unsigned int] *)
Definition not32 (x : Z) : Z := 2 ^ 32 - 1 - x.

Definition word (b0 b1 b2 b3 : byte) : Z :=
  Z.lor (Z.lor (Z.lor (Z.shiftl (byte_Z b0) 24) (Z.shiftl (byte_Z b1) 16)) (Z.shiftl (byte_Z b2) 8)) (byte_Z b3).
(** The first 16 words *)
Fixpoint words (l : bytes) : list Z :=
  match l with b0 :: b1 :: b2 :: b3 :: l => word b0 b1 b2 b3 :: words l | _ => [] end.
(** [n] more words *)
Definition at_ (w : list Z) (i : nat) : Z := default 0 (w !! i).
Fixpoint extend (n : nat) (w : list Z) : list Z :=
  match n with
  | O => w
  | S n =>
    let i := length w in
    extend n (w ++ [left_rotate (Z.lxor (Z.lxor (Z.lxor (at_ w (i - 3)) (at_ w (i - 8))) (at_ w (i - 14))) (at_ w (i - 16))) 1])
  end.

(** A round: the variables [a], [b], [c], [d], [e] *)
Definition regs : Type := Z * Z * Z * Z * Z.
Definition round (i : nat) (w : Z) (r : regs) : regs :=
  let '(a, b, c, d, e) := r in
  let '(f, k) :=
    if (i <? 20)%nat then (Z.lor (Z.land b c) (Z.land (not32 b) d), 0x5A827999)
    else if (i <? 40)%nat then (Z.lxor (Z.lxor b c) d, 0x6ED9EBA1)
    else if (i <? 60)%nat then (Z.lor (Z.lor (Z.land b c) (Z.land b d)) (Z.land c d), 0x8F1BBCDC)
    else (Z.lxor (Z.lxor b c) d, 0xCA62C1D6) in
  let temp := wrap32 (left_rotate a 5 + f + e + k + w) in
  (temp, a, left_rotate b 30, c, d).
Fixpoint rounds (i : nat) (ws : list Z) (r : regs) : regs :=
  match ws with [] => r | w :: ws => rounds (S i) ws (round i w r) end.

(** [sha1::process_block()] *)
Definition process_block (h : regs) (block : bytes) : regs :=
  let '(a, b, c, d, e) := rounds 0 (extend 64 (words block)) h in
  let '(h0, h1, h2, h3, h4) := h in
  (wrap32 (h0 + a), wrap32 (h1 + b), wrap32 (h2 + c), wrap32 (h3 + d), wrap32 (h4 + e)).

(** ** The hash object *)

Record sha1 := mkSha1 { h_ : regs; block_ : bytes; block_byte_index_ : nat; bit_count_low : Z; bit_count_high : Z }.

(** [sha1::reset]: the block keeps what it held. *)
Definition h_init : regs := (0x67452301, 0xEFCDAB89, 0x98BADCFE, 0x10325476, 0xC3D2E1F0).
Definition sha1_new (junk : bytes) : sha1 := mkSha1 h_init junk 0 0 0.

(** [sha1::process_byte_impl] *)
Definition process_byte_impl (b : byte) (s : sha1) : sha1 :=
  let block := <[block_byte_index_ s := b]> (block_ s) in
  let i := S (block_byte_index_ s) in
  if Nat.eqb i 64 then mkSha1 (process_block (h_ s) block) block 0 (bit_count_low s) (bit_count_high s)
  else mkSha1 (h_ s) block i (bit_count_low s) (bit_count_high s).

(** [sha1::process_byte]; [None] is the exception about too many bytes. *)
Definition process_byte (b : byte) (s : sha1) : option sha1 :=
  let s := process_byte_impl b s in
  if bit_count_low s <? 0xFFFFFFF8 then
    Some (mkSha1 (h_ s) (block_ s) (block_byte_index_ s) (bit_count_low s + 8) (bit_count_high s))
  else if bit_count_high s <=? 0xFFFFFFFE then
    Some (mkSha1 (h_ s) (block_ s) (block_byte_index_ s) 0 (bit_count_high s + 1))
  else None.

(** [sha1::process_bytes] *)
Fixpoint process_bytes (l : bytes) (s : sha1) : option sha1 :=
  match l with [] => Some s | b :: l => process_byte b s ≫= process_bytes l end.

(** A loop of [get_digest]: zeros while the index is such; it makes at most 64 rounds. *)
Fixpoint zeros_while (fuel : nat) (cond : nat -> bool) (s : sha1) : option sha1 :=
  match fuel with
  | O => None
  | S fuel => if cond (block_byte_index_ s) then zeros_while fuel cond (process_byte_impl Byte.x00 s) else Some s
  end.
Definition count_bytes (c : Z) : bytes :=
  (fun n => Z_byte (Z.land (Z.shiftr c n) 0xFF)) <$> [24; 16; 8; 0].

(** [sha1::get_digest] *)
Definition get_digest (s : sha1) : option regs :=
  let s := process_byte_impl Byte.x80 s in
  s ← (if (56 <? block_byte_index_ s)%nat
       then s ← zeros_while 65 (fun i => negb (Nat.eqb i 0)) s; zeros_while 65 (fun i => (i <? 56)%nat) s
       else zeros_while 65 (fun i => (i <? 56)%nat) s);
  Some (h_ (foldl (fun s b => process_byte_impl b s) s (count_bytes (bit_count_high s) ++ count_bytes (bit_count_low s)))).

(** ** The generators *)

(** [basic_name_generator::hash_to_uuid] *)
Definition set_bits (i : nat) (keep set : Z) (u : uuid) : uuid :=
  alter (fun b => Z_byte (Z.lor (Z.land (byte_Z b) keep) set)) i u.
Definition hash_to_uuid (digest : regs) : uuid :=
  let '(d0, d1, d2, d3, _) := digest in
  set_bits 6 0x0F (Z.shiftl 5 4) (set_bits 8 0xBF 0x80 ([d0; d1; d2; d3] ≫= count_bytes)).

(** [basic_name_generator::operator()] on a buffer, [Uuid::createNamespaceUuid] *)
Definition name_generator_sha1 (junk : bytes) (ns name : bytes) : option uuid :=
  s ← process_bytes ns (sha1_new junk);
  s ← process_bytes name s;
  hash_to_uuid <$> get_digest s.
Definition createNamespaceUuid (junk : bytes) (ns : uuid) (name : bytes) : option uuid :=
  fromBytes <$> name_generator_sha1 junk ns name.

(** [random_generator_pure::operator()] on the 16 bytes the system gives, [Uuid::createRandomUuid] *)
Definition set_uuid_random_vv (u : uuid) : uuid := set_bits 6 0x4F 0x40 (set_bits 8 0xBF 0x80 u).
Definition createRandomUuid (random : bytes) : uuid := fromBytes (set_uuid_random_vv (take uuid_size random)).

(** ** The padded message, block by block *)

(** [n] blocks of a message, and the hash of them *)
Fixpoint blocks (n : nat) (m : bytes) : list bytes :=
  match n with O => [] | S n => take 64 m :: blocks n (drop 64 m) end.
Definition blocks_hash (m : bytes) : regs := foldl process_block h_init (blocks (length m / 64) m).

(** The message, a one bit, zeros to 8 bytes before a whole block, and the number of its bits *)
Definition pad_zeros (n : nat) : nat := Z.to_nat ((55 - Z.of_nat n) mod 64).
Definition padded (m : bytes) : bytes :=
  m ++ [Byte.x80] ++ replicate (pad_zeros (length m)) Byte.x00 ++ reverse (le_split 8 (8 * Z.of_nat (length m))).
Definition sha1_of (m : bytes) : regs := blocks_hash (padded m).

Lemma blocks_snoc n m : blocks (S n) m = blocks n m ++ [take 64 (drop (64 * n) m)].
Proof.
  revert m. induction n as [|n IH]; intros m; [done|]. cbn [blocks]. specialize (IH (drop 64 m)). cbn [blocks] in IH.
  rewrite IH. cbn [app]. by rewrite drop_drop, Nat.mul_succ_r, (Nat.add_comm (64 * n)).
Qed.
Lemma blocks_app n m x : (64 * n <= length m)%nat -> blocks n (m ++ x) = blocks n m.
Proof.
  revert m. induction n as [|n IH]; intros m Hn; [done|]. cbn [blocks].
  rewrite take_app_le, drop_app_le by lia. f_equal. apply IH. rewrite length_drop. lia.
Qed.

(** The object after the bytes of [m]: whole blocks are in the hash, the rest is in the block. *)
Record holds (s : sha1) (m : bytes) : Prop := mkHolds {
  ho_hash : h_ s = blocks_hash m;
  ho_index : block_byte_index_ s = (length m mod 64)%nat;
  ho_block : length (block_ s) = 64%nat;
  ho_rest : take (block_byte_index_ s) (block_ s) = drop (64 * (length m / 64)) m;
}.

Lemma holds_new junk : length junk = 64%nat -> holds (sha1_new junk) [].
Proof. by constructor. Qed.

Lemma holds_byte b s m : holds s m -> holds (process_byte_impl b s) (m ++ [b]).
Proof.
  intros [Hh Hi Hb Hr]. set (q := (length m / 64)%nat) in *. set (r := (length m mod 64)%nat) in *.
  assert (length m = 64 * q + r)%nat as Hl by (apply Nat.div_mod_eq). assert (r < 64)%nat as Hr64 by (by apply Nat.mod_upper_bound).
  assert (length (m ++ [b]) = S (length m)) as Hl' by (rewrite length_app; cbn; lia).
  assert (drop (64 * q) (m ++ [b]) = drop (64 * q) m ++ [b]) as Hd by (apply drop_app_le; lia).
  assert (take (S r) (<[r := b]> (block_ s)) = drop (64 * q) (m ++ [b])) as Ht.
  { rewrite Hd, <-Hr, Hi. erewrite take_S_r by (apply list_lookup_insert_eq; lia). by rewrite take_insert_ge. }
  unfold process_byte_impl. rewrite Hi. destruct (Nat.eqb_spec (S r) 64) as [He|He].
  - assert (length (m ++ [b]) / 64 = S q)%nat as Hq by (symmetry; apply (Nat.div_unique _ _ _ 0); lia).
    constructor; cbn [h_ block_ block_byte_index_].
    + unfold blocks_hash. rewrite Hq, blocks_snoc, foldl_app, blocks_app by lia. cbn [foldl].
      rewrite Hh. unfold blocks_hash. fold q. f_equal. rewrite <-Ht, He, take_take.
      by rewrite take_ge by (rewrite length_insert; lia).
    + rewrite Hl', Hl. symmetry. replace (S (64 * q + r)) with ((S q) * 64)%nat by lia. apply Nat.Div0.mod_mul.
    + by rewrite length_insert.
    + cbn [take]. rewrite Hq, drop_ge; [done|lia].
  - assert (length (m ++ [b]) / 64 = q)%nat as Hq by (symmetry; apply (Nat.div_unique _ _ _ (S r)); lia).
    constructor; cbn [h_ block_ block_byte_index_].
    + unfold blocks_hash. rewrite Hq, blocks_app by lia. exact Hh.
    + apply (Nat.mod_unique _ _ q); lia.
    + by rewrite length_insert.
    + rewrite Hq. exact Ht.
Qed.

Lemma holds_bytes l : forall s m, holds s m -> holds (foldl (fun s b => process_byte_impl b s) s l) (m ++ l).
Proof.
  induction l as [|b l IH]; intros s m Hs; [by rewrite app_nil_r|]. cbn [foldl]. rewrite (cons_middle b m l), app_assoc.
  by apply IH, holds_byte.
Qed.

Lemma impl_counts b s : bit_count_low (process_byte_impl b s) = bit_count_low s /\
  bit_count_high (process_byte_impl b s) = bit_count_high s.
Proof. unfold process_byte_impl. by destruct (Nat.eqb _ 64). Qed.

(** The bits are counted in two 32-bit halves. *)
Definition counts (s : sha1) (n : nat) : Prop :=
  bit_count_high s * 2 ^ 32 + bit_count_low s = 8 * Z.of_nat n /\ 0 <= bit_count_low s < 2 ^ 32 /\ 0 <= bit_count_high s < 2 ^ 32.

Lemma holds_congr s s' m : h_ s' = h_ s -> block_ s' = block_ s -> block_byte_index_ s' = block_byte_index_ s -> holds s m -> holds s' m.
Proof. intros H1 H2 H3 []. constructor; by rewrite ?H1, ?H2, ?H3. Qed.

Lemma process_holds l : forall s m, holds s m -> counts s (length m) -> Z.of_nat (length (m ++ l)) < 2 ^ 61 ->
  exists s', process_bytes l s = Some s' /\ holds s' (m ++ l) /\ counts s' (length (m ++ l)).
Proof.
  induction l as [|b l IH]; intros s m Hs Hc Hl; [exists s; by rewrite app_nil_r|]. cbn [process_bytes].
  rewrite (cons_middle b m l), app_assoc in *.
  assert (exists s1, process_byte b s = Some s1 /\ holds s1 (m ++ [b]) /\ counts s1 (length (m ++ [b]))) as (s1 & -> & H1 & C1).
  { pose proof (holds_byte b s m Hs) as Hb. destruct (impl_counts b s) as [El Eh]. destruct Hc as (Hc & Hlo & Hhi).
    rewrite !length_app in Hl. cbn [length] in Hl. unfold process_byte. cbn zeta. rewrite El, Eh.
    assert (length (m ++ [b]) = S (length m)) as Hn by (rewrite length_app; cbn; lia).
    destruct (Z.ltb_spec (bit_count_low s) 0xFFFFFFF8).
    - eexists. split; [done|]. split; [by apply (holds_congr (process_byte_impl b s))|]. unfold counts. rewrite Hn. cbn. lia.
    - assert (bit_count_low s = 0xFFFFFFF8) as Heq by lia. rewrite (proj2 (Z.leb_le (bit_count_high s) 0xFFFFFFFE)) by lia.
      eexists. split; [done|]. split; [by apply (holds_congr (process_byte_impl b s))|]. unfold counts. rewrite Hn. cbn. lia. }
  cbn [mbind option_bind]. by apply IH.
Qed.

(** A loop adds zeros until the index is right. *)
Lemma zeros_holds cond n : forall fuel s m, holds s m -> (n < fuel)%nat ->
  (forall j, (j < n)%nat -> cond ((length m + j) mod 64)%nat = true) -> cond ((length m + n) mod 64)%nat = false ->
  exists s', zeros_while fuel cond s = Some s' /\ holds s' (m ++ replicate n Byte.x00) /\
    bit_count_low s' = bit_count_low s /\ bit_count_high s' = bit_count_high s.
Proof.
  induction n as [|n IH]; intros [|fuel] s m Hs Hf Hj Hn; try lia; cbn [zeros_while]; rewrite (ho_index _ _ Hs).
  - rewrite Nat.add_0_r in Hn. rewrite Hn. exists s. by rewrite app_nil_r.
  - specialize (Hj 0%nat) as H0. rewrite Nat.add_0_r in H0. rewrite H0 by lia.
    assert (length (m ++ [Byte.x00]) = S (length m)) as Hl by (rewrite length_app; cbn; lia).
    destruct (IH fuel (process_byte_impl Byte.x00 s) (m ++ [Byte.x00])) as (s' & E & Hs' & C1 & C2).
    + by apply holds_byte.
    + lia.
    + intros j Hlt. rewrite Hl. specialize (Hj (S j)). rewrite Nat.add_succ_r in Hj. apply Hj. lia.
    + rewrite Hl. rewrite Nat.add_succ_r in Hn. exact Hn.
    + destruct (impl_counts Byte.x00 s) as [E1 E2]. exists s'. rewrite E, C1, C2. split_and!; try done.
      by rewrite <-app_assoc in Hs'.
Qed.

Lemma add_mod_small a j : (a mod 64 + j < 64)%nat -> ((a + j) mod 64 = a mod 64 + j)%nat.
Proof. intros H. rewrite <-Nat.Div0.add_mod_idemp_l. by apply Nat.mod_small. Qed.
Lemma add_mod_full a j : (a mod 64 + j = 64)%nat -> ((a + j) mod 64 = 0)%nat.
Proof. intros H. by rewrite <-Nat.Div0.add_mod_idemp_l, H. Qed.

Lemma pad_zeros_short n : ((n + 1) mod 64 <= 56)%nat -> pad_zeros n = (56 - (n + 1) mod 64)%nat.
Proof.
  assert (Z.of_nat ((n + 1) mod 64) = (Z.of_nat n + 1) mod 64) as Hk by (rewrite Nat2Z.inj_mod; f_equal; lia).
  unfold pad_zeros. intros H. Z.div_mod_to_equations. lia.
Qed.
Lemma pad_zeros_long n : (56 < (n + 1) mod 64)%nat -> pad_zeros n = (64 - (n + 1) mod 64 + 56)%nat.
Proof.
  assert (Z.of_nat ((n + 1) mod 64) = (Z.of_nat n + 1) mod 64) as Hk by (rewrite Nat2Z.inj_mod; f_equal; lia).
  pose proof (Nat.mod_upper_bound (n + 1) 64). unfold pad_zeros. intros H'. Z.div_mod_to_equations. lia.
Qed.

(** The zeros of the padding: the two loops, or one *)
Lemma pad_holds s m : holds s (m ++ [Byte.x80]) ->
  exists s', (if (56 <? block_byte_index_ s)%nat
       then s ← zeros_while 65 (fun i => negb (Nat.eqb i 0)) s; zeros_while 65 (fun i => (i <? 56)%nat) s
       else zeros_while 65 (fun i => (i <? 56)%nat) s) = Some s' /\
    holds s' ((m ++ [Byte.x80]) ++ replicate (pad_zeros (length m)) Byte.x00) /\
    bit_count_low s' = bit_count_low s /\ bit_count_high s' = bit_count_high s.
Proof.
  intros Hs. pose proof (ho_index _ _ Hs) as Hi. rewrite length_app in Hi. cbn [length] in Hi. rewrite Hi.
  set (k := ((length m + 1) mod 64)%nat) in *. assert (k < 64)%nat as Hk by (by apply Nat.mod_upper_bound).
  destruct (Nat.ltb_spec 56 k) as [Hlt|Hle].
  - destruct (zeros_holds (fun i => negb (Nat.eqb i 0)) (64 - k) 65 s _ Hs) as (s1 & E1 & H1 & L1 & G1); [lia| | |].
    + intros j Hj. rewrite length_app. cbn [length]. rewrite add_mod_small by (fold k; lia). fold k.
      apply negb_true_iff, Nat.eqb_neq. lia.
    + rewrite length_app. cbn [length]. by rewrite add_mod_full by (fold k; lia).
    + rewrite E1. cbn [mbind option_bind]. pose proof (ho_index _ _ H1) as Hi1.
      assert (length ((m ++ [Byte.x80]) ++ replicate (64 - k) Byte.x00) mod 64 = 0)%nat as Hz
        by (rewrite !length_app, length_replicate; cbn [length]; by rewrite add_mod_full by (fold k; lia)).
      destruct (zeros_holds (fun i => (i <? 56)%nat) 56 65 s1 _ H1) as (s2 & E2 & H2 & L2 & G2); [lia| | |].
      * intros j Hj. rewrite add_mod_small by (rewrite Hz; lia). rewrite Hz. apply Nat.ltb_lt. lia.
      * by rewrite add_mod_small, Hz by (rewrite Hz; lia).
      * exists s2. rewrite E2, pad_zeros_long by (fold k; lia). fold k. split_and!; [done| |congruence|congruence].
        by rewrite replicate_add, app_assoc.
  - destruct (zeros_holds (fun i => (i <? 56)%nat) (56 - k) 65 s _ Hs) as (s2 & E2 & H2 & L2 & G2); [lia| | |].
    + intros j Hj. rewrite length_app. cbn [length]. rewrite add_mod_small by (fold k; lia). fold k. apply Nat.ltb_lt. lia.
    + rewrite length_app. cbn [length]. rewrite add_mod_small by (fold k; lia). fold k. apply Nat.ltb_ge. lia.
    + exists s2. rewrite E2, pad_zeros_short by (fold k; lia). by fold k.
Qed.

(** The count is the number of bits in big-endian order. *)
Lemma shift_byte c n : 0 <= n -> Z_byte (Z.land (Z.shiftr c n) 0xFF) = Z_byte (c / 2 ^ n).
Proof.
  intros Hn. apply byte_Z_inj. rewrite !byte_Z_byte. change 0xFF with (Z.ones 8).
  rewrite Z.land_ones, Z.shiftr_div_pow2 by lia. by rewrite Z.mod_mod.
Qed.
Lemma Z_byte_mod x y : x mod 256 = y mod 256 -> Z_byte x = Z_byte y.
Proof. intros H. apply byte_Z_inj. by rewrite !byte_Z_byte. Qed.
Lemma count_split hi lo : 0 <= lo < 2 ^ 32 -> count_bytes hi ++ count_bytes lo = reverse (le_split 8 (hi * 2 ^ 32 + lo)).
Proof.
  intros Hlo. unfold count_bytes. cbn [fmap list_fmap]. rewrite !shift_byte by lia.
  change (reverse (le_split 8 ?z)) with
    [Z_byte (z / 256 / 256 / 256 / 256 / 256 / 256 / 256); Z_byte (z / 256 / 256 / 256 / 256 / 256 / 256);
     Z_byte (z / 256 / 256 / 256 / 256 / 256); Z_byte (z / 256 / 256 / 256 / 256); Z_byte (z / 256 / 256 / 256);
     Z_byte (z / 256 / 256); Z_byte (z / 256); Z_byte z].
  cbn [app]. assert ((hi * 2 ^ 32 + lo) / 256 / 256 / 256 / 256 = hi) as ->
    by (rewrite !Z.div_div by lia; rewrite Z.div_add_l by lia; rewrite (Z.div_small lo); lia).
  repeat (apply (f_equal2 (@cons byte)); [apply Z_byte_mod; rewrite ?Z.div_div by lia; Z.div_mod_to_equations; lia|]). done.
Qed.

Lemma digest_holds s m : holds s m -> counts s (length m) -> get_digest s = Some (sha1_of m).
Proof.
  intros Hs (Hc & Hlo & Hhi). unfold get_digest. cbn zeta.
  destruct (impl_counts Byte.x80 s) as [El Eh]. destruct (pad_holds _ m (holds_byte Byte.x80 s m Hs)) as (s1 & E1 & H1 & L1 & G1).
  rewrite E1. cbn [mbind option_bind]. f_equal. rewrite L1, G1, El, Eh, count_split, Hc by done.
  rewrite (ho_hash _ _ (holds_bytes _ _ _ H1)). unfold sha1_of, padded. by rewrite <-!app_assoc.
Qed.

(** The example of test/test_uuid.cpp *)
Example test_com : to_string <$> createNamespaceUuid (replicate 64 Byte.x00) Ns_Dns (str "test.com") =
  Some (str "1c39b279-6010-55d9-b677-859bffab8081").
Proof. vm_compute. reflexivity. Qed.


(** ** What the generators give *)

(** A uuid of version [v] and the variant of RFC 4122; the other bits are those of [d]. *)
Definition marked (v : Z) (u d : bytes) : Prop :=
  uuid_ok u /\ (forall i, i <> 6%nat -> i <> 8%nat -> u !! i = d !! i) /\
  exists b6 b8 c6 c8, u !! 6%nat = Some b6 /\ u !! 8%nat = Some b8 /\ d !! 6%nat = Some c6 /\ d !! 8%nat = Some c8 /\
    byte_Z b6 / 16 = v /\ byte_Z b6 mod 16 = byte_Z c6 mod 16 /\
    byte_Z b8 / 64 = 2 /\ byte_Z b8 mod 64 = byte_Z c8 mod 64.

Lemma set_bits_marked keep set v d : length d = 16%nat ->
  (forall b, byte_Z (Z_byte (Z.lor (Z.land (byte_Z b) keep) set)) / 16 = v /\
     byte_Z (Z_byte (Z.lor (Z.land (byte_Z b) keep) set)) mod 16 = byte_Z b mod 16) ->
  marked v (set_bits 6 keep set (set_bits 8 0xBF 0x80 d)) d.
Proof.
  intros Hd H6. assert (forall b, byte_Z (Z_byte (Z.lor (Z.land (byte_Z b) 0xBF) 0x80)) / 64 = 2 /\
     byte_Z (Z_byte (Z.lor (Z.land (byte_Z b) 0xBF) 0x80)) mod 64 = byte_Z b mod 64) as H8 by (intros b; by destruct b).
  unfold set_bits. split; [by unfold uuid_ok; rewrite !length_alter|]. split.
  - intros i Hi6 Hi8. by rewrite !list_lookup_alter_ne by done.
  - destruct (d !! 6%nat) as [c6|] eqn:E6; [|apply lookup_ge_None in E6; lia].
    destruct (d !! 8%nat) as [c8|] eqn:E8; [|apply lookup_ge_None in E8; lia].
    do 2 eexists. exists c6, c8. rewrite list_lookup_alter_eq, list_lookup_alter_ne, E6 by done.
    rewrite list_lookup_alter_ne, list_lookup_alter_eq, E8 by done.
    split_and!; try done; apply H6 || apply H8.
Qed.

Lemma marked_not_null v u d : 0 < v -> marked v u d -> isNull u = false.
Proof.
  intros Hv (_ & _ & b6 & b8 & c6 & c8 & E6 & _ & _ & _ & H6 & _). unfold isNull. apply bool_decide_eq_false_2. intros Hn.
  rewrite Forall_lookup in Hn. specialize (Hn _ _ E6). subst b6. change (byte_Z Byte.x00 / 16) with 0 in H6. lia.
Qed.

(** The bytes of the digest that are used *)
Definition digest_bytes (d : regs) : bytes := let '(d0, d1, d2, d3, _) := d in [d0; d1; d2; d3] ≫= count_bytes.

Lemma hash_marked d : marked 5 (hash_to_uuid d) (digest_bytes d).
Proof. destruct d as [[[[d0 d1] d2] d3] d4]. apply set_bits_marked; [done|]. intros b. by destruct b. Qed.

(** ** Theorems *)

(** C18: Generated uuids: [Uuid::createNamespaceUuid] gives the version-5 uuid of RFC 4122: the
    SHA-1 of the namespace and the name, computed byte by byte with a block and a count of the
    bits, is the one of the padded message, folded block by block with the function of the code on one
    block, for every name that a 64-bit
    count of bits allows; all its bits but the six that mark version and variant are those of
    the digest.  [Uuid::createRandomUuid] keeps the random bits the same way under version 4.
    Neither gives the null uuid. *)
Theorem generated_uuids (junk : bytes) (ns : uuid) (name random : bytes) :
  length junk = 64%nat -> uuid_ok ns -> Z.of_nat (uuid_size + length name) < 2 ^ 61 -> (uuid_size <= length random)%nat ->
  (exists u, createNamespaceUuid junk ns name = Some u /\ u = hash_to_uuid (sha1_of (ns ++ name)) /\
     marked 5 u (digest_bytes (sha1_of (ns ++ name))) /\ isNull u = false) /\
  marked 4 (createRandomUuid random) (take uuid_size random) /\ isNull (createRandomUuid random) = false.
Proof.
  intros Hj Hns Hn Hr. split.
  - destruct (process_holds ns (sha1_new junk) [] (holds_new junk Hj)) as (s1 & E1 & H1 & C1);
      [done|cbn [app]; rewrite Hns; unfold uuid_size in *; lia|].
    destruct (process_holds name s1 ns H1 C1) as (s2 & E2 & H2 & C2); [rewrite length_app, Hns; unfold uuid_size in *; lia|].
    exists (hash_to_uuid (sha1_of (ns ++ name))). unfold createNamespaceUuid, name_generator_sha1. rewrite E1. cbn [mbind option_bind].
    rewrite E2. cbn [mbind option_bind]. rewrite (digest_holds s2 _ H2 C2). pose proof (hash_marked (sha1_of (ns ++ name))) as Hm.
    split_and!; try done. exact (marked_not_null 5 _ _ eq_refl Hm).
  - assert (marked 4 (createRandomUuid random) (take uuid_size random)) as Hm.
    { apply set_bits_marked; [rewrite length_take; unfold uuid_size in *; lia|]. intros b. by destruct b. }
    split; [done|]. exact (marked_not_null 4 _ _ eq_refl Hm).
Qed.

Lemma generated_uuids_witness : exists u, createNamespaceUuid (replicate 64 Byte.x00) Ns_Dns (str "test.com") = Some u /\
  to_string u = str "1c39b279-6010-55d9-b677-859bffab8081" /\ marked 5 u (digest_bytes (sha1_of (Ns_Dns ++ str "test.com"))) /\
  isNull (createRandomUuid (replicate 16 Byte.x00)) = false.
Proof.
  destruct (generated_uuids (replicate 64 Byte.x00) Ns_Dns (str "test.com") (replicate 16 Byte.x00)) as ((u & E & _ & Hm & _) & _ & Hr);
    [reflexivity|vm_compute; reflexivity|vm_compute; reflexivity|vm_compute; lia|].
  exists u. pose proof test_com as Ht. rewrite E in Ht. injection Ht as Ht. split; [exact E|]. split; [exact Ht|]. split; [exact Hm|exact Hr].
Defined.

End UuidGen.
