(* ===== verification/Topic.v ===== *)
(** * Topic (src/topic.cpp, include/fuurin/topic.h)

    The payload exchanged between workers and brokers: its fixed size name, the
    comparison operators, the packed form and the static [withSeqNum] that
    rewrites the sequence number of a packed topic in place. *)

From S2P Require Import Prelude Part PartMulti Codec Uuid.

Local Open Scope Z_scope.

Module Topic.
Import Part PartMulti Codec Uuid.

(** ** Names *)

(** [Topic::Name]: a length and an array of 256 characters. *)
Record name := mkName { sz_ : nat; dd_ : bytes }.

#[export] Instance name_eq_dec : EqDecision name.
Proof. solve_decision. Defined.
#[export] Instance name_countable : Countable name.
Proof.
  refine (inj_countable' (fun n => (sz_ n, dd_ n)) (fun p => mkName p.1 p.2) _). by intros [].
Defined.

Definition dd_size : nat := 256.

(** [Name::capacity] *)
Definition name_capacity : nat := dd_size - 1.

(** [std::memset] of the array to 0 and [std::copy_n] over it *)
Definition zero_fill (s : bytes) : bytes := s ++ replicate (dd_size - length s) Byte.x00.

(** [Name::Name()] *)
Definition Name_empty : name := mkName 0 (zero_fill []).

(** [Name::Name(std::string_view)], [Name::Name(const std::string&)] *)
Definition Name (s : bytes) : name :=
  let sz := Nat.min name_capacity (length s) in
  mkName sz (zero_fill (take sz s)).

(** [Name::size], [Name::empty], the conversions to strings *)
Definition name_size (n : name) : nat := sz_ n.
Definition name_empty (n : name) : bool := Nat.eqb (sz_ n) 0.
Definition name_str (n : name) : bytes := take (sz_ n) (dd_ n).

(** [Name::operator==] *)
Definition name_eqb (a b : name) : bool :=
  Nat.eqb (sz_ a) (sz_ b) && bool_decide (dd_ a = dd_ b).

(** The names the constructors build. *)
Definition name_ok (n : name) : Prop :=
  (sz_ n <= name_capacity)%nat /\ dd_ n = zero_fill (name_str n).

Lemma name_str_length n : name_ok n -> length (name_str n) = sz_ n.
Proof.
  intros [Hs Hd]. unfold name_str. rewrite length_take. rewrite Hd. unfold zero_fill.
  rewrite length_app, length_replicate. unfold name_str. rewrite length_take.
  unfold name_capacity in Hs. unfold dd_size in *. lia.
Qed.

Lemma name_str_Name s : name_str (Name s) = take name_capacity s.
Proof.
  unfold name_str, Name, zero_fill. cbn [sz_ dd_].
  rewrite take_app_le by (rewrite length_take; lia). rewrite take_take.
  destruct (decide (length s <= name_capacity)%nat) as [H|H].
  - rewrite !take_ge by lia. done.
  - f_equal. lia.
Qed.

Lemma Name_ok s : name_ok (Name s).
Proof.
  split; [unfold Name; cbn [sz_]; lia|]. rewrite name_str_Name. unfold Name. cbn [dd_ sz_]. f_equal.
  destruct (decide (length s <= name_capacity)%nat) as [H|H].
  - rewrite !take_ge by lia. done.
  - f_equal. lia.
Qed.

Lemma Name_str n : name_ok n -> Name (name_str n) = n.
Proof.
  intros Hn. pose proof (name_str_length n Hn) as Hl. destruct Hn as [Hs Hd].
  destruct n as [s d]. unfold Name. rewrite Hl, Nat.min_r by done. cbn [sz_] in *.
  rewrite take_ge by lia. by rewrite <-Hd.
Qed.

Lemma name_ok_ext a b : name_ok a -> name_ok b -> name_str a = name_str b -> a = b.
Proof. intros Ha Hb H. by rewrite <-(Name_str a Ha), <-(Name_str b Hb), H. Qed.

Lemma name_eqb_eq a b : name_eqb a b = true <-> a = b.
Proof.
  unfold name_eqb. rewrite andb_true_iff, Nat.eqb_eq, bool_decide_eq_true.
  destruct a, b; cbn. split; [by intros [-> ->]|by intros [= -> ->]].
Qed.

#[export] Hint Resolve Name_ok : fuurin.

(** ** Topics *)

Inductive topic_type := State | Event.

#[export] Instance topic_type_eq_dec : EqDecision topic_type.
Proof. solve_decision. Defined.

Record topic := mkTopic {
  broker_ : uuid;
  worker_ : uuid;
  seqn_ : Z;
  name_ : name;
  data_ : part;
  type_ : topic_type;
}.

#[export] Instance topic_eq_dec : EqDecision topic.
Proof. solve_decision. Defined.

Definition toIntegral (t : topic_type) : Z := match t with State => 0 | Event => 1 end.

(** The conversion [Type(type)] of a checked integer *)
Definition Type_of (z : Z) : topic_type := if z =? 0 then State else Event.

(** [Topic::Topic()] *)
Definition Topic_empty : topic := mkTopic nil_uuid nil_uuid 0 Name_empty Part_empty State.

(** [Topic::Topic(broker, worker, seqn, name, data, type)]: the data is copied. *)
Definition Topic_new (broker worker : uuid) (seqn : Z) (name : name) (data : part)
    (type : topic_type) : outcome topic :=
  d ← Part_copy data; Ok (mkTopic broker worker seqn name d type).

Definition withBroker (v : uuid) (t : topic) : topic :=
  mkTopic v (worker_ t) (seqn_ t) (name_ t) (data_ t) (type_ t).
Definition withWorker (v : uuid) (t : topic) : topic :=
  mkTopic (broker_ t) v (seqn_ t) (name_ t) (data_ t) (type_ t).
Definition withSeqNum (v : Z) (t : topic) : topic :=
  mkTopic (broker_ t) (worker_ t) v (name_ t) (data_ t) (type_ t).
Definition withName (v : name) (t : topic) : topic :=
  mkTopic (broker_ t) (worker_ t) (seqn_ t) v (data_ t) (type_ t).
Definition withType (v : topic_type) (t : topic) : topic :=
  mkTopic (broker_ t) (worker_ t) (seqn_ t) (name_ t) (data_ t) v.

(** [Topic::withData(const Data&)], [withData(Data&&)]: both copy, since the only assignment of a
    part is the one from a constant reference. *)
Definition withData (v : part) (t : topic) : outcome topic :=
  d ← Part_assign (data_ t) v;
  Ok (mkTopic (broker_ t) (worker_ t) (seqn_ t) (name_ t) d (type_ t)).
Definition withData_move (v : part) (t : topic) : outcome topic :=
  d ← Part_assign (data_ t) v;
  Ok (mkTopic (broker_ t) (worker_ t) (seqn_ t) (name_ t) d (type_ t)).

(** [Topic::operator==]: every field but the type *)
Definition topic_eqb (a b : topic) : bool :=
  uuid_eqb (broker_ a) (broker_ b) && uuid_eqb (worker_ a) (worker_ b) &&
  (seqn_ a =? seqn_ b) && name_eqb (name_ a) (name_ b) && part_eqb (data_ a) (data_ b).

(** The strings of [operator<<(std::ostream&, Topic::Type)] *)
Definition type_str (t : topic_type) : bytes :=
  match t with State => str "state" | Event => str "event" end.

(** ** Packed form *)

Section Codec.
Context {P : Platform}.

Definition topic_fields (t : topic) : list field :=
  [FInt 8 (seqn_ t); FInt 1 (toIntegral (type_ t)); FArr (broker_ t); FArr (worker_ t);
   FStr (name_str (name_ t)); FStr (p_data (data_ t))].

Definition topic_types : list ftype := [TInt 8; TInt 1; TArr 16; TArr 16; TStr; TStr].

(** [Topic::toPart] *)
Definition topic_toPart (t : topic) : outcome part :=
  let type := toIntegral (type_ t) in
  ASSERT ((toIntegral State <=? type) && (type <=? toIntegral Event));;
  pack [FInt 8 (seqn_ t); FInt 1 type; FArr (broker_ t); FArr (worker_ t);
        FStr (name_str (name_ t)); FStr (p_data (data_ t))].

(** [Topic::fromPart] *)
Definition topic_fromPart (p : part) : outcome topic :=
  fs ← unpack topic_types (p_data p);
  match fs with
  | [FInt _ seqn; FInt _ type; FArr brok; FArr work; FStr name; FStr data] =>
    ASSERT ((toIntegral State <=? type) && (type <=? toIntegral Event));;
    Topic_new (fromBytes brok) (fromBytes work) seqn (Name name) (Part_bytes data) (Type_of type)
  | _ => Undef
  end.

(** [static Topic::withSeqNum(zmq::Part&, SeqN)] *)
Definition part_withSeqNum (p : part) (val : Z) : outcome part :=
  let buf := Part_uint64 val in
  if size p <? size buf then throwAccessError else
  d ← store (p_data p) 0 (p_data buf);
  Ok (mkPart d (p_rid p) (p_group p) (p_more p)).

(** Values the C++ object can hold, with data that fits the 4 bytes of its
    length and carries neither a routing id nor a group. *)
Record topic_ok (t : topic) : Prop := mkTopicOk {
  ok_broker : uuid_ok (broker_ t);
  ok_worker : uuid_ok (worker_ t);
  ok_seqn : in_width 8 (seqn_ t);
  ok_name : name_ok (name_ t);
  ok_data : data_ t = Part_bytes (p_data (data_ t));
  ok_size : zlen (p_data (data_ t)) < u32_max;
}.

Lemma topic_toIntegral_range t : 0 <= toIntegral t < 2.
Proof. by destruct t. Qed.

Lemma topic_Type_of_toIntegral t : Type_of (toIntegral t) = t.
Proof. by destruct t. Qed.

Lemma topic_fields_small t : topic_ok t -> Forall small_field (topic_fields t).
Proof.
  intros [Hb Hw Hq Hn _ Hd]. unfold topic_fields.
  repeat apply Forall_cons_2; cbn [small_field]; try done.
  - split; [lia|]. unfold in_width. pose proof (topic_toIntegral_range (type_ t)). lia.
  - unfold zlen. by rewrite Hb.
  - unfold zlen. by rewrite Hw.
  - unfold zlen. rewrite (name_str_length _ Hn). destruct Hn as [Hn _].
    unfold u32_max, name_capacity, dd_size in *. lia.
Qed.

Lemma topic_fields_types t : topic_ok t -> type_of <$> topic_fields t = topic_types.
Proof. intros [Hb Hw _ _ _ _]. unfold topic_fields. cbn. by rewrite Hb, Hw. Qed.

(** What [fromPart] does once the fields are known. *)
Lemma topic_fromPart_fields t : topic_ok t ->
  forall d rid g m, unpack topic_types d = Ok (topic_fields t) ->
  topic_fromPart (mkPart d rid g m) = Ok t.
Proof.
  intros Ht d rid g m Hd. unfold topic_fromPart. cbn [p_data]. rewrite Hd.
  cbn [mbind outcome_bind topic_fields]. pose proof (topic_toIntegral_range (type_ t)).
  rewrite (proj2 (Z.leb_le (toIntegral State) _)) by (cbn; lia).
  rewrite (proj2 (Z.leb_le _ (toIntegral Event))) by (cbn; lia). cbn [andb ASSERT mbind outcome_bind].
  unfold Topic_new, Part_copy, fromBytes. cbn [p_data Part_bytes p_rid p_group Z.eqb mbind outcome_bind].
  rewrite decide_True by done. cbn [mbind outcome_bind].
  rewrite topic_Type_of_toIntegral, Name_str by apply Ht. destruct t as [b w s n da ty]; cbn in *.
  do 2 f_equal. symmetry. apply Ht.
Qed.

Lemma topic_roundtrip t :
  topic_ok t ->
  exists d, topic_toPart t = Ok (Part_bytes d) /\ fits d /\ topic_fromPart (Part_bytes d) = Ok t.
Proof.
  intros Ht. destruct (pack_fields (topic_fields t)) as (H1 & H2 & H3);
    [cbn; lia|by apply topic_fields_small|].
  exists (encs (topic_fields t)). split_and!; [|done|].
  - unfold topic_toPart. fold (topic_fields t). by destruct (type_ t).
  - apply topic_fromPart_fields; [done|]. by rewrite <-(topic_fields_types t).
Qed.

#[export] Instance topic_codec : PartCodec topic :=
  {| toPart := topic_toPart; fromPart := topic_fromPart; codec_ok := topic_ok;
     codec_roundtrip := topic_roundtrip |}.

(** A decoded topic is within its limits, and its buffer starts with its fields. *)
Lemma topic_fromPart_defined p : fits (p_data p) -> topic_fromPart p <> Undef.
Proof.
  intros Hd. unfold topic_fromPart.
  assert (Forall ftype_ok topic_types) as Hts by (by repeat constructor).
  destruct (unpack_defined topic_types (p_data p)) as [H1 H2]; [done|set_solver|done|].
  destruct (unpack _ _) as [fs| | |] eqn:E; cbn [mbind outcome_bind]; try done.
  apply unpack_types in E as [Ht _]; [|done..].
  unfold topic_types in Ht. shape Ht. by destruct (ASSERT _) as [[]| | |] eqn:Ea; [..|unfold ASSERT in Ea; case_hyp].
Qed.

Lemma topic_fromPart_sound p t :
  fits (p_data p) -> topic_fromPart p = Ok t ->
  exists n post, p_data p = encs (FInt 8 (seqn_ t) :: FInt 1 (toIntegral (type_ t)) ::
      FArr (broker_ t) :: FArr (worker_ t) :: [FStr n; FStr (p_data (data_ t))]) ++ post /\
    name_ t = Name n /\ zlen n < u32_max /\ topic_ok t.
Proof.
  intros Hfit. unfold topic_fromPart. intros (fs & Hu & H)%bind_Ok.
  rewrite unpack_unpack_seq in Hu.
  apply (unpack_seq_sound _ _ [] (p_data p)) in Hu as (Ht & Hok & post & Hp); [|by repeat constructor|done|done].
  repeat case_hyp; try done. subst. cbn [fmap list_fmap type_of topic_types] in Ht.
  injection Ht as -> -> Hla Hla0. rewrite app_nil_l in Hp.
  apply bind_Ok in H as ([] & Has & H). unfold ASSERT in Has. case_hyp; [|done].
  unfold Topic_new, Part_copy in H. cbn in H. injection H as <-. cbn.
  bools. cbn in *. assert (toIntegral (Type_of v0) = v0) as Hty.
  { unfold Type_of. destruct (Z.eqb_spec v0 0); cbn; lia. }
  rewrite Hty. exists s, post. repeat (apply Forall_cons in Hok as [? Hok]).
  cbn [field_ok] in *. split_and!; [done|done|done|].
  constructor; cbn; try done; [intuition|auto with fuurin].
Qed.

Lemma part_withSeqNum_store p v post old :
  p_data p = old ++ post -> length old = 8%nat ->
  part_withSeqNum p v =
    Ok (mkPart (memcpyWithEndian_to 8 v ++ post) (p_rid p) (p_group p) (p_more p)).
Proof.
  intros Hp Hl. unfold part_withSeqNum, size, Part_uint64. cbn [p_data Part_bytes].
  rewrite length_memcpyWithEndian_to, Hp, length_app.
  rewrite (proj2 (Z.ltb_ge _ _)) by lia.
  pose proof (store_app [] old post (memcpyWithEndian_to 8 v)) as Hs.
  rewrite !app_nil_l in Hs. change (zlen []) with 0 in Hs.
  rewrite Hs; [done|]. by rewrite length_memcpyWithEndian_to.
Qed.

End Codec.

(** ** Theorems *)

(** A topic within the limits of its fields survives the wire: [toPart] succeeds
    and [fromPart] of its result gives back every field, the type included. *)
Theorem topic_wire_roundtrip (P : Platform) (t : topic) :
  topic_ok t ->
  exists p, topic_toPart t = Ok p /\ topic_fromPart p = Ok t.
Proof. intros Ht. destruct (topic_roundtrip t Ht) as (d & H1 & _ & H2). by exists (Part_bytes d). Qed.

Definition sample_topic : topic :=
  mkTopic nil_uuid nil_uuid 300 (Name (str "temperature")) (Part_bytes (str "21.5")) Event.

Lemma topic_wire_roundtrip_witness :
  exists p, @topic_toPart x86_64 sample_topic = Ok p /\ @topic_fromPart x86_64 p = Ok sample_topic.
Proof.
  apply topic_wire_roundtrip. constructor; vm_compute; try done; split; vm_compute; try done; lia.
Defined.

(** Storing the number in the bytes is storing it in the topic. *)
Lemma part_withSeqNum_topic {P : Platform} (p : part) (t : topic) (v : Z) :
  fits (p_data p) -> in_width 8 v -> topic_fromPart p = Ok t ->
  exists p', part_withSeqNum p v = Ok p' /\
    topic_fromPart p' = Ok (withSeqNum v t) /\
    size p' = size p /\ p_rid p' = p_rid p /\ p_group p' = p_group p.
Proof.
  intros Hfit Hv H. pose proof H as H'.
  apply topic_fromPart_sound in H' as (n & post & Hp & Hn & Hln & Hok); [|done].
  rewrite encs_cons, <-app_assoc in Hp. cbn [enc] in Hp.
  eexists. split; [by eapply part_withSeqNum_store; [exact Hp|apply length_memcpyWithEndian_to]|].
  unfold size. cbn [p_data p_rid p_group].
  split; [|rewrite Hp, !length_app, !length_memcpyWithEndian_to; done].
  unfold topic_fromPart in *. cbn [p_data].
  assert (forall s, in_width 8 s -> unpack topic_types
    (memcpyWithEndian_to 8 s ++ encs (FInt 1 (toIntegral (type_ t)) ::
      FArr (broker_ t) :: FArr (worker_ t) :: [FStr n; FStr (p_data (data_ t))]) ++ post)
    = Ok (FInt 8 s :: FInt 1 (toIntegral (type_ t)) ::
      FArr (broker_ t) :: FArr (worker_ t) :: [FStr n; FStr (p_data (data_ t))])) as Hu.
  { intros s Hs. rewrite unpack_unpack_seq.
    pose proof (unpack_seq_complete (FInt 8 s :: FInt 1 (toIntegral (type_ t)) ::
      FArr (broker_ t) :: FArr (worker_ t) :: [FStr n; FStr (p_data (data_ t))]) [] post) as Hc.
    rewrite app_nil_l, encs_cons, <-app_assoc in Hc. cbn [fmap list_fmap type_of enc] in Hc.
    destruct Hok as [Hb Hw Hq _ Hd Hz]. rewrite Hb, Hw in Hc. apply Hc.
    - pose proof (topic_toIntegral_range (type_ t)).
      repeat apply Forall_cons_2; cbn [field_ok]; try done; try (split; [lia|done]).
      + split; [lia|]. unfold in_width. lia.
      + unfold zlen. by rewrite Hb.
      + unfold zlen. by rewrite Hw.
    - unfold fits in *. rewrite Hp, !zlen_app, !zlen_to in Hfit. by rewrite !zlen_app, !zlen_to. }
  rewrite Hu by done. rewrite Hp, Hu in H by apply Hok. cbn [mbind outcome_bind] in *.
  destruct (ASSERT _) as [[]| | |]; try done. cbn [mbind outcome_bind] in *.
  unfold Topic_new, Part_copy, withSeqNum, fromBytes. cbn [p_data Part_bytes p_rid p_group Z.eqb mbind outcome_bind].
  rewrite decide_True by done. cbn [mbind outcome_bind].
  rewrite Hn, topic_Type_of_toIntegral. do 2 f_equal. symmetry. apply Hok.
Qed.

Lemma part_withSeqNum_defined {P : Platform} p v : part_withSeqNum p v <> Undef /\ part_withSeqNum p v <> Abort.
Proof.
  destruct (Z.ltb_spec (size p) 8) as [Hs|Hs].
  - unfold part_withSeqNum. rewrite (proj2 (Z.ltb_lt _ _)); [done|].
    unfold size, Part_uint64 in *. cbn [p_data Part_bytes]. by rewrite length_memcpyWithEndian_to.
  - rewrite (part_withSeqNum_store p v (drop 8 (p_data p)) (take 8 (p_data p))); [done| |].
    + by rewrite take_drop.
    + unfold size in Hs. rewrite length_take. lia.
Qed.

(** In-place renumbering of a packed topic: when [fromPart] reads the topic [t] from a
    part, the static [withSeqNum] succeeds on it and [fromPart] of the result reads [t] with
    the new number and nothing else changed; its routing id and group are kept. *)
Theorem withSeqNum_in_place (P : Platform) (p : part) (t : topic) (v : Z) :
  fits (p_data p) -> in_width 8 v -> topic_fromPart p = Ok t ->
  exists p', part_withSeqNum p v = Ok p' /\
    topic_fromPart p' = Ok (withSeqNum v t) /\
    size p' = size p /\ p_rid p' = p_rid p /\ p_group p' = p_group p.
Proof. apply part_withSeqNum_topic. Qed.

Lemma withSeqNum_in_place_witness :
  exists p p', @topic_toPart x86_64 sample_topic = Ok p /\
    @part_withSeqNum x86_64 p 77 = Ok p' /\
    @topic_fromPart x86_64 p' = Ok (withSeqNum 77 sample_topic).
Proof.
  destruct (@topic_toPart x86_64 sample_topic) as [p| | |] eqn:E; [|discriminate E..].
  destruct (withSeqNum_in_place x86_64 p sample_topic 77) as (p' & H1 & H2 & _).
  - vm_compute in E. injection E as <-. vm_compute. reflexivity.
  - vm_compute. split; congruence.
  - vm_compute in E. injection E as <-. vm_compute. reflexivity.
  - exists p, p'. split; [reflexivity|]. split; assumption.
Defined.

(** Names: a name is the first 255 bytes of the string it was built from (embedded null
    characters included), it always has a terminating null character in its array, and two
    names are equal exactly when their strings are. *)
Theorem name_truncates (s1 s2 : bytes) :
  name_str (Name s1) = take 255 s1 /\
  length (dd_ (Name s1)) = 256%nat /\
  dd_ (Name s1) !! sz_ (Name s1) = Some Byte.x00 /\
  (name_eqb (Name s1) (Name s2) = true <-> take 255 s1 = take 255 s2).
Proof.
  change 255%nat with name_capacity. split_and!.
  - apply name_str_Name.
  - unfold Name, zero_fill. cbn [dd_]. rewrite length_app, length_replicate, length_take.
    unfold name_capacity, dd_size. lia.
  - unfold Name, zero_fill. cbn [dd_ sz_].
    rewrite lookup_app_r by (rewrite length_take; lia).
    apply lookup_replicate_2. rewrite length_take. unfold name_capacity, dd_size. lia.
  - rewrite name_eqb_eq. rewrite <-!name_str_Name. split; [by intros ->|].
    apply name_ok_ext; auto with fuurin.
Qed.

End Topic.
