(* ===== verification/Event.v ===== *)
(** * Event and Operation (src/event.cpp, src/operation.cpp)

    The two messages that travel between the main thread and the asynchronous
    thread of a runner: events towards the main thread, operations towards the
    asynchronous one.  Both pack a type, a notification and a payload, and abort
    the process on a value outside of the enumerations. *)

From S2P Require Import Prelude Part PartMulti Codec.

Local Open Scope Z_scope.

(** The shape shared by the two classes: two checked enumerations and a payload. *)
Module Message.
Import Part PartMulti Codec.

Section Codec.
Context {P : Platform}.

Definition fields (type notif : Z) (payld : bytes) : list field :=
  [FInt 1 type; FInt 1 notif; FStr payld].

(** [pack(type, notif, payld)] behind the two checks *)
Definition pack_checked (ntypes nnotifs type notif : Z) (payld : part) : outcome part :=
  ASSERT ((0 <=? type) && (type <? ntypes));;
  ASSERT ((0 <=? notif) && (notif <? nnotifs));;
  pack (fields type notif (p_data payld)).

(** [unpack<type_t, notif_t, zmq::Part>] and the two checks *)
Definition unpack_checked (ntypes nnotifs : Z) (d : bytes) : outcome (Z * Z * part) :=
  fs ← unpack [TInt 1; TInt 1; TStr] d;
  match fs with
  | [FInt _ type; FInt _ notif; FStr payload] =>
    ASSERT ((0 <=? type) && (type <? ntypes));;
    ASSERT ((0 <=? notif) && (notif <? nnotifs));;
    Ok (type, notif, Part_bytes payload)
  | _ => Undef
  end.

Lemma ASSERT_range a n : 0 <= a < n -> ASSERT ((0 <=? a) && (a <? n)) = Ok tt.
Proof. intros. rewrite (proj2 (Z.leb_le 0 a)), (proj2 (Z.ltb_lt a n)); [done|lia..]. Qed.

Lemma ASSERT_range_inv a n u : ASSERT ((0 <=? a) && (a <? n)) = Ok u -> 0 <= a < n.
Proof. unfold ASSERT. case_goal; [|done]. intros _. bools. lia. Qed.

Lemma fields_small type notif payld :
  0 <= type < 256 -> 0 <= notif < 256 -> zlen payld < u32_max ->
  Forall small_field (fields type notif payld).
Proof.
  intros. unfold fields. repeat apply Forall_cons_2; cbn [small_field]; try done;
    (split; [lia|]); unfold in_width; lia.
Qed.

Lemma pack_checked_spec nt nn type notif payld :
  nt <= 256 -> nn <= 256 -> 0 <= type < nt -> 0 <= notif < nn -> zlen (p_data payld) < u32_max ->
  pack_checked nt nn type notif payld = Ok (Part_bytes (encs (fields type notif (p_data payld)))) /\
  fits (encs (fields type notif (p_data payld))).
Proof.
  intros. unfold pack_checked. rewrite !ASSERT_range by done. cbn [mbind outcome_bind].
  destruct (pack_fields (fields type notif (p_data payld))) as (H4 & H5 & _);
    [cbn; lia|apply fields_small; lia|done].
Qed.

(** What is packed fits the length field. *)
Lemma pack_checked_fits nt nn type notif payld p :
  pack_checked nt nn type notif payld = Ok p -> zlen (p_data payld) < u32_max.
Proof.
  unfold pack_checked, pack, pack_over, fields. intros H.
  apply bind_Ok in H as (? & _ & H). apply bind_Ok in H as (? & _ & H).
  apply bind_Ok in H as (pm & H & _). cbn [pack2] in H.
  apply bind_Ok in H as ([? ?] & _ & H). apply bind_Ok in H as ([? ?] & _ & H).
  apply bind_Ok in H as ([? ?] & H & _). unfold pack2_one in H.
  destruct (accessOutOfBoundary _ _ _); [done|].
  destruct (Z.gtb_spec (zlen (p_data payld)) (u32_max - 1)); [done|lia].
Qed.

Lemma unpack_checked_spec nt nn d type notif payld :
  nt <= 256 -> nn <= 256 -> fits d ->
  unpack_checked nt nn d = Ok (type, notif, payld) <->
  0 <= type < nt /\ 0 <= notif < nn /\ zlen (p_data payld) < u32_max /\
  payld = Part_bytes (p_data payld) /\
  exists post, d = encs (fields type notif (p_data payld)) ++ post.
Proof.
  intros Hnt Hnn Hfit. unfold unpack_checked. rewrite unpack_unpack_seq. split.
  - intros (fs & Hu & H)%bind_Ok.
    apply (unpack_seq_sound _ _ [] d) in Hu as (Ht & Hok & post & Hp);
      [|by repeat constructor|done|done].
    repeat case_hyp; try done. subst. injection Ht as -> ->.
    apply bind_Ok in H as (? & H1%ASSERT_range_inv & H).
    apply bind_Ok in H as (? & H2%ASSERT_range_inv & H). injection H as <- <- <-.
    repeat (apply Forall_cons in Hok as [? Hok]). cbn [field_ok p_data Part_bytes] in *.
    split_and!; try done; try lia. by exists post.
  - intros (H1 & H2 & H3 & H4 & post & ->).
    pose proof (unpack_seq_complete (fields type notif (p_data payld)) [] post) as Hc.
    change (zlen []) with 0 in Hc. rewrite app_nil_l in Hc.
    cbn [fmap list_fmap type_of fields] in Hc. rewrite Hc; [| |done].
    + cbn [mbind outcome_bind fields]. rewrite !ASSERT_range by done. cbn [mbind outcome_bind].
      by rewrite <-H4.
    + repeat apply Forall_cons_2; cbn [field_ok]; try done; (split; [lia|unfold in_width; lia]).
Qed.

(** The decoder is total: it returns, throws an access error or aborts. *)
Lemma unpack_checked_total nt nn d :
  fits d ->
  (exists r, unpack_checked nt nn d = Ok r) \/ unpack_checked nt nn d = throwAccessError \/
  unpack_checked nt nn d = Abort /\
    exists fs, unpack [TInt 1; TInt 1; TStr] d = Ok fs.
Proof.
  intros Hfit. unfold unpack_checked. rewrite unpack_unpack_seq.
  destruct (unpack_seq_safe [TInt 1; TInt 1; TStr] d 0) as [H1 H2];
    [by repeat constructor| |done|done|].
  { rewrite !not_elem_of_cons. split_and!; try done. apply not_elem_of_nil. }
  destruct (unpack_seq [TInt 1; TInt 1; TStr] d 0) as [fs|e| |] eqn:E; try done.
  - apply (unpack_seq_sound _ _ [] d) in E as (Ht & Hok & _); [|by repeat constructor|done|done].
    do 3 (destruct fs as [|[]]; try done). destruct fs; [|done]. cbn [mbind outcome_bind].
    unfold ASSERT. repeat case_goal; cbn [mbind outcome_bind]; eauto 6.
  - apply unpack_seq_throw in E as ->. cbn [mbind outcome_bind]. auto.
Qed.

End Codec.
End Message.

Module Event.
Import Part PartMulti Codec Message.

(** [Event::Notification] *)
Inductive notification := Discard | Timeout | Success | COUNT_notif.

(** [Event::Type] *)
Inductive type :=
  | Invalid | Started | Stopped | Offline | Online | Delivery | SyncRequest | SyncBegin
  | SyncElement | SyncSuccess | SyncError | SyncDownloadOn | SyncDownloadOff | COUNT.

#[global] Instance notification_eq_dec : EqDecision notification.
Proof. solve_decision. Defined.
#[global] Instance type_eq_dec : EqDecision type.
Proof. solve_decision. Defined.

Definition notif_toIntegral (v : notification) : Z :=
  match v with Discard => 0 | Timeout => 1 | Success => 2 | COUNT_notif => 3 end.

Definition toIntegral (v : type) : Z :=
  match v with
  | Invalid => 0 | Started => 1 | Stopped => 2 | Offline => 3 | Online => 4 | Delivery => 5
  | SyncRequest => 6 | SyncBegin => 7 | SyncElement => 8 | SyncSuccess => 9 | SyncError => 10
  | SyncDownloadOn => 11 | SyncDownloadOff => 12 | COUNT => 13
  end.

(** [Event::Type{type}] and [Event::Notification{notif}] of a checked value *)
Definition Type_of (z : Z) : type :=
  default COUNT
    ([Invalid; Started; Stopped; Offline; Online; Delivery; SyncRequest; SyncBegin;
      SyncElement; SyncSuccess; SyncError; SyncDownloadOn; SyncDownloadOff] !! Z.to_nat z).
Definition Notification_of (z : Z) : notification :=
  default COUNT_notif ([Discard; Timeout; Success] !! Z.to_nat z).

(** [Event::toString] *)
Definition notif_toString (v : notification) : bytes :=
  match v with
  | Discard => str "discard" | Timeout => str "timeout" | Success => str "success"
  | COUNT_notif => str "n/a"
  end.
Definition toString (v : type) : bytes :=
  match v with
  | Invalid => str "invalid" | Started => str "started" | Stopped => str "stopped"
  | Offline => str "offline" | Online => str "online" | Delivery => str "delivery"
  | SyncRequest => str "sync/request" | SyncBegin => str "sync/begin"
  | SyncElement => str "sync/element" | SyncSuccess => str "sync/success"
  | SyncError => str "sync/error" | SyncDownloadOn => str "sync/download/on"
  | SyncDownloadOff => str "sync/download/off" | COUNT => str "n/a"
  end.

Record event := mkEvent { type_ : type; notif_ : notification; payld_ : part }.

#[global] Instance event_eq_dec : EqDecision event.
Proof. solve_decision. Defined.

(** [Event::Event()], [Event::Event(Type, Notification, zmq::Part&&)] *)
Definition Event_empty : event := mkEvent Invalid Discard Part_empty.
Definition Event_new (t : type) (n : notification) (data : part) : event :=
  mkEvent t n (Part_move data).1.

Definition withType (v : type) (e : event) : event := mkEvent v (notif_ e) (payld_ e).
Definition withNotification (v : notification) (e : event) : event :=
  mkEvent (type_ e) v (payld_ e).
(** [Event::withPayload], of either kind: the assignment of a part copies. *)
Definition withPayload (v : part) (e : event) : outcome event :=
  d ← Part_assign (payld_ e) v; Ok (mkEvent (type_ e) (notif_ e) d).

Section Codec.
Context {P : Platform}.

(** [Event::toPart] *)
Definition event_toPart (e : event) : outcome part :=
  pack_checked (toIntegral COUNT) (notif_toIntegral COUNT_notif)
    (toIntegral (type_ e)) (notif_toIntegral (notif_ e)) (payld_ e).

(** [Event::fromPart(const zmq::Part&)], by [Event::fromPart(std::string_view)] *)
Definition event_fromString (d : bytes) : outcome event :=
  '(type, notif, payload) ← unpack_checked (toIntegral COUNT) (notif_toIntegral COUNT_notif) d;
  Ok (Event_new (Type_of type) (Notification_of notif) payload).
Definition event_fromPart (p : part) : outcome event := event_fromString (Part.toString p).

Record event_ok (e : event) : Prop := mkEventOk {
  ok_type : type_ e <> COUNT;
  ok_notif : notif_ e <> COUNT_notif;
  ok_payld : payld_ e = Part_bytes (p_data (payld_ e));
  ok_size : zlen (p_data (payld_ e)) < u32_max;
}.

Lemma Type_of_toIntegral v : Type_of (toIntegral v) = v.
Proof. by destruct v. Qed.
Lemma Notification_of_toIntegral v : Notification_of (notif_toIntegral v) = v.
Proof. by destruct v. Qed.
Lemma toIntegral_range v : v <> COUNT <-> 0 <= toIntegral v < 13.
Proof. destruct v; cbn; split; (congruence || lia). Qed.
Lemma notif_toIntegral_range v : v <> COUNT_notif <-> 0 <= notif_toIntegral v < 3.
Proof. destruct v; cbn; split; (congruence || lia). Qed.

Lemma toIntegral_Type_of z : 0 <= z < 13 -> toIntegral (Type_of z) = z /\ Type_of z <> COUNT.
Proof.
  intros Hz. assert (z ∈ (Z.of_nat <$> seq 0 13)) as Hin.
  { apply list_elem_of_fmap. exists (Z.to_nat z). split; [lia|]. apply elem_of_seq. lia. }
  clear Hz. revert z Hin. apply Forall_forall. repeat (constructor; [done|]). constructor.
Qed.
Lemma toIntegral_Notification_of z :
  0 <= z < 3 -> notif_toIntegral (Notification_of z) = z /\ Notification_of z <> COUNT_notif.
Proof. intros Hz. assert (z = 0 \/ z = 1 \/ z = 2) as [->|[-> | ->]] by lia; done. Qed.

Definition event_bytes (e : event) : bytes :=
  encs (fields (toIntegral (type_ e)) (notif_toIntegral (notif_ e)) (p_data (payld_ e))).

Lemma event_toPart_spec e : event_ok e ->
  event_toPart e = Ok (Part_bytes (event_bytes e)) /\ fits (event_bytes e).
Proof.
  intros [Ht Hn _ Hs]. apply pack_checked_spec; [done|done| | |done].
  - by apply toIntegral_range.
  - by apply notif_toIntegral_range.
Qed.

Lemma event_fromString_spec d e :
  fits d -> event_fromString d = Ok e <-> event_ok e /\ exists post, d = event_bytes e ++ post.
Proof.
  intros Hfit. unfold event_fromString. split.
  - intros ([[t n] p] & H & [= <-])%bind_Ok.
    apply unpack_checked_spec in H as (Ht & Hn & Hp & Hpp & post & Hd); [|done..].
    destruct (toIntegral_Type_of t Ht) as [Ht1 Ht2], (toIntegral_Notification_of n Hn) as [Hn1 Hn2].
    split; [by constructor|]. exists post. unfold event_bytes. cbn. by rewrite Ht1, Hn1.
  - intros [[Ht Hn Hp Hs] [post Hd]]. apply bind_Ok.
    exists (toIntegral (type_ e), notif_toIntegral (notif_ e), payld_ e). split.
    + apply unpack_checked_spec; [done..|]. apply toIntegral_range in Ht.
      apply notif_toIntegral_range in Hn. split_and!; try done; try (cbn in *; lia). by exists post.
    + rewrite Type_of_toIntegral, Notification_of_toIntegral. by destruct e.
Qed.

Lemma event_roundtrip e : event_ok e ->
  exists d, event_toPart e = Ok (Part_bytes d) /\ fits d /\ event_fromPart (Part_bytes d) = Ok e.
Proof.
  intros He. destruct (event_toPart_spec e He) as [H1 H2]. exists (event_bytes e).
  split_and!; [done|done|]. apply event_fromString_spec; [done|]. split; [done|].
  exists []. by rewrite app_nil_r.
Qed.

#[export] Instance event_codec : PartCodec event :=
  {| toPart := event_toPart; fromPart := event_fromPart; codec_ok := event_ok;
     codec_roundtrip := event_roundtrip |}.

End Codec.

(** [Event::fromPart] on any received buffer: it returns an event exactly when the buffer
    starts with the encoding of that event and its type and notification are values of the
    enumerations; otherwise it throws the access error or aborts, and never reads out of the
    buffer. *)
Theorem event_decode_total (P : Platform) (p : part) :
  fits (p_data p) ->
  (forall e, event_fromPart p = Ok e <->
     event_ok e /\ exists post, p_data p = event_bytes e ++ post) /\
  ((exists e, event_fromPart p = Ok e) \/ event_fromPart p = throwAccessError \/
   event_fromPart p = Abort).
Proof.
  intros Hfit. split; [intros e; by apply event_fromString_spec|].
  unfold event_fromPart, event_fromString, Part.toString.
  destruct (unpack_checked_total (toIntegral COUNT) (notif_toIntegral COUNT_notif) (p_data p) Hfit)
    as [[[[t n] pl] ->]|[->|[-> _]]]; cbn [mbind outcome_bind]; eauto.
Qed.

Lemma event_decode_total_witness :
  @event_fromPart x86_64 (Part_bytes [Byte.x04; Byte.x02; Byte.x01; Byte.x00; Byte.x00; Byte.x00; Byte.x41])
  = Ok (mkEvent Online Success (Part_bytes [Byte.x41])) /\
  @event_fromPart x86_64 (Part_bytes [Byte.x0d; Byte.x02; Byte.x00; Byte.x00; Byte.x00; Byte.x00])
  = Abort.
Proof.
  split; [|vm_compute; reflexivity].
  apply (event_decode_total x86_64); [vm_compute; reflexivity|].
  split; [constructor; vm_compute; congruence|]. exists []. vm_compute. reflexivity.
Defined.

End Event.

Module Operation.
Import Part PartMulti Codec Message.

(** [Operation::Notification] *)
Inductive notification := Discard | Success | COUNT_notif.

(** [Operation::Type] *)
Inductive type := Invalid | Start | Stop | Dispatch | Sync | COUNT.

#[global] Instance notification_eq_dec : EqDecision notification.
Proof. solve_decision. Defined.
#[global] Instance type_eq_dec : EqDecision type.
Proof. solve_decision. Defined.

Definition notif_toIntegral (v : notification) : Z :=
  match v with Discard => 0 | Success => 1 | COUNT_notif => 2 end.
Definition toIntegral (v : type) : Z :=
  match v with
  | Invalid => 0 | Start => 1 | Stop => 2 | Dispatch => 3 | Sync => 4 | COUNT => 5
  end.
Definition Type_of (z : Z) : type :=
  default COUNT ([Invalid; Start; Stop; Dispatch; Sync] !! Z.to_nat z).
Definition Notification_of (z : Z) : notification :=
  default COUNT_notif ([Discard; Success] !! Z.to_nat z).

(** [Operation::toString] *)
Definition notif_toString (v : notification) : bytes :=
  match v with
  | Discard => str "discard" | Success => str "success" | COUNT_notif => str "n/a"
  end.
Definition toString (v : type) : bytes :=
  match v with
  | Invalid => str "invalid" | Start => str "start" | Stop => str "stop"
  | Dispatch => str "dispatch" | Sync => str "sync" | COUNT => str "n/a"
  end.

Record operation := mkOp { type_ : type; notif_ : notification; payld_ : part }.

#[global] Instance operation_eq_dec : EqDecision operation.
Proof. solve_decision. Defined.

(** [Operation::Operation()], [Operation::Operation(Type, Notification, zmq::Part&&)] *)
Definition Operation_empty : operation := mkOp Invalid Discard Part_empty.
Definition Operation_new (t : type) (n : notification) (data : part) : operation :=
  mkOp t n (Part_move data).1.

Definition withType (v : type) (o : operation) : operation := mkOp v (notif_ o) (payld_ o).
Definition withNotification (v : notification) (o : operation) : operation :=
  mkOp (type_ o) v (payld_ o).
(** [Operation::withPayload], of either kind: the assignment of a part copies. *)
Definition withPayload (v : part) (o : operation) : outcome operation :=
  d ← Part_assign (payld_ o) v; Ok (mkOp (type_ o) (notif_ o) d).

Section Codec.
Context {P : Platform}.

(** [Operation::toPart] *)
Definition operation_toPart (o : operation) : outcome part :=
  pack_checked (toIntegral COUNT) (notif_toIntegral COUNT_notif)
    (toIntegral (type_ o)) (notif_toIntegral (notif_ o)) (payld_ o).

(** [Operation::fromPart] *)
Definition operation_fromPart (p : part) : outcome operation :=
  '(type, notif, payload) ←
    unpack_checked (toIntegral COUNT) (notif_toIntegral COUNT_notif) (p_data p);
  Ok (Operation_new (Type_of type) (Notification_of notif) payload).

Record operation_ok (o : operation) : Prop := mkOperationOk {
  ok_type : type_ o <> COUNT;
  ok_notif : notif_ o <> COUNT_notif;
  ok_payld : payld_ o = Part_bytes (p_data (payld_ o));
  ok_size : zlen (p_data (payld_ o)) < u32_max;
}.

Lemma operation_roundtrip o : operation_ok o ->
  exists d, operation_toPart o = Ok (Part_bytes d) /\ fits d /\
    operation_fromPart (Part_bytes d) = Ok o.
Proof.
  intros [Ht Hn Hp Hs].
  assert (0 <= toIntegral (type_ o) < 5) as Ht' by (destruct (type_ o); cbn; (congruence || lia)).
  assert (0 <= notif_toIntegral (notif_ o) < 2) as Hn'
    by (destruct (notif_ o); cbn; (congruence || lia)).
  destruct (pack_checked_spec 5 2 (toIntegral (type_ o)) (notif_toIntegral (notif_ o)) (payld_ o))
    as [H1 H2]; [lia..|done|].
  eexists. split_and!; [exact H1|exact H2|]. unfold operation_fromPart. apply bind_Ok.
  exists (toIntegral (type_ o), notif_toIntegral (notif_ o), payld_ o). split.
  - apply unpack_checked_spec; [done..|]. split_and!; try (cbn; lia); try done.
    exists []. by rewrite app_nil_r.
  - destruct o as [t n p]. cbn. by destruct t, n.
Qed.

#[export] Instance operation_codec : PartCodec operation :=
  {| toPart := operation_toPart; fromPart := operation_fromPart; codec_ok := operation_ok;
     codec_roundtrip := operation_roundtrip |}.

End Codec.
End Operation.
