(* ===== verification/Config.v ===== *)
(** * WorkerConfig and BrokerConfig (src/workerconfig.cpp, src/brokerconfig.cpp)

    The configuration handed to the asynchronous task at start; it travels packed,
    its lists as packed iterables nested in the packed tuple. *)

From S2P Require Import Prelude Part PartMulti Codec Uuid Topic.

Local Open Scope Z_scope.

Module Config.
Import Part PartMulti Codec Uuid Topic.

(** A container filled through [std::inserter(c, c.begin())]: the iterator is moved past
    each inserted item. *)
Fixpoint inserter {A} (pos : nat) (c : list A) (items : list A) : list A :=
  match items with
  | [] => c
  | a :: items => inserter (S pos) (take pos c ++ a :: drop pos c) items
  end.

Lemma inserter_app {A} (items c1 c2 : list A) :
  inserter (length c1) (c1 ++ c2) items = c1 ++ items ++ c2.
Proof.
  revert c1. induction items as [|a items IH]; intros c1; cbn [inserter]; [done|].
  rewrite take_app_length, drop_app_length.
  replace (S (length c1)) with (length (c1 ++ [a])) by (rewrite length_app; cbn; lia).
  rewrite (cons_middle a c1 c2), app_assoc. rewrite IH. by rewrite <-app_assoc.
Qed.

Record WorkerConfig := mkWorkerConfig {
  uuid_ : uuid;
  seqNum : Z;
  topicsAll : bool;
  topicsNames : list name;
  endpDelivery : list bytes;
  endpDispatch : list bytes;
  endpSnapshot : list bytes;
}.

#[export] Instance WorkerConfig_eq_dec : EqDecision WorkerConfig.
Proof. solve_decision. Defined.

Record BrokerConfig := mkBrokerConfig {
  b_uuid : uuid;
  b_endpDelivery : list bytes;
  b_endpDispatch : list bytes;
  b_endpSnapshot : list bytes;
}.

#[export] Instance BrokerConfig_eq_dec : EqDecision BrokerConfig.
Proof. solve_decision. Defined.

(** [WorkerConfig::operator==] *)
Definition WorkerConfig_eqb (a b : WorkerConfig) : bool :=
  uuid_eqb (uuid_ a) (uuid_ b) && (seqNum a =? seqNum b) &&
  Bool.eqb (topicsAll a) (topicsAll b) &&
  bool_decide (topicsNames a = topicsNames b) &&
  bool_decide (endpDelivery a = endpDelivery b) &&
  bool_decide (endpDispatch a = endpDispatch b) &&
  bool_decide (endpSnapshot a = endpSnapshot b).

(** [BrokerConfig::operator==] *)
Definition BrokerConfig_eqb (a b : BrokerConfig) : bool :=
  uuid_eqb (b_uuid a) (b_uuid b) &&
  bool_decide (b_endpDelivery a = b_endpDelivery b) &&
  bool_decide (b_endpDispatch a = b_endpDispatch b) &&
  bool_decide (b_endpSnapshot a = b_endpSnapshot b).

Section Codec.
Context {P : Platform}.

(** [PartMulti::pack(it, it)] of strings, [PartMulti::unpack(part, std::inserter(..))] *)
Definition pack_strings (l : list bytes) : outcome part := pack_iter (FStr <$> l).

Definition field_str (f : field) : outcome bytes :=
  match f with FStr s => Ok s | _ => Undef end.

Fixpoint fields_str (fs : list field) : outcome (list bytes) :=
  match fs with
  | [] => Ok []
  | f :: fs => s ← field_str f; l ← fields_str fs; Ok (s :: l)
  end.

Definition unpack_strings (d : bytes) : outcome (list bytes) :=
  fs ← unpack_iter TStr d;
  l ← fields_str fs;
  Ok (inserter 0 [] l).

(** [WorkerConfig::toPart] *)
Definition WorkerConfig_toPart (wc : WorkerConfig) : outcome part :=
  p1 ← pack_strings (name_str <$> topicsNames wc);
  p2 ← pack_strings (endpDelivery wc);
  p3 ← pack_strings (endpDispatch wc);
  p4 ← pack_strings (endpSnapshot wc);
  pack [FArr (uuid_ wc); FInt 8 (seqNum wc); FBool (topicsAll wc);
        FStr (p_data p1); FStr (p_data p2); FStr (p_data p3); FStr (p_data p4)].

(** [WorkerConfig::fromPart] *)
Definition WorkerConfig_fromPart (p : part) : outcome WorkerConfig :=
  fs ← unpack [TArr 16; TInt 8; TBool; TStr; TStr; TStr; TStr] (p_data p);
  match fs with
  | [FArr uuid; FInt _ seqNum; FBool getall; FStr subscr; FStr endp1; FStr endp2; FStr endp3] =>
    names ← unpack_strings subscr;
    e1 ← unpack_strings endp1;
    e2 ← unpack_strings endp2;
    e3 ← unpack_strings endp3;
    Ok (mkWorkerConfig (fromBytes uuid) seqNum getall (Name <$> names) e1 e2 e3)
  | _ => Undef
  end.

(** [BrokerConfig::toPart] *)
Definition BrokerConfig_toPart (bc : BrokerConfig) : outcome part :=
  p1 ← pack_strings (b_endpDelivery bc);
  p2 ← pack_strings (b_endpDispatch bc);
  p3 ← pack_strings (b_endpSnapshot bc);
  pack [FArr (b_uuid bc); FStr (p_data p1); FStr (p_data p2); FStr (p_data p3)].

(** [BrokerConfig::fromPart] *)
Definition BrokerConfig_fromPart (p : part) : outcome BrokerConfig :=
  fs ← unpack [TArr 16; TStr; TStr; TStr] (p_data p);
  match fs with
  | [FArr uuid; FStr endp1; FStr endp2; FStr endp3] =>
    e1 ← unpack_strings endp1;
    e2 ← unpack_strings endp2;
    e3 ← unpack_strings endp3;
    Ok (mkBrokerConfig (fromBytes uuid) e1 e2 e3)
  | _ => Undef
  end.

Lemma WorkerConfig_fromPart_uuid p wc : fits (p_data p) -> WorkerConfig_fromPart p = Ok wc ->
  uuid_ok (uuid_ wc) /\ in_width 8 (seqNum wc).
Proof.
  intros Hd. unfold WorkerConfig_fromPart. intros (fs & Hu & H)%bind_Ok.
  apply unpack_types in Hu as [Ht Hok]; [|by repeat constructor|done].
  shape Ht. apply bind_Ok in H as (? & _ & H). apply bind_Ok in H as (? & _ & H).
  apply bind_Ok in H as (? & _ & H). apply bind_Ok in H as (? & _ & [= <-]). cbn.
  repeat (apply Forall_cons in Hok as [? Hok]). cbn [field_ok] in *. split; [done|intuition].
Qed.

(** ** Decoding of any bytes *)

Lemma unpack_replicate_str n : forall pm pos fs, unpack_seq (replicate n TStr) pm pos = Ok fs -> exists l, fs = FStr <$> l.
Proof.
  induction n as [|n IH]; intros pm pos fs; cbn [replicate unpack_seq]; [intros [= <-]; by exists []|].
  intros (v & Hv & (vs & Hvs & [= <-])%bind_Ok)%bind_Ok. apply IH in Hvs as (l & ->).
  unfold unpack1 in Hv. apply bind_Ok in Hv as (? & _ & (s & _ & [= <-])%bind_Ok). by exists (s :: l).
Qed.

Lemma fields_str_fmap l : fields_str (FStr <$> l) = Ok l.
Proof. induction l as [|s l IH]; [done|]. rewrite fmap_cons. cbn [fields_str field_str mbind outcome_bind]. by rewrite IH. Qed.

Lemma unpack_strings_defined d : fits d -> unpack_strings d <> Undef.
Proof.
  intros Hd. unfold unpack_strings, unpack_iter. rewrite unpack2_seq.
  destruct (unpack_seq_safe [TInt 4; TInt 4] d 0) as [H1 _]; [repeat constructor; lia|set_solver|done|done|].
  destruct (unpack_seq [TInt 4; TInt 4] d 0) as [fs| | |] eqn:E; try done. cbn [mbind outcome_bind].
  rewrite <-unpack_unpack_seq in E. apply unpack_types in E as [Ht _]; [|repeat constructor; lia|done]. shape Ht.
  rewrite unpack_loop_seq. match goal with |- context [unpack_seq ?ts ?pm ?pos] =>
    destruct (unpack_seq_safe ts pm pos) as [H2 _]; [by apply Forall_replicate| |done|done|];
    [intros [H _]%elem_of_replicate; discriminate H|]; destruct (unpack_seq ts pm pos) as [gs| | |] eqn:E2; try done
  end.
  apply unpack_replicate_str in E2 as (l & ->). cbn [mbind outcome_bind]. by rewrite fields_str_fmap.
Qed.

(** A byte that is no value of [bool] *)
Definition bad_bool (b : byte) : Prop := b <> Byte.x00 /\ b <> Byte.x01.

Lemma from_one b : memcpyWithEndian_from [b] = byte_Z b.
Proof.
  unfold memcpyWithEndian_from, memcpyWithEndian, mem_value. rewrite reverse_singleton.
  destruct (Bool.eqb host_little wire_little), host_little; rewrite ?reverse_singleton; cbn; lia.
Qed.

Lemma unpack1_bool pm pos : 0 <= pos -> fits pm ->
  (exists b, pm !! Z.to_nat pos = Some b /\ bad_bool b) /\ unpack1 TBool pm pos = Undef \/
  (forall b, pm !! Z.to_nat pos = Some b -> ~ bad_bool b) /\
    (unpack1 TBool pm pos = throwAccessError \/ exists v, unpack1 TBool pm pos = Ok (FBool v)).
Proof.
  intros Hp Hfit. unfold unpack1. cbn [psize]. destruct (accessOutOfBoundary pm pos 1) eqn:E.
  - right. split; [|by left]. intros b Hb. apply lookup_lt_Some in Hb.
    rewrite (proj2 (oob_false pm pos 1 Hp ltac:(unfold u64_max; lia) Hfit)) in E; [done|unfold zlen; lia].
  - cbn [mbind outcome_bind]. destruct (load_checked pm pos 1) as (buf & -> & Hl & Hb & Hz); [done|unfold u64_max; lia|done..|].
    destruct buf as [|b [|]]; try discriminate Hl. cbn [mbind outcome_bind]. rewrite from_one.
    assert (pm !! Z.to_nat pos = Some b) as Hlk.
    { rewrite <-(Nat.add_0_r (Z.to_nat pos)), <-lookup_drop.
      destruct (drop (Z.to_nat pos) pm) as [|b' l]; [done|]. by injection Hb as ->. }
    destruct (Z.eqb_spec (byte_Z b) 0) as [H0|H0].
    { apply (byte_Z_inj b Byte.x00) in H0 as ->. right. split; [|by eauto]. intros b. rewrite Hlk. intros [= <-] [? _]. done. }
    destruct (Z.eqb_spec (byte_Z b) 1) as [H1|H1].
    { apply (byte_Z_inj b Byte.x01) in H1 as ->. right. split; [|by eauto]. intros b. rewrite Hlk. intros [= <-] [_ ?]. done. }
    left. split; [|done]. exists b. split; [done|]. split; by intros ->.
Qed.

(** The byte of the flag in the packed configuration of a worker *)
Definition bad_flag (d : bytes) : Prop := exists b, d !! 24%nat = Some b /\ bad_bool b.

#[export] Instance bad_flag_dec d : Decision (bad_flag d).
Proof.
  refine (match d !! 24%nat as o return d !! 24%nat = o -> Decision (bad_flag d) with
          | Some b => fun E => cast_if (decide (b <> Byte.x00 /\ b <> Byte.x01))
          | None => fun E => right _ end eq_refl).
  - by exists b.
  - intros (b' & Hb' & Hbad). by rewrite E in Hb'; injection Hb' as <-.
  - intros (b' & Hb' & _). by rewrite E in Hb'.
Defined.

Lemma good_flag d :
  match d !! 24%nat with Some Byte.x00 | Some Byte.x01 | None => true | _ => false end = true -> ~ bad_flag d.
Proof. intros H (b & Hb & H0 & H1). rewrite Hb in H. by destruct b. Qed.

Lemma bad_flag_long d : bad_flag d -> 25 <= zlen d.
Proof. intros (b & Hb%lookup_lt_Some & _). unfold zlen. lia. Qed.

(** The two fields in front of the flag take 24 bytes. *)
Lemma unpack_front d ts : fits d ->
  (exists a n, unpack_seq (TArr 16 :: TInt 8 :: ts) d 0 = (vs ← unpack_seq ts d 24; Ok (FArr a :: FInt 8 n :: vs))) \/
  unpack_seq (TArr 16 :: TInt 8 :: ts) d 0 = throwAccessError /\ zlen d < 24.
Proof.
  intros Hd. cbn [unpack_seq]. unfold unpack1. cbn [psize].
  destruct (decide (24 <= zlen d)) as [Hl|Hl].
  - left. rewrite !oob_in by (done || lia). cbn [mbind outcome_bind]. rewrite load_slice by lia.
    change (Z.to_nat (Z.of_nat 16)) with 16%nat. change (Z.to_nat 0) with 0%nat. rewrite drop_0. cbn [mbind outcome_bind tsize].
    assert (zlen (take 16 d) = 16) as -> by (unfold zlen in *; rewrite length_take; lia).
    change (wrap64 (0 + 16)) with 16. change (Z.of_nat 8) with 8. rewrite oob_in by (done || lia). cbn [mbind outcome_bind].
    rewrite load_slice by lia. cbn [mbind outcome_bind tsize]. change (wrap64 (16 + Z.of_nat 8)) with 24.
    do 2 eexists. destruct (unpack_seq ts d 24); reflexivity.
  - right. split; [|lia]. destruct (accessOutOfBoundary d 0 (Z.of_nat 16)) eqn:E; [done|]. cbn [mbind outcome_bind].
    apply oob_false in E; [|lia|unfold u64_max; lia|done]. rewrite load_slice by lia. cbn [mbind outcome_bind tsize].
    assert (zlen (take (Z.to_nat (Z.of_nat 16)) (drop (Z.to_nat 0) d)) = 16) as -> by (unfold zlen in *; rewrite length_take, length_drop; lia).
    change (wrap64 (0 + 16)) with 16. destruct (accessOutOfBoundary d 16 (Z.of_nat 8)) eqn:E2; [done|].
    apply oob_false in E2; [lia|lia|unfold u64_max; lia|done].
Qed.

Lemma unpack_flag d : fits d -> unpack [TArr 16; TInt 8; TBool; TStr; TStr; TStr; TStr] d = Undef <-> bad_flag d.
Proof.
  intros Hd. rewrite unpack_unpack_seq. destruct (unpack_front d [TBool; TStr; TStr; TStr; TStr] Hd) as [(a & n & ->)|[-> Hl]].
  2: { split; [done|]. intros Hb%bad_flag_long. lia. }
  destruct (unpack_seq_safe [TStr; TStr; TStr; TStr] d (wrap64 (24 + 1))) as [Hs _]; [by repeat constructor|set_solver|done|apply wrapn_in_width|].
  rewrite (eq_refl : unpack_seq [TBool; TStr; TStr; TStr; TStr] d 24 =
    (v ← unpack1 TBool d 24; vs ← unpack_seq [TStr; TStr; TStr; TStr] d (wrap64 (24 + tsize v)); Ok (v :: vs))).
  destruct (unpack1_bool d 24) as [[Hb ->]|[Hb [->|[v ->]]]]; try done.
  - split; [done|]. intros (b & Hlk & Hbad). by destruct (Hb b Hlk).
  - cbn [mbind outcome_bind tsize]. split; [by destruct (unpack_seq _ _ _)|]. intros (b & Hlk & Hbad). by destruct (Hb b Hlk).
Qed.

(** Decoding a configuration of a worker is undefined exactly when the byte of its flag is no
    value of [bool]. *)
Lemma WorkerConfig_fromPart_flag p : fits (p_data p) -> WorkerConfig_fromPart p = Undef <-> bad_flag (p_data p).
Proof.
  intros Hd. rewrite <-unpack_flag by done. unfold WorkerConfig_fromPart.
  destruct (unpack _ (p_data p)) as [fs| | |] eqn:E; try done. cbn [mbind outcome_bind].
  apply unpack_types in E as [Ht Hok]; [|by repeat constructor|done]. shape Ht. split; [|done].
  repeat (apply Forall_cons in Hok as [? Hok]). cbn [field_ok] in *.
  assert (forall s, zlen s < u32_max -> unpack_strings s <> Undef) as Hs
    by (intros x Hz; apply unpack_strings_defined; unfold fits, u64_max, u32_max in *; lia).
  repeat match goal with |- context [unpack_strings ?s] =>
    pose proof (Hs s ltac:(done)); destruct (unpack_strings s); cbn [mbind outcome_bind]; try done end.
Qed.

(** ** Round trips *)

(** A list whose packed form fits 32 bit lengths. *)
Definition strings_ok (l : list bytes) : Prop :=
  8 + zlen (encs (FStr <$> l)) < u32_max.

Lemma strings_field_ok l : strings_ok l -> Forall field_ok (FStr <$> l) /\ iter_fits (FStr <$> l).
Proof.
  unfold strings_ok, iter_fits. intros H.
  assert (Forall (fun s => zlen s < u32_max) l /\
          Z.of_nat (length (FStr <$> l)) <= zlen (encs (FStr <$> l))) as [H1 H2].
  { induction l as [|s l IH]; [split; [constructor|done]|].
    rewrite fmap_cons, encs_cons, zlen_app in *. cbn [enc length] in *.
    rewrite zlen_app, zlen_to in *. pose proof (zlen_nonneg s).
    pose proof (zlen_nonneg (encs (FStr <$> l))).
    destruct IH as [IH1 IH2]; [lia|]. split; [constructor; [unfold u32_max in *; lia|done]|lia]. }
  split; [|lia]. apply Forall_fmap. eapply Forall_impl; [exact H1|]. done.
Qed.

Lemma strings_roundtrip l : strings_ok l ->
  pack_strings l = Ok (Part_bytes (iter_enc (FStr <$> l))) /\
  zlen (iter_enc (FStr <$> l)) < u32_max /\
  unpack_strings (iter_enc (FStr <$> l)) = Ok l.
Proof.
  intros Hl. destruct (strings_field_ok l Hl) as [Hok Hfit]. split_and!.
  - unfold pack_strings. rewrite pack_iter_enc by done. by rewrite decide_True.
  - by rewrite zlen_iter_enc.
  - unfold unpack_strings. pose proof (unpack_iter_complete TStr (FStr <$> l) [] Hok) as H.
    rewrite app_nil_r in H. rewrite H.
    + cbn [mbind outcome_bind]. rewrite fields_str_fmap. cbn [mbind outcome_bind].
      pose proof (inserter_app l [] []) as Hi. cbn in Hi. by rewrite Hi, app_nil_r.
    + apply Forall_fmap. by apply Forall_true.
    + done.
    + unfold fits. rewrite zlen_iter_enc. unfold strings_ok, u64_max, u32_max in *. lia.
Qed.

Record WorkerConfig_ok (wc : WorkerConfig) : Prop := mkWorkerConfigOk {
  wc_uuid : uuid_ok (uuid_ wc);
  wc_seq : in_width 8 (seqNum wc);
  wc_names : Forall name_ok (topicsNames wc);
  wc_names_size : strings_ok (name_str <$> topicsNames wc);
  wc_delivery : strings_ok (endpDelivery wc);
  wc_dispatch : strings_ok (endpDispatch wc);
  wc_snapshot : strings_ok (endpSnapshot wc);
}.

Record BrokerConfig_ok (bc : BrokerConfig) : Prop := mkBrokerConfigOk {
  bc_uuid : uuid_ok (b_uuid bc);
  bc_delivery : strings_ok (b_endpDelivery bc);
  bc_dispatch : strings_ok (b_endpDispatch bc);
  bc_snapshot : strings_ok (b_endpSnapshot bc);
}.

Lemma Name_names l : Forall name_ok l -> Name <$> (name_str <$> l) = l.
Proof.
  induction 1 as [|n l Hn Hl IH]; [done|]. rewrite !fmap_cons, IH. by rewrite Name_str.
Qed.

Lemma WorkerConfig_roundtrip wc : WorkerConfig_ok wc ->
  exists d, WorkerConfig_toPart wc = Ok (Part_bytes d) /\ fits d /\
    WorkerConfig_fromPart (Part_bytes d) = Ok wc.
Proof.
  intros [Hu Hs Hn H1 H2 H3 H4].
  destruct (strings_roundtrip _ H1) as (P1 & S1 & U1), (strings_roundtrip _ H2) as (P2 & S2 & U2),
    (strings_roundtrip _ H3) as (P3 & S3 & U3), (strings_roundtrip _ H4) as (P4 & S4 & U4).
  unfold WorkerConfig_toPart. rewrite P1, P2, P3, P4. cbn [mbind outcome_bind p_data Part_bytes].
  match goal with |- context [pack ?fs] => destruct (pack_fields fs) as (K1 & K2 & K3) end.
  { cbn [length]. lia. }
  { repeat apply Forall_cons_2; cbn [small_field]; try done. unfold zlen. by rewrite Hu. }
  eexists. split_and!; [exact K1|exact K2|]. unfold WorkerConfig_fromPart. cbn [p_data Part_bytes].
  cbn [fmap list_fmap type_of] in K3. unfold uuid_ok, uuid_size in Hu. rewrite Hu in K3. rewrite K3.
  cbn [mbind outcome_bind]. change (list_fmap bytes field FStr) with (fmap (M:=list) FStr) in *.
  change (list_fmap name bytes name_str) with (fmap (M:=list) name_str) in *.
  rewrite U1, U2, U3, U4. cbn [mbind outcome_bind]. rewrite Name_names by done. by destruct wc.
Qed.

(** No configuration of a worker within the limits of its packed form has a bad flag in it. *)
Lemma WorkerConfig_toPart_flag wc p : WorkerConfig_ok wc -> WorkerConfig_toPart wc = Ok p -> ~ bad_flag (p_data p).
Proof.
  intros (d & Hd & Hf & Hrt)%WorkerConfig_roundtrip. rewrite Hd. intros [= <-] Hb.
  apply (WorkerConfig_fromPart_flag (Part_bytes d)) in Hb; [congruence|done].
Qed.

Lemma BrokerConfig_roundtrip bc : BrokerConfig_ok bc ->
  exists d, BrokerConfig_toPart bc = Ok (Part_bytes d) /\ fits d /\
    BrokerConfig_fromPart (Part_bytes d) = Ok bc.
Proof.
  intros [Hu H2 H3 H4].
  destruct (strings_roundtrip _ H2) as (P2 & S2 & U2),
    (strings_roundtrip _ H3) as (P3 & S3 & U3), (strings_roundtrip _ H4) as (P4 & S4 & U4).
  unfold BrokerConfig_toPart. rewrite P2, P3, P4. cbn [mbind outcome_bind p_data Part_bytes].
  match goal with |- context [pack ?fs] => destruct (pack_fields fs) as (K1 & K2 & K3) end.
  { cbn [length]. lia. }
  { repeat apply Forall_cons_2; cbn [small_field]; try done. unfold zlen. by rewrite Hu. }
  eexists. split_and!; [exact K1|exact K2|]. unfold BrokerConfig_fromPart. cbn [p_data Part_bytes].
  cbn [fmap list_fmap type_of] in K3. unfold uuid_ok, uuid_size in Hu. rewrite Hu in K3. rewrite K3.
  cbn [mbind outcome_bind]. change (list_fmap bytes field FStr) with (fmap (M:=list) FStr) in *.
  rewrite U2, U3, U4. cbn [mbind outcome_bind]. by destruct bc.
Qed.

(** Packing a configuration of any size returns or throws. *)
Lemma pack_strings_safe l :
  (exists e, pack_strings l = Throw e) \/ exists d, pack_strings l = Ok (Part_bytes d).
Proof.
  unfold pack_strings, pack_iter. destruct (pack_iter_over_safe Byte.x00 (FStr <$> l)) as [->|(d & ->)].
  - apply Forall_fmap, Forall_true. done.
  - left. by eexists.
  - right. by eexists.
Qed.

Lemma WorkerConfig_toPart_safe wc : uuid_ok (uuid_ wc) ->
  (exists e, WorkerConfig_toPart wc = Throw e) \/ exists d, WorkerConfig_toPart wc = Ok (Part_bytes d).
Proof.
  intros Hu. unfold WorkerConfig_toPart.
  destruct (pack_strings_safe (name_str <$> topicsNames wc)) as [(e & ->)|(d1 & ->)]; [left; by eexists|].
  destruct (pack_strings_safe (endpDelivery wc)) as [(e & ->)|(d2 & ->)]; [left; by eexists|].
  destruct (pack_strings_safe (endpDispatch wc)) as [(e & ->)|(d3 & ->)]; [left; by eexists|].
  destruct (pack_strings_safe (endpSnapshot wc)) as [(e & ->)|(d4 & ->)]; [left; by eexists|].
  cbn [mbind outcome_bind]. unfold pack.
  match goal with |- context [pack_over ?f ?fs] => destruct (pack_over_safe f fs) as [->|(d & ->)] end.
  - repeat constructor. cbn. unfold zlen. by rewrite Hu.
  - left. by eexists.
  - right. by eexists.
Qed.

#[export] Instance WorkerConfig_codec : PartCodec WorkerConfig :=
  {| toPart := WorkerConfig_toPart; fromPart := WorkerConfig_fromPart; codec_ok := WorkerConfig_ok;
     codec_roundtrip := WorkerConfig_roundtrip |}.
#[export] Instance BrokerConfig_codec : PartCodec BrokerConfig :=
  {| toPart := BrokerConfig_toPart; fromPart := BrokerConfig_fromPart; codec_ok := BrokerConfig_ok;
     codec_roundtrip := BrokerConfig_roundtrip |}.

End Codec.

(** Configurations reach the asynchronous task unchanged: [fromPart] of [toPart] gives back
    the worker's (and the broker's) configuration, lists in their order. *)
Theorem config_roundtrip (P : Platform) (wc : WorkerConfig) (bc : BrokerConfig) :
  WorkerConfig_ok wc -> BrokerConfig_ok bc ->
  (exists p, WorkerConfig_toPart wc = Ok p /\ WorkerConfig_fromPart p = Ok wc) /\
  (exists p, BrokerConfig_toPart bc = Ok p /\ BrokerConfig_fromPart p = Ok bc).
Proof.
  intros Hw Hb. destruct (WorkerConfig_roundtrip wc Hw) as (d & H1 & _ & H2).
  destruct (BrokerConfig_roundtrip bc Hb) as (d' & H3 & _ & H4).
  split; [by exists (Part_bytes d)|by exists (Part_bytes d')].
Qed.

Definition sample_wconfig : WorkerConfig :=
  mkWorkerConfig nil_uuid 7 false [Name (str "b"); Name (str "a")]
    [str "ipc:///tmp/d"] [str "ipc:///tmp/x"; str "ipc:///tmp/y"] [].
Definition sample_bconfig : BrokerConfig :=
  mkBrokerConfig nil_uuid [str "ipc:///tmp/d"] [str "ipc:///tmp/x"] [str "ipc:///tmp/s"].

Lemma config_roundtrip_witness :
  (exists p, @WorkerConfig_toPart x86_64 sample_wconfig = Ok p /\
     @WorkerConfig_fromPart x86_64 p = Ok sample_wconfig) /\
  (exists p, @BrokerConfig_toPart x86_64 sample_bconfig = Ok p /\
     @BrokerConfig_fromPart x86_64 p = Ok sample_bconfig).
Proof.
  apply config_roundtrip.
  - constructor; [done| | |done..]; [by vm_compute|].
    unfold sample_wconfig. cbn [topicsNames]. repeat constructor; vm_compute; try done; lia.
  - constructor; done.
Defined.

End Config.
