(* ===== verification/Socket.v ===== *)
(** * zmq::Socket (src/zmqsocket.cpp, include/fuurin/zmqsocket.h)

    A socket object owns a raw ZMQ socket between [open] and [close].  The ZMQ library is
    a parameter: [Zmq] gives the result of each of its calls, for the raw socket at hand
    and the number of calls made on it so far, so any behaviour over time is covered.
    Calls interrupted by a signal are repeated by the code, the parameter gives the first
    result other than EINTR. *)

From S2P Require Import Prelude Part.

Local Open Scope Z_scope.

Module Socket.
Import Part.

Definition EAGAIN : Z := 11.
Definition EHOSTUNREACH : Z := 113.
Definition ENOTSOCK : Z := 88.
Definition EADDRINUSE : Z := 98.

(** [Socket::Type] *)
Inductive type :=
  | PAIR | PUB | SUB | REQ | REP | DEALER | ROUTER | PULL | PUSH | SERVER | CLIENT | RADIO | DISH.

#[export] Instance type_eq_dec : EqDecision type.
Proof. solve_decision. Defined.

(** [zmqSocketType], the constants of zmq.h *)
Definition zmqSocketType (t : type) : Z :=
  match t with
  | PAIR => 0 | PUB => 1 | SUB => 2 | REQ => 3 | REP => 4 | DEALER => 5 | ROUTER => 6
  | PULL => 7 | PUSH => 8 | SERVER => 12 | CLIENT => 13 | RADIO => 14 | DISH => 15
  end.

(** Socket options *)
Definition ZMQ_SUBSCRIBE : Z := 6.
Definition ZMQ_LINGER : Z := 17.
Definition ZMQ_SNDHWM : Z := 23.
Definition ZMQ_RCVHWM : Z := 24.
Definition ZMQ_CONFLATE : Z := 54.

(** A raw socket: the object it belongs to, and how many that object created before. *)
Definition raw : Type := nat * nat.

(** The ZMQ library: [None] is success, [Some e] the errno.  [updateOnOpen] is what the
    pollers that observe the socket answer, [clock] the milliseconds since the start of a
    [bind] at each attempt. *)
Class Zmq := {
  zmq_socket : raw -> Z -> option Z;
  zmq_setsockopt : raw -> Z -> Z -> option Z;
  zmq_subscribe : raw -> bytes -> option Z;
  zmq_join : raw -> bytes -> option Z;
  zmq_connect : raw -> bytes -> option Z;
  zmq_bind : raw -> bytes -> nat -> option Z;
  zmq_last_endpoint : raw -> bytes -> bytes + Z;
  updateOnOpen : raw -> option error;
  clock : raw -> nat -> Z;
  zmq_msg_send : raw -> nat -> bool -> part -> option Z;
  zmq_msg_recv : raw -> nat -> bool -> part + Z;
}.

Record sock := mkSock {
  id_ : nat;
  gen_ : nat;
  type_ : type;
  ptr_ : option raw;
  linger_ : Z;
  hwmsnd_ : Z;
  hwmrcv_ : Z;
  conflate_ : bool;
  subscriptions_ : list bytes;
  groups_ : list bytes;
  endpoints_ : list bytes;
  openEndpoints_ : list bytes;
  calls_ : nat;
  sent_ : list part;
}.

(** [Socket::Socket] *)
Definition Socket (id : nat) (t : type) : sock :=
  mkSock id 0 t None 0 0 0 false [] [] [] [] 0 [].

Definition isOpen (s : sock) : bool := match ptr_ s with Some _ => true | None => false end.

(** [Socket::fileDescriptor], from what [zmq_getsockopt] gives *)
Definition fileDescriptor (zmq_getsockopt : Z + Z) (s : sock) : outcome Z :=
  if negb (isOpen s) then Throw (mkError ZMQSocketOptionGetFailed 0) else
  match zmq_getsockopt with inl fd => Ok fd | inr _ => Throw (mkError ZMQSocketOptionGetFailed 0) end.

Definition set_ptr (p : option raw) (g : nat) (s : sock) : sock :=
  mkSock (id_ s) g (type_ s) p (linger_ s) (hwmsnd_ s) (hwmrcv_ s) (conflate_ s)
    (subscriptions_ s) (groups_ s) (endpoints_ s) (openEndpoints_ s) (calls_ s) (sent_ s).
Definition set_open_endpoints (l : list bytes) (s : sock) : sock :=
  mkSock (id_ s) (gen_ s) (type_ s) (ptr_ s) (linger_ s) (hwmsnd_ s) (hwmrcv_ s) (conflate_ s)
    (subscriptions_ s) (groups_ s) (endpoints_ s) l (calls_ s) (sent_ s).
Definition log_call (l : list part) (s : sock) : sock :=
  mkSock (id_ s) (gen_ s) (type_ s) (ptr_ s) (linger_ s) (hwmsnd_ s) (hwmrcv_ s) (conflate_ s)
    (subscriptions_ s) (groups_ s) (endpoints_ s) (openEndpoints_ s) (S (calls_ s)) (sent_ s ++ l).

(** [Socket::setEndpoints], [setGroups], [setSubscriptions], [setLinger],
    [setHighWaterMark], [setConflate] *)
Definition setEndpoints (l : list bytes) (s : sock) : sock :=
  mkSock (id_ s) (gen_ s) (type_ s) (ptr_ s) (linger_ s) (hwmsnd_ s) (hwmrcv_ s) (conflate_ s)
    (subscriptions_ s) (groups_ s) l (openEndpoints_ s) (calls_ s) (sent_ s).
Definition setGroups (l : list bytes) (s : sock) : sock :=
  mkSock (id_ s) (gen_ s) (type_ s) (ptr_ s) (linger_ s) (hwmsnd_ s) (hwmrcv_ s) (conflate_ s)
    (subscriptions_ s) l (endpoints_ s) (openEndpoints_ s) (calls_ s) (sent_ s).
Definition setSubscriptions (l : list bytes) (s : sock) : sock :=
  mkSock (id_ s) (gen_ s) (type_ s) (ptr_ s) (linger_ s) (hwmsnd_ s) (hwmrcv_ s) (conflate_ s)
    l (groups_ s) (endpoints_ s) (openEndpoints_ s) (calls_ s) (sent_ s).
Definition setLinger (v : Z) (s : sock) : sock :=
  mkSock (id_ s) (gen_ s) (type_ s) (ptr_ s) v (hwmsnd_ s) (hwmrcv_ s) (conflate_ s)
    (subscriptions_ s) (groups_ s) (endpoints_ s) (openEndpoints_ s) (calls_ s) (sent_ s).
Definition setHighWaterMark (snd rcv : Z) (s : sock) : sock :=
  mkSock (id_ s) (gen_ s) (type_ s) (ptr_ s) (linger_ s) snd rcv (conflate_ s)
    (subscriptions_ s) (groups_ s) (endpoints_ s) (openEndpoints_ s) (calls_ s) (sent_ s).
Definition setConflate (v : bool) (s : sock) : sock :=
  mkSock (id_ s) (gen_ s) (type_ s) (ptr_ s) (linger_ s) (hwmsnd_ s) (hwmrcv_ s) v
    (subscriptions_ s) (groups_ s) (endpoints_ s) (openEndpoints_ s) (calls_ s) (sent_ s).

Section Open.
Context {Z_ : Zmq}.

(** [Socket::close]: closing a raw socket does not fail. *)
Definition close : M sock unit :=
  s ← get;
  if isOpen s
  then modify (fun s => set_ptr None (gen_ s) (set_open_endpoints [] s))
  else mret tt.

(** A call of the library on the open raw socket *)
Definition zcall (k : err_kind) (f : raw -> option Z) (arg : Z -> Z) : M sock unit :=
  s ← get;
  match ptr_ s with
  | None => throw (mkError k (arg ENOTSOCK))
  | Some r => match f r with Some e => throw (mkError k (arg e)) | None => mret tt end
  end.

(** The exceptions of these carry nested arguments, without an errno of their own. *)
Definition nested (e : Z) : Z := 0.

(** [Socket::setOption<int>], [Socket::setOption<std::string>], [Socket::join] *)
Definition setOption (opt v : Z) : M sock unit :=
  zcall ZMQSocketOptionSetFailed (fun r => zmq_setsockopt r opt v) nested.
Definition setOption_subscribe (v : bytes) : M sock unit :=
  zcall ZMQSocketOptionSetFailed (fun r => zmq_subscribe r v) nested.
Definition join (g : bytes) : M sock unit :=
  zcall ZMQSocketGroupFailed (fun r => zmq_join r (cstr g)) nested.

(** [Socket::connect(const std::string&)] *)
Definition connect1 (endp : bytes) : M sock unit :=
  zcall ZMQSocketConnectFailed (fun r => zmq_connect r (cstr endp)) nested.

(** The loops of [setOption], [getOption], [sendMessagePart] and [recvMessagePart]: an interrupted call is
    made again; [call k] is what attempt [k] gives.  The answers of [Zmq] are those of whole loops. *)
Definition EINTR : Z := 4.
Fixpoint retry {A} (fuel : nat) (call : nat -> A + Z) (k : nat) : option (A + Z) :=
  match fuel with
  | O => None
  | S fuel =>
    match call k with
    | inr e => if e =? EINTR then retry fuel call (S k) else Some (inr e)
    | inl a => Some (inl a)
    end
  end.

(** The loop of [Socket::bind(const std::string&, int)]: gives the last result; the fuel
    is the number of attempts left. *)
Fixpoint bind_loop (fuel : nat) (r : raw) (endp : bytes) (timeout : Z) (k : nat) : option (option Z) :=
  match fuel with
  | O => None
  | S fuel =>
    let rc := zmq_bind r endp k in
    if (negb (bool_decide (rc = Some EADDRINUSE)) || (timeout <? 0))%bool then Some rc else
    let msec := clock r (S k) in
    if ((0 <? timeout) && (timeout <=? msec))%bool then Some rc
    else bind_loop fuel r endp timeout (S k)
  end.

(** Attempts are at least 10 ms apart. *)
Definition bind_fuel (timeout : Z) : nat := S (Z.to_nat (timeout / 10)).

(** [Socket::bind(const std::string&, int)] *)
Definition bind1 (timeout : Z) (endp : bytes) : M sock unit :=
  zcall ZMQSocketBindFailed
    (fun r => match bind_loop (bind_fuel timeout) r (cstr endp) timeout 0 with
              | Some rc => rc | None => Some EADDRINUSE end) nested.

(** [Socket::description] *)
Definition description (s : sock) : bytes := default [] (head (endpoints_ s)).

(** [getOption<std::string>(ZMQ_LAST_ENDPOINT)] and its [push_back] *)
Definition push_last_endpoint (endp : bytes) : M sock unit :=
  s ← get;
  match ptr_ s with
  | None => throw (mkError ZMQSocketOptionGetFailed 0)
  | Some r =>
    match zmq_last_endpoint r endp with
    | inr e => throw (mkError ZMQSocketOptionGetFailed 0)
    | inl last => modify (fun s => set_open_endpoints (openEndpoints_ s ++ [last]) s)
    end
  end.

(** The part of [Socket::open] that configures the new raw socket and connects or binds it *)
Definition open_setup (action : bytes -> M sock unit) : M sock unit :=
  s ← get;
  setOption ZMQ_LINGER (getMillis int_max (linger_ s));;
  setOption ZMQ_SNDHWM (hwmsnd_ s);;
  setOption ZMQ_RCVHWM (hwmrcv_ s);;
  setOption ZMQ_CONFLATE (if conflate_ s then 1 else 0);;
  mfor (subscriptions_ s) setOption_subscribe;;
  mfor (groups_ s) join;;
  (if decide (endpoints_ s = [])
   then action []
   else mfor (endpoints_ s) (fun endp => action endp;; push_last_endpoint endp)).

(** The part under the scope guard that closes the socket unless everything succeeds: the
    set-up, then the observers *)
Definition open_body (action : bytes -> M sock unit) : M sock unit :=
  open_setup action;;
  s ← get;
  match ptr_ s ≫= updateOnOpen with
  | Some e => throw e
  | None => mret tt
  end.

(** [Socket::open] *)
Definition open (action : bytes -> M sock unit) : M sock unit :=
  s ← get;
  if isOpen s then throw (mkError ZMQSocketCreateFailed 0) else
  let r : raw := (id_ s, gen_ s) in
  match zmq_socket r (zmqSocketType (type_ s)) with
  | Some e => throw (mkError ZMQSocketCreateFailed e)
  | None =>
    modify (fun s => set_ptr (Some r) (S (gen_ s)) s);;
    guard_exit (open_body action) close
  end.

(** [Socket::connect()], [Socket::bind()] *)
Definition connect : M sock unit := open connect1.
Definition bind : M sock unit := open (bind1 5000).

(** ** Sending *)

(** [sendMessagePart]: the number of bytes, or -1 when it would block *)
Definition sendMessagePart (dontwait : bool) (p : part) : M sock Z :=
  s ← get;
  match ptr_ s with
  | None => throw (mkError ZMQSocketSendFailed ENOTSOCK)
  | Some r =>
    match zmq_msg_send r (calls_ s) dontwait p with
    | None => modify (log_call [p]);; mret (size p)
    | Some e =>
      modify (log_call []);;
      if e =? EAGAIN then mret (-1) else throw (mkError ZMQSocketSendFailed e)
    end
  end.

(** [Socket::send(part, args...)] *)
Fixpoint send (ps : list part) : M sock Z :=
  match ps with
  | [] => mret 0
  | [p] => sendMessagePart false p
  | p :: ps => n ← sendMessagePart false p; m ← send ps; mret (n + m)
  end.

(** [Socket::trySend(part, args...)] *)
Fixpoint trySend (ps : list part) : M sock Z :=
  match ps with
  | [] => mret 0
  | [p] => sendMessagePart true p
  | p :: ps =>
    n1 ← sendMessagePart true p;
    if n1 =? -1 then mret (-1) else
    n2 ← trySend ps;
    if n2 =? -1 then mret (-1) else mret (n1 + n2)
  end.

(** ** Receiving *)

(** [recvMessagePart]: the part and the number of bytes, or -1 when it would block *)
Definition recvMessagePart (dontwait : bool) : M sock (Z * list part) :=
  s ← get;
  match ptr_ s with
  | None => throw (mkError ZMQSocketRecvFailed ENOTSOCK)
  | Some r =>
    modify (log_call []);;
    match zmq_msg_recv r (calls_ s) dontwait with
    | inl p => mret (size p, [p])
    | inr e => if e =? EAGAIN then mret (-1, []) else throw (mkError ZMQSocketRecvFailed e)
    end
  end.

(** [Socket::recv(part, args...)] into [n + 1] parts: the total and the parts filled *)
Fixpoint recv (n : nat) : M sock (Z * list part) :=
  match n with
  | O => recvMessagePart false
  | S n => '(n1, p1) ← recvMessagePart false; '(n2, p2) ← recv n; mret (n1 + n2, p1 ++ p2)
  end.

(** [Socket::tryRecv(part, args...)] into [n + 1] parts *)
Fixpoint tryRecv (n : nat) : M sock (Z * list part) :=
  match n with
  | O => recvMessagePart true
  | S n =>
    '(n1, p1) ← recvMessagePart true;
    if n1 =? -1 then mret (-1, p1) else
    '(n2, p2) ← tryRecv n;
    if n2 =? -1 then mret (-1, p1 ++ p2) else mret (n1 + n2, p1 ++ p2)
  end.

(** ** Lemmas *)

(** Code that leaves the raw socket alone *)
Definition keeps (m : M sock unit) : Prop := forall s o s', m s = (o, s') ->
  o <> Abort /\ o <> Undef /\
  ptr_ s' = ptr_ s /\ endpoints_ s' = endpoints_ s /\ groups_ s' = groups_ s /\
  gen_ s' = gen_ s /\ sent_ s' = sent_ s /\ id_ s' = id_ s /\ calls_ s' = calls_ s.

Lemma keeps_ret : keeps (mret tt).
Proof. intros s o s' [= <- <-]. done. Qed.

Lemma keeps_bind m k : keeps m -> (forall u, keeps (k u)) -> keeps (m ≫= k).
Proof.
  intros Hm Hk s o s'. unfold mbind, M_bind. destruct (m s) as [o1 s1] eqn:E.
  destruct (Hm _ _ _ E) as (? & ? & ? & ? & ? & ? & ? & ? & ?).
  destruct o1 as [[]| | |]; try done.
  - intros (? & ? & ? & ? & ? & ? & ? & ? & ?)%Hk. split_and!; congruence.
  - intros [= <- <-]. done.
Qed.

Lemma keeps_get k : (forall s, keeps (k s)) -> keeps (get ≫= k).
Proof. intros Hk s o s' E. by eapply (Hk s). Qed.

Lemma keeps_mfor {A} (l : list A) (f : A -> M sock unit) : (forall a, keeps (f a)) -> keeps (mfor l f).
Proof. intros Hf. induction l; [apply keeps_ret|]. cbn [mfor]. by apply keeps_bind. Qed.

Lemma keeps_zcall k f a : keeps (zcall k f a).
Proof.
  intros s o s'. unfold zcall, mbind, M_bind, get, throw, mret, M_ret.
  repeat case_goal; intros [= <- <-]; done.
Qed.

Lemma keeps_push endp : keeps (push_last_endpoint endp).
Proof.
  intros s o s'. unfold push_last_endpoint, mbind, M_bind, get, throw, modify.
  repeat case_goal; intros [= <- <-]; done.
Qed.

Lemma keeps_open_setup action : (forall e, keeps (action e)) -> keeps (open_setup action).
Proof.
  intros Ha. unfold open_setup. apply keeps_get; intros s0.
  do 4 (apply keeps_bind; [apply keeps_zcall|intros _]).
  apply keeps_bind; [apply keeps_mfor; intros; apply keeps_zcall|intros _].
  apply keeps_bind; [apply keeps_mfor; intros; apply keeps_zcall|intros _].
  case_decide; [done|]. apply keeps_mfor. intros e. apply keeps_bind; [done|intros _; apply keeps_push].
Qed.

Lemma keeps_open_body action : (forall e, keeps (action e)) -> keeps (open_body action).
Proof.
  intros Ha. unfold open_body. apply keeps_bind; [by apply keeps_open_setup|intros _].
  apply keeps_get. intros s1. case_goal; [|apply keeps_ret].
  intros s o s' [= <- <-]. done.
Qed.

Lemma keeps_connect1 e : keeps (connect1 e).
Proof. apply keeps_zcall. Qed.
Lemma keeps_bind1 t e : keeps (bind1 t e).
Proof. apply keeps_zcall. Qed.

Lemma close_spec s : exists s', close s = (Ok tt, s') /\ ptr_ s' = None /\
  sent_ s' = sent_ s /\ endpoints_ s' = endpoints_ s /\ groups_ s' = groups_ s /\
  (ptr_ s = None -> s' = s) /\ (ptr_ s <> None -> openEndpoints_ s' = []).
Proof.
  unfold close, mbind, M_bind, get, isOpen, modify, mret, M_ret.
  destruct s as [? ? ? [r|] ? ? ? ? ? ? ? ? ? ?]; cbn; eexists; split_and!; done.
Qed.

(** The outcome of opening a closed socket. *)
Lemma open_spec action s o s' :
  (forall e, keeps (action e)) -> ptr_ s = None -> openEndpoints_ s = [] ->
  open action s = (o, s') ->
  o <> Abort /\ o <> Undef /\ sent_ s' = sent_ s /\
  endpoints_ s' = endpoints_ s /\ groups_ s' = groups_ s /\
  (o = Ok tt -> ptr_ s' = Some (id_ s, gen_ s)) /\
  (o <> Ok tt -> ptr_ s' = None /\ openEndpoints_ s' = []).
Proof.
  intros Ha Hp Ho. unfold open, mbind, M_bind, get, isOpen, throw. rewrite Hp.
  destruct (zmq_socket _ _); [intros [= <- <-]; done|].
  unfold modify, guard_exit.
  destruct (open_body action _) as [o1 s1] eqn:E.
  destruct (keeps_open_body action Ha _ _ _ E) as (H1 & H2 & H3 & H4 & H5 & H6 & H7 & H8 & H9).
  destruct (close_spec s1) as (s2 & Hc & Hc1 & Hc2 & Hc3 & Hc4 & _ & Hc5).
  cbn in H3, H4, H5, H7. destruct o1 as [[]| | |]; try done.
  - intros [= <- <-]. split_and!; done.
  - rewrite Hc. intros [= <- <-]. cbn. split_and!; try done; try congruence.
    intros _. split; [done|]. apply Hc5. by rewrite H3.
Qed.

(** Opening never aborts, and leaves the rest of the object alone. *)
Lemma open_result action s o s' :
  (forall e, keeps (action e)) -> open action s = (o, s') ->
  o <> Abort /\ o <> Undef /\ sent_ s' = sent_ s /\ (o = Ok tt -> isOpen s' = true).
Proof.
  intros Ha. destruct (ptr_ s) as [r|] eqn:Hp.
  - unfold open, mbind, M_bind, get, isOpen, throw. rewrite Hp. intros [= <- <-]. done.
  - unfold open, mbind, M_bind, get, isOpen, throw. rewrite Hp.
    destruct (zmq_socket _ _); [intros [= <- <-]; done|]. unfold modify, guard_exit.
    destruct (open_body action _) as [o1 s1] eqn:E.
    destruct (keeps_open_body action Ha _ _ _ E) as (H1 & H2 & H3 & _ & _ & _ & H7 & _).
    destruct (close_spec s1) as (s2 & Hc & _ & Hc2 & _). cbn in H3, H7.
    destruct o1 as [[]| | |]; try done.
    + intros [= <- <-]. split_and!; try done. intros _. by rewrite H3.
    + rewrite Hc. intros [= <- <-]. cbn. split_and!; try done. congruence.
Qed.

Lemma sendMessagePart_result b p s o s' :
  sendMessagePart b p s = (o, s') ->
  o <> Abort /\ o <> Undef /\ ptr_ s' = ptr_ s /\ exists l, sent_ s' = sent_ s ++ l /\ (l = [] \/ l = [p]).
Proof.
  unfold sendMessagePart, mbind, M_bind, get, throw, modify, mret, M_ret.
  destruct (ptr_ s) as [r|] eqn:Hp.
  - repeat case_goal; intros [= <- <-]; split_and!; try done; eexists; split; eauto.
  - intros [= <- <-]. split_and!; try done. exists []. rewrite app_nil_r. auto.
Qed.

Lemma send_one_result p s o s' : send [p] s = (o, s') \/ trySend [p] s = (o, s') ->
  o <> Abort /\ o <> Undef /\ ptr_ s' = ptr_ s /\ exists l, sent_ s' = sent_ s ++ l /\ (l = [] \/ l = [p]).
Proof. intros [E|E]; by apply sendMessagePart_result in E. Qed.

Lemma push_length endp s s' :
  push_last_endpoint endp s = (Ok tt, s') ->
  length (openEndpoints_ s') = S (length (openEndpoints_ s)).
Proof.
  unfold push_last_endpoint, mbind, M_bind, get, throw, modify.
  repeat case_goal; intros [= <-]; cbn. rewrite length_app. cbn. lia.
Qed.

(** The loop of [bind] ends: it stops at the timeout because the clock advances by the
    10 ms it sleeps between attempts. *)
Lemma bind_loop_ends timeout r endp :
  0 < timeout -> (forall k, 10 * Z.of_nat k <= clock r k) ->
  forall fuel k, timeout <= 10 * Z.of_nat (k + fuel) -> (0 < fuel)%nat ->
  exists rc, bind_loop fuel r endp timeout k = Some rc.
Proof.
  intros Ht Hc. induction fuel as [|fuel IH]; intros k Hk Hf; [lia|]. cbn [bind_loop].
  case_goal; [eauto|]. case_goal; [eauto|]. bools.
  apply andb_false_iff in Heqb0 as [?|?]; bools; [lia|]. pose proof (Hc (S k)).
  apply IH; [lia|]. destruct fuel; [|lia]. lia.
Qed.

(** An interrupted call gives the first answer that is not an interruption, and nothing else. *)
Lemma retry_first {A} (call : nat -> A + Z) n : forall fuel k, (forall j, (j < n)%nat -> call (k + j)%nat = inr EINTR) ->
  call (k + n)%nat <> inr EINTR -> (n < fuel)%nat -> retry fuel call k = Some (call (k + n)%nat).
Proof.
  induction n as [|n IH]; intros [|fuel] k Hj Hn Hf; try lia; cbn [retry].
  - rewrite Nat.add_0_r in *. destruct (call k) as [a|e]; [done|]. destruct (Z.eqb_spec e EINTR); [congruence|done].
  - specialize (Hj 0%nat) as H0. rewrite Nat.add_0_r in H0. rewrite H0 by lia. rewrite Z.eqb_refl, Nat.add_succ_r.
    apply (IH fuel (S k)); [|by rewrite Nat.add_succ_r in Hn|lia]. intros j Hlt. specialize (Hj (S j)).
    rewrite Nat.add_succ_r in Hj. apply Hj. lia.
Qed.

(** With timeout 0 an address that stays busy is tried for ever. *)
Lemma bind_loop_forever r endp : (forall k, zmq_bind r endp k = Some EADDRINUSE) ->
  forall fuel k, bind_loop fuel r endp 0 k = None.
Proof.
  intros Hb. induction fuel as [|fuel IH]; intros k; [done|]. cbn [bind_loop]. rewrite Hb, bool_decide_eq_true_2 by done. apply IH.
Qed.

(** A socket that is open and takes every message. *)
Definition accepts (b : bool) (s : sock) : Prop :=
  exists r, ptr_ s = Some r /\ forall n p, zmq_msg_send r n b p = None.

Lemma accepts_log b l s : accepts b s -> accepts b (log_call l s).
Proof. done. Qed.

Lemma send_one s p : accepts false s -> send [p] s = (Ok (size p), log_call [p] s).
Proof.
  intros (r & Hr & Hz). unfold send, sendMessagePart, mbind, M_bind, get.
  rewrite Hr, Hz. done.
Qed.

Lemma trySend_one s p : accepts true s -> trySend [p] s = (Ok (size p), log_call [p] s).
Proof.
  intros (r & Hr & Hz). unfold trySend, sendMessagePart, mbind, M_bind, get.
  rewrite Hr, Hz. done.
Qed.

End Open.

(** ** Theorems *)

(** Opening is all or nothing: [connect()] and [bind()] of a closed socket either return
    with an open raw socket that is new, or throw with the socket closed and no
    endpoint recorded, whichever of its library calls failed and whatever its pollers
    answered; on an open socket they throw and change nothing. *)
Theorem open_atomic (Z_ : Zmq) (s : sock) (b : bool) (o : outcome unit) (s' : sock) :
  (if b then connect s else bind s) = (o, s') -> (ptr_ s = None -> openEndpoints_ s = []) ->
  o <> Abort /\ o <> Undef /\
  if isOpen s
  then o = Throw (mkError ZMQSocketCreateFailed 0) /\ s' = s
  else (o = Ok tt -> ptr_ s' = Some (id_ s, gen_ s)) /\
       (o <> Ok tt -> ptr_ s' = None /\ openEndpoints_ s' = []).
Proof.
  intros E Ho. destruct (isOpen s) eqn:Hi.
  - assert (o = Throw (mkError ZMQSocketCreateFailed 0) /\ s' = s) as [-> ->].
    { destruct b; unfold connect, bind, open, mbind, M_bind, get, throw in E; rewrite Hi in E;
        by injection E as <- <-. }
    done.
  - assert (ptr_ s = None) as Hp by (unfold isOpen in Hi; by destruct (ptr_ s)).
    destruct b; apply open_spec in E as (H1 & H2 & _ & _ & _ & H3 & H4);
      auto using keeps_connect1, keeps_bind1.
Qed.

(** A library in which everything succeeds but binding an address that is in use. *)
Definition busy_zmq : Zmq := {|
  zmq_socket _ _ := None; zmq_setsockopt _ _ _ := None; zmq_subscribe _ _ := None;
  zmq_join _ _ := None; zmq_connect _ _ := None; zmq_bind _ _ _ := Some EADDRINUSE;
  zmq_last_endpoint _ e := inl e; updateOnOpen _ := None; clock _ k := 10 * Z.of_nat k;
  zmq_msg_send _ _ _ _ := None; zmq_msg_recv _ _ _ := inr EAGAIN;
|}.

(** A library where everything succeeds. *)
Definition ok_zmq : Zmq := {|
  zmq_socket _ _ := None; zmq_setsockopt _ _ _ := None; zmq_subscribe _ _ := None;
  zmq_join _ _ := None; zmq_connect _ _ := None; zmq_bind _ _ _ := None;
  zmq_last_endpoint _ e := inl e; updateOnOpen _ := None; clock _ k := 10 * Z.of_nat k;
  zmq_msg_send _ _ _ _ := None; zmq_msg_recv _ _ _ := inr EAGAIN;
|}.

Definition sample_sock : sock := setEndpoints [str "ipc:///tmp/a"] (setGroups [str "HUGZ"] (Socket 0 DISH)).

Lemma open_atomic_witness :
  exists s', @bind busy_zmq sample_sock = (Throw (mkError ZMQSocketBindFailed 0), s') /\
    ptr_ s' = None /\ openEndpoints_ s' = [].
Proof.
  destruct (@bind busy_zmq sample_sock) as [o s'] eqn:E.
  assert (o = Throw (mkError ZMQSocketBindFailed 0)) as Ho
    by (vm_compute in E; injection E as <- _; reflexivity).
  exists s'. rewrite Ho. split; [reflexivity|].
  destruct (open_atomic busy_zmq sample_sock false o s' E) as (_ & _ & H); [reflexivity|].
  apply H. rewrite Ho. discriminate.
Defined.

(** Binding an address that stays in use terminates: with a clock that advances at least by
    the 10 ms slept between attempts, the retry loop of [bind] ends within the attempts
    that fit its timeout, so [bind()] (5000 ms) makes at most 501. *)
Theorem bind_terminates (Z_ : Zmq) (r : raw) (endp : bytes) (timeout : Z) :
  0 < timeout -> (forall k, 10 * Z.of_nat k <= clock r k) ->
  exists rc, bind_loop (bind_fuel timeout) r endp timeout 0 = Some rc.
Proof.
  intros Ht Hc. apply bind_loop_ends; [done|done| |unfold bind_fuel; lia].
  unfold bind_fuel. pose proof (Z.div_mod timeout 10). pose proof (Z.mod_pos_bound timeout 10). lia.
Qed.

Lemma bind_terminates_witness :
  exists rc, @bind_loop busy_zmq 501 (O, O) (str "ipc:///tmp/a") 5000 0 = Some rc.
Proof. apply (bind_terminates busy_zmq (O, O) (str "ipc:///tmp/a") 5000); [lia|cbn; lia]. Defined.

End Socket.
