(* ===== verification/Poller.v ===== *)
(** * zmq::Pollable, zmq::Poller and zmq::PollerAuto
      (src/zmqpollable.cpp, src/zmqpoller.cpp, include/fuurin/zmqpoller.h)

    Sockets, timers and cancellations are objects that can be polled.  A [PollerAuto]
    registers itself as an observer of its sockets, which tell it when they are opened and
    closed.  Here the objects and the pollers of a process live in one state, pointers are
    the names of objects (0 is the null pointer), and [connect], [bind] and [close] of
    Socket.v are composed with the notification of the observers.  The pollers of the ZMQ
    library are a parameter with their documented behaviour as laws. *)

From S2P Require Import Prelude Part Socket.

Local Open Scope Z_scope.

Module Poller.
Import Part Socket.

Definition ZMQ_POLLIN : Z := 1.
Definition ZMQ_POLLOUT : Z := 2.
Definition EINVAL : Z := 22.
Definition EFAULT : Z := 14.

(** [PollerEvents::Type] *)
Inductive ev_type := Read | Write.

#[export] Instance ev_type_eq_dec : EqDecision ev_type.
Proof. solve_decision. Defined.

(** What a raw poller holds of a socket, and gives back in an event: the raw socket, the
    user data (the [Pollable]) and the events. *)
Record item := mkItem { i_raw : raw; i_user : nat; i_events : Z }.

(** The poller functions of ZMQ: [inr] is the errno.  [zmq_poller_wait_all] is asked with a
    moment of time, the place for as many events, and the timeout; it gives the first result
    other than EINTR, for which the code repeats the call. *)
Class ZmqPoller := {
  zpoller : Type;
  zmq_poller_new : nat -> zpoller + Z;
  zmq_poller_add : zpoller -> raw -> nat -> Z -> zpoller + Z;
  zmq_poller_remove : zpoller -> raw -> zpoller + Z;
  zmq_poller_wait_all : zpoller -> nat -> nat -> Z -> list item + Z;
}.

(** The documented behaviour: a poller holds a set of sockets; adding one twice and removing
    one that is absent fail with EINVAL, removing one that is there succeeds, and the events
    are of distinct sockets of the set, as many as there is place for. *)
Class ZmqPollerLaws (ZP : ZmqPoller) := {
  members : zpoller -> list item;
  law_new k z : zmq_poller_new k = inl z -> members z = [];
  law_add z r u e z' : zmq_poller_add z r u e = inl z' ->
    r ∉ i_raw <$> members z /\ members z' = members z ++ [mkItem r u e];
  law_remove z r : r ∈ i_raw <$> members z -> exists z', zmq_poller_remove z r = inl z' /\
    members z' = filter (fun i => i_raw i <> r) (members z);
  law_absent z r : r ∉ i_raw <$> members z -> zmq_poller_remove z r = inr EINVAL;
  law_wait z k n t l : zmq_poller_wait_all z k n t = inl l ->
    NoDup (i_raw <$> l) /\ (length l <= n)%nat /\ forall i, i ∈ l -> i ∈ members z;
}.

(** ** State *)

(** A [Pollable]: a socket, or a timer or a cancellation, which own a socket that is always
    open; and its list of observers. *)
Inductive device :=
  | Sock (s : sock)
  | Fixed (r : raw).
Record pollable := mkPollable { dev_ : device; observers_ : list nat }.

Section WithZmq.
Context {Z_ : Zmq} {ZP : ZmqPoller}.

(** A [Poller] ([obs_] is null) or a [PollerAuto] (it is the poller itself). *)
Record poller := mkPoller {
  sockets_ : list nat;
  pptr_ : zpoller;
  ptype_ : ev_type;
  obs_ : option nat;
  timeout_ : Z;
}.

(** The objects, the pollers and the number of raw pollers created *)
Record world := mkWorld {
  objs_ : gmap nat pollable;
  pollers_ : gmap nat poller;
  created_ : nat;
}.

Definition set_objs (o : gmap nat pollable) (w : world) : world := mkWorld o (pollers_ w) (created_ w).
Definition set_pollers (p : gmap nat poller) (w : world) : world := mkWorld (objs_ w) p (created_ w).
Definition tick (w : world) : world := mkWorld (objs_ w) (pollers_ w) (S (created_ w)).
Definition set_pptr (z : zpoller) (p : poller) : poller :=
  mkPoller (sockets_ p) z (ptype_ p) (obs_ p) (timeout_ p).

(** Access through a pointer *)
Definition obj (s : nat) : M world pollable :=
  w ← get; match objs_ w !! s with Some p => mret p | None => lift Undef end.
Definition the_poller (o : nat) : M world poller :=
  w ← get; match pollers_ w !! o with Some p => mret p | None => lift Undef end.

(** The virtual functions of [Pollable]: [Socket::isOpen], [Timer::isOpen],
    [Cancellation::isOpen] and the [zmqPointer] of each *)
Definition zmqPointer (p : pollable) : option raw :=
  match dev_ p with Sock s => ptr_ s | Fixed r => Some r end.
Definition pollable_isOpen (p : pollable) : bool :=
  match dev_ p with Sock s => isOpen s | Fixed _ => true end.

(** ** Pollable *)

Definition set_observers (l : list nat) (p : pollable) : pollable := mkPollable (dev_ p) l.
Definition pollersCount (p : pollable) : nat := length (observers_ p).

(** [Pollable::registerPoller], [Pollable::unregisterPoller] *)
Definition registerPoller (s o : nat) : M world unit :=
  p ← obj s;
  if decide (o ∈ observers_ p) then mret tt
  else modify (fun w => set_objs (<[s := set_observers (observers_ p ++ [o]) p]> (objs_ w)) w).
Definition unregisterPoller (s o : nat) : M world unit :=
  p ← obj s;
  modify (fun w => set_objs (<[s := set_observers (filter (fun o' => o' <> o) (observers_ p)) p]> (objs_ w)) w).

(** ** PollerImpl *)

Definition events_of (read write : bool) : Z :=
  Z.lor (ZMQ_POLLIN * Z.b2z read) (ZMQ_POLLOUT * Z.b2z write).

(** [PollerImpl::addSocket] on a raw poller *)
Definition addSocket (z : zpoller) (s : nat) (read write : bool) : M world zpoller :=
  lift (ASSERT (negb (s =? 0)%nat));;
  p ← obj s;
  if negb (pollable_isOpen p) then throw (mkError ZMQPollerAddSocketFailed 0) else
  match zmqPointer p with
  | None => lift Undef
  | Some r =>
    match zmq_poller_add z r s (events_of read write) with
    | inr e => throw (mkError ZMQPollerAddSocketFailed e)
    | inl z => mret z
    end
  end.

(** [PollerImpl::delSocket]: the fatal logs abort. *)
Definition delSocket (z : zpoller) (s : nat) : M world zpoller :=
  lift (ASSERT (negb (s =? 0)%nat));;
  p ← obj s;
  if negb (pollable_isOpen p) then lift Abort else
  match zmqPointer p with
  | None => lift Undef
  | Some r =>
    match zmq_poller_remove z r with
    | inr e => if negb (e =? EINVAL) then lift Abort else mret z
    | inl z => mret z
    end
  end.

(** [PollerImpl::updateSocket]: gives the raw poller after it. *)
Definition updateSocket (z : zpoller) (array : list nat) (s : nat) (read write : bool) : M world zpoller :=
  let found := bool_decide (s ∈ array) in
  if (read || write)%bool then
    if negb found then throw (mkError ZMQPollerAddSocketFailed 0) else addSocket z s read write
  else if negb found then mret z else delSocket z s.

(** [PollerImpl::destroyPoller]: the sockets forget the observer; the raw poller goes. *)
Definition destroyPoller (obs : option nat) (array : list nat) : M world unit :=
  match obs with
  | Some o => mfor array (fun s => unregisterPoller s o)
  | None => mret tt
  end.

(** The loop of [PollerImpl::createPoller] *)
Fixpoint add_sockets (obs : option nat) (array : list nat) (read write : bool) (z : zpoller) : M world zpoller :=
  match array with
  | [] => mret z
  | s :: array =>
    (match obs with Some o => registerPoller s o | None => mret tt end);;
    p ← obj s;
    z ← (if (match obs with None => true | Some _ => false end || pollable_isOpen p)%bool
         then addSocket z s read write else mret z);
    add_sockets obs array read write z
  end.

(** [PollerImpl::createPoller] *)
Definition createPoller (obs : option nat) (array : list nat) (read write : bool) : M world zpoller :=
  w ← get;
  match zmq_poller_new (created_ w) with
  | inr e => modify tick;; throw (mkError ZMQPollerCreateFailed e)
  | inl z =>
    modify tick;;
    guard_exit (add_sockets obs array read write z) (destroyPoller obs array)
  end.

(** [Poller::setTimeout] *)
Definition setTimeout (tmeo : Z) (p : poller) : poller :=
  mkPoller (sockets_ p) (pptr_ p) (ptype_ p) (obs_ p) (if 0 <=? tmeo then tmeo else -1).

(** The constructors of [Poller] ([auto] is false) and [PollerAuto]; [o] is the new object. *)
Definition is_read (t : ev_type) : bool := bool_decide (t = Read).
Definition is_write (t : ev_type) : bool := bool_decide (t = Write).
Definition new_Poller (o : nat) (auto : bool) (ev : ev_type) (tmeo : Z) (array : list nat) : M world unit :=
  let obs := if auto then Some o else None in
  z ← createPoller obs array (is_read ev) (is_write ev);
  modify (fun w => set_pollers (<[o := setTimeout tmeo (mkPoller array z ev obs (-1))]> (pollers_ w)) w).

(** [Poller::~Poller] *)
Definition delete_Poller (o : nat) : M world unit :=
  p ← the_poller o;
  destroyPoller (obs_ p) (sockets_ p);;
  modify (fun w => set_pollers (delete o (pollers_ w)) w).

(** [PollerAuto::updateOnOpen], [PollerAuto::updateOnClose] *)
Definition updateOnOpen (o s : nat) : M world unit :=
  p ← the_poller o;
  z ← updateSocket (pptr_ p) (sockets_ p) s (is_read (ptype_ p)) (is_write (ptype_ p));
  modify (fun w => set_pollers (<[o := set_pptr z p]> (pollers_ w)) w).
Definition updateOnClose (o s : nat) : M world unit :=
  p ← the_poller o;
  z ← updateSocket (pptr_ p) (sockets_ p) s false false;
  modify (fun w => set_pollers (<[o := set_pptr z p]> (pollers_ w)) w).

(** [PollerImpl::waitForEvents] at a moment, with place for [size] events: the events written *)
Definition waitForEvents (k : nat) (z : zpoller) (n : nat) (timeout : Z) : outcome (list item) :=
  match zmq_poller_wait_all z k n (getMillis long_max timeout) with
  | inl l => Ok l
  | inr e => if e =? EAGAIN then Ok [] else Throw (mkError ZMQPollerWaitFailed e)
  end.

(** [PollerEvents] over the array of events of the poller *)
Record events := mkEvents { e_type : ev_type; e_first : list item }.
Definition e_size (e : events) : nat := length (e_first e).
Definition e_empty (e : events) : bool := (e_size e =? 0)%nat.

(** [PollerIterator]: a position; [operator*] reads the user data, past the end there is no
    event. *)
Definition e_begin (e : events) : nat := 0.
Definition e_end (e : events) : nat := e_size e.
Definition e_deref (e : events) (it : nat) : outcome nat :=
  match e_first e !! it with Some i => Ok (i_user i) | None => Undef end.
Definition e_at (e : events) (pos : nat) : outcome nat := e_deref e pos.

(** A range [for] over the events, with fuel for the positions *)
Fixpoint e_loop (fuel : nat) (e : events) (it : nat) : outcome (list nat) :=
  if decide (it = e_end e) then Ok [] else
  match fuel with
  | O => Undef
  | S fuel => s ← e_deref e it; l ← e_loop fuel e (S it); Ok (s :: l)
  end.

(** [Poller::wait] *)
Definition wait (k o : nat) : M world events :=
  p ← the_poller o;
  l ← lift (waitForEvents k (pptr_ p) (length (sockets_ p)) (timeout_ p));
  mret (mkEvents (ptype_ p) l).

(** ** Sockets with their observers *)

(** A computation on the socket [s] *)
Definition on_sock {A} (s : nat) (m : M sock A) : M world A :=
  p ← obj s;
  match dev_ p with
  | Fixed _ => lift Undef
  | Sock k =>
    modify (fun w => set_objs (<[s := mkPollable (Sock (m k).2) (observers_ p)]> (objs_ w)) w);;
    lift (m k).1
  end.

(** [Socket::close] *)
Definition close (s : nat) : M world unit :=
  k ← on_sock s get;
  if negb (isOpen k) then mret tt else
  try_catch
    (p ← obj s;
     mfor (observers_ p) (fun o => updateOnClose o s);;
     on_sock s Socket.close)
    (fun _ => lift Abort).

(** [Socket::open] *)
Definition open (s : nat) (action : bytes -> M sock unit) : M world unit :=
  k ← on_sock s get;
  if isOpen k then throw (mkError ZMQSocketCreateFailed 0) else
  let r : raw := (id_ k, gen_ k) in
  match zmq_socket r (zmqSocketType (type_ k)) with
  | Some e => throw (mkError ZMQSocketCreateFailed e)
  | None =>
    on_sock s (modify (fun k => set_ptr (Some r) (S (gen_ k)) k));;
    guard_exit
      (on_sock s (open_setup action);;
       p ← obj s;
       mfor (observers_ p) (fun o => updateOnOpen o s))
      (close s)
  end.

(** [Socket::connect()], [Socket::bind()] *)
Definition connect (s : nat) : M world unit := open s connect1.
Definition bind (s : nat) : M world unit := open s (bind1 5000).


(** The library, with what the observers of a socket answer when it is opened *)
Definition with_observers (ans : raw -> option error) : Zmq := {|
  zmq_socket := zmq_socket; zmq_setsockopt := zmq_setsockopt; zmq_subscribe := zmq_subscribe;
  zmq_join := zmq_join; zmq_connect := zmq_connect; zmq_bind := zmq_bind;
  zmq_last_endpoint := zmq_last_endpoint; Socket.updateOnOpen := ans; clock := clock;
  zmq_msg_send := zmq_msg_send; zmq_msg_recv := zmq_msg_recv;
|}.

(** ** Operations of a program *)

(** What a program does with sockets and pollers, at any time and in any order *)
Inductive wop :=
  | NewSocket (s : nat) (t : type)
  | NewFixed (s g : nat)
  | Configure (s : nat) (endpoints groups : list bytes)
  | Connect (s : nat)
  | Bind (s : nat)
  | Close (s : nat)
  | DeleteSocket (s : nat)
  | NewPoller (o : nat) (auto : bool) (ev : ev_type) (tmeo : Z) (array : list nat)
  | DeletePoller (o : nat).

Definition exec (op : wop) : M world unit :=
  match op with
  | NewSocket s t => modify (fun w => set_objs (<[s := mkPollable (Sock (Socket s t)) []]> (objs_ w)) w)
  | NewFixed s g => modify (fun w => set_objs (<[s := mkPollable (Fixed (s, g)) []]> (objs_ w)) w)
  | Configure s e g => on_sock s (modify (fun k => setGroups g (setEndpoints e k)))
  | Connect s => connect s
  | Bind s => bind s
  | Close s => close s
  | DeleteSocket s => close s;; modify (fun w => set_objs (delete s (objs_ w)) w)
  | NewPoller o auto ev tmeo array => new_Poller o auto ev tmeo array
  | DeletePoller o => delete_Poller o
  end.

(** Pointers to live objects, new names for new objects, and a socket is destroyed only when
    no poller observes it. *)
Definition is_sock (w : world) (s : nat) : Prop := exists k l, objs_ w !! s = Some (mkPollable (Sock k) l).
Definition wop_ok (op : wop) (w : world) : Prop :=
  match op with
  | NewSocket s _ | NewFixed s _ => s <> 0%nat /\ objs_ w !! s = None
  | Configure s _ _ | Connect s | Bind s | Close s => is_sock w s
  | DeleteSocket s => exists k, objs_ w !! s = Some (mkPollable (Sock k) [])
  | NewPoller o _ _ _ array => pollers_ w !! o = None /\ forall s, s ∈ array -> is_Some (objs_ w !! s)
  | DeletePoller o => is_Some (pollers_ w !! o)
  end.

Inductive reachable : world -> Prop :=
  | reach_init : reachable (mkWorld ∅ ∅ 0)
  | reach_step op w w' o : reachable w -> wop_ok op w -> exec op w = (o, w') -> reachable w'.

(** ** The invariant *)

Section Invariant.
Context {Laws : ZmqPollerLaws ZP}.

(** The item a poller holds for an object that is open *)
Definition good (w : world) (q : poller) (i : item) : Prop :=
  i_user i ∈ sockets_ q /\
  (exists p, objs_ w !! i_user i = Some p /\ zmqPointer p = Some (i_raw i)) /\
  i_events i = events_of (is_read (ptype_ q)) (is_write (ptype_ q)).

(** While the observers of the socket [s] are being told, some hold it and some do not. *)
Inductive mode := Present | Absent | Unknown.
Definition holds (m : mode) (w : world) (q : poller) (i : item) : Prop :=
  match m with
  | Present => i ∈ members (pptr_ q) <-> good w q i
  | Absent => i ∉ members (pptr_ q)
  | Unknown => i ∈ members (pptr_ q) -> good w q i
  end.

Record winv_at (s : nat) (md : nat -> mode) (w : world) : Prop := mkWinv {
  inv_null : objs_ w !! 0%nat = None;
  inv_id : forall x k l, objs_ w !! x = Some (mkPollable (Sock k) l) -> id_ k = x;
  inv_raw : forall x p r, objs_ w !! x = Some p -> zmqPointer p = Some r -> r.1 = x;
  inv_obs : forall x p o, objs_ w !! x = Some p -> o ∈ observers_ p ->
    exists q, pollers_ w !! o = Some q /\ obs_ q = Some o /\ x ∈ sockets_ q;
  inv_obs_nodup : forall x p, objs_ w !! x = Some p -> NoDup (observers_ p);
  inv_auto : forall o q o', pollers_ w !! o = Some q -> obs_ q = Some o' -> o' = o;
  inv_watch : forall o q x, pollers_ w !! o = Some q -> obs_ q = Some o -> x ∈ sockets_ q ->
    exists p, objs_ w !! x = Some p /\ o ∈ observers_ p;
  inv_nodup : forall o q, pollers_ w !! o = Some q -> obs_ q = Some o -> NoDup (i_raw <$> members (pptr_ q));
  inv_members : forall o q i, pollers_ w !! o = Some q -> obs_ q = Some o ->
    holds (if decide (i_user i = s) then md o else Present) w q i;
}.

Definition winv (w : world) : Prop := winv_at 0 (fun _ => Present) w.

Lemma winv_any s w : winv w <-> winv_at s (fun _ => Present) w.
Proof.
  split; intros [? ? ? ? ? ? ? ? Hm]; (split; [done..|]); intros o q i Hq Ho;
    specialize (Hm o q i Hq Ho); by repeat case_decide.
Qed.

Lemma winv_weaken s md w : winv_at s md w -> winv_at s (fun _ => Unknown) w.
Proof.
  intros [? ? ? ? ? ? ? ? Hm]. split; [done..|]. intros o q i Hq Ho. specialize (Hm o q i Hq Ho).
  case_decide; [|done]. destruct (md o); cbn in *; tauto.
Qed.

(** ** Access *)

Lemma obj_eq s p w : objs_ w !! s = Some p -> obj s w = (Ok p, w).
Proof. intros H. unfold obj. by rewrite bind_get, H. Qed.
Lemma poller_eq o q w : pollers_ w !! o = Some q -> the_poller o w = (Ok q, w).
Proof. intros H. unfold the_poller. by rewrite bind_get, H. Qed.
Lemma bind_obj {A} s p w (k : pollable -> M world A) : objs_ w !! s = Some p -> (obj s ≫= k) w = k p w.
Proof. intros H. unfold mbind, M_bind. by rewrite (obj_eq _ _ _ H). Qed.
Lemma bind_poller {A} o q w (k : poller -> M world A) :
  pollers_ w !! o = Some q -> (the_poller o ≫= k) w = k q w.
Proof. intros H. unfold mbind, M_bind. by rewrite (poller_eq _ _ _ H). Qed.

Lemma isOpen_pointer p : pollable_isOpen p = true <-> exists r, zmqPointer p = Some r.
Proof.
  unfold pollable_isOpen, zmqPointer, isOpen. destruct (dev_ p) as [s|r]; [|naive_solver].
  destruct (ptr_ s); naive_solver.
Qed.
Lemma isOpen_closed p : pollable_isOpen p = false <-> zmqPointer p = None.
Proof.
  unfold pollable_isOpen, zmqPointer, isOpen. destruct (dev_ p) as [s|r]; [|naive_solver].
  destruct (ptr_ s); naive_solver.
Qed.

Lemma assert_nonnull s : s <> 0%nat -> ASSERT (negb (s =? 0)%nat) = Ok tt.
Proof. intros H%Nat.eqb_neq. by rewrite H. Qed.

Lemma filter_keep {A} (P : A -> Prop) `{!forall x, Decision (P x)} (l : list A) :
  (forall x, x ∈ l -> P x) -> filter P l = l.
Proof.
  intros Hl. induction l as [|x l IH]; [done|]. rewrite filter_cons_True by (apply Hl; left).
  f_equal. apply IH. intros y Hy. apply Hl. by right.
Qed.

(** ** Raw pollers *)

Lemma addSocket_spec z s p r ev1 ev2 w : s <> 0%nat -> objs_ w !! s = Some p -> zmqPointer p = Some r ->
  (exists z', addSocket z s ev1 ev2 w = (Ok z', w) /\ r ∉ i_raw <$> members z /\
     members z' = members z ++ [mkItem r s (events_of ev1 ev2)]) \/
  exists e, addSocket z s ev1 ev2 w = (Throw e, w).
Proof.
  intros H0 Hs Hr. unfold addSocket. rewrite (assert_nonnull _ H0), bind_lift, (bind_obj _ _ _ _ Hs).
  assert (pollable_isOpen p = true) as -> by (apply isOpen_pointer; eauto). rewrite Hr. cbn [negb].
  destruct (zmq_poller_add _ _ _ _) as [z'|e] eqn:E; [left|right; by eexists].
  apply law_add in E as [? ?]. by eexists.
Qed.

Lemma delSocket_spec z s p r w : s <> 0%nat -> objs_ w !! s = Some p -> zmqPointer p = Some r ->
  exists z', delSocket z s w = (Ok z', w) /\ members z' = filter (fun i => i_raw i <> r) (members z).
Proof.
  intros H0 Hs Hr. unfold delSocket. rewrite (assert_nonnull _ H0), bind_lift, (bind_obj _ _ _ _ Hs).
  assert (pollable_isOpen p = true) as -> by (apply isOpen_pointer; eauto). rewrite Hr. cbn [negb].
  destruct (decide (r ∈ i_raw <$> members z)) as [Hin|Hout].
  - destruct (law_remove z r Hin) as (z' & -> & Hz). by exists z'.
  - rewrite law_absent by done. exists z. split; [done|].
    symmetry. apply filter_keep. intros i Hi Hir. apply Hout. apply list_elem_of_fmap. eauto.
Qed.

(** ** Telling the observers *)

Definition upd (md : nat -> mode) (o : nat) (m : mode) : nat -> mode :=
  fun o' => if decide (o' = o) then m else md o'.

(** Replacing the raw poller of one observer *)
Lemma winv_pptr s md m w o q z :
  winv_at s md w -> pollers_ w !! o = Some q -> obs_ q = Some o ->
  NoDup (i_raw <$> members z) ->
  (forall i, i_user i <> s -> i ∈ members z <-> i ∈ members (pptr_ q)) ->
  (forall i, i_user i = s -> holds m w (set_pptr z q) i) ->
  winv_at s (upd md o m) (set_pollers (<[o := set_pptr z q]> (pollers_ w)) w).
Proof.
  intros [Hn Hid Hr Ho Hon Ha Hw Hnd Hm] Hq Hob Hz Hsame Hs.
  split; cbn [objs_ pollers_ set_pollers]; [done|done|done| |done| | | |].
  - intros x p o' Hx Hin. destruct (Ho x p o' Hx Hin) as (q' & Hq' & ? & ?).
    destruct (decide (o' = o)) as [->|Hne]; [|exists q'; by rewrite lookup_insert_ne].
    rewrite lookup_insert_eq. eexists. split; [done|]. cbn. by simplify_eq.
  - intros o' q' o1. destruct (decide (o' = o)) as [->|Hne]; [rewrite lookup_insert_eq|rewrite lookup_insert_ne by done; eauto].
    intros [= <-]. cbn. by eauto.
  - intros o' q' x. destruct (decide (o' = o)) as [->|Hne]; [rewrite lookup_insert_eq|rewrite lookup_insert_ne by done; eauto].
    intros [= <-]. cbn. by eauto.
  - intros o' q'. destruct (decide (o' = o)) as [->|Hne]; [rewrite lookup_insert_eq|rewrite lookup_insert_ne by done; eauto].
    by intros [= <-].
  - intros o' q' i. unfold upd. destruct (decide (o' = o)) as [->|Hne].
    + rewrite lookup_insert_eq. intros [= <-] _. specialize (Hm o q i Hq Hob).
      case_decide; [by apply Hs|]. cbn in *. rewrite (Hsame i) by done. exact Hm.
    + rewrite lookup_insert_ne by done. apply Hm.
Qed.

Lemma type_events q : (is_read (ptype_ q) || is_write (ptype_ q))%bool = true.
Proof. by destruct (ptype_ q). Qed.

Section Notify.
Context (s : nat) (p : pollable) (r : raw).

(** What an observer of an open object can assume *)
Lemma observer_facts md w o : winv_at s md w -> objs_ w !! s = Some p -> zmqPointer p = Some r ->
  o ∈ observers_ p ->
  s <> 0%nat /\ exists q, pollers_ w !! o = Some q /\ obs_ q = Some o /\ s ∈ sockets_ q /\
    NoDup (i_raw <$> members (pptr_ q)) /\
    (forall i, i ∈ members (pptr_ q) -> i_raw i = r <-> i_user i = s).
Proof.
  intros [Hn Hid Hr Ho Hon Ha Hw Hnd Hm] Hs Hp Hin. split; [by intros ->; rewrite Hn in Hs|].
  destruct (Ho s p o Hs Hin) as (q & Hq & Hob & Hsq). exists q. split_and!; eauto.
  intros i Hi. specialize (Hm o q i Hq Hob). split.
  - intros <-. destruct (decide (i_user i = s)) as [|Hne]; [done|]. cbn in Hm.
    apply Hm in Hi as (_ & (p' & Hp' & Hr') & _). rewrite <-(Hr _ _ _ Hp' Hr'). by apply (Hr _ _ _ Hs).
  - intros Hu. rewrite decide_True in Hm by done.
    assert (good w q i) as (_ & (p' & Hp' & Hr') & _) by (destruct (md o); cbn in Hm; tauto).
    rewrite Hu in Hp'. congruence.
Qed.

Lemma updateOnOpen_spec md w o : winv_at s md w -> objs_ w !! s = Some p -> zmqPointer p = Some r ->
  o ∈ observers_ p ->
  (exists w', updateOnOpen o s w = (Ok tt, w') /\ objs_ w' = objs_ w /\ winv_at s (upd md o Present) w') \/
  exists e, updateOnOpen o s w = (Throw e, w).
Proof.
  intros Hinv Hs Hp Hin. destruct (observer_facts md w o Hinv Hs Hp Hin) as (H0 & q & Hq & Hob & Hsq & Hnd & Hru).
  unfold updateOnOpen. rewrite (bind_poller _ _ _ _ Hq). unfold updateSocket.
  rewrite type_events, bool_decide_true by done. cbn [negb].
  destruct (addSocket_spec (pptr_ q) s p r (is_read (ptype_ q)) (is_write (ptype_ q)) w H0 Hs Hp)
    as [(z & E & Hr & Hz)|[e E]]; unfold mbind, M_bind; rewrite E; [left|right; by eexists].
  eexists. split; [done|]. split; [done|]. apply winv_pptr; [done..| | |].
  - rewrite Hz, fmap_app. apply NoDup_app. split_and!; [done| |apply NoDup_singleton].
    cbn. set_solver.
  - intros i Hi. rewrite Hz, elem_of_app, list_elem_of_singleton.
    split; [|tauto]. intros [?| ->]; [done|]. by cbn in Hi.
  - intros i Hi. cbn. rewrite Hz, elem_of_app, list_elem_of_singleton. split.
    + intros [Hin'| ->].
      * exfalso. apply Hr. apply list_elem_of_fmap. exists i. split; [|done]. symmetry. by apply Hru.
      * split_and!; cbn; eauto.
    + intros (_ & (p' & Hp' & Hr') & He). right. rewrite Hi in Hp'. destruct i as [ri ui ei]. cbn in *.
      by simplify_eq.
Qed.

Lemma updateOnClose_spec md w o : winv_at s md w -> objs_ w !! s = Some p -> zmqPointer p = Some r ->
  o ∈ observers_ p ->
  exists w', updateOnClose o s w = (Ok tt, w') /\ objs_ w' = objs_ w /\ winv_at s (upd md o Absent) w'.
Proof.
  intros Hinv Hs Hp Hin. destruct (observer_facts md w o Hinv Hs Hp Hin) as (H0 & q & Hq & Hob & Hsq & Hnd & Hru).
  unfold updateOnClose. rewrite (bind_poller _ _ _ _ Hq). unfold updateSocket. cbn [orb].
  rewrite bool_decide_true by done. cbn [negb].
  destruct (delSocket_spec (pptr_ q) s p r w H0 Hs Hp) as (z & E & Hz). unfold mbind, M_bind. rewrite E.
  eexists. split; [done|]. split; [done|]. apply winv_pptr; [done..| | |].
  - rewrite Hz. by apply NoDup_fmap_filter.
  - intros i Hi. rewrite Hz, list_elem_of_filter. split; [tauto|]. intros Hm. split; [|done].
    intros Hir. apply Hi. by apply Hru.
  - intros i Hi. cbn. rewrite Hz, list_elem_of_filter. intros [Hir Hm]. apply Hir. by apply Hru.
Qed.

Lemma notify_open L : forall md w, winv_at s md w -> objs_ w !! s = Some p -> zmqPointer p = Some r ->
  (forall o, o ∈ L -> o ∈ observers_ p) ->
  exists res w' md', mfor L (fun o => updateOnOpen o s) w = (res, w') /\ objs_ w' = objs_ w /\ winv_at s md' w' /\
    ((exists e, res = Throw e) \/
     (res = Ok tt /\ forall o, o ∈ L \/ md o = Present -> md' o = Present)).
Proof.
  induction L as [|o L IH]; intros md w Hinv Hs Hp Hall; cbn [mfor].
  - exists (Ok tt), w, md. split_and!; try done. right. set_solver.
  - destruct (updateOnOpen_spec md w o Hinv Hs Hp (Hall o (list_elem_of_here _ _))) as [(w1 & E & Ho1 & H1)|[e E]].
    + destruct (IH (upd md o Present) w1) as (res & w' & md' & E' & Ho' & H' & Hres);
        [done|by rewrite Ho1|done|set_solver|].
      exists res, w', md'. rewrite (M_bind_eq _ _ _ _ _ E). split_and!; [done|congruence|done|].
      destruct Hres as [?|[? Hmd]]; [by left|right; split; [done|]]. intros o' Ho. apply Hmd. unfold upd.
      case_decide; [by right|]. set_solver.
    + exists (Throw e), w, md. unfold mbind, M_bind. rewrite E. split_and!; try done. left. eauto.
Qed.

Lemma notify_close L : forall md w, winv_at s md w -> objs_ w !! s = Some p -> zmqPointer p = Some r ->
  (forall o, o ∈ L -> o ∈ observers_ p) ->
  exists w' md', mfor L (fun o => updateOnClose o s) w = (Ok tt, w') /\ objs_ w' = objs_ w /\ winv_at s md' w' /\
    forall o, o ∈ L \/ md o = Absent -> md' o = Absent.
Proof.
  induction L as [|o L IH]; intros md w Hinv Hs Hp Hall; cbn [mfor].
  - exists w, md. split_and!; try done. set_solver.
  - destruct (updateOnClose_spec md w o Hinv Hs Hp (Hall o (list_elem_of_here _ _))) as (w1 & E & Ho1 & H1).
    destruct (IH (upd md o Absent) w1) as (w' & md' & E' & Ho' & H' & Hmd); [done|by rewrite Ho1|done|set_solver|].
    exists w', md'. rewrite (M_bind_eq _ _ _ _ _ E). split_and!; [done|congruence|done|].
    intros o' Ho. apply Hmd. unfold upd. case_decide; [by right|]. set_solver.
Qed.

End Notify.

(** ** Changes of one object *)

Definition put_obj (s : nat) (p : pollable) (w : world) : world := set_objs (<[s := p]> (objs_ w)) w.

(** A poller that does not observe the object does not hold it. *)
Lemma not_observed s md w p o q i : winv_at s md w -> objs_ w !! s = Some p ->
  pollers_ w !! o = Some q -> obs_ q = Some o -> i_user i = s -> o ∉ observers_ p -> i ∉ members (pptr_ q).
Proof.
  intros [Hn Hid Hr Ho Hon Ha Hw Hnd Hm] Hs Hq Hob Hi Hout Hin. specialize (Hm o q i Hq Hob).
  rewrite decide_True in Hm by done.
  assert (good w q i) as (Hsq & _) by (destruct (md o); cbn in Hm; tauto).
  rewrite Hi in Hsq. destruct (Hw o q s Hq Hob Hsq) as (p' & Hp' & ?). by simplify_eq.
Qed.

Lemma winv_put s md md' w p p' :
  winv_at s md w -> objs_ w !! s = Some p -> observers_ p' = observers_ p ->
  (forall k l, p' = mkPollable (Sock k) l -> id_ k = s) ->
  (forall r, zmqPointer p' = Some r -> r.1 = s) ->
  (forall o q i, pollers_ w !! o = Some q -> obs_ q = Some o -> i_user i = s ->
     o ∈ observers_ p -> holds (md o) w q i -> holds (md' o) (put_obj s p' w) q i) ->
  winv_at s md' (put_obj s p' w).
Proof.
  intros Hinv Hs Hobs Hid' Hr' Hs'. pose proof (not_observed s md w p) as Hno.
  pose proof Hinv as [Hn Hid Hr Ho Hon Ha Hw Hnd Hm].
  split; cbn [objs_ pollers_ set_objs put_obj]; [| | | | |done| |done|].
  - rewrite lookup_insert_ne; [done|]. intros ->. by rewrite Hn in Hs.
  - intros x k l. destruct (decide (x = s)) as [->|]; [rewrite lookup_insert_eq|rewrite lookup_insert_ne by done; eauto].
    intros [= ->]. eauto.
  - intros x p1 r. destruct (decide (x = s)) as [->|]; [rewrite lookup_insert_eq|rewrite lookup_insert_ne by done; eauto].
    intros [= ->]. eauto.
  - intros x p1 o. destruct (decide (x = s)) as [->|]; [rewrite lookup_insert_eq|rewrite lookup_insert_ne by done; eauto].
    intros [= ->]. rewrite Hobs. eauto.
  - intros x p1. destruct (decide (x = s)) as [->|]; [rewrite lookup_insert_eq|rewrite lookup_insert_ne by done; eauto].
    intros [= ->]. rewrite Hobs. eauto.
  - intros o q x Hq Hob Hx. destruct (Hw o q x Hq Hob Hx) as (p1 & Hp1 & Hin).
    destruct (decide (x = s)) as [->|]; [rewrite lookup_insert_eq|rewrite lookup_insert_ne by done; eauto].
    eexists. split; [done|]. by simplify_eq; rewrite Hobs.
  - intros o q i Hq Hob. specialize (Hm o q i Hq Hob). case_decide as Hi.
    + destruct (decide (o ∈ observers_ p)) as [Hin|Hout]; [by eapply Hs'|].
      assert (i ∉ members (pptr_ q)) as Hni by (by eapply Hno).
      destruct (md' o); cbn; try tauto. split; [tauto|]. intros [Hsq _]. rewrite Hi in Hsq.
      destruct (Hw o q s Hq Hob Hsq) as (p1 & Hp1 & ?). by simplify_eq.
    + cbn in *. rewrite Hm. unfold good. cbn. by rewrite lookup_insert_ne.
Qed.

Lemma winv_settle s md w p : winv_at s md w -> objs_ w !! s = Some p ->
  (forall o, o ∈ observers_ p -> md o = Present) -> winv w.
Proof.
  intros Hinv Hs Hmd. apply (winv_any s). pose proof Hinv as [Hn Hid Hr Ho Hon Ha Hw Hnd Hm].
  split; [done..|]. intros o q i Hq Hob. specialize (Hm o q i Hq Hob). case_decide as Hi; [|done].
  destruct (decide (o ∈ observers_ p)) as [Hin|Hout]; [by rewrite Hmd in Hm|].
  assert (i ∉ members (pptr_ q)) by (by eapply not_observed). cbn. split; [tauto|]. intros [Hsq _].
  rewrite Hi in Hsq. destruct (Hw o q s Hq Hob Hsq) as (p1 & Hp1 & ?). by simplify_eq.
Qed.

(** ** Closing and opening a socket *)

Abbreviation psock k l := (mkPollable (Sock k) l).

Lemma put_same s p w : objs_ w !! s = Some p -> put_obj s p w = w.
Proof. intros H. unfold put_obj, set_objs. rewrite insert_id by done. by destruct w. Qed.
Lemma put_put s p p' w : put_obj s p (put_obj s p' w) = put_obj s p w.
Proof. unfold put_obj, set_objs. cbn. by rewrite insert_insert_eq. Qed.
Lemma put_obj_lookup s p w : objs_ (put_obj s p w) !! s = Some p.
Proof. apply lookup_insert_eq. Qed.
Lemma put_other s p w x : x <> s -> objs_ (put_obj s p w) !! x = objs_ w !! x.
Proof. intros. by apply lookup_insert_ne. Qed.

Lemma on_sock_eq {A} s (m : M sock A) k l w : objs_ w !! s = Some (psock k l) ->
  on_sock s m w = ((m k).1, put_obj s (psock (m k).2 l) w).
Proof. intros H. unfold on_sock. by rewrite (bind_obj _ _ _ _ H). Qed.

Lemma bind_sock_get {A} s k l w (f : sock -> M world A) : objs_ w !! s = Some (psock k l) ->
  (on_sock s get ≫= f) w = f k w.
Proof.
  intros H. unfold mbind, M_bind. rewrite (on_sock_eq _ _ _ _ _ H). unfold get. cbn [fst snd].
  by rewrite (put_same _ _ _ H).
Qed.

(** The socket after it is closed *)
Definition closed (k : sock) : sock := (Socket.close k).2.
Lemma closed_eq k : Socket.close k = (Ok tt, closed k).
Proof. unfold closed, Socket.close. rewrite bind_get. by destruct (isOpen k). Qed.
Lemma closed_facts k : ptr_ (closed k) = None /\ id_ (closed k) = id_ k.
Proof.
  unfold closed, Socket.close. rewrite bind_get. unfold isOpen. by destruct k as [? ? ? []].
Qed.

Lemma winv_close s md w k l : winv_at s md w -> objs_ w !! s = Some (psock k l) ->
  (isOpen k = true -> forall o, o ∈ l -> md o = Absent) -> winv (put_obj s (psock (closed k) l) w).
Proof.
  intros Hinv Hs Hmd. destruct (closed_facts k) as [Hp Hid]. apply (winv_any s).
  eapply winv_put; [done..| | |].
  - intros k' l' [= <- <-]. rewrite Hid. by eapply inv_id.
  - cbn. by rewrite Hp.
  - intros o q i Hq Hob Hi Hin Hh. cbn in Hin. split.
    + intros Hm. exfalso. destruct (isOpen k) eqn:Ho; [by rewrite Hmd in Hh|].
      assert (good w q i) as (_ & (p & Hp' & Hr) & _) by (destruct (md o); cbn in Hh; tauto).
      rewrite Hi, Hs in Hp'. injection Hp' as <-. unfold isOpen in Ho. cbn in Hr. by destruct (ptr_ k).
    + intros (_ & (p & Hp' & Hr) & _). rewrite Hi, put_obj_lookup in Hp'. injection Hp' as <-.
      cbn in Hr. congruence.
Qed.

Lemma close_w s md w k l : winv_at s md w -> objs_ w !! s = Some (psock k l) ->
  exists w', close s w = (Ok tt, w') /\ winv w' /\ objs_ w' = <[s := psock (closed k) l]> (objs_ w).
Proof.
  intros Hinv Hs. unfold close. rewrite (bind_sock_get _ _ _ _ _ Hs). destruct (isOpen k) eqn:Ho; cbn [negb].
  - assert (exists r, zmqPointer (psock k l) = Some r) as [r Hr] by (by apply isOpen_pointer).
    destruct (notify_close s (psock k l) r l md w Hinv Hs Hr) as (w' & md' & E & Hobjs & H' & Hmd); [done|].
    eexists. split.
    + unfold try_catch. rewrite (bind_obj _ _ _ _ Hs), (M_bind_eq _ _ _ _ _ E).
      rewrite (on_sock_eq s _ k l w') by congruence. by rewrite closed_eq.
    + split; [|cbn; by rewrite Hobjs].
      eapply winv_close; [done|congruence|]. eauto.
  - assert (closed k = k) as Hc by (unfold closed, Socket.close; by rewrite bind_get, Ho).
    exists w. split; [done|]. rewrite Hc. split; [|by rewrite insert_id].
    rewrite <-(put_same _ _ _ Hs), <-Hc. eapply winv_close; [done..|congruence].
Qed.

(** The set-up of a new raw socket: the observers do not hold it yet. *)
Lemma winv_fresh s w k l r g : winv w -> objs_ w !! s = Some (psock k l) -> isOpen k = false -> r.1 = s ->
  winv_at s (fun _ => Absent) (put_obj s (psock (set_ptr (Some r) g k) l) w).
Proof.
  intros Hinv Hs Ho Hr. apply (winv_any s) in Hinv. eapply winv_put; [done..| | |].
  - intros k' l' [= <- <-]. cbn. by eapply inv_id.
  - cbn. by intros ? [= <-].
  - intros o q i Hq Hob Hi Hin Hh Hm. cbn in Hh. apply Hh in Hm as (_ & (p & Hp & Hr') & _).
    rewrite Hi, Hs in Hp. injection Hp as <-. unfold isOpen in Ho. cbn in Hr'. by destruct (ptr_ k).
Qed.

Lemma winv_setup s md w k k' l : winv_at s md w -> objs_ w !! s = Some (psock k l) ->
  ptr_ k' = ptr_ k -> id_ k' = id_ k -> winv_at s md (put_obj s (psock k' l) w).
Proof.
  intros Hinv Hs Hp Hid. eapply winv_put; [done..| | |].
  - intros k1 l1 [= <- <-]. rewrite Hid. by eapply inv_id.
  - cbn. rewrite Hp. intros r Hr. by eapply (inv_raw _ _ _ Hinv s (psock k l)).
  - intros o q i Hq Hob Hi Hin.
    assert (good w q i <-> good (put_obj s (psock k' l) w) q i) as Hg; [|destruct (md o); cbn; tauto].
    unfold good. rewrite Hi, Hs, put_obj_lookup.
    split; (intros (? & (p & [= <-] & ?) & ?); split_and!; [done| |done]; eexists; split; [done|cbn in *; congruence]).
Qed.

Lemma guard_fails {S A} (m : M S A) c s e s1 : m s = (Throw e, s1) ->
  guard_exit m c s = (Throw e, (c s1).2).
Proof. intros H. unfold guard_exit. by rewrite H. Qed.
Lemma guard_ok {S A} (m : M S A) c s a s1 : m s = (Ok a, s1) -> guard_exit m c s = (Ok a, s1).
Proof. intros H. unfold guard_exit. by rewrite H. Qed.
Lemma bind_throw {S A B} (m : M S A) (f : A -> M S B) s e s1 : m s = (Throw e, s1) ->
  (m ≫= f) s = (Throw e, s1).
Proof. intros H. unfold mbind, M_bind. by rewrite H. Qed.

(** The body of [open] under the guard, on the socket and on the state *)
Lemma open_body_w s w k l action o1 k2 : winv_at s (fun _ => Absent) w -> objs_ w !! s = Some (psock k l) ->
  isOpen k = true -> (forall e, keeps (action e)) -> open_setup action k = (o1, k2) ->
  exists o w' ans, guard_exit
      (on_sock s (open_setup action);; p ← obj s; mfor (observers_ p) (fun o => updateOnOpen o s)) (close s) w = (o, w') /\
    o <> Abort /\ o <> Undef /\ winv w' /\
    exists k', guard_exit (@open_body (with_observers ans) action) Socket.close k = (o, k') /\
      objs_ w' = <[s := psock k' l]> (objs_ w).
Proof.
  intros Hinv Hs Ho Ha E. destruct (keeps_open_setup action Ha _ _ _ E) as (H1 & H2 & Hp & _ & _ & _ & _ & Hid & _).
  pose proof (winv_setup s _ w k k2 l Hinv Hs Hp Hid) as Hw2. set (w2 := put_obj s (psock k2 l) w) in *.
  assert (objs_ w2 !! s = Some (psock k2 l)) as Hs2 by apply put_obj_lookup.
  assert (on_sock s (open_setup action) w = (o1, w2)) as Es by (rewrite (on_sock_eq _ _ _ _ _ Hs), E; done).
  assert (forall ans, @open_setup (with_observers ans) action k = (o1, k2)) as Ek by done.
  destruct o1 as [[]|e| |]; try done.
  - assert (isOpen k2 = true) as Ho2 by (unfold isOpen in *; by rewrite Hp).
    destruct (proj1 (isOpen_pointer (psock k2 l)) Ho2) as [r Hr].
    destruct (notify_open s (psock k2 l) r l _ w2 Hw2 Hs2 Hr) as (res & w3 & md & E3 & Hobj3 & Hw3 & Hres); [done|].
    assert (objs_ w3 !! s = Some (psock k2 l)) as Hs3 by congruence.
    assert ((on_sock s (open_setup action);; p ← obj s; mfor (observers_ p) (fun o => updateOnOpen o s)) w =
      (res, w3)) as Eb by (rewrite (M_bind_eq _ _ _ _ _ Es), (bind_obj _ _ _ _ Hs2); done).
    destruct Hres as [[e ->]|[-> Hmd]].
    + destruct (close_w s md w3 k2 l Hw3 Hs3) as (w4 & E4 & Hw4 & Hobj4).
      exists (Throw e), w4, (fun _ => Some e). rewrite (guard_fails _ _ _ _ _ Eb), E4. split_and!; try done.
      exists (closed k2). split; [|rewrite Hobj4, Hobj3; cbn; by rewrite insert_insert_eq].
      apply guard_fails. unfold open_body. rewrite (M_bind_eq _ _ _ _ _ (Ek _)), bind_get.
      cbn in Hr. rewrite Hr. done.
    + exists (Ok tt), w3, (fun _ => None). rewrite (guard_ok _ _ _ _ _ Eb). split_and!; try done.
      { eapply winv_settle; [done..|]. cbn. eauto. }
      exists k2. split; [|by rewrite Hobj3].
      apply guard_ok. unfold open_body. rewrite (M_bind_eq _ _ _ _ _ (Ek _)), bind_get.
      cbn in Hr. rewrite Hr. done.
  - destruct (close_w s _ w2 k2 l Hw2 Hs2) as (w4 & E4 & Hw4 & Hobj4).
    exists (Throw e), w4, (fun _ => None). rewrite (guard_fails _ _ _ _ _ (bind_throw _ _ _ _ _ Es)), E4.
    split_and!; try done. exists (closed k2). split; [|rewrite Hobj4; cbn; by rewrite insert_insert_eq].
    apply guard_fails. unfold open_body. by apply bind_throw.
Qed.

Lemma open_w s w k l action : winv w -> objs_ w !! s = Some (psock k l) -> (forall e, keeps (action e)) ->
  exists o w' ans, open s action w = (o, w') /\ o <> Abort /\ o <> Undef /\ winv w' /\
    exists k', @Socket.open (with_observers ans) action k = (o, k') /\
      objs_ w' = <[s := psock k' l]> (objs_ w).
Proof.
  intros Hinv Hs Ha. unfold open. rewrite (bind_sock_get _ _ _ _ _ Hs).
  unfold Socket.open. setoid_rewrite bind_get. destruct (isOpen k) eqn:Ho.
  { do 2 eexists. exists (fun _ => None). split_and!; try done. eexists. by rewrite insert_id. }
  cbn [zmq_socket with_observers]. destruct (zmq_socket _ _) as [e|].
  { do 2 eexists. exists (fun _ => None). split_and!; try done. eexists. by rewrite insert_id. }
  assert ((id_ k, gen_ k).1 = s) as Hid by (cbn; by eapply inv_id).
  pose proof (winv_fresh s w k l (id_ k, gen_ k) (S (gen_ k)) Hinv Hs Ho Hid) as Hw1.
  set (k1 := set_ptr (Some (id_ k, gen_ k)) (S (gen_ k)) k) in *.
  destruct (open_setup action k1) as [o1 k2] eqn:E.
  destruct (open_body_w s _ k1 l action o1 k2 Hw1 (put_obj_lookup _ _ _) eq_refl Ha E)
    as (o & w' & ans & Eo & ? & ? & Hw' & k' & Ek & Hobj).
  exists o, w', ans. setoid_rewrite bind_modify. unfold mbind at 1, M_bind at 1.
  rewrite (on_sock_eq _ _ _ _ _ Hs). unfold modify at 1 2. cbn [fst snd]. fold k1.
  split_and!; [done..|]. exists k'. split; [done|]. rewrite Hobj. cbn. by rewrite insert_insert_eq.
Qed.

(** ** Creating and destroying a poller *)

(** [w'] has the objects of [w] with the observers of each changed by [f]. *)
Definition reobserved (f : nat -> list nat -> list nat) (w w' : world) : Prop :=
  pollers_ w' = pollers_ w /\
  forall x, objs_ w' !! x = (fun p => set_observers (f x (observers_ p)) p) <$> objs_ w !! x.

Definition add_obs (o : nat) (array : list nat) (x : nat) (l : list nat) : list nat :=
  if decide (x ∈ array /\ o ∉ l) then l ++ [o] else l.
Definition del_obs (o : nat) (array : list nat) (x : nat) (l : list nat) : list nat :=
  if decide (x ∈ array) then filter (fun o' => o' <> o) l else l.

Lemma set_observers_id p : set_observers (observers_ p) p = p.
Proof. by destruct p. Qed.
Lemma reobserved_refl f w : (forall x l, f x l = l) -> reobserved f w w.
Proof.
  intros Hf. split; [done|]. intros x. destruct (objs_ w !! x) as [p|]; [|done]. cbn.
  by rewrite Hf, set_observers_id.
Qed.
Lemma reobserved_trans f g h w w1 w2 : (forall x l, h x l = g x (f x l)) ->
  reobserved f w w1 -> reobserved g w1 w2 -> reobserved h w w2.
Proof.
  intros Hh [Hp1 H1] [Hp2 H2]. split; [congruence|]. intros x. rewrite H2, H1.
  destruct (objs_ w !! x); [cbn|done]. by rewrite Hh.
Qed.
Lemma reobserved_dom f w w' x : reobserved f w w' -> is_Some (objs_ w !! x) -> is_Some (objs_ w' !! x).
Proof. intros [_ H] [p Hp]. rewrite H, Hp. by eexists. Qed.

Lemma reobserve_one f w s p l : objs_ w !! s = Some p -> l = f s (observers_ p) ->
  (forall x k, x <> s -> f x k = k) -> reobserved f w (put_obj s (set_observers l p) w).
Proof.
  intros Hs -> Hf. split; [done|]. intros x. destruct (decide (x = s)) as [->|Hne].
  - by rewrite put_obj_lookup, Hs.
  - rewrite put_other by done. destruct (objs_ w !! x); [cbn|done]. by rewrite Hf, set_observers_id.
Qed.

Lemma register_w s o w : is_Some (objs_ w !! s) ->
  exists w', registerPoller s o w = (Ok tt, w') /\ reobserved (add_obs o [s]) w w'.
Proof.
  intros [p Hp]. unfold registerPoller. rewrite (bind_obj _ _ _ _ Hp). case_decide as Hin.
  - exists w. split; [done|]. split; [done|]. intros x. destruct (objs_ w !! x) as [p'|] eqn:Hx; [|done].
    cbn. unfold add_obs. rewrite decide_False, set_observers_id; [done|].
    intros [->%list_elem_of_singleton Hn]. by simplify_eq.
  - eexists. split; [done|]. eapply reobserve_one; [done| |].
    + unfold add_obs. rewrite decide_True; [done|]. split; [by apply list_elem_of_singleton|done].
    + intros x k Hx. unfold add_obs. rewrite decide_False; [done|]. set_solver.
Qed.

Lemma unregister_all o array : forall w, (forall s, s ∈ array -> is_Some (objs_ w !! s)) ->
  exists w', mfor array (fun s => unregisterPoller s o) w = (Ok tt, w') /\ reobserved (del_obs o array) w w'.
Proof.
  induction array as [|s array IH]; intros w Hall; cbn [mfor].
  - exists w. split; [done|]. by apply reobserved_refl.
  - destruct (Hall s (list_elem_of_here _ _)) as [p Hp].
    assert (reobserved (del_obs o [s]) w (put_obj s (set_observers (filter (fun o' => o' <> o) (observers_ p)) p) w)) as H1.
    { eapply reobserve_one; [done| |].
      - unfold del_obs. rewrite decide_True; [done|by apply list_elem_of_singleton].
      - intros x k Hx. unfold del_obs. rewrite decide_False; [done|]. by intros ?%list_elem_of_singleton. }
    edestruct (IH (put_obj s (set_observers (filter (fun o' => o' <> o) (observers_ p)) p) w)) as (w' & E & H').
    { intros x Hx. eapply reobserved_dom; [done|]. apply Hall. by right. }
    exists w'. split.
    + rewrite (M_bind_eq _ _ w tt (put_obj s (set_observers (filter (fun o' => o' <> o) (observers_ p)) p) w)); [done|].
      unfold unregisterPoller. by rewrite (bind_obj _ _ _ _ Hp).
    + eapply reobserved_trans; [|exact H1|exact H']. intros x l. unfold del_obs.
      repeat case_decide; try done; try set_solver.
      rewrite list_filter_filter. apply list_filter_iff. naive_solver.
Qed.

Lemma destroy_w o array w : (forall s, s ∈ array -> is_Some (objs_ w !! s)) ->
  exists w', destroyPoller (Some o) array w = (Ok tt, w') /\ reobserved (del_obs o array) w w'.
Proof. apply unregister_all. Qed.

(** Changing observers changes no device. *)
Lemma reobserved_dev f w w' x r : reobserved f w w' ->
  (exists p, objs_ w' !! x = Some p /\ zmqPointer p = Some r) <->
  (exists p, objs_ w !! x = Some p /\ zmqPointer p = Some r).
Proof.
  intros [_ H]. rewrite H. split.
  - intros (p & [q [-> ->]]%fmap_Some & Hr). by exists q.
  - intros (p & -> & Hr). by eexists.
Qed.

(** The items of the open objects of an array *)
Definition polled (w : world) (array : list nat) (ev : Z) (i : item) : Prop :=
  i_user i ∈ array /\ (exists p, objs_ w !! i_user i = Some p /\ zmqPointer p = Some (i_raw i)) /\ i_events i = ev.

Lemma polled_reobserved f w w' array ev i : reobserved f w w' -> polled w' array ev i <-> polled w array ev i.
Proof. intros H. unfold polled. by rewrite (reobserved_dev _ _ _ _ _ H). Qed.

Lemma add_sockets_w o rd wr array : forall w z,
  objs_ w !! 0%nat = None -> (forall s, s ∈ array -> is_Some (objs_ w !! s)) -> NoDup (i_raw <$> members z) ->
  exists res w' part, add_sockets (Some o) array rd wr z w = (res, w') /\
    (forall x, x ∈ part -> x ∈ array) /\ reobserved (add_obs o part) w w' /\
    ((exists e, res = Throw e) \/
     exists z', res = Ok z' /\ part = array /\ NoDup (i_raw <$> members z') /\
       forall i, i ∈ members z' <-> i ∈ members z \/ polled w array (events_of rd wr) i).
Proof.
  induction array as [|s array IH]; intros w z Hnull Hall Hz; cbn [add_sockets].
  - exists (Ok z), w, []. split_and!; [done|done|by apply reobserved_refl|]. right. exists z.
    split_and!; try done. unfold polled. set_solver.
  - destruct (register_w s o w (Hall s (list_elem_of_here _ _))) as (w1 & E1 & H1).
    assert (objs_ w1 !! 0%nat = None) as Hn1 by (destruct H1 as [_ H1]; by rewrite H1, Hnull).
    assert (is_Some (objs_ w1 !! s)) as [p Hp] by (eapply reobserved_dom; [done|]; apply Hall; left).
    assert (s <> 0%nat) as Hs0 by (intros ->; congruence).
    assert (forall z1, NoDup (i_raw <$> members z1) ->
      (forall i, i ∈ members z1 <-> i ∈ members z \/ polled w [s] (events_of rd wr) i) ->
      exists res w' part, add_sockets (Some o) array rd wr z1 w1 = (res, w') /\
        (forall x, x ∈ part -> x ∈ s :: array) /\ reobserved (add_obs o part) w w' /\
        ((exists e, res = Throw e) \/
         exists z', res = Ok z' /\ part = s :: array /\ NoDup (i_raw <$> members z') /\
           forall i, i ∈ members z' <-> i ∈ members z \/ polled w (s :: array) (events_of rd wr) i)) as Hrest.
    { intros z1 Hz1 Hm1. destruct (IH w1 z1) as (res & w' & part & E & Hpart & Hre & Hres); [done| |done|].
      { intros x Hx. eapply reobserved_dom; [done|]. apply Hall. by right. }
      exists res, w', (s :: part). split_and!; [done|set_solver| |].
      { eapply reobserved_trans; [|exact H1|exact Hre]. intros x l. unfold add_obs.
        repeat case_decide; try done; set_solver. }
      destruct Hres as [?|(z' & -> & -> & Hnd & Hm)]; [by left|right]. exists z'. split_and!; try done.
      intros i. rewrite Hm, Hm1, (polled_reobserved _ _ _ _ _ _ H1). unfold polled. set_solver. }
    rewrite (M_bind_eq _ _ _ _ _ E1), (bind_obj _ _ _ _ Hp). cbn [orb].
    destruct (pollable_isOpen p) eqn:Ho.
    + apply isOpen_pointer in Ho as [r Hr].
      assert (forall i, polled w [s] (events_of rd wr) i <-> i = mkItem r s (events_of rd wr)) as Hi.
      { intros i. rewrite <-(polled_reobserved _ _ _ _ _ _ H1). unfold polled. rewrite list_elem_of_singleton. split.
        - intros (Hu & (p' & Hp' & Hr') & He). rewrite Hu in Hp'. destruct i. cbn in *. by simplify_eq.
        - intros ->. cbn. eauto. }
      destruct (addSocket_spec z s p r rd wr w1 Hs0 Hp Hr) as [(z1 & E2 & Hnot & Hz1)|[e E2]].
      * rewrite (M_bind_eq _ _ _ _ _ E2). apply Hrest.
        -- rewrite Hz1, fmap_app. apply NoDup_app. split_and!; [done| |apply NoDup_singleton]. cbn. set_solver.
        -- intros i. by rewrite Hz1, elem_of_app, list_elem_of_singleton, Hi.
      * rewrite (bind_throw _ _ _ _ _ E2). exists (Throw e), w1, [s]. split_and!; [done|set_solver|done|].
        left. by eexists.
    + rewrite bind_ret. apply Hrest; [done|]. intros i. rewrite <-(polled_reobserved _ _ _ _ _ _ H1).
      unfold polled. apply isOpen_closed in Ho. rewrite list_elem_of_singleton. split; [tauto|].
      intros [?|(Hu & (p' & Hp' & Hr') & _)]; [done|]. rewrite Hu in Hp'. congruence.
Qed.

Lemma winv_eq w w' : objs_ w' = objs_ w -> pollers_ w' = pollers_ w -> winv w -> winv w'.
Proof.
  intros Ho Hp [? ? ? ? ? ? ? ? Hm]. split; rewrite ?Ho, ?Hp; try done.
  intros o q i Hq Hob. specialize (Hm o q i Hq Hob). case_decide; cbn in *; unfold good in *; by rewrite Ho.
Qed.

(** Changing observers consistently with the table of the pollers *)
Lemma winv_reobserved f w w' t :
  winv w -> reobserved f w w' ->
  (forall x p o, objs_ w !! x = Some p -> o ∈ f x (observers_ p) ->
     exists q, t !! o = Some q /\ obs_ q = Some o /\ x ∈ sockets_ q) ->
  (forall x p, objs_ w !! x = Some p -> NoDup (f x (observers_ p))) ->
  (forall o q o', t !! o = Some q -> obs_ q = Some o' -> o' = o) ->
  (forall o q x, t !! o = Some q -> obs_ q = Some o -> x ∈ sockets_ q ->
     exists p, objs_ w !! x = Some p /\ o ∈ f x (observers_ p)) ->
  (forall o q, t !! o = Some q -> obs_ q = Some o -> NoDup (i_raw <$> members (pptr_ q)) /\
     forall i, i ∈ members (pptr_ q) <-> good w q i) ->
  winv (set_pollers t w').
Proof.
  intros [Hn Hid Hr _ _ _ _ _ _] Hre Ho1 Ho2 Ha Hw Hm. pose proof Hre as [_ Hl].
  split; cbn [objs_ pollers_ set_pollers].
  - by rewrite Hl, Hn.
  - intros x k l. rewrite Hl. intros ([d l'] & Hx & Heq)%fmap_Some. unfold set_observers in Heq. cbn in Heq.
    injection Heq as Hd _. subst d. by eapply Hid.
  - intros x p r Hx Hp. assert (exists p, objs_ w !! x = Some p /\ zmqPointer p = Some r) as (p' & ? & ?).
    { apply (reobserved_dev _ _ _ _ _ Hre). eauto. } eauto.
  - intros x p o. rewrite Hl. intros (p' & Hx & ->)%fmap_Some. cbn. eauto.
  - intros x p. rewrite Hl. intros (p' & Hx & ->)%fmap_Some. cbn. eauto.
  - done.
  - intros o q x Hq Hob Hx. destruct (Hw o q x Hq Hob Hx) as (p & Hp & Hin). eexists. rewrite Hl, Hp.
    split; [done|]. done.
  - intros o q Hq Hob. exact (proj1 (Hm o q Hq Hob)).
  - intros o q i Hq Hob. destruct (Hm o q Hq Hob) as [_ Hmem].
    assert (holds Present (set_pollers t w') q i) as Hp; [|by case_decide].
    cbn. rewrite (Hmem i). unfold good. cbn. by rewrite (reobserved_dev _ _ _ _ _ Hre).
Qed.

Lemma winv_present w : winv w -> forall o q, pollers_ w !! o = Some q -> obs_ q = Some o ->
  NoDup (i_raw <$> members (pptr_ q)) /\ forall i, i ∈ members (pptr_ q) <-> good w q i.
Proof.
  intros [? ? ? ? ? ? ? Hnd Hm] o q Hq Hob. split; [eauto|]. intros i. specialize (Hm o q i Hq Hob).
  by case_decide.
Qed.

Lemma fresh_unobserved w o x p : winv w -> pollers_ w !! o = None -> objs_ w !! x = Some p -> o ∉ observers_ p.
Proof. intros Hinv Ho Hx Hin. destruct (inv_obs _ _ _ Hinv x p o Hx Hin) as (q & Hq & _). congruence. Qed.

Lemma winv_create w w' o array z t tm : winv w -> pollers_ w !! o = None ->
  (forall s, s ∈ array -> is_Some (objs_ w !! s)) ->
  reobserved (add_obs o array) w w' -> NoDup (i_raw <$> members z) ->
  (forall i, i ∈ members z <-> polled w array (events_of (is_read t) (is_write t)) i) ->
  winv (set_pollers (<[o := mkPoller array z t (Some o) tm]> (pollers_ w)) w').
Proof.
  intros Hinv Ho Hall Hre Hnd Hm. eapply winv_reobserved; [done..| | | | |].
  - intros x p o' Hx Hin. unfold add_obs in Hin. destruct (decide (o' = o)) as [->|Hne].
    + rewrite lookup_insert_eq. eexists. split; [done|]. split; [done|]. cbn.
      case_decide as Hd; [tauto|]. by destruct (fresh_unobserved w o x p Hinv Ho Hx).
    + rewrite lookup_insert_ne by done. eapply inv_obs; [done..|]. case_decide; [set_solver|done].
  - intros x p Hx. pose proof (inv_obs_nodup _ _ _ Hinv x p Hx). unfold add_obs. case_decide as Hd; [|done].
    apply NoDup_app. split_and!; [done| |apply NoDup_singleton]. set_solver.
  - intros o' q o1. destruct (decide (o' = o)) as [->|Hne];
      [rewrite lookup_insert_eq; by intros [= <-] [= <-]|rewrite lookup_insert_ne by done; eapply inv_auto; eauto].
  - intros o' q x. destruct (decide (o' = o)) as [->|Hne].
    + rewrite lookup_insert_eq. intros [= <-] _ Hx. cbn in Hx. destruct (Hall x Hx) as [p Hp].
      exists p. split; [done|]. unfold add_obs. case_decide as Hd; [set_solver|].
      destruct (decide (o ∈ observers_ p)); [done|tauto].
    + rewrite lookup_insert_ne by done. intros Hq Hob Hx. destruct (inv_watch _ _ _ Hinv o' q x Hq Hob Hx) as (p & Hp & Hin).
      exists p. split; [done|]. unfold add_obs. case_decide; set_solver.
  - intros o' q. destruct (decide (o' = o)) as [->|Hne].
    + rewrite lookup_insert_eq. intros [= <-] _. done.
    + rewrite lookup_insert_ne by done. by apply winv_present.
Qed.

Lemma winv_destroy w w' o q : winv w -> pollers_ w !! o = Some q -> obs_ q = Some o ->
  reobserved (del_obs o (sockets_ q)) w w' -> winv (set_pollers (delete o (pollers_ w)) w').
Proof.
  intros Hinv Ho Hob Hre.
  assert (forall x l o', o' ∈ del_obs o (sockets_ q) x l -> o' ∈ l) as Hsub.
  { intros x l o'. unfold del_obs. case_decide; [|done]. by intros [_ ?]%list_elem_of_filter. }
  assert (forall x p, objs_ w !! x = Some p -> o ∉ del_obs o (sockets_ q) x (observers_ p)) as Hnot.
  { intros x p Hx Hin. pose proof (Hsub _ _ _ Hin) as Hin'.
    destruct (inv_obs _ _ _ Hinv x p o Hx Hin') as (q' & Hq' & _ & Hxq). simplify_eq.
    unfold del_obs in Hin. rewrite decide_True in Hin by done. by apply list_elem_of_filter in Hin as [? _]. }
  eapply winv_reobserved; [done..| | | | |].
  - intros x p o' Hx Hin. assert (o' <> o) as Hne by (intros ->; by eapply Hnot).
    rewrite lookup_delete_ne by done. by eapply inv_obs; [| |eapply Hsub].
  - intros x p Hx. pose proof (inv_obs_nodup _ _ _ Hinv x p Hx). unfold del_obs. case_decide; [|done].
    by apply NoDup_filter.
  - intros o' q' o1 [Hne Hq]%lookup_delete_Some. by eapply inv_auto.
  - intros o' q' x [Hne Hq]%lookup_delete_Some Hob' Hx.
    destruct (inv_watch _ _ _ Hinv o' q' x Hq Hob' Hx) as (p & Hp & Hin). exists p. split; [done|].
    unfold del_obs. case_decide; [|done]. apply list_elem_of_filter. split; [by intros ->|done].
  - intros o' q' [Hne Hq]%lookup_delete_Some. by apply winv_present.
Qed.

Lemma addSocket_plain z s rd wr w : objs_ w !! 0%nat = None -> is_Some (objs_ w !! s) ->
  (exists z', addSocket z s rd wr w = (Ok z', w)) \/ exists e, addSocket z s rd wr w = (Throw e, w).
Proof.
  intros Hn [p Hp]. assert (s <> 0%nat) as Hs by (intros ->; congruence).
  destruct (pollable_isOpen p) eqn:Ho.
  - apply isOpen_pointer in Ho as [r Hr]. destruct (addSocket_spec z s p r rd wr w Hs Hp Hr) as [(z' & E & _)|[e E]]; eauto.
  - right. unfold addSocket. rewrite (assert_nonnull _ Hs), bind_lift, (bind_obj _ _ _ _ Hp), Ho. by eexists.
Qed.

Lemma add_sockets_plain rd wr array : forall w z, objs_ w !! 0%nat = None ->
  (forall s, s ∈ array -> is_Some (objs_ w !! s)) ->
  (exists z', add_sockets None array rd wr z w = (Ok z', w)) \/ exists e, add_sockets None array rd wr z w = (Throw e, w).
Proof.
  induction array as [|s array IH]; intros w z Hn Hall; cbn [add_sockets]; [left; by eexists|].
  pose proof (Hall s (list_elem_of_here _ _)) as Hs. destruct (Hs) as [p Hp].
  rewrite bind_ret, (bind_obj _ _ _ _ Hp). cbn [orb].
  destruct (addSocket_plain z s rd wr w Hn Hs) as [[z' E]|[e E]].
  - rewrite (M_bind_eq _ _ _ _ _ E). apply IH; set_solver.
  - rewrite (bind_throw _ _ _ _ _ E). right. by eexists.
Qed.

Definition fine {A} (o : outcome A) : Prop := o <> Abort /\ o <> Undef.

(** Unregistering after a creation that failed *)
Lemma undo_register w w1 w2 o array part : winv w -> pollers_ w !! o = None -> (forall x, x ∈ part -> x ∈ array) ->
  reobserved (add_obs o part) (tick w) w1 -> reobserved (del_obs o array) w1 w2 -> objs_ w2 = objs_ w.
Proof.
  intros Hinv Hfresh Hpart [_ H1] [_ H2]. apply map_eq. intros x. rewrite H2, H1. cbn.
  destruct (objs_ w !! x) as [[d l]|] eqn:Hx; [|done]. cbn. f_equal.
  pose proof (fresh_unobserved w o x _ Hinv Hfresh Hx) as Hnot. cbn in Hnot.
  assert (filter (fun o' => o' <> o) l = l) as Hl by (apply filter_keep; intros y Hy ->; done).
  unfold set_observers, del_obs, add_obs. cbn. f_equal. repeat case_decide; try done; try set_solver.
  by rewrite filter_app, Hl, filter_cons_False, filter_nil, app_nil_r by tauto.
Qed.

(** Plain pollers come and go. *)
Lemma winv_plain w t : winv w ->
  (forall o q o', obs_ q = Some o' -> t !! o = Some q <-> pollers_ w !! o = Some q) -> winv (set_pollers t w).
Proof.
  intros Hinv Ht. eapply (winv_reobserved (fun _ l => l) w w); [done|by apply reobserved_refl|..].
  - intros x p o' Hx Hin. destruct (inv_obs _ _ _ Hinv x p o' Hx Hin) as (q' & Hq & Hob & ?).
    exists q'. by rewrite (Ht o' _ _ Hob).
  - by apply (inv_obs_nodup _ _ _ Hinv).
  - intros o' q' o1 Hq Hob. rewrite (Ht o' _ _ Hob) in Hq. by apply (inv_auto _ _ _ Hinv o' q').
  - intros o' q' x Hq Hob. rewrite (Ht o' _ _ Hob) in Hq. by apply (inv_watch _ _ _ Hinv).
  - intros o' q' Hq Hob. rewrite (Ht o' _ _ Hob) in Hq. exact (winv_present w Hinv o' q' Hq Hob).
Qed.

Lemma new_Poller_w o auto ev tmeo array w : winv w -> wop_ok (NewPoller o auto ev tmeo array) w ->
  exists res w', new_Poller o auto ev tmeo array w = (res, w') /\ fine res /\ winv w'.
Proof.
  intros Hinv [Hfresh Hall]. pose proof (inv_null _ _ _ Hinv) as Hn.
  assert (winv (tick w)) as Hinv1 by (by apply (winv_eq w)).
  unfold new_Poller, createPoller. destruct (zmq_poller_new (created_ w)) as [z|e] eqn:Ez.
  2:{ exists (Throw (mkError ZMQPollerCreateFailed e)), (tick w). split; [|done]. apply bind_throw.
      rewrite bind_get, Ez. done. }
  apply law_new in Ez as Hz. destruct auto.
  - destruct (add_sockets_w o (is_read ev) (is_write ev) array (tick w) z) as (res & w' & part & E & Hpart & Hre & Hres);
      [done|done|by rewrite Hz; constructor|].
    destruct Hres as [[e ->]|(z' & -> & -> & Hnd & Hm)].
    + destruct (destroy_w o array w') as (w2 & E2 & Hre2).
      { intros s Hs. eapply reobserved_dom; [done|]. cbn. by apply Hall. }
      exists (Throw e), w2. split.
      { apply bind_throw. rewrite bind_get, Ez, bind_modify. by rewrite (guard_fails _ _ _ _ _ E), E2. }
      split; [done|]. apply (winv_eq w); [|destruct Hre2 as [-> _]; by destruct Hre as [-> _]|done].
      by apply (undo_register w w' w2 o array part).
    + exists (Ok tt). eexists. split.
      { apply M_bind_Ok. exists z', w'. split; [|done]. rewrite bind_get, Ez, bind_modify. by apply guard_ok. }
      split; [done|]. destruct (Hre) as [Hp _]. rewrite Hp. apply (winv_create (tick w) w'); [done..|].
      intros i. rewrite Hm, Hz. set_solver.
  - destruct (add_sockets_plain (is_read ev) (is_write ev) array (tick w) z) as [[z' E]|[e E]]; [done|done| |].
    + exists (Ok tt). eexists. split.
      { apply M_bind_Ok. exists z', (tick w). split; [|done]. rewrite bind_get, Ez, bind_modify. by apply guard_ok. }
      split; [done|]. apply winv_plain; [done|]. intros o' q o1 Hob. cbn [tick pollers_].
      destruct (decide (o' = o)) as [->|]; [|by rewrite lookup_insert_ne].
      rewrite lookup_insert_eq, Hfresh. split; [|done]. intros [= <-]. done.
    + exists (Throw e), (tick w). split; [|done]. apply bind_throw. rewrite bind_get, Ez, bind_modify.
      by rewrite (guard_fails _ _ _ _ _ E).
Qed.

(** An object that no poller observes comes or goes. *)
Lemma winv_swap w s m : winv w -> (forall p, objs_ w !! s = Some p -> observers_ p = []) ->
  (forall x, x <> s -> m !! x = objs_ w !! x) ->
  (forall p, m !! s = Some p -> s <> 0%nat /\ observers_ p = [] /\
     (forall k l, p = psock k l -> id_ k = s) /\ forall r, zmqPointer p = Some r -> r.1 = s) ->
  winv (set_objs m w).
Proof.
  intros [Hn Hid Hr Ho Hon Ha Hw Hnd Hm] Hs Hm' Hp.
  assert (forall o q x, pollers_ w !! o = Some q -> obs_ q = Some o -> x ∈ sockets_ q -> x <> s) as Hno.
  { intros o q x Hq Hob Hx ->. destruct (Hw o q s Hq Hob Hx) as (p & Hp' & Hin).
    rewrite (Hs p Hp') in Hin. by apply not_elem_of_nil in Hin. }
  split; cbn [objs_ pollers_ set_objs]; [| | | | |done| |done|].
  - destruct (decide (0%nat = s)) as [<-|]; [|by rewrite Hm']. destruct (m !! 0%nat) as [p|] eqn:E; [|done].
    by destruct (Hp p eq_refl).
  - intros x k l Hx. destruct (decide (x = s)) as [->|]; [|rewrite Hm' in Hx by done; eauto].
    destruct (Hp _ Hx) as (_ & _ & Hk & _). eauto.
  - intros x p r Hx. destruct (decide (x = s)) as [->|]; [|rewrite Hm' in Hx by done; eauto].
    destruct (Hp _ Hx) as (_ & _ & _ & Hk). eauto.
  - intros x p o Hx. destruct (decide (x = s)) as [->|]; [|rewrite Hm' in Hx by done; eauto].
    destruct (Hp _ Hx) as (_ & -> & _). by intros ?%not_elem_of_nil.
  - intros x p Hx. destruct (decide (x = s)) as [->|]; [|rewrite Hm' in Hx by done; eauto].
    destruct (Hp _ Hx) as (_ & -> & _). constructor.
  - intros o q x Hq Hob Hx. rewrite Hm' by eauto. eauto.
  - intros o q i Hq Hob. assert (holds Present w q i) as Hh by (specialize (Hm o q i Hq Hob); by case_decide).
    assert (good (set_objs m w) q i <-> good w q i) as Hg.
    { unfold good. cbn. split; intros (H1 & H2 & H3); (split_and!; [done| |done]).
      - by rewrite <-Hm' by eauto.
      - by rewrite Hm' by eauto. }
    cbn in Hh |- *. case_decide; cbn; by rewrite Hg.
Qed.

Lemma exec_winv op w : winv w -> wop_ok op w -> exists o w', exec op w = (o, w') /\ fine o /\ winv w'.
Proof.
  intros Hinv. destruct op as [s t|s g|s e g|s|s|s|s|o auto ev tm array|o]; cbn [exec wop_ok].
  - intros [Hs Hn]. do 2 eexists. split; [done|]. split; [done|].
    apply (winv_swap w s); [done|congruence|intros; by apply lookup_insert_ne|].
    rewrite lookup_insert_eq. intros p [= <-]. split_and!; try done. by intros k l [= <- <-].
  - intros [Hs Hn]. do 2 eexists. split; [done|]. split; [done|].
    apply (winv_swap w s); [done|congruence|intros; by apply lookup_insert_ne|].
    rewrite lookup_insert_eq. intros p [= <-]. split_and!; try done. by intros r [= <-].
  - intros (k & l & Hs). rewrite (on_sock_eq _ _ _ _ _ Hs). do 2 eexists. split; [done|]. split; [done|].
    apply (winv_any s). by eapply winv_setup; [apply winv_any|..].
  - intros (k & l & Hs). unfold connect. destruct (open_w s w k l connect1 Hinv Hs keeps_connect1)
      as (o & w' & ans & E & ? & ? & ? & _). exists o, w'. by split_and!.
  - intros (k & l & Hs). unfold bind. destruct (open_w s w k l (bind1 5000) Hinv Hs (keeps_bind1 5000))
      as (o & w' & ans & E & ? & ? & ? & _). exists o, w'. by split_and!.
  - intros (k & l & Hs). apply (winv_any s) in Hinv. destruct (close_w s _ w k l Hinv Hs) as (w' & E & ? & _).
    exists (Ok tt), w'. by split_and!.
  - intros (k & Hs). apply (winv_any s) in Hinv. destruct (close_w s _ w k [] Hinv Hs) as (w' & E & Hw' & Hobj).
    rewrite (M_bind_eq _ _ _ _ _ E). do 2 eexists. split; [done|]. split; [done|].
    apply (winv_swap w' s); [done| |intros; by apply lookup_delete_ne|by rewrite lookup_delete_eq].
    rewrite Hobj, lookup_insert_eq. by intros p [= <-].
  - intros Hop. by apply new_Poller_w.
  - intros [q Hq]. unfold delete_Poller. rewrite (bind_poller _ _ _ _ Hq). destruct (obs_ q) as [o'|] eqn:Hob.
    + pose proof (inv_auto _ _ _ Hinv o q o' Hq Hob) as ->.
      destruct (destroy_w o (sockets_ q) w) as (w' & E & Hre).
      { intros x Hx. destruct (inv_watch _ _ _ Hinv o q x Hq Hob Hx) as (p & Hp & _). eauto. }
      rewrite (M_bind_eq _ _ _ _ _ E). do 2 eexists. split; [done|]. split; [done|].
      destruct (Hre) as [-> _]. by eapply winv_destroy.
    + unfold destroyPoller. rewrite bind_ret. do 2 eexists. split; [done|]. split; [done|].
      apply winv_plain; [done|]. intros o1 q1 o2 Hob1. destruct (decide (o1 = o)) as [->|];
        [rewrite lookup_delete_eq; split; [done|congruence]|by rewrite lookup_delete_ne].
Qed.

Lemma reachable_inv w : reachable w -> winv w.
Proof.
  induction 1 as [|op w w' o Hr IH Hop E].
  - split; cbn; try done; intros; by rewrite ?lookup_empty in *.
  - destruct (exec_winv op w IH Hop) as (o' & w1 & E1 & _ & Hw). rewrite E in E1. injection E1 as _ ->. done.
Qed.

Lemma e_loop_spec e n : forall it, (it + n = e_size e)%nat ->
  e_loop n e it = Ok (i_user <$> drop it (e_first e)).
Proof.
  unfold e_size. induction n as [|n IH]; intros it Hit; cbn [e_loop]; unfold e_end, e_size.
  - rewrite decide_True by lia. rewrite drop_ge by lia. done.
  - rewrite decide_False by lia. destruct (lookup_lt_is_Some_2 (e_first e) it ltac:(lia)) as [i Hi].
    unfold e_deref. rewrite Hi. cbn [mbind outcome_bind]. rewrite IH by lia. cbn.
    by rewrite (drop_S _ _ _ Hi).
Qed.

End Invariant.
End WithZmq.

(** ** Theorems *)

(** C10: Pollers follow their sockets: whatever a program does with sockets and pollers, and
    whatever the library answers, every operation returns or throws (no poller is told of a
    socket it does not know, no pointer dangles), and afterwards each [PollerAuto] holds
    exactly the sockets of its array that are open, each with the raw socket it has now and
    the events of the poller; an opening that fails half way has been undone in all pollers.  A
    program destroys a socket only after the pollers that observe it. *)
Theorem pollers_follow_sockets (Z_ : Zmq) (ZP : ZmqPoller) (L : ZmqPollerLaws ZP) (op : wop) (w : world) :
  reachable w -> wop_ok op w ->
  exists o w', exec op w = (o, w') /\ o <> Abort /\ o <> Undef /\
    forall n q, pollers_ w' !! n = Some q -> obs_ q = Some n ->
      NoDup (i_raw <$> members (pptr_ q)) /\
      forall i, i ∈ members (pptr_ q) <->
        i_user i ∈ sockets_ q /\
        (exists p, objs_ w' !! i_user i = Some p /\ zmqPointer p = Some (i_raw i)) /\
        i_events i = events_of (is_read (ptype_ q)) (is_write (ptype_ q)).
Proof.
  intros Hr Hop. destruct (exec_winv op w (reachable_inv w Hr) Hop) as (o & w' & E & [? ?] & Hw').
  exists o, w'. split_and!; [done..|]. intros n q Hq Hob. exact (winv_present w' Hw' n q Hq Hob).
Qed.

(** A raw poller as a list of items *)
Definition list_poller : ZmqPoller := {|
  zpoller := list item;
  zmq_poller_new _ := inl [];
  zmq_poller_add z r u e := if decide (r ∈ i_raw <$> z) then inr EINVAL else inl (z ++ [mkItem r u e]);
  zmq_poller_remove z r := if decide (r ∈ i_raw <$> z) then inl (filter (fun i => i_raw i <> r) z) else inr EINVAL;
  zmq_poller_wait_all z k n t := if decide (NoDup (i_raw <$> z)) then inl (take n z) else inr EFAULT;
|}.

#[export] Instance list_poller_laws : ZmqPollerLaws list_poller.
Proof.
  refine {| members := (fun z => z : list item) : @zpoller list_poller -> list item |}; cbn.
  - by intros k z [= <-].
  - intros z r u e z'. case_decide; [done|]. by intros [= <-].
  - intros z r Hr. rewrite decide_True by done. eauto.
  - intros z r Hr. by rewrite decide_False.
  - intros z k n t l. case_decide as Hnd; [|done]. intros [= <-]. split_and!.
    + rewrite <-(take_drop n z), fmap_app in Hnd. by apply NoDup_app in Hnd as [? _].
    + rewrite length_take. lia.
    + intros i Hi. rewrite <-(take_drop n z). set_solver.
Defined.

(** A socket, a poller of it, and the socket connected *)
Definition sample_prefix : list wop :=
  [NewSocket 1 DISH; NewFixed 2 0; Configure 1 [str "ipc:///tmp/a"] []; NewPoller 7 true Read (-1) [1%nat; 2%nat]].
Definition empty_world : @world list_poller := mkWorld ∅ ∅ 0.
Definition sample_world : @world list_poller :=
  (mfor sample_prefix (@exec ok_zmq list_poller) empty_world).2.

Lemma sample_world_reachable : @reachable ok_zmq list_poller sample_world.
Proof.
  set (w1 := (@exec ok_zmq list_poller (NewSocket 1 DISH) empty_world).2).
  set (w2 := (@exec ok_zmq list_poller (NewFixed 2 0) w1).2).
  set (w3 := (@exec ok_zmq list_poller (Configure 1 [str "ipc:///tmp/a"] []) w2).2).
  apply (reach_step (NewPoller 7 true Read (-1) [1%nat; 2%nat]) w3 _ (Ok tt)).
  - apply (reach_step (Configure 1 [str "ipc:///tmp/a"] []) w2 _ (Ok tt)).
    + apply (reach_step (NewFixed 2 0) w1 _ (Ok tt)).
      * apply (reach_step (NewSocket 1 DISH) empty_world _ (Ok tt)); [constructor|split; [lia|reflexivity]|reflexivity].
      * split; [lia|reflexivity].
      * reflexivity.
    + do 2 eexists. reflexivity.
    + reflexivity.
  - split; [reflexivity|]. intros s Hs. repeat (apply elem_of_cons in Hs as [->|Hs]; [by eexists|]).
    by apply not_elem_of_nil in Hs.
  - reflexivity.
Qed.

(** The socket that is connected is polled, beside the timer. *)
Lemma pollers_follow_sockets_witness :
  exists w', @exec ok_zmq list_poller (Connect 1) sample_world = (Ok tt, w') /\
    forall n q, pollers_ w' !! n = Some q -> obs_ q = Some n ->
      forall i, i ∈ (pptr_ q : list item) -> i_user i ∈ sockets_ q.
Proof.
  destruct (pollers_follow_sockets ok_zmq list_poller _ (Connect 1) sample_world sample_world_reachable)
    as (o & w' & E & _ & _ & H); [do 2 eexists; reflexivity|].
  exists w'. split.
  - rewrite E. f_equal. assert ((@exec ok_zmq list_poller (Connect 1) sample_world).1 = Ok tt) as Ho by reflexivity.
    by rewrite E in Ho.
  - intros n q Hq Hob i Hi. destruct (H n q Hq Hob) as [_ Hm]. by apply Hm in Hi as [? _].
Defined.

(** Opening a socket with its observers refines [Socket::open] alone: on any state a program
    can reach, [connect] and [bind] have the result, and leave the socket as, the model of one
    socket gives for some answer of its observers; all other objects stay as they were. *)
Theorem open_composes (Z_ : Zmq) (ZP : ZmqPoller) (L : ZmqPollerLaws ZP) (w : world) (s : nat) (k : sock)
    (l : list nat) (b : bool) :
  reachable w -> objs_ w !! s = Some (mkPollable (Sock k) l) ->
  exists o w' ans k', (if b then connect s else bind s) w = (o, w') /\
    (if b then @Socket.connect (with_observers ans) else @Socket.bind (with_observers ans)) k = (o, k') /\
    objs_ w' = <[s := mkPollable (Sock k') l]> (objs_ w).
Proof.
  intros Hr Hs. apply reachable_inv in Hr. destruct b.
  - destruct (open_w s w k l connect1 Hr Hs keeps_connect1) as (o & w' & ans & E & _ & _ & _ & k' & E' & H).
    exists o, w', ans, k'. done.
  - destruct (open_w s w k l (bind1 5000) Hr Hs (keeps_bind1 5000)) as (o & w' & ans & E & _ & _ & _ & k' & E' & H).
    exists o, w', ans, k'. done.
Qed.

Lemma open_composes_witness :
  exists o w' ans k', @connect ok_zmq list_poller 1 sample_world = (o, w') /\
    @Socket.connect (@with_observers ok_zmq ans) (setGroups [] (setEndpoints [str "ipc:///tmp/a"] (Socket 1 DISH))) = (o, k') /\
    objs_ w' = <[1%nat := mkPollable (Sock k') [7%nat]]> (objs_ sample_world).
Proof.
  exact (open_composes ok_zmq list_poller _ sample_world 1
    (setGroups [] (setEndpoints [str "ipc:///tmp/a"] (Socket 1 DISH))) [7%nat] true sample_world_reachable eq_refl).
Defined.

(** Waiting: the events a [PollerAuto] reports, read by iterating from begin to end, are
    distinct sockets of its array, each open at that moment; the iteration stays inside the
    events, and waiting changes nothing. *)
Theorem wait_reports_open (Z_ : Zmq) (ZP : ZmqPoller) (L : ZmqPollerLaws ZP) (w w' : world) (k n : nat)
    (q : poller) (e : events) :
  reachable w -> pollers_ w !! n = Some q -> obs_ q = Some n -> wait k n w = (Ok e, w') ->
  w' = w /\ e_type e = ptype_ q /\
  exists l, e_loop (e_size e) e (e_begin e) = Ok l /\ NoDup l /\ (length l <= length (sockets_ q))%nat /\
    forall s, s ∈ l -> s ∈ sockets_ q /\ exists p, objs_ w !! s = Some p /\ pollable_isOpen p = true.
Proof.
  intros Hr%reachable_inv Hq Hob. unfold wait. rewrite (bind_poller _ _ _ _ Hq). unfold waitForEvents.
  destruct (winv_present w Hr n q Hq Hob) as [_ Hm].
  assert (forall l, NoDup (i_raw <$> l) -> (length l <= length (sockets_ q))%nat ->
    (forall i, i ∈ l -> i ∈ members (pptr_ q)) ->
    exists l', e_loop (length l) (mkEvents (ptype_ q) l) 0 = Ok l' /\ NoDup l' /\ (length l' <= length (sockets_ q))%nat /\
      forall s, s ∈ l' -> s ∈ sockets_ q /\ exists p, objs_ w !! s = Some p /\ pollable_isOpen p = true) as Hl.
  { intros l Hnd Hlen Hin. exists (i_user <$> l). split; [by rewrite (e_loop_spec (mkEvents (ptype_ q) l)), drop_0|].
    split_and!; [|by rewrite length_fmap|].
    - apply NoDup_fmap_2_strong; [|by eapply NoDup_fmap_1]. intros i j Hi Hj Hij.
      pose proof (proj1 (Hm i) (Hin i Hi)) as (_ & (p1 & H1 & H2) & H3).
      pose proof (proj1 (Hm j) (Hin j Hj)) as (_ & (p2 & H4 & H5) & H6).
      rewrite Hij in H1. destruct i, j. cbn in *. simplify_eq. congruence.
    - intros s (i & -> & Hi)%list_elem_of_fmap. apply Hin, Hm in Hi as (? & (p & ? & ?) & _).
      split; [done|]. exists p. split; [done|]. apply isOpen_pointer. eauto. }
  destruct (zmq_poller_wait_all _ _ _ _) as [l|err] eqn:E.
  - intros [= <- <-]. apply law_wait in E as (? & ? & ?). split_and!; [done..|]. by apply Hl.
  - case_goal; [|done]. intros [= <- <-]. split_and!; [done..|]. apply Hl; [constructor|cbn; lia|].
    by intros i ?%not_elem_of_nil.
Qed.

Lemma wait_reports_open_witness :
  exists e, @wait list_poller 0 7 sample_world = (Ok e, sample_world) /\
    exists l, e_loop (e_size e) e (e_begin e) = Ok l /\ forall s, s ∈ l -> s ∈ [1%nat; 2%nat].
Proof.
  assert (exists q e, pollers_ sample_world !! 7%nat = Some q /\ obs_ q = Some 7%nat /\ sockets_ q = [1%nat; 2%nat] /\
    @wait list_poller 0 7 sample_world = (Ok e, sample_world)) as (q & e & Hq & Hob & Hsq & E)
    by (do 2 eexists; split_and!; reflexivity).
  exists e. split; [exact E|].
  destruct (wait_reports_open ok_zmq list_poller _ sample_world sample_world 0 7 q e sample_world_reachable Hq Hob E)
    as (_ & _ & l & El & _ & _ & Hl).
  exists l. split; [exact El|]. rewrite <-Hsq. intros s Hs. by apply Hl.
Defined.

End Poller.
