(* ===== verification/Session.v ===== *)
(** * Session (src/session.cpp, include/fuurin/session.h, include/fuurin/sessionenv.h)

    What the worker and the broker sessions share: the constants of the protocol, the
    events sent to the main thread, the operations received from it with their
    execution token, and the loop of the asynchronous task.  The loop is written over
    the interface [SessionOps], which each kind of session implements. *)

From S2P Require Import Prelude Part PartMulti Codec Event Socket.

Local Open Scope Z_scope.

Module SessionEnv.

Definition BrokerHugz : bytes := str "HUGZ".
Definition WorkerHugz : bytes := str "HUGZ".
Definition BrokerUpdt : bytes := str "UPDT".
Definition WorkerUpdt : bytes := str "UPDT".
Definition BrokerSyncReqst : bytes := str "SYNC".
Definition BrokerSyncBegin : bytes := str "BEGN".
Definition BrokerSyncElemn : bytes := str "ELEM".
Definition BrokerSyncCompl : bytes := str "SONC".

End SessionEnv.

Module Session.
Import Part PartMulti Codec Socket.

Definition GROUP_EVENTS : bytes := str "EVN".

Section WithEnv.
Context {P : Platform} {Z_ : Zmq}.

(** The copy of the payload is in a [noexcept] constructor. *)
Definition noexcept_ {A} (o : outcome A) : outcome A :=
  match o with Throw _ => Abort | o => o end.

(** The message of [Session::sendEvent] *)
Definition event_message (token : Z) (ev : Event.type) (pay : part) : outcome part :=
  pay ← noexcept_ (Part_copy pay);
  e ← Event.event_toPart (Event.mkEvent ev Event.Success pay);
  m ← pack [FInt 1 token; FStr (p_data e)];
  withGroup (Some GROUP_EVENTS) m.

(** [Session::sendEvent], on the socket for events *)
Definition sendEvent (token : Z) (ev : Event.type) (pay : part) : M sock unit :=
  m ← lift (event_message token ev pay);
  send [m];; mret tt.

(** [Session::recvOperation(zmq::Socket*, token_t)] of a message of two parts: an exception
    is fatal. *)
Definition recvOperation (token : Z) (tok oper : part) : outcome Operation.operation :=
  match Operation.operation_fromPart oper with
  | Ok o =>
    Ok (Operation.withNotification
          (if toUint8 tok =? token then Operation.Success else Operation.Discard) o)
  | Throw _ => Abort
  | Abort => Abort
  | Undef => Undef
  end.

End WithEnv.

(** ** The loop *)

(** A ready item of the poller: an operation, or one of the session's own. *)
Inductive ready (R : Type) := ROper (tok oper : part) | ROther (r : R).
Arguments ROper {R} _ _.
Arguments ROther {R} _.

(** What a kind of session implements. *)
Class SessionOps (S R : Type) := {
  token_of : S -> Z;
  operationReady : Operation.operation -> M S unit;
  socketReady : R -> M S unit;
}.

Section Run.
Context {P : Platform} {S R : Type} `{SessionOps S R}.

(** The ready items of one call of [poll->wait()]: [true] when the loop has to end. *)
Fixpoint run_batch (l : list (ready R)) : M S bool :=
  match l with
  | [] => mret false
  | ROther r :: l => socketReady r;; run_batch l
  | ROper tok oper :: l =>
    s ← get;
    op ← lift (recvOperation (token_of s) tok oper);
    if decide (Operation.notif_ op = Operation.Discard) then run_batch l else
    operationReady op;;
    if decide (Operation.type_ op = Operation.Stop) then mret true else run_batch l
  end.

(** [Session::run] over the results of the calls of [poll->wait()]: whether it returned. *)
Fixpoint run_loop (ls : list (list (ready R))) : M S bool :=
  match ls with
  | [] => mret false
  | l :: ls => b ← run_batch l; if (b : bool) then mret true else run_loop ls
  end.

(** [Session::run]: the scope guard announces the end of the session on [zfins_], whether
    the loop returns or throws; a failure of that is fatal.  [Ok false] is a session that
    is still waiting. *)
Definition run {Z_ : Zmq} (ls : list (list (ready R))) : M (sock * S) bool := fun zs =>
  match run_loop ls zs.2 with
  | (Ok false, s) => (Ok false, (zs.1, s))
  | (Abort, s) => (Abort, (zs.1, s))
  | (Undef, s) => (Undef, (zs.1, s))
  | (o, s) =>
    match send [Part_uint8 (token_of s)] zs.1 with
    | (Ok _, z) => (o, (z, s))
    | (Throw _, z) | (Abort, z) => (Abort, (z, s))
    | (Undef, z) => (Undef, (z, s))
    end
  end.

End Run.

(** What a session does with the items it is given: the operations of this execution and
    the other items in order, up to and including the first stop. *)
Inductive work (R : Type) := WOper (op : Operation.operation) | WOther (r : R).
Arguments WOper {R} _.
Arguments WOther {R} _.

(** The handlers keep the token of the session. *)
Class SessionLaws (S R : Type) `{SessionOps S R} := {
  oper_token op : frames token_of (operationReady op);
  ready_token r : frames token_of (socketReady r);
}.

Section Plan.
Context {P : Platform} {S R : Type} `{SessionOps S R}.

Fixpoint plan (token : Z) (l : list (ready R)) : list (work R) * bool :=
  match l with
  | [] => ([], false)
  | ROther r :: l => let '(w, b) := plan token l in (WOther r :: w, b)
  | ROper tok oper :: l =>
    if negb (toUint8 tok =? token) then plan token l else
    match Operation.operation_fromPart oper with
    | Ok op =>
      let op := Operation.withNotification Operation.Success op in
      if decide (Operation.type_ op = Operation.Stop) then ([WOper op], true)
      else let '(w, b) := plan token l in (WOper op :: w, b)
    | _ => ([], false)
    end
  end.

Definition do_work (w : work R) : M S unit :=
  match w with WOper op => operationReady op | WOther r => socketReady r end.

(** Operations come from the main thread, which packed them. *)
Definition item_ok (i : ready R) : Prop :=
  match i with ROper _ oper => exists op, Operation.operation_fromPart oper = Ok op | ROther _ => True end.

Context `{!SessionLaws S R}.

Lemma recvOperation_eq token tok oper op : Operation.operation_fromPart oper = Ok op ->
  recvOperation token tok oper =
    Ok (Operation.withNotification
          (if toUint8 tok =? token then Operation.Success else Operation.Discard) op).
Proof. unfold recvOperation. by intros ->. Qed.

(** The handlers change neither what is discarded nor what follows. *)
Lemma bind_token {B} (m : M S unit) (k1 k2 : unit -> M S B) s : frames token_of m ->
  (forall s', token_of s' = token_of s -> k1 tt s' = k2 tt s') -> (m ≫= k1) s = (m ≫= k2) s.
Proof.
  intros Hm Hk. specialize (Hm s). unfold mbind, M_bind. destruct (m s) as [[[]| | |] s1]; try done.
  by apply Hk.
Qed.

Lemma bind_assoc_M {A B C} (m : M S A) (k : A -> M S B) (j : B -> M S C) s :
  ((m ≫= k) ≫= j) s = (m ≫= (fun a => k a ≫= j)) s.
Proof. unfold mbind, M_bind. by destruct (m s) as [[]]. Qed.

Lemma run_batch_plan l : forall s, Forall item_ok l ->
  run_batch l s = (mfor (plan (token_of s) l).1 do_work;; mret (plan (token_of s) l).2) s.
Proof.
  induction l as [|[tok oper|r] l IH]; intros s Hl; [done| |]; apply Forall_cons in Hl as [Hi Hl];
    cbn [run_batch plan].
  - destruct Hi as [op Hop]. rewrite bind_get, (recvOperation_eq _ _ _ _ Hop), bind_lift, Hop.
    destruct (toUint8 tok =? token_of s); cbn [negb].
    + rewrite decide_False by done. set (op1 := Operation.withNotification _ _).
      case_decide as Hst; cbn [fst snd mfor do_work].
      * rewrite bind_assoc_M. by apply M_bind_ext.
      * destruct (plan (token_of s) l) as [w b] eqn:Ep. cbn [fst snd mfor do_work].
        rewrite bind_assoc_M. apply bind_token; [apply oper_token|]. intros s' Hs.
        by rewrite IH, Hs, Ep.
    + rewrite decide_True by done. by apply IH.
  - destruct (plan (token_of s) l) as [w b] eqn:Ep. cbn [fst snd mfor do_work].
    rewrite bind_assoc_M. apply bind_token; [apply ready_token|]. intros s' Hs.
    by rewrite IH, Hs, Ep.
Qed.

Lemma plan_app token l1 l2 : Forall item_ok l1 ->
  plan token (l1 ++ l2) =
    let '(w, b) := plan token l1 in
    if b then (w, true) else let '(w2, b2) := plan token l2 in (w ++ w2, b2).
Proof.
  induction 1 as [|[tok oper|r] l1 Hi _ IH]; cbn [app plan]; [by destruct (plan token l2)| |].
  - destruct Hi as [op ->]. destruct (negb _); [done|]. case_decide; [done|].
    rewrite IH. destruct (plan token l1) as [w [|]], (plan token l2) as [w2 b2]; done.
  - rewrite IH. destruct (plan token l1) as [w [|]], (plan token l2) as [w2 b2]; done.
Qed.

Lemma frames_work l : frames token_of (mfor l do_work).
Proof. apply frames_mfor. intros [op|r]; [apply oper_token|apply ready_token]. Qed.

Lemma run_loop_plan ls : forall s, Forall item_ok (concat ls) ->
  run_loop ls s = (mfor (plan (token_of s) (concat ls)).1 do_work;; mret (plan (token_of s) (concat ls)).2) s.
Proof.
  induction ls as [|l ls IH]; intros s Hl; [done|]. cbn [run_loop concat] in *.
  apply Forall_app in Hl as [Hl Hls]. rewrite plan_app by done. unfold mbind at 1, M_bind at 1.
  rewrite run_batch_plan by done. destruct (plan (token_of s) l) as [w b] eqn:E. cbn [fst snd].
  pose proof (frames_work w s) as Hf. unfold mbind at 1, M_bind at 1.
  destruct b; cbn [fst snd].
  - unfold mbind, M_bind. by destruct (mfor w do_work s) as [[[]| | |] s1].
  - destruct (plan (token_of s) (concat ls)) as [w2 b2] eqn:E2. cbn [fst snd].
    unfold mbind at 1, M_bind at 1. rewrite mfor_app. unfold mbind at 1, M_bind at 1.
    destruct (mfor w do_work s) as [[[]| | |] s1]; cbn [snd] in Hf; try done.
    unfold mret, M_ret. rewrite IH, Hf, E2 by done. done.
Qed.

End Plan.

(** ** Lemmas *)

Section Facts.
Context {P : Platform}.

Lemma Part_copy_data pay : (length (p_group pay) <= ZMQ_GROUP_MAX_LENGTH)%nat ->
  exists q, Part_copy pay = Ok q /\ p_data q = p_data pay.
Proof.
  intros Hg. unfold Part_copy. destruct (Z.eqb_spec (p_rid pay) 0) as [Hr|Hr]; cbn [mbind outcome_bind].
  2: unfold setRoutingID, zmq_msg_set_routing_id; rewrite (proj2 (Z.eqb_neq _ _)) by done;
     cbn [mbind outcome_bind].
  all: case_decide; [by eexists|]; unfold setGroup; rewrite decide_False; [by eexists|].
  all: assert (length (cstr (p_group pay)) <= length (p_group pay))%nat; [|lia].
  all: clear; induction (p_group pay) as [|b l IH]; cbn; [lia|]; case_decide; cbn; lia.
Qed.

(** Building an event message neither aborts nor goes wrong. *)
Lemma event_message_safe token ev pay :
  ev <> Event.COUNT -> (length (p_group pay) <= ZMQ_GROUP_MAX_LENGTH)%nat ->
  (exists e, event_message token ev pay = Throw e) \/ exists m, event_message token ev pay = Ok m.
Proof.
  intros Hev Hg. unfold event_message. destruct (Part_copy_data pay Hg) as (q & -> & Hq).
  cbn [noexcept_ mbind outcome_bind]. unfold Event.event_toPart, Message.pack_checked.
  rewrite !Message.ASSERT_range by first [by apply Event.toIntegral_range|cbn; lia].
  cbn [mbind outcome_bind]. unfold pack.
  match goal with |- context [pack_over ?f ?fs] => destruct (pack_over_safe f fs) as [->|(d & ->)] end.
  { repeat constructor. }
  { left. by eexists. }
  cbn [mbind outcome_bind].
  match goal with |- context [pack_over ?f ?fs] => destruct (pack_over_safe f fs) as [->|(d' & ->)] end.
  { repeat constructor. }
  { left. by eexists. }
  right. by eexists.
Qed.

Lemma event_message_spec token ev pay :
  in_width 1 token -> ev <> Event.COUNT -> zlen (p_data pay) < u32_max - 6 ->
  p_rid pay = 0 -> (length (p_group pay) <= ZMQ_GROUP_MAX_LENGTH)%nat ->
  exists d, event_message token ev pay = Ok (mkPart d 0 GROUP_EVENTS false) /\
    exists e, unpack [TInt 1; TStr] d = Ok [FInt 1 token; FStr e] /\
    Event.event_fromString e =
      Ok (Event.mkEvent ev Event.Success (Part_bytes (p_data pay))).
Proof.
  intros Htok Hev Hsz Hrid Hg. unfold event_message.
  assert (exists g, noexcept_ (Part_copy pay) = Ok (mkPart (p_data pay) 0 g false)) as (g & ->).
  { unfold Part_copy. rewrite Hrid. cbn. case_decide; [by eexists|].
    unfold setGroup. case_decide as Hd; [|by eexists].
    exfalso. assert (length (cstr (p_group pay)) <= length (p_group pay))%nat; [|lia].
    clear. induction (p_group pay) as [|b l IH]; cbn; [lia|]. case_decide; cbn; lia. }
  cbn [mbind outcome_bind].
  set (ev1 := Event.mkEvent ev Event.Success (Part_bytes (p_data pay))).
  assert (Event.event_ok ev1) as Hok by (constructor; try done; cbn; lia).
  destruct (Event.event_toPart_spec ev1 Hok) as [He Hfit].
  assert (Event.event_toPart (Event.mkEvent ev Event.Success (mkPart (p_data pay) 0 g false)) =
    Event.event_toPart ev1) as -> by done.
  rewrite He. cbn [mbind outcome_bind p_data Part_bytes].
  assert (zlen (Event.event_bytes ev1) < u32_max).
  { unfold Event.event_bytes, Message.fields. rewrite !encs_cons, !zlen_app. cbn [enc].
    rewrite !zlen_app, !zlen_to. change (zlen (encs [])) with 0. cbn [p_data Event.payld_ ev1 Part_bytes]. unfold u32_max in *. lia. }
  destruct (pack_fields [FInt 1 token; FStr (Event.event_bytes ev1)]) as (H1 & H2 & H3).
  { cbn. lia. }
  { repeat apply Forall_cons_2; cbn; try done. split; [lia|done]. }
  rewrite H1. cbn [mbind outcome_bind]. eexists. split; [reflexivity|].
  exists (Event.event_bytes ev1). split; [done|]. apply Event.event_fromString_spec; [done|].
  split; [done|]. exists []. by rewrite app_nil_r.
Qed.

End Facts.

(** ** Theorems *)

(** C13: The loop of a session, over any arrival of items in any batches: it handles, in order,
    every item of its own and every operation that carries its execution token, up to and
    including the first stop, and drops operations of other executions; it ends exactly when
    that stop was handled or a handler threw, and then announces its token once on the
    socket for completion; nothing after the stop is handled. *)
Theorem session_run_spec {S R} `{SessionLaws S R} (P : Platform) (Z_ : Zmq) (ls : list (list (ready R)))
    (z : sock) (s : S) :
  Forall item_ok (concat ls) -> accepts false z ->
  let '(w, stopped) := plan (token_of s) (concat ls) in
  let '(o, s') := mfor w do_work s in
  run ls (z, s) =
    match o with
    | Ok _ => (Ok stopped, (if stopped then log_call [Part_uint8 (token_of s)] z else z, s'))
    | Throw e => (Throw e, (log_call [Part_uint8 (token_of s)] z, s'))
    | Abort => (Abort, (z, s'))
    | Undef => (Undef, (z, s'))
    end.
Proof.
  intros Hl Hz. destruct (plan (token_of s) (concat ls)) as [w b] eqn:E.
  pose proof (frames_work w s) as Hf. destruct (mfor w do_work s) as [o s'] eqn:Ew.
  unfold run. cbn [fst snd] in *. rewrite run_loop_plan, E by done. cbn [fst snd].
  unfold mbind, M_bind, mret, M_ret. rewrite Ew. destruct o as [[]|e| |]; try done; [destruct b; [|done]|];
    rewrite send_one by done; by rewrite Hf.
Qed.

End Session.
