(* ===== verification/Timer.v ===== *)
(** * Timers (src/zmqtimer.cpp, src/zmqiotimer.cpp, src/zmqcancel.cpp)

    A [zmq::Timer] is used by one thread and fired by the thread of the ASIO
    context, which runs posted handlers one at a time.  Module [IOTimer] models the
    two threads and their interleavings: the queue of handlers, the heap of
    [IOSteadyTimer] objects that handlers refer to by raw pointer, the promise
    that reports completion, and the conflated notification.  Module [Timer] is the
    sequential view the state machines use, and the interleaved model is shown to
    refine it.  Module [Cancellation] models the deadline object built on the same
    [IOSteadyTimer]. *)

From S2P Require Import Prelude.

Local Open Scope Z_scope.

(** ** The sequential view *)

Module Timer.

(** What a user of [zmq::Timer] can observe: the configuration, whether the timer is
    running ([isActive]) and whether a notification is waiting ([isExpired]). *)
Record timer := mkTimer {
  interval_ : Z;
  singleshot_ : bool;
  active : bool;
  expired : bool;
}.

#[export] Instance timer_eq_dec : EqDecision timer.
Proof. solve_decision. Defined.

(** [Timer::Timer] *)
Definition new : timer := mkTimer 0 false false false.

(** [Timer::setInterval], [Timer::setSingleShot] *)
Definition setInterval (v : Z) (t : timer) : timer :=
  mkTimer (if v <? 0 then 0 else v) (singleshot_ t) (active t) (expired t).
Definition setSingleShot (v : bool) (t : timer) : timer :=
  mkTimer (interval_ t) v (active t) (expired t).

(** [Timer::start], [Timer::stop]: a notification already sent stays there. *)
Definition start (t : timer) : timer := mkTimer (interval_ t) (singleshot_ t) true (expired t).
Definition stop (t : timer) : timer := mkTimer (interval_ t) (singleshot_ t) false (expired t).

Definition isActive (t : timer) : bool := active t.
Definition isExpired (t : timer) : bool := expired t.

(** [Timer::consume] of an expired timer *)
Definition consume (t : timer) : timer := mkTimer (interval_ t) (singleshot_ t) (active t) false.

(** The timer expires: a single shot one becomes inactive. *)
Definition fire (t : timer) : timer :=
  mkTimer (interval_ t) (singleshot_ t) (negb (singleshot_ t)) true.

(** [if (timer->isExpired()) timer->consume();] *)
Definition consume_if_expired (t : timer) : timer := if isExpired t then consume t else t.

End Timer.

(** ** The two threads *)

Module IOTimer.

(** Handlers in the queue of the ASIO context: [timerStart], [timerCancel] and
    [timerFired] with its error code ([true] is operation_aborted). *)
Inductive kind := KStart | KCancel | KFired (aborted : bool).

#[export] Instance kind_eq_dec : EqDecision kind.
Proof. solve_decision. Defined.

(** An [IOSteadyTimer]: whether it is single shot, whether a wait is outstanding,
    whether its expiry was set to the minimum time point, whether its promise
    has a value. *)
Record iot := mkIot { singleshot : bool; armed : bool; cancelled : bool; promise : bool }.

Record io := mkIO {
  queue : list (kind * nat);
  heap : gmap nat iot;
  next : nat;
  acked : bool;
  notified : bool;
}.

Definition with_heap (f : gmap nat iot -> gmap nat iot) (s : io) : io :=
  mkIO (queue s) (f (heap s)) (next s) (acked s) (notified s).
Definition post (h : kind * nat) (s : io) : io :=
  mkIO (queue s ++ [h]) (heap s) (next s) (acked s) (notified s).

(** [cancelPromise.set_value(true)]: LOG_FATAL when it has a value already. *)
Definition set_promise (t : nat) (o : iot) (s : io) : outcome io :=
  if promise o then Abort
  else Ok (with_heap <[t := mkIot (singleshot o) (armed o) (cancelled o) true]> s).

(** [IOSteadyTimer::timerStart] *)
Definition timerStart (t : nat) (o : iot) (s : io) : outcome io :=
  Ok (with_heap <[t := mkIot (singleshot o) true false (promise o)]> s).

(** [IOSteadyTimer::timerCancel]: moving the expiry aborts an outstanding wait. *)
Definition timerCancel (t : nat) (o : iot) (s : io) : outcome io :=
  let s := mkIO (queue s) (heap s) (next s) true (notified s) in
  let s := with_heap <[t := mkIot (singleshot o) false true (promise o)]> s in
  Ok (if armed o then post (KFired true, t) s else s).

(** [IOSteadyTimer::timerFired] *)
Definition timerFired (t : nat) (o : iot) (aborted : bool) (s : io) : outcome io :=
  if aborted then set_promise t o s
  else if cancelled o then set_promise t o s
  else
    let s := mkIO (queue s) (heap s) (next s) (acked s) true in
    if singleshot o then set_promise t o s
    else Ok (with_heap <[t := mkIot (singleshot o) true (cancelled o) (promise o)]> s).

(** One handler; a handler of a deleted timer dereferences a dangling pointer. *)
Definition run_handler (s : io) : option (outcome io) :=
  match queue s with
  | [] => None
  | (k, t) :: q =>
    let s := mkIO q (heap s) (next s) (acked s) (notified s) in
    Some (match heap s !! t with
          | None => Undef
          | Some o =>
            match k with
            | KStart => timerStart t o s
            | KCancel => timerCancel t o s
            | KFired ab => timerFired t o ab s
            end
          end)
  end.

(** The time of an outstanding wait has come. *)
Definition expire (t : nat) (s : io) : option io :=
  match heap s !! t with
  | Some o =>
    if armed o
    then Some (post (KFired false, t)
                 (with_heap <[t := mkIot (singleshot o) false (cancelled o) (promise o)]> s))
    else None
  | None => None
  end.

(** [makeIOSteadyTimer] *)
Definition makeIOSteadyTimer (single : bool) (s : io) : nat * io :=
  (next s, mkIO (queue s) (<[next s := mkIot single false false false]> (heap s))
             (S (next s)) (acked s) (notified s)).

(** Deleting an [IOSteadyTimer]: its destructor aborts an outstanding wait. *)
Definition delete_timer (t : nat) (s : io) : io :=
  let s' := with_heap (delete t) s in
  match heap s !! t with
  | Some o => if armed o then post (KFired true, t) s' else s'
  | None => s'
  end.

(** Where the thread that uses the timer is: outside of the calls, in
    [ackFuture.get()] of [postTimerCancel], or in [cancelFuture_.get()]; the flag
    tells a restart from a stop. *)
Inductive pc := Idle | WaitAck (restart : bool) | WaitFuture (restart : bool).

#[export] Instance pc_eq_dec : EqDecision pc.
Proof. solve_decision. Defined.

Record tm := mkTm { sys : io; timer_ : option nat; single_ : bool; at_ : pc }.

Definition init : tm := mkTm (mkIO [] ∅ 0 false false) None false Idle.

(** The second half of [Timer::start] *)
Definition do_start (s : tm) : tm :=
  let '(t, i) := makeIOSteadyTimer (single_ s) (sys s) in
  mkTm (post (KStart, t) i) (Some t) (single_ s) Idle.

(** The first half of [Timer::stop]: [postTimerCancel] *)
Definition do_cancel (t : nat) (restart : bool) (s : tm) : tm :=
  let i := sys s in
  mkTm (post (KCancel, t) (mkIO (queue i) (heap i) (next i) false (notified i)))
    (timer_ s) (single_ s) (WaitAck restart).

Inductive label := LSetSingle (v : bool) | LStart | LStop | LAck | LFuture | LConsume
                 | LExpire | LRun.

(** One step of one of the two threads; [None] when it cannot be taken. *)
Definition exec (l : label) (s : tm) : option (outcome tm) :=
  match l, at_ s with
  | LSetSingle v, Idle => Some (Ok (mkTm (sys s) (timer_ s) v Idle))
  | LStart, Idle =>
    Some (Ok (match timer_ s with None => do_start s | Some t => do_cancel t true s end))
  | LStop, Idle =>
    Some (Ok (match timer_ s with None => s | Some t => do_cancel t false s end))
  | LAck, WaitAck r =>
    if acked (sys s) then Some (Ok (mkTm (sys s) (timer_ s) (single_ s) (WaitFuture r))) else None
  | LFuture, WaitFuture r =>
    match timer_ s with
    | Some t =>
      match heap (sys s) !! t with
      | Some o =>
        if promise o then
          let s := mkTm (delete_timer t (sys s)) None (single_ s) Idle in
          Some (Ok (if r then do_start s else s))
        else None
      | None => Some Undef
      end
    | None => Some Undef
    end
  | LConsume, Idle =>
    if notified (sys s) then
      let i := sys s in
      Some (Ok (mkTm (mkIO (queue i) (heap i) (next i) (acked i) false)
                  (timer_ s) (single_ s) Idle))
    else None
  | LExpire, _ =>
    match timer_ s with
    | Some t => (fun i => Ok (mkTm i (timer_ s) (single_ s) (at_ s))) <$> expire t (sys s)
    | None => None
    end
  | LRun, _ =>
    (fun o => i ← o; Ok (mkTm i (timer_ s) (single_ s) (at_ s))) <$> run_handler (sys s)
  | _, _ => None
  end.

(** States after any interleaving of the two threads. *)
Inductive reachable : outcome tm -> Prop :=
  | reach_init : reachable (Ok init)
  | reach_step l s o : reachable (Ok s) -> exec l s = Some o -> reachable o.

(** ** Invariant

    The handler that will complete the timer is in exactly one place: posted,
    outstanding, or done. *)

Inductive shape : list kind -> bool -> bool -> bool -> pc -> bool -> Prop :=
  | sh_started ac : shape [KStart] false false false Idle ac
  | sh_armed ac : shape [] true false false Idle ac
  | sh_fired ac : shape [KFired false] false false false Idle ac
  | sh_done ac : shape [] false false true Idle ac
  | sh_ack1 r : shape [KStart; KCancel] false false false (WaitAck r) false
  | sh_ack2 r : shape [KCancel] true false false (WaitAck r) false
  | sh_ack3 r : shape [KFired false; KCancel] false false false (WaitAck r) false
  | sh_ack4 r : shape [KCancel; KFired false] false false false (WaitAck r) false
  | sh_ack5 r : shape [KCancel] false false true (WaitAck r) false
  | sh_acked1 r ab : shape [KFired ab] false true false (WaitAck r) true
  | sh_acked2 r : shape [] false true true (WaitAck r) true
  | sh_fut1 r ab : shape [KFired ab] false true false (WaitFuture r) true
  | sh_fut2 r : shape [] false true true (WaitFuture r) true.

Inductive inv : tm -> Prop :=
  | inv_none n ac no sg :
    inv (mkTm (mkIO [] ∅ n ac no) None sg Idle)
  | inv_some ks t n ac no si ar ca pr sg p :
    shape ks ar ca pr p ac ->
    inv (mkTm (mkIO ((fun k => (k, t)) <$> ks) {[t := mkIot si ar ca pr]} n ac no) (Some t) sg p).

Lemma inv_init : inv init.
Proof. constructor. Qed.

(** Bound on the steps of a call in progress. *)
Definition measure (s : tm) : nat :=
  let q := queue (sys s) in
  let ar := match timer_ s ≫= fun t => heap (sys s) !! t with
            | Some o => armed o | None => false end in
  match at_ s with
  | Idle => 0
  | WaitFuture _ => if decide (q = []) then 1 else 2
  | WaitAck _ =>
    if acked (sys s) then (if decide (q = []) then 3 else 4)
    else match q with
         | [_] => if ar then 7 else 6
         | (KCancel, _) :: _ => 6
         | _ => 8
         end
  end.

Ltac heap_simpl :=
  cbn -[insert delete lookup] in *;
  rewrite ?lookup_singleton_eq, ?insert_singleton_eq, ?lookup_empty, ?delete_singleton_eq,
    ?insert_empty in *;
  cbn -[insert delete lookup] in *.

Ltac solve_inv :=
  match goal with
  | |- inv (mkTm (mkIO ?q _ _ _ _) (Some _) _ _) =>
    let ks := eval cbv in (fst <$> q) in apply (inv_some ks); constructor
  | |- inv _ => constructor
  end.

Ltac solve_measure := intros ?; try done; unfold measure; heap_simpl; repeat case_decide; try done; try lia.

(** Every step succeeds, keeps the invariant, and brings a call in progress closer to its end. *)
Lemma exec_inv l s o : inv s -> exec l s = Some o ->
  exists s', o = Ok s' /\ inv s' /\ (at_ s <> Idle -> (measure s' < measure s)%nat).
Proof.
  intros Hi He. destruct Hi as [n ac no sg|ks t n ac no si ar ca pr sg p Hs].
  - destruct l; heap_simpl; try (destruct no); try done; simplify_eq;
      eexists; (split; [done|]); (split; [|done]); try constructor;
      unfold do_start; heap_simpl; apply (inv_some [KStart]); constructor.
  - destruct l; inversion Hs; subst; cbn -[lookup insert delete] in He; try done;
      unfold expire, run_handler, timerStart, timerCancel, timerFired, set_promise, delete_timer,
        do_start, do_cancel, makeIOSteadyTimer, post, with_heap in *;
      heap_simpl; try done;
      repeat (case_hyp; heap_simpl; try done); simplify_eq;
      eexists; (split; [done|]); (split; [solve_inv|solve_measure]).
Qed.

Lemma timer_reachable_inv o : reachable o -> exists s, o = Ok s /\ inv s.
Proof.
  induction 1 as [|l s o _ (s' & [= <-] & Hi) He]; [exists init; split; [done|apply inv_init]|].
  destruct (exec_inv l s o Hi He) as (s' & -> & Hi' & _). by exists s'.
Qed.

(** A call in progress is never stuck. *)
Lemma exec_progress s : inv s -> at_ s <> Idle ->
  exists l o, l ∈ [LRun; LAck; LFuture] /\ exec l s = Some o.
Proof.
  intros Hi Hp. destruct Hi as [|ks t n ac no si ar ca pr sg p Hs]; [done|].
  inversion Hs; subst; try done;
    first [exists LRun; eexists; split; [set_solver|reflexivity]
          |exists LAck; eexists; split; [set_solver|reflexivity]
          |exists LFuture; eexists; (split; [set_solver|]); cbn -[lookup];
           rewrite lookup_singleton_eq; reflexivity].
Qed.

Lemma measure_bound s : (measure s <= 8)%nat.
Proof. unfold measure. repeat (case_goal || case_decide); lia. Qed.

(** Any sequence of steps taken while a call is in progress. *)
Inductive in_call : tm -> nat -> tm -> Prop :=
  | call_here s : in_call s 0 s
  | call_step l s s' n s'' :
    at_ s <> Idle -> exec l s = Some (Ok s') -> in_call s' n s'' -> in_call s (S n) s''.

Lemma in_call_measure s n s' : inv s -> in_call s n s' -> inv s' /\ (n + measure s' <= measure s)%nat.
Proof.
  intros Hi H. induction H as [|l s s1 n s2 Hp He Hc IH]; [split; [done|lia]|].
  destruct (exec_inv l s _ Hi He) as (s' & [= <-] & Hi' & Hm).
  destruct (IH Hi'). specialize (Hm Hp). split; [done|lia].
Qed.

(** C34: Timers are safe under every interleaving with the ASIO thread: no handler runs on a
    deleted timer, the completion promise is never set twice (no LOG_FATAL), and a
    [start()] or [stop()] in progress always has a step to take and returns after at most 8
    steps of the two threads. *)
Theorem timer_calls_complete (o : outcome tm) :
  reachable o ->
  exists s, o = Ok s /\
    (at_ s <> Idle -> exists l o', l ∈ [LRun; LAck; LFuture] /\ exec l s = Some o') /\
    (forall n s', in_call s n s' -> (n <= 8)%nat).
Proof.
  intros (s & -> & Hi)%timer_reachable_inv. exists s. split_and!; [done|by apply exec_progress|].
  intros n s' Hc. pose proof (measure_bound s). apply in_call_measure in Hc as [_ Hc]; [lia|done].
Qed.

(** A restart of a periodic timer that fires while the cancel is on its way. *)
Fixpoint run_labels (ls : list label) (s : tm) : option (outcome tm) :=
  match ls with
  | [] => Some (Ok s)
  | l :: ls => match exec l s with Some (Ok s') => run_labels ls s' | r => r end
  end.

Lemma reachable_labels ls s o : reachable (Ok s) -> run_labels ls s = Some o -> reachable o.
Proof.
  revert s. induction ls as [|l ls IH]; intros s Hr; cbn [run_labels]; [by intros [= <-]|].
  destruct (exec l s) as [[s'| | |]|] eqn:E; try done; intros Ho.
  - eapply IH; [|done]. by eapply reach_step.
  - injection Ho as <-. by eapply reach_step.
  - injection Ho as <-. by eapply reach_step.
  - injection Ho as <-. by eapply reach_step.
Qed.

Definition restart_race : list label := [LStart; LRun; LStart; LExpire; LRun].

Lemma timer_calls_complete_witness :
  exists s, run_labels restart_race init = Some (Ok s) /\ at_ s = WaitAck true /\
    exists s', (exists l, exec l s = Some (Ok s')) /\ forall n s'', in_call s n s'' -> (n <= 8)%nat.
Proof.
  destruct (run_labels restart_race init) as [o|] eqn:E; [|discriminate E].
  destruct (timer_calls_complete o) as (s & -> & H1 & H2).
  - exact (reachable_labels _ _ _ reach_init E).
  - vm_compute in E. injection E as <-. eexists. split; [reflexivity|].
    split; [reflexivity|]. eexists. split; [exists LRun; vm_compute; reflexivity|exact H2].
Defined.

(** ** Refinement of the sequential view *)

(** The sequential timer: its kind is the one it was started with, or the configured one when
    there is none. *)
Definition abs (s : tm) : Timer.timer :=
  match timer_ s ≫= fun t => heap (sys s) !! t with
  | Some o => Timer.mkTimer 0 (singleshot o) (negb (promise o) && negb (cancelled o)) (notified (sys s))
  | None => Timer.mkTimer 0 (single_ s) false (notified (sys s))
  end.

(** [Timer::isActive]: the future is valid and its promise has no value; [Timer::isExpired]: the
    poller finds the notification. *)
Definition isActive (s : tm) : bool :=
  match timer_ s ≫= fun t => heap (sys s) !! t with
  | Some o => negb (promise o)
  | None => false
  end.
Definition isExpired (s : tm) : bool := notified (sys s).

(** The calls that wait for the other thread, and what they do to the sequential timer: the
    configured kind takes effect. *)
Inductive call := CStart | CStop.
Definition enter (c : call) : label := match c with CStart => LStart | CStop => LStop end.
Definition restarts (c : call) : bool := match c with CStart => true | CStop => false end.
Definition after_call (c : call) (single : bool) (t : Timer.timer) : Timer.timer :=
  match c with
  | CStart => Timer.start (Timer.setSingleShot single t)
  | CStop => Timer.stop (Timer.setSingleShot single t)
  end.

(** The timer may still expire before a call takes effect. *)
Definition may_fire (t t' : Timer.timer) : Prop := t' = t \/ Timer.active t = true /\ t' = Timer.fire t.

Lemma may_fire_trans t1 t2 t3 : may_fire t1 t2 -> may_fire t2 t3 -> may_fire t1 t3.
Proof. unfold may_fire. destruct t1 as [i g a e]. intros [->|[Ha ->]] [->|[Hb ->]]; cbn in *; auto. Qed.

Ltac unfold_steps :=
  unfold expire, run_handler, timerStart, timerCancel, timerFired, set_promise, delete_timer,
    do_start, do_cancel, makeIOSteadyTimer, post, with_heap in *.
Ltac solve_fire := first [left; reflexivity|right; split; reflexivity].

(** Outside of the calls *)
Lemma idle_step l s s' : inv s -> at_ s = Idle -> l = LExpire \/ l = LRun -> exec l s = Some (Ok s') ->
  at_ s' = Idle /\ single_ s' = single_ s /\ may_fire (abs s) (abs s').
Proof.
  intros Hi Ha Hl He. destruct Hi as [n ac no sg|ks t n ac no si ar ca pr sg p Hs].
  - destruct Hl as [-> | ->]; heap_simpl; done.
  - cbn [at_] in Ha. subst p. destruct Hl as [-> | ->]; inversion Hs; subst; cbn -[lookup insert delete] in He;
      try done; unfold_steps; heap_simpl; try done; repeat (case_hyp; heap_simpl; try done); simplify_eq;
      unfold abs; heap_simpl; (split; [done|split; [done|]]); solve_fire.
Qed.

(** A call in progress, over what the timer was when it began: until the cancellation is
    acknowledged the timer may fire, then it is stopped. *)
Definition in_progress (c : call) (single : bool) (t0 : Timer.timer) (s : tm) : Prop :=
  (at_ s = WaitAck (restarts c) \/ at_ s = WaitFuture (restarts c)) /\ single_ s = single /\
  exists t, may_fire t0 t /\ abs s = if acked (sys s) then Timer.stop t else t.

Definition returned (c : call) (single : bool) (t0 : Timer.timer) (s : tm) : Prop :=
  at_ s = Idle /\ single_ s = single /\ exists t, may_fire t0 t /\ abs s = after_call c single t.

Lemma call_begins c s : inv s -> at_ s = Idle ->
  exists s1, exec (enter c) s = Some (Ok s1) /\
    (returned c (single_ s) (abs s) s1 \/ in_progress c (single_ s) (abs s) s1).
Proof.
  intros Hi Ha. destruct Hi as [n ac no sg|ks t n ac no si ar ca pr sg p Hs].
  - destruct c; (eexists; split; [reflexivity|]); left; (split; [done|split; [done|]]); (exists (Timer.mkTimer 0 sg false no));
      (split; [by left|]); unfold abs, do_start, makeIOSteadyTimer, post; do 2 heap_simpl; done.
  - cbn [at_] in Ha. subst p. destruct c; (eexists; split; [reflexivity|]); right; (split; [by left|split; [done|]]);
      (eexists; split; [by left|]); unfold abs, do_cancel, post; by heap_simpl.
Qed.

(** A step of either thread while a call waits *)
Lemma wait_step r l s s' : inv s -> at_ s = WaitAck r \/ at_ s = WaitFuture r -> exec l s = Some (Ok s') ->
  single_ s' = single_ s /\
  ((at_ s' = WaitAck r \/ at_ s' = WaitFuture r) /\
     (acked (sys s) = false /\ acked (sys s') = false /\ may_fire (abs s) (abs s') \/
      acked (sys s') = true /\ abs s' = (if acked (sys s) then abs s else Timer.stop (abs s))) \/
   at_ s' = Idle /\ acked (sys s) = true /\ abs s' = after_call (if r then CStart else CStop) (single_ s) (abs s)).
Proof.
  intros Hi Hp He. destruct Hi as [n ac no sg0|ks t n ac no si ar ca pr sg0 p Hs]; [by destruct Hp|]. cbn [at_] in Hp.
  destruct Hp as [-> | ->]; destruct l; inversion Hs; subst; cbn -[lookup insert delete] in He; try done;
    unfold_steps; heap_simpl; try done; repeat (case_hyp; heap_simpl; try done); simplify_eq;
    unfold abs; do 2 heap_simpl; (split; [done|]);
    first [left; split; [by auto|]; first [left; split_and!; [done|done|solve_fire]|right; done]|right; done].
Qed.

Lemma call_goes_on c sg t0 l s s' : inv s -> in_progress c sg t0 s -> exec l s = Some (Ok s') ->
  in_progress c sg t0 s' \/ returned c sg t0 s'.
Proof.
  intros Hi (Hp & <- & t1 & Hf & Habs) He. destruct (wait_step _ l s s' Hi Hp He) as [Hsg [[Hp' Hc]|(Hp' & Hac & Ha)]].
  - left. split; [done|]. split; [done|]. destruct Hc as [(H1 & H2 & H3)|[H1 H2]].
    + rewrite H1 in Habs. rewrite H2. exists (abs s'). split; [|done]. subst t1. by eapply may_fire_trans.
    + rewrite H1, H2. exists t1. split; [done|]. rewrite Habs. by destruct (acked (sys s)).
  - right. split; [done|]. split; [done|]. exists t1. split; [done|]. rewrite Ha, Habs, Hac. by destruct c.
Qed.

Lemma call_result c sg t0 n s s' : inv s -> in_progress c sg t0 s -> in_call s n s' ->
  in_progress c sg t0 s' \/ returned c sg t0 s'.
Proof.
  intros Hi Hp Hc. induction Hc as [|l s s1 n s2 Hna He Hc IH]; [by left|].
  destruct (exec_inv l s _ Hi He) as (s1' & [= <-] & Hi1 & _).
  destruct (call_goes_on c sg t0 l s s1 Hi Hp He) as [Hp1|Hr]; [by apply IH|].
  right. destruct Hc; [done|]. by destruct Hr.
Qed.

(** A call in progress can be brought to its end. *)
Lemma call_returns m : forall s, inv s -> (measure s <= m)%nat -> exists n s', in_call s n s' /\ at_ s' = Idle.
Proof.
  induction m as [|m IH]; intros s Hi Hm; (destruct (decide (at_ s = Idle)) as [Ha|Ha]; [by exists 0%nat, s; split; [constructor|]|]);
    destruct (exec_progress s Hi Ha) as (l & o & _ & He); destruct (exec_inv l s o Hi He) as (s1 & -> & Hi1 & Hlt);
    specialize (Hlt Ha); [lia|].
  destruct (IH s1 Hi1) as (n & s2 & Hc & H2); [lia|]. exists (S n), s2. split; [by econstructor|done].
Qed.

(** C35: The interleaved timer refines the sequential one the state machines are written against,
    call by call and under every interleaving with the ASIO thread.  A [start()] or [stop()] returns,
    and whenever it does the timer is the one of [Timer.start] or [Timer.stop] with the
    configured kind, but for one expiry that may have come first when it was active.
    [consume()] returns at once exactly when the timer is expired and takes the expiry away;
    [setSingleShot()] changes only the kind of the next start; between the calls the only thing
    that happens to the timer is that it fires when it is active; and [isActive()]
    and [isExpired()] report exactly the state of the sequential timer. *)
Theorem timer_refines (s : tm) :
  reachable (Ok s) -> at_ s = Idle ->
  isActive s = Timer.isActive (abs s) /\ isExpired s = Timer.isExpired (abs s) /\
  (forall c, exists s1, exec (enter c) s = Some (Ok s1) /\
     (exists n s', in_call s1 n s' /\ at_ s' = Idle) /\
     (forall n s', in_call s1 n s' -> at_ s' = Idle ->
        single_ s' = single_ s /\ exists t, may_fire (abs s) t /\ abs s' = after_call c (single_ s) t)) /\
  (if Timer.expired (abs s) then exists s', exec LConsume s = Some (Ok s') /\ at_ s' = Idle /\ abs s' = Timer.consume (abs s)
   else exec LConsume s = None) /\
  (forall v, exists s', exec (LSetSingle v) s = Some (Ok s') /\ at_ s' = Idle /\ single_ s' = v /\
     abs s' = match timer_ s with Some _ => abs s | None => Timer.setSingleShot v (abs s) end) /\
  (forall l s', l = LExpire \/ l = LRun -> exec l s = Some (Ok s') -> at_ s' = Idle /\ may_fire (abs s) (abs s')).
Proof.
  intros (s0 & [= <-] & Hi)%timer_reachable_inv Ha. split; [|split; [|split; [|split; [|split]]]].
  - destruct Hi as [|ks t n ac no si ar ca pr sg p Hs]; [done|]. cbn [at_] in Ha. subst p.
    inversion Hs; subst; unfold isActive, abs; by do 2 heap_simpl.
  - unfold isExpired, abs. by destruct (_ ≫= _).
  - intros c. destruct (call_begins c s Hi Ha) as (s1 & E & H1). exists s1. split; [done|].
    destruct (exec_inv _ _ _ Hi E) as (s1' & [= <-] & Hi1 & _). split; [by eapply call_returns|].
    intros n s' Hc Ha'. destruct H1 as [H1|H1].
    + destruct Hc; [|by destruct H1]. destruct H1 as (_ & ? & ?). done.
    + destruct (call_result _ _ _ _ _ _ Hi1 H1 Hc) as [([H2|H2] & _)|(_ & ? & ?)]; [congruence..|done].
  - assert (Timer.expired (abs s) = notified (sys s)) as -> by (unfold abs; by destruct (_ ≫= _)).
    cbn [exec]. rewrite Ha. destruct (notified (sys s)); [|done]. eexists. split; [done|]. split; [done|].
    unfold abs. cbn [timer_ sys heap notified single_]. by destruct (_ ≫= _).
  - intros v. cbn [exec]. rewrite Ha. eexists. split; [done|]. split; [done|]. split; [done|].
    destruct Hi as [|ks t n ac no si ar ca pr sg p Hs]; [done|]. unfold abs. by do 2 heap_simpl.
  - intros l s' Hl He. by destruct (idle_step l s s' Hi Ha Hl He) as (? & _ & ?).
Qed.

(** A periodic timer fires while it is being restarted as a single shot one. *)
Lemma timer_refines_witness :
  exists s s1 s', run_labels [LStart; LRun; LSetSingle true; LExpire] init = Some (Ok s) /\
    exec LStart s = Some (Ok s1) /\ run_labels [LRun; LRun; LRun; LAck; LFuture] s1 = Some (Ok s') /\
    in_call s1 5 s' /\ exists t, may_fire (abs s) t /\ abs s' = Timer.start (Timer.setSingleShot true t).
Proof.
  assert (match run_labels [LStart; LRun; LSetSingle true; LExpire] init with
          | Some (Ok s) => match exec LStart s with
                           | Some (Ok s1) => match run_labels [LRun; LRun; LRun; LAck; LFuture] s1 with
                                             | Some (Ok s') => at_ s' | _ => WaitAck true end
                           | _ => WaitAck true end
          | _ => WaitAck true end = Idle) as K by (vm_compute; reflexivity).
  assert (forall s, run_labels [LStart; LRun; LSetSingle true; LExpire] init = Some (Ok s) -> at_ s = Idle /\ single_ s = true) as K1
    by (intros s E; vm_compute in E; injection E as <-; split; reflexivity).
  destruct (run_labels [LStart; LRun; LSetSingle true; LExpire] init) as [[s| | |]|] eqn:E; try discriminate K.
  destruct (K1 s eq_refl) as [Ha Hsg].
  destruct (exec LStart s) as [[s1| | |]|] eqn:E1; try discriminate K.
  destruct (run_labels [LRun; LRun; LRun; LAck; LFuture] s1) as [[s'| | |]|] eqn:E2; try discriminate K.
  assert (in_call s1 5 s') as Hc.
  { vm_compute in E. injection E as <-. vm_compute in E1. injection E1 as <-. vm_compute in E2. injection E2 as <-.
    repeat first [apply call_here|eapply (call_step LRun); [discriminate|vm_compute; reflexivity|]
      |eapply (call_step LAck); [discriminate|vm_compute; reflexivity|]
      |eapply (call_step LFuture); [discriminate|vm_compute; reflexivity|]]. }
  exists s, s1, s'. split; [reflexivity|]. split; [exact E1|]. split; [exact E2|]. split; [exact Hc|].
  destruct (timer_refines s (reachable_labels _ _ _ reach_init E) Ha) as (_ & _ & Hcall & _).
  destruct (Hcall CStart) as (s1' & E1' & _ & Hr). cbn [enter] in E1'. rewrite E1 in E1'. injection E1' as <-.
  destruct (Hr 5%nat s' Hc K) as [_ Ht]. rewrite Hsg in Ht. exact Ht.
Defined.

End IOTimer.

(** ** Cancellation *)

Module Cancellation.
Import IOTimer.

Record cn := mkCn { csys : io; ctimer : option nat; deadline_ : Z }.

Definition cinit : cn := mkCn (mkIO [] ∅ 0 false false) None 0.

(** [Cancellation::isCanceled] *)
Definition isCanceled (c : cn) : bool := notified (csys c).

(** [Cancellation::start]: [timer_.reset] deletes the previous timer without waiting for
    its handlers. *)
Definition start (timeout : Z) (c : cn) : cn :=
  if isCanceled c then c else
  let '(t, i) := makeIOSteadyTimer true (csys c) in
  let i := match ctimer c with Some old => delete_timer old i | None => i end in
  mkCn (post (KStart, t) i) (Some t) timeout.

(** [Cancellation::setDeadline], [Cancellation::cancel] *)
Definition setDeadline (timeout : Z) (c : cn) : cn :=
  if timeout <? 0 then c else start timeout c.
Definition cancel (c : cn) : cn := start 0 c.

(** A step of the ASIO thread *)
Definition io_step (c : cn) : option (outcome cn) :=
  (fun o => i ← o; Ok (mkCn i (ctimer c) (deadline_ c))) <$> run_handler (csys c).

Definition io_expire (c : cn) : option cn :=
  t ← ctimer c; i ← expire t (csys c); Some (mkCn i (ctimer c) (deadline_ c)).

(** A cancellation whose deadline is set and that is cancelled before the deadline
    dereferences a deleted timer: the handler of the first timer, started or not yet
    started, is still in the queue of the ASIO thread when [start] deletes the timer. *)
Theorem cancel_after_deadline_dangling (d : Z) :
  0 <= d ->
  (exists c1, io_step (setDeadline d cinit) = Some (Ok c1) /\
     io_step (cancel c1) = Some Undef) /\
  io_step (cancel (setDeadline d cinit)) = Some Undef.
Proof.
  intros Hd. unfold setDeadline. rewrite (proj2 (Z.ltb_ge _ _)) by lia. clear Hd.
  split; [|reflexivity]. eexists. split; [reflexivity|]. vm_compute. reflexivity.
Qed.

Lemma cancel_after_deadline_dangling_witness :
  exists c1, io_step (setDeadline 5000 cinit) = Some (Ok c1) /\ io_step (cancel c1) = Some Undef.
Proof. apply (cancel_after_deadline_dangling 5000). lia. Defined.

(** A cancellation started once fires once and stays cancelled. *)
Lemma cancel_once d : 0 <= d -> exists c1 c2 c3,
  io_step (setDeadline d cinit) = Some (Ok c1) /\ io_expire c1 = Some c2 /\
  io_step c2 = Some (Ok c3) /\ isCanceled c3 = true /\ isCanceled c2 = false /\ cancel c3 = c3.
Proof.
  intros Hd. unfold setDeadline. rewrite (proj2 (Z.ltb_ge _ _)) by lia.
  do 3 eexists. split; [vm_compute; reflexivity|]. split; [vm_compute; reflexivity|].
  split; [vm_compute; reflexivity|]. done.
Qed.

End Cancellation.

(** ** StopWatch (src/stopwatch.cpp, include/fuurin/stopwatch.h) *)

Module StopWatch.

(** The time of reference of the steady clock, in nanoseconds; [now] is what the clock gives. *)
Record StopWatch := mkStopWatch { t0_ : Z }.
Definition start (now : Z) (_ : StopWatch) : StopWatch := mkStopWatch now.
Definition new_StopWatch (now : Z) : StopWatch := start now (mkStopWatch 0).
(** [duration_cast] to milliseconds drops the fraction. *)
Definition elapsed (now : Z) (w : StopWatch) : Z := Z.quot (now - t0_ w) 1000000.

(** The clock never goes back: whole milliseconds since the last start, never decreasing. *)
Lemma elapsed_exact t0 now later w : t0 <= now -> now <= later ->
  let w := start t0 w in
  0 <= elapsed now w /\ elapsed now w * 1000000 <= now - t0 < (elapsed now w + 1) * 1000000 /\
  elapsed now w <= elapsed later w.
Proof.
  intros H1 H2. unfold elapsed, start. cbn [t0_]. rewrite !Z.quot_div_nonneg by lia.
  pose proof (Z.div_mod (now - t0) 1000000). pose proof (Z.mod_pos_bound (now - t0) 1000000).
  pose proof (Z.div_le_mono (now - t0) (later - t0) 1000000). pose proof (Z.div_pos (now - t0) 1000000). lia.
Qed.

End StopWatch.
