(* ===== verification/BrokerSession.v ===== *)
(** * BrokerSession (src/sessionbroker.cpp, include/fuurin/sessionbroker.h)

    The broker keeps, for each topic name, the last topics of each worker, and the last
    sequence number of each worker, in three kinds of LRU caches.  It forwards the topics it
    accepts and replies to snapshot requests.  The abstract storage [spec_store] works on
    plain lists; [storeTopic] is shown to implement it. *)

From Stdlib Require Import Sorting.Sorted.
From S2P Require Import Prelude Part PartMulti Codec LruCache Uuid Topic Event Config Socket Session Timer.

Local Open Scope Z_scope.

Module BrokerSession.
Import Part PartMulti Codec LruCache Uuid Topic Config Socket SessionEnv Session Timer.

Abbreviation get := Prelude.get.
Abbreviation topic_cache := (lru uuid topic).

Record broker := mkBroker {
  uuid_ : uuid;
  token_ : Z;
  conf_ : BrokerConfig;
  zsnapshot_ : sock;
  zdelivery_ : sock;
  zdispatch_ : sock;
  zhugz_ : timer;
  storTopic_ : lru name topic_cache;
  storWorker_ : lru uuid Z;
}.

Definition set_conf (v : BrokerConfig) (b : broker) : broker :=
  mkBroker (uuid_ b) (token_ b) v (zsnapshot_ b) (zdelivery_ b) (zdispatch_ b) (zhugz_ b)
    (storTopic_ b) (storWorker_ b).
Definition set_snapshot (v : sock) (b : broker) : broker :=
  mkBroker (uuid_ b) (token_ b) (conf_ b) v (zdelivery_ b) (zdispatch_ b) (zhugz_ b)
    (storTopic_ b) (storWorker_ b).
Definition set_delivery (v : sock) (b : broker) : broker :=
  mkBroker (uuid_ b) (token_ b) (conf_ b) (zsnapshot_ b) v (zdispatch_ b) (zhugz_ b)
    (storTopic_ b) (storWorker_ b).
Definition set_dispatch (v : sock) (b : broker) : broker :=
  mkBroker (uuid_ b) (token_ b) (conf_ b) (zsnapshot_ b) (zdelivery_ b) v (zhugz_ b)
    (storTopic_ b) (storWorker_ b).
Definition set_hugz (v : timer) (b : broker) : broker :=
  mkBroker (uuid_ b) (token_ b) (conf_ b) (zsnapshot_ b) (zdelivery_ b) (zdispatch_ b) v
    (storTopic_ b) (storWorker_ b).
Definition set_storTopic (v : lru name topic_cache) (b : broker) : broker :=
  mkBroker (uuid_ b) (token_ b) (conf_ b) (zsnapshot_ b) (zdelivery_ b) (zdispatch_ b) (zhugz_ b)
    v (storWorker_ b).
Definition set_storWorker (v : lru uuid Z) (b : broker) : broker :=
  mkBroker (uuid_ b) (token_ b) (conf_ b) (zsnapshot_ b) (zdelivery_ b) (zdispatch_ b) (zhugz_ b)
    (storTopic_ b) v.

(** Actions on the sockets *)
Definition on_snapshot {A} (m : M sock A) : M broker A := zoom zsnapshot_ set_snapshot m.
Definition on_delivery {A} (m : M sock A) : M broker A := zoom zdelivery_ set_delivery m.
Definition on_dispatch {A} (m : M sock A) : M broker A := zoom zdispatch_ set_dispatch m.

Definition cap_topics : nat := 1024.
Definition cap_workers : nat := 64.
Definition cap_per_topic : nat := 8.

(** [BrokerSession::BrokerSession] *)
Definition new_broker (uuid : uuid) (token : Z) : broker :=
  mkBroker uuid token (mkBrokerConfig nil_uuid [] [] [])
    (Socket 1 SERVER) (Socket 2 DISH) (Socket 3 RADIO)
    (setSingleShot false (setInterval 1000 Timer.new))
    (LRUCache cap_topics) (LRUCache cap_workers).

(** [std::strncmp(a, b, n) == 0], on strings that end with a null character *)
Fixpoint strncmp_eq (a b : bytes) (n : nat) : bool :=
  match n with
  | O => true
  | S n =>
    match a, b with
    | [], [] => true
    | x :: a, y :: b => bool_decide (x = y) && strncmp_eq a b n
    | _, _ => false
    end
  end.

Section WithEnv.
Context {P : Platform} {Z_ : Zmq}.

(** [BrokerSession::saveConfiguration] *)
Definition saveConfiguration (p : part) : M broker unit :=
  conf ← lift (BrokerConfig_fromPart p); modify (set_conf conf).

(** [BrokerSession::openSockets] *)
Definition openSockets : M broker unit :=
  b ← get;
  on_delivery (modify (setEndpoints (b_endpDispatch (conf_ b))));;
  on_dispatch (modify (setEndpoints (b_endpDelivery (conf_ b))));;
  on_snapshot (modify (setEndpoints (b_endpSnapshot (conf_ b))));;
  on_delivery (modify (setGroups [WorkerHugz; WorkerUpdt]));;
  on_delivery bind;;
  on_dispatch bind;;
  on_snapshot bind.

(** [BrokerSession::closeSockets] *)
Definition closeSockets : M broker unit :=
  on_delivery close;; on_dispatch close;; on_snapshot close.

(** [BrokerSession::operationReady]; unknown operations are logged. *)
Definition operationReady (oper : Operation.operation) : M broker unit :=
  match Operation.type_ oper with
  | Operation.Start => saveConfiguration (Operation.payld_ oper);; openSockets
  | Operation.Stop => closeSockets
  | _ => mret tt
  end.

(** [BrokerSession::storeTopic] *)
Definition storeTopic (t : topic) : M broker bool :=
  b ← get;
  it ← (match find (name_ t) (storTopic_ b) with
        | Some it => mret (Some it)
        | None =>
          '(it, c) ← lift (put (name_ t) (copy (LRUCache cap_per_topic)) (storTopic_ b));
          modify (set_storTopic c);; mret (Some it)
        end : M broker (option nat));
  match it with
  | None => lift Abort
  | Some it =>
    b ← get;
    lastSeqNum ← (match find (worker_ t) (storWorker_ b) with
                  | None => mret 0
                  | Some el => match deref (storWorker_ b) el with
                               | Some kv => mret kv.2
                               | None => lift Undef
                               end
                  end : M broker Z);
    if seqn_ t <=? lastSeqNum then mret false else
    '(_, w) ← lift (put (worker_ t) (seqn_ t) (storWorker_ b));
    modify (set_storWorker w);;
    match deref (storTopic_ b) it with
    | None => lift Undef
    | Some kv =>
      '(_, c) ← lift (put (worker_ t) t kv.2);
      modify (set_storTopic (set_at it c (storTopic_ b)));;
      mret true
    end
  end.

(** [BrokerSession::collectWorkerMessage]; other groups are logged. *)
Definition collectWorkerMessage (payload : part) : M broker unit :=
  if strncmp_eq (group payload) WorkerHugz (length WorkerHugz) then
    modify (fun b => if isActive (zhugz_ b) then b else set_hugz (start (zhugz_ b)) b)
  else if strncmp_eq (group payload) WorkerUpdt (length WorkerUpdt) then
    b ← get;
    t ← lift (topic_fromPart payload);
    let t := withBroker (uuid_ b) t in
    ok ← storeTopic t;
    if (ok : bool) then
      p1 ← lift (p ← topic_toPart t; withGroup (Some (dd_ (name_ t))) p);
      on_dispatch (send [p1]);;
      p2 ← lift (p ← topic_toPart t; withGroup (Some BrokerUpdt) p);
      on_dispatch (send [p2]);;
      mret tt
    else mret tt
  else mret tt.

(** [BrokerSession::sendHugz] *)
Definition sendHugz : M broker unit :=
  p ← lift (withGroup (Some BrokerHugz) Part_empty);
  on_dispatch (send [p]);; mret tt.

(** A message of the snapshot: [pack(kind, syncseq, params).withRoutingID(rouID)] *)
Definition snapshot_message (kind : bytes) (syncseq : Z) (params : outcome part) (rouID : Z)
    : outcome part :=
  p ← params;
  m ← pack [FStr kind; FInt 1 syncseq; FStr (p_data p)];
  withRoutingID rouID m.

(** Sends it without blocking; a send that would block is an exception. *)
Definition snapshot_send (kind : bytes) (syncseq : Z) (params : outcome part) (rouID : Z)
    : M broker unit :=
  m ← lift (snapshot_message kind syncseq params rouID);
  n ← on_snapshot (trySend [m]);
  if n =? -1 then throw (mkError ZMQSocketSendFailed EAGAIN) else mret tt.

(** Whether a topic is left out of a snapshot *)
Definition left_out (conf : WorkerConfig) (t : topic) : bool :=
  bool_decide (Topic.type_ t = Topic.Event) ||
  (negb (topicsAll conf) && negb (existsb (name_eqb (name_ t)) (topicsNames conf))).

(** [el.second.list().back().second], behind the assertion that the list is not empty *)
Definition last_topic (c : topic_cache) : outcome topic :=
  match last (items c) with
  | None => Abort
  | Some kv => Ok kv.2
  end.

(** The body of the [try] of [BrokerSession::replySnapshot] *)
Definition reply_body (rouID syncseq : Z) (conf : WorkerConfig) : M broker unit :=
  b ← get;
  snapshot_send BrokerSyncBegin syncseq (uuid_toPart (uuid_ b)) rouID;;
  mfor (items (storTopic_ b)) (fun el =>
    t ← lift (last_topic el.2);
    if left_out conf t then mret tt
    else snapshot_send BrokerSyncElemn syncseq (topic_toPart t) rouID);;
  snapshot_send BrokerSyncCompl syncseq (uuid_toPart (uuid_ b)) rouID.

(** [BrokerSession::replySnapshot] *)
Definition replySnapshot (rouID syncseq : Z) (params : part) : M broker unit :=
  conf ← lift (WorkerConfig_fromPart params);
  try_catch (reply_body rouID syncseq conf) (fun e =>
    if decide (e_kind e = ZMQSocketSendFailed) then
      if ((e_int e =? EHOSTUNREACH) || (e_int e =? EAGAIN))%bool then mret tt else throw e
    else throw e).

(** [BrokerSession::receiveWorkerCommand]; other requests are logged. *)
Definition receiveWorkerCommand (payload : part) : M broker unit :=
  fs ← lift (unpack [TStr; TInt 1; TStr] (p_data payload));
  match fs with
  | [FStr req; FInt _ syncseq; FStr params] =>
    if decide (req <> BrokerSyncReqst) then mret tt
    else replySnapshot (routingID payload) syncseq (Part_bytes params)
  | _ => lift Undef
  end.

(** What the poller reports, with the message [recv] takes *)
Inductive bready := BSnapshot (payload : part) | BDelivery (payload : part) | BHugz | BUnknown.

(** [BrokerSession::socketReady] *)
Definition socketReady (r : bready) : M broker unit :=
  match r with
  | BSnapshot payload => receiveWorkerCommand payload
  | BDelivery payload => collectWorkerMessage payload
  | BHugz => modify (fun b => set_hugz (consume (zhugz_ b)) b);; sendHugz
  | BUnknown => lift Abort
  end.

#[export] Instance broker_ops : SessionOps broker bready :=
  {| token_of := token_; Session.operationReady := operationReady;
     Session.socketReady := socketReady |}.

Lemma storeTopic_token t : frames token_ (storeTopic t).
Proof. unfold storeTopic. frame. Qed.

(** No handler of the broker changes its token. *)
#[export] Instance broker_session_laws : SessionLaws broker bready.
Proof.
  split; cbn.
  - intros op. unfold operationReady, saveConfiguration, openSockets, closeSockets, on_delivery,
      on_dispatch, on_snapshot. frame.
  - intros r. pose proof storeTopic_token. unfold socketReady, receiveWorkerCommand, collectWorkerMessage,
      replySnapshot, reply_body, snapshot_send, sendHugz, on_dispatch, on_snapshot. frame; auto.
Qed.

End WithEnv.

(** ** The abstract storage *)

Abbreviation tstore := (list (name * list (uuid * topic))).
Abbreviation wstore := (list (uuid * Z)).

Definition last_seq (w : uuid) (ws : wstore) : Z := default 0 (assoc w ws).

Definition spec_store (t : topic) (st : tstore * wstore) : bool * (tstore * wstore) :=
  let '(ts, ws) := st in
  let ts := match assoc (name_ t) ts with
            | Some _ => ts
            | None => spec_put cap_topics (name_ t) [] ts
            end in
  if seqn_ t <=? last_seq (worker_ t) ws then (false, (ts, ws))
  else (true, (update (name_ t)
                 (spec_put cap_per_topic (worker_ t) t (default [] (assoc (name_ t) ts))) ts,
               spec_put cap_workers (worker_ t) (seqn_ t) ws)).

(** ** Invariant and abstraction *)

(** The abstraction of the values commutes with the operations of a cache. *)
Section MapValues.
Context {K V W : Type} `{Countable K} (f : V -> W).
Definition mapv (l : list (K * V)) : list (K * W) := (fun kv => (kv.1, f kv.2)) <$> l.

Lemma assoc_mapv k l : assoc k (mapv l) = f <$> assoc k l.
Proof. induction l as [|[k' v] l IH]; [done|]. cbn. by case_decide. Qed.
Lemma remove_mapv k l : remove k (mapv l) = mapv (remove k l).
Proof.
  unfold remove, mapv. induction l as [|[k' v] l IH]; [done|]. rewrite fmap_cons, !filter_cons.
  cbn [fst snd]. case_decide; [|done]. rewrite fmap_cons. by f_equal.
Qed.
Lemma mapv_app l1 l2 : mapv (l1 ++ l2) = mapv l1 ++ mapv l2.
Proof. apply fmap_app. Qed.
Lemma spec_put_mapv cap k v l : spec_put cap k (f v) (mapv l) = mapv (spec_put cap k v l).
Proof.
  unfold spec_put. rewrite assoc_mapv, mapv_app. f_equal.
  destruct (assoc k l); cbn; [by rewrite remove_mapv|].
  unfold mapv. rewrite length_fmap. case_decide; [by destruct l|done].
Qed.
Lemma update_mapv k v l : update k (f v) (mapv l) = mapv (update k v l).
Proof.
  unfold update, mapv. rewrite <-!list_fmap_compose. apply list_fmap_ext. intros ? [] _. cbn.
  by case_decide.
Qed.
End MapValues.

Definition abs_topics (c : lru name topic_cache) : tstore := mapv items (items c).

Definition abs (b : broker) : tstore * wstore := (abs_topics (storTopic_ b), items (storWorker_ b)).

Record broker_inv (b : broker) : Prop := mkBrokerInv {
  bi_topics : inv (storTopic_ b);
  bi_workers : inv (storWorker_ b);
  bi_inner : Forall (fun kv => inv kv.2 /\ capacity_ kv.2 = cap_per_topic) (items (storTopic_ b));
  bi_cap1 : capacity_ (storTopic_ b) = cap_topics;
  bi_cap2 : capacity_ (storWorker_ b) = cap_workers;
}.

Lemma new_broker_inv u tok : broker_inv (new_broker u tok).
Proof. constructor; cbn; try apply inv_LRUCache; done. Qed.

Lemma abs_new u tok : abs (new_broker u tok) = ([], []).
Proof. done. Qed.

Lemma Forall_spec_put {K V} `{Countable K} (Q : K * V -> Prop) cap k v l :
  Forall Q l -> Q (k, v) -> Forall Q (spec_put cap k v l).
Proof.
  intros Hl Hq. unfold spec_put. apply Forall_app. split; [|by constructor].
  rewrite Forall_forall in *. destruct (assoc k l).
  - intros x [_ Hx]%list_elem_of_filter. by apply Hl.
  - case_decide; [|done]. intros x Hx. apply Hl. destruct l; [done|by right].
Qed.

Lemma Forall_update {K V} `{Countable K} (Q : K * V -> Prop) k v l :
  Forall Q l -> (forall v0, (k, v0) ∈ l -> Q (k, v)) -> Forall Q (update k v l).
Proof.
  intros Hl Hq. unfold update. apply Forall_fmap, Forall_forall. intros [k' v'] Hin. cbn.
  case_decide as E; [cbn in E; subst; cbn; by eapply Hq|].
  by eapply Forall_forall in Hl.
Qed.

(** The first part of [storeTopic]: an entry for the name. *)
Lemma ensure_entry (c : lru name topic_cache) (n : name) :
  inv c -> capacity_ c = cap_topics ->
  Forall (fun kv => inv kv.2 /\ capacity_ kv.2 = cap_per_topic) (items c) ->
  find n c = None ->
  exists it c', put n (copy (LRUCache cap_per_topic)) c = Ok (it, c') /\
    inv c' /\ capacity_ c' = cap_topics /\ find n c' = Some it /\
    Forall (fun kv => inv kv.2 /\ capacity_ kv.2 = cap_per_topic) (items c') /\
    abs_topics c' = spec_put cap_topics n [] (abs_topics c).
Proof.
  intros Hi Hc Hin Hf. destruct (put_spec c n (copy (LRUCache cap_per_topic)) Hi)
    as (c' & E & Hi' & Hc' & Hit). exists (next_ c), c'.
  split_and!; [done|done|congruence| | |].
  - apply put_in in E. by apply map_in in E.
  - rewrite Hit. apply Forall_spec_put; [done|]. split; [|done].
    apply (inv_LRUCache cap_per_topic).
  - unfold abs_topics. rewrite Hit, Hc. symmetry.
    apply (spec_put_mapv items cap_topics n (copy (LRUCache cap_per_topic))).
Qed.

Lemma last_seq_find (c : lru uuid Z) w : inv c ->
  (match find w c with
   | None => mret 0
   | Some el => match deref c el with Some kv => mret kv.2 | None => lift Undef end
   end : M broker Z) = mret (last_seq w (items c)).
Proof.
  intros Hi. unfold last_seq. destruct (find w c) as [it|] eqn:E.
  - destruct (lru_lookup c w it Hi E) as (v & -> & -> & _). done.
  - apply find_None_assoc in E; [|done]. by rewrite E.
Qed.

(** [storeTopic] once the name has an entry *)
Lemma store_in_entry (t : topic) (b : broker) it :
  broker_inv b -> find (name_ t) (storTopic_ b) = Some it ->
  let ts := abs_topics (storTopic_ b) in
  let ws := items (storWorker_ b) in
  last_seq (worker_ t) ws < seqn_ t ->
  exists w inner c, put (worker_ t) (seqn_ t) (storWorker_ b) = Ok w /\
    deref (storTopic_ b) it = Some (name_ t, inner) /\ put (worker_ t) t inner = Ok c /\
    broker_inv (set_storWorker w.2 (set_storTopic (set_at it c.2 (storTopic_ b)) b)) /\
    abs (set_storWorker w.2 (set_storTopic (set_at it c.2 (storTopic_ b)) b)) =
      (update (name_ t)
         (spec_put cap_per_topic (worker_ t) t (default [] (assoc (name_ t) ts))) ts,
       spec_put cap_workers (worker_ t) (seqn_ t) ws).
Proof.
  intros Hb Hf ts ws Hlt. destruct Hb as [Ht Hw Hin Hc1 Hc2].
  destruct (put_spec (storWorker_ b) (worker_ t) (seqn_ t) Hw) as (w & E1 & Hw1 & Hcw & Hiw).
  destruct (lru_lookup _ _ _ Ht Hf) as (inner & Ha & Hd & Hel).
  pose proof Hin as Hin'. eapply Forall_forall in Hin' as [Hii Hci]; [|exact Hel]. cbn in Hii, Hci.
  destruct (put_spec inner (worker_ t) t Hii) as (c & E2 & Hc & Hcc & Hic).
  destruct (set_at_spec (storTopic_ b) (name_ t) it c Ht Hf) as (Hs1 & Hs2 & Hs3).
  exists (next_ (storWorker_ b), w), inner, (next_ inner, c). split_and!; try done.
  - constructor; cbn [storTopic_ storWorker_ set_storWorker set_storTopic snd]; try done; try congruence. rewrite Hs3. apply Forall_update; [done|].
    intros v0 _. cbn. split; [done|congruence].
  - unfold abs. cbn [storTopic_ storWorker_ set_storWorker set_storTopic snd]. rewrite Hiw, Hc2. f_equal. unfold abs_topics. rewrite Hs3.
    unfold ts, abs_topics.
    rewrite assoc_mapv, Ha. change (default [] (items <$> Some inner)) with (items inner).
    rewrite <-Hci, <-Hic. symmetry. apply (update_mapv items).
Qed.

Lemma storeTopic_spec (t : topic) (b : broker) :
  broker_inv b ->
  exists c w, storeTopic t b = (Ok (spec_store t (abs b)).1, set_storWorker w (set_storTopic c b)) /\
    broker_inv (set_storWorker w (set_storTopic c b)) /\
    abs (set_storWorker w (set_storTopic c b)) = (spec_store t (abs b)).2.
Proof.
  intros Hb.
  assert (exists c it, broker_inv (set_storTopic c b) /\ find (name_ t) c = Some it /\
    abs_topics c = (match assoc (name_ t) (abs_topics (storTopic_ b)) with
                    | Some _ => abs_topics (storTopic_ b)
                    | None => spec_put cap_topics (name_ t) [] (abs_topics (storTopic_ b)) end) /\
    (match find (name_ t) (storTopic_ b) with
     | Some it => mret (Some it)
     | None =>
       '(it, c) ← lift (put (name_ t) (copy (LRUCache cap_per_topic)) (storTopic_ b));
       modify (set_storTopic c);; mret (Some it)
     end : M broker (option nat)) b = (Ok (Some it), set_storTopic c b))
    as (c & it & Hb1 & Hf & Habs & E).
  { pose proof (assoc_mapv items (name_ t) (items (storTopic_ b)) : assoc _ (abs_topics _) = _) as Hm.
    destruct Hb as [Ht Hw Hin Hc1 Hc2].
    destruct (find (name_ t) (storTopic_ b)) as [it|] eqn:Ef.
    - exists (storTopic_ b), it. destruct (lru_lookup _ _ _ Ht Ef) as (v & Ha & _).
      rewrite Ha in Hm. cbn in Hm. rewrite Hm. split_and!; try done. by destruct b.
    - destruct (ensure_entry (storTopic_ b) (name_ t)) as (it & c & Ep & Hi & Hcap & Hf & Hin' & Ha);
        try done. apply find_None_assoc in Ef; [|done]. rewrite Ef in Hm. cbn in Hm. rewrite Hm.
      exists c, it. split_and!; try done. by rewrite Ep. }
  unfold storeTopic. rewrite bind_get, (M_bind_eq _ _ _ _ _ E). cbn [mbind].
  rewrite bind_get. rewrite last_seq_find by apply Hb1.
  rewrite bind_ret.
  unfold spec_store, abs at 1 3. rewrite <-Habs.
  change (storWorker_ (set_storTopic c b)) with (storWorker_ b).
  change (storTopic_ (set_storTopic c b)) with c.
  destruct (Z.leb_spec (seqn_ t) (last_seq (worker_ t) (items (storWorker_ b)))) as [Hle|Hlt].
  - exists c, (storWorker_ b). split_and!; done.
  - destruct (store_in_entry t (set_storTopic c b) it Hb1 Hf Hlt)
      as (w & inner & c' & Ew & Hd & Ec & Hinv & Ha).
    change (storWorker_ (set_storTopic c b)) with (storWorker_ b) in *.
    change (storTopic_ (set_storTopic c b)) with c in *.
    exists (set_at it c'.2 c), w.2. rewrite Ew, bind_lift. destruct w as [w1 w2]. rewrite bind_modify.
    rewrite Hd. cbn [snd]. rewrite Ec, bind_lift. destruct c' as [c1 c2]. split_and!; done.
Qed.

(** ** Runs of the storage *)

(** The accepted topics of a sequence, in order. *)
Fixpoint accepted (ts : list topic) (st : tstore * wstore) : list topic * (tstore * wstore) :=
  match ts with
  | [] => ([], st)
  | t :: ts =>
    let '(ok, st1) := spec_store t st in
    let '(l, st2) := accepted ts st1 in
    ((if ok then [t] else []) ++ l, st2)
  end.

(** The same on the code *)
Fixpoint store_all (ts : list topic) : M broker (list topic) :=
  match ts with
  | [] => mret []
  | t :: ts => ok ← storeTopic t; l ← store_all ts; mret ((if (ok : bool) then [t] else []) ++ l)
  end.

Lemma store_all_spec ts b : broker_inv b ->
  exists b', store_all ts b = (Ok (accepted ts (abs b)).1, b') /\ broker_inv b' /\
    abs b' = (accepted ts (abs b)).2.
Proof.
  revert b. induction ts as [|t ts IH]; intros b Hb; [by exists b|].
  destruct (storeTopic_spec t b Hb) as (c & w & E & Hb1 & Ha). cbn [store_all accepted].
  rewrite (M_bind_eq _ _ _ _ _ E). destruct (IH _ Hb1) as (b' & E' & Hb' & Ha').
  rewrite (M_bind_eq _ _ _ _ _ E'). rewrite Ha in *.
  destruct (spec_store t (abs b)) as [ok st1] eqn:Es. cbn [fst snd] in *.
  destruct (accepted ts st1) as [l st2] eqn:Er. cbn [fst snd] in *. by exists b'.
Qed.

(** The last number of a worker does not get lost while there is room for every worker. *)
Lemma last_seq_put w w' n (ws : wstore) :
  NoDup ws.*1 -> (w ∈ ws.*1 \/ length ws < cap_workers)%nat ->
  last_seq w' (spec_put cap_workers w n ws) = if decide (w' = w) then n else last_seq w' ws.
Proof.
  intros Hnd Hroom. unfold last_seq. case_decide as E.
  - subst. by rewrite spec_put_same.
  - rewrite spec_put_other; [done|done|]. intros x _. right.
    destruct Hroom as [Hin|?]; [left|right; lia].
    destruct (assoc w ws) eqn:Ew; [done|]. by apply assoc_None in Ew.
Qed.

(** The workers seen so far are distinct keys and all belong to [W]. *)
Definition workers_in (W : gset uuid) (ws : wstore) : Prop :=
  NoDup ws.*1 /\ forall w, w ∈ ws.*1 -> w ∈ W.

Lemma workers_room W ws w :
  (base.size W <= cap_workers)%nat -> workers_in W ws -> w ∈ W ->
  (w ∈ ws.*1 \/ length ws < cap_workers)%nat.
Proof.
  intros Hsz [Hnd Hin] Hw. destruct (decide (w ∈ ws.*1)) as [|Hn]; [by left|right].
  assert (base.size (list_to_set (w :: ws.*1) : gset uuid) <= base.size W)%nat as Hs.
  { apply subseteq_size. intros x [->|Hx]%elem_of_list_to_set%elem_of_cons; auto. }
  rewrite size_list_to_set in Hs by (by apply NoDup_cons). cbn [length] in Hs.
  rewrite length_fmap in Hs. lia.
Qed.

Lemma spec_store_workers W t ts ws :
  (base.size W <= cap_workers)%nat -> workers_in W ws -> worker_ t ∈ W ->
  let '(ok, (_, ws')) := spec_store t (ts, ws) in
  workers_in W ws' /\ ok = negb (seqn_ t <=? last_seq (worker_ t) ws) /\
  forall w, last_seq w ws' =
    if decide (w = worker_ t) then Z.max (seqn_ t) (last_seq w ws) else last_seq w ws.
Proof.
  intros Hsz Hws Hw. unfold spec_store.
  destruct (Z.leb_spec (seqn_ t) (last_seq (worker_ t) ws)) as [Hle|Hlt].
  - split_and!; [done..|]. intros w. case_decide; [subst; lia|done].
  - pose proof (workers_room W ws (worker_ t) Hsz Hws Hw) as Hr. destruct Hws as [Hnd Hin].
    destruct (spec_put_keys cap_workers (worker_ t) (seqn_ t) ws Hnd) as [H1 H2].
    split_and!; [split; [done|]|done|].
    + intros x [->|Hx]%H2; auto.
    + intros w. rewrite last_seq_put by done. case_decide; [subst; lia|done].
Qed.

Lemma accepted_sorted W ts : (base.size W <= cap_workers)%nat ->
  forall st, workers_in W st.2 -> (forall t, t ∈ ts -> worker_ t ∈ W) -> forall w,
  StronglySorted Z.lt (last_seq w st.2 ::
    (seqn_ <$> filter (fun t => worker_ t = w) (accepted ts st).1)).
Proof.
  intros Hsz. induction ts as [|t ts IH]; intros [st ws] Hws Hin w; cbn [accepted].
  - repeat constructor.
  - pose proof (spec_store_workers W t st ws Hsz Hws (Hin t ltac:(by left))) as Hs.
    destruct (spec_store t (st, ws)) as [ok [st1 ws1]] eqn:E. destruct Hs as (Hws1 & Hok & Hl).
    specialize (IH (st1, ws1) Hws1 (fun t Ht => Hin t ltac:(by right)) w). cbn [snd] in *.
    destruct (accepted ts (st1, ws1)) as [l st2] eqn:Er. cbn [fst] in *.
    rewrite (Hl w) in IH. case_decide as Hd.
    + subst w. destruct (Z.leb_spec (seqn_ t) (last_seq (worker_ t) ws)) as [Hle|Hlt]; subst ok; cbn [negb app].
      * by rewrite Z.max_r in IH by done.
      * rewrite filter_cons_True by done. rewrite fmap_cons. rewrite Z.max_l in IH by lia.
        constructor; [done|]. apply StronglySorted_inv in IH as [_ IH]. constructor; [done|].
        eapply Forall_impl; [exact IH|]. cbn. lia.
    + destruct ok; [|done]. cbn [app]. by rewrite filter_cons_False by congruence.
Qed.

Lemma accepted_complete W pre t post : (base.size W <= cap_workers)%nat ->
  forall st, workers_in W st.2 -> (forall t', t' ∈ pre ++ t :: post -> worker_ t' ∈ W) ->
  last_seq (worker_ t) st.2 < seqn_ t ->
  (forall t', t' ∈ pre -> worker_ t' = worker_ t -> seqn_ t' < seqn_ t) ->
  t ∈ (accepted (pre ++ t :: post) st).1.
Proof.
  intros Hsz. induction pre as [|a pre IH]; intros [st ws] Hws Hin Hlt Hpre; cbn [app accepted].
  - pose proof (spec_store_workers W t st ws Hsz Hws (Hin t ltac:(by left))) as Hs.
    destruct (spec_store t (st, ws)) as [ok [st1 ws1]]. destruct Hs as (_ & -> & _).
    rewrite (proj2 (Z.leb_gt _ _)) by done. destruct (accepted post _). cbn. by left.
  - pose proof (spec_store_workers W a st ws Hsz Hws (Hin a ltac:(by left))) as Hs.
    destruct (spec_store a (st, ws)) as [ok [st1 ws1]]. destruct Hs as (Hws1 & _ & Hl).
    specialize (IH (st1, ws1) Hws1). cbn [snd] in *.
    destruct (accepted (pre ++ t :: post) (st1, ws1)) as [l st2]. cbn [fst] in *.
    apply elem_of_app. right. apply IH.
    + intros t' Ht. apply Hin. by right.
    + rewrite Hl. case_decide as Hd; [|done]. pose proof (Hpre a ltac:(by left) ltac:(done)). lia.
    + intros t' Ht. apply Hpre. by right.
Qed.

(** ** The last topic of each name *)

Definition latest (n : name) (ts : tstore) : option topic := snd <$> last (default [] (assoc n ts)).

Definition names_in (N : gset name) (ts : tstore) : Prop :=
  NoDup (ts.*1) /\ forall n, n ∈ ts.*1 -> n ∈ N.

(** There is room for a name of [N] that has no entry. *)
Lemma names_room N ts n :
  (base.size N <= cap_topics)%nat -> names_in N ts -> n ∈ N -> n ∉ ts.*1 ->
  (length ts < cap_topics)%nat.
Proof.
  intros Hsz [Hnd Hin] Hn Hnot.
  assert (base.size (list_to_set (n :: ts.*1) : gset name) <= base.size N)%nat as Hs.
  { apply subseteq_size. intros x [->|Hx]%elem_of_list_to_set%elem_of_cons; auto. }
  rewrite size_list_to_set in Hs by (by apply NoDup_cons). cbn [length] in Hs.
  rewrite length_fmap in Hs. lia.
Qed.

Lemma ensure_latest N n ts :
  (base.size N <= cap_topics)%nat -> names_in N ts -> n ∈ N ->
  let ts1 := match assoc n ts with Some _ => ts | None => spec_put cap_topics n [] ts end in
  names_in N ts1 /\ is_Some (assoc n ts1) /\ forall n', latest n' ts1 = latest n' ts.
Proof.
  intros Hsz Hn Hin. destruct (assoc n ts) as [x|] eqn:E; cbn.
  - split_and!; [done|by rewrite E|done].
  - pose proof E as E'. apply assoc_None in E'. pose proof (names_room N ts n Hsz Hn Hin E') as Hroom.
    destruct Hn as [Hnd Hsub]. destruct (spec_put_keys cap_topics n [] ts Hnd) as [H1 H2].
    split_and!.
    + split; [done|]. intros x [->|Hx]%H2; auto.
    + by rewrite spec_put_same.
    + intros n'. unfold latest. destruct (decide (n' = n)) as [->|Hne].
      * by rewrite spec_put_same, E.
      * rewrite spec_put_other; [done|done|]. intros x _. right. right. lia.
Qed.

Lemma spec_store_latest N t ts ws :
  (base.size N <= cap_topics)%nat -> names_in N ts -> name_ t ∈ N ->
  let '(ok, (ts', _)) := spec_store t (ts, ws) in
  names_in N ts' /\
  forall n, latest n ts' = if decide (ok = true /\ n = name_ t) then Some t else latest n ts.
Proof.
  intros Hsz Hn Hin. unfold spec_store.
  destruct (ensure_latest N (name_ t) ts Hsz Hn Hin) as (Hn1 & [x Hx] & Hl).
  set (ts1 := match assoc (name_ t) ts with Some _ => ts | None => _ end) in *. clearbody ts1.
  destruct (seqn_ t <=? last_seq (worker_ t) ws).
  - split; [done|]. intros n. rewrite decide_False by (by intros []). apply Hl.
  - split.
    + destruct Hn1 as [Hnd Hsub]. split; rewrite update_keys; done.
    + intros n. unfold latest. rewrite assoc_update. case_decide as E.
      * subst n. rewrite decide_True by done. rewrite Hx.
        cbn [fmap option_fmap option_map from_option]. unfold id. by rewrite spec_put_last.
      * rewrite decide_False by (by intros []). apply (Hl n).
Qed.

Lemma accepted_latest N ts : (base.size N <= cap_topics)%nat ->
  forall st, names_in N st.1 -> (forall t, t ∈ ts -> name_ t ∈ N) -> forall n,
  latest n (accepted ts st).2.1 =
    match last (filter (fun t => name_ t = n) (accepted ts st).1) with
    | Some t => Some t
    | None => latest n st.1
    end.
Proof.
  intros Hsz. induction ts as [|t ts IH]; intros [st ws] Hn Hin n; cbn [accepted]; [done|].
  pose proof (spec_store_latest N t st ws Hsz Hn (Hin t ltac:(by left))) as Hs.
  destruct (spec_store t (st, ws)) as [ok [st1 ws1]]. destruct Hs as (Hn1 & Hl).
  specialize (IH (st1, ws1) Hn1 (fun t Ht => Hin t ltac:(by right)) n). cbn [fst snd] in *.
  destruct (accepted ts (st1, ws1)) as [l st2]. cbn [fst snd] in *. rewrite IH, Hl.
  rewrite filter_app, last_app. destruct (last (filter _ l)) as [t'|] eqn:E; [done|].
  destruct ok; cbn [app].
  - rewrite filter_cons, filter_nil. destruct (decide (name_ t = n)) as [E2|E2].
    + by rewrite decide_True.
    + rewrite decide_False by (intros []; congruence). done.
  - rewrite decide_False by (by intros []). done.
Qed.

(** ** Messages *)

Section Messages.
Context {P : Platform} {Z_ : Zmq}.

Lemma cstr_app_zero l n : cstr (l ++ replicate n Byte.x00) = cstr l.
Proof.
  induction l as [|a l IH]; cbn; [by destruct n|]. case_decide; [done|]. by rewrite IH.
Qed.

Lemma length_cstr l : (length (cstr l) <= length l)%nat.
Proof. induction l as [|b l IH]; cbn; [lia|]. case_decide; cbn; lia. Qed.

(** The group of a topic: its name up to the first null character *)
Definition name_group (n : name) : bytes := cstr (name_str n).

Lemma withGroup_name n d : name_ok n ->
  withGroup (Some (dd_ n)) (Part_bytes d) = Ok (mkPart d 0 (name_group n) false).
Proof.
  intros Hn. unfold withGroup, setGroup, zmq_msg_set_group, name_group.
  pose proof (name_str_length n Hn) as Hl. destruct Hn as [Hs Hd]. rewrite Hd. unfold zero_fill.
  rewrite cstr_app_zero. pose proof (length_cstr (name_str n)).
  unfold name_capacity, dd_size in Hs.
  rewrite decide_False by (unfold ZMQ_GROUP_MAX_LENGTH; lia). cbn.
  rewrite take_ge; [done|]. unfold ZMQ_GROUP_MAX_LENGTH. lia.
Qed.

(** [fromPart] looks at the bytes only. *)
Lemma topic_fromPart_bytes d r g m : topic_fromPart (mkPart d r g m) = topic_fromPart (Part_bytes d).
Proof. done. Qed.

Lemma strncmp_refl l : strncmp_eq l l (length l) = true.
Proof. induction l as [|x l IH]; cbn; [done|]. by rewrite bool_decide_eq_true_2. Qed.

(** What the broker sends for a topic it accepts *)
Definition forwarded (t : topic) (ms : list part) : Prop :=
  exists d, ms = [mkPart d 0 (name_group (name_ t)) false; mkPart d 0 BrokerUpdt false] /\
    topic_fromPart (Part_bytes d) = Ok t /\ topic_toPart t = Ok (Part_bytes d).

Lemma collect_updt p t0 b :
  broker_inv b -> uuid_ok (uuid_ b) -> accepts false (zdispatch_ b) ->
  group p = WorkerUpdt -> fits (p_data p) -> topic_fromPart p = Ok t0 ->
  let t := withBroker (uuid_ b) t0 in
  exists b' ms, collectWorkerMessage p b = (Ok tt, b') /\
    (broker_inv b' /\ uuid_ b' = uuid_ b /\ accepts false (zdispatch_ b')) /\
    abs b' = (spec_store t (abs b)).2 /\
    sent_ (zdispatch_ b') = sent_ (zdispatch_ b) ++ ms /\
    if (spec_store t (abs b)).1 then forwarded t ms else ms = [].
Proof.
  intros Hb Hu Hacc Hg Hfit Ht t. unfold collectWorkerMessage. rewrite Hg.
  change (strncmp_eq WorkerUpdt WorkerHugz (length WorkerHugz)) with false.
  rewrite strncmp_refl. rewrite bind_get, Ht, bind_lift. fold t.
  destruct (storeTopic_spec t b Hb) as (c & w & E & Hb1 & Ha). rewrite (M_bind_eq _ _ _ _ _ E).
  destruct (spec_store t (abs b)) as [ok st] eqn:Es. cbn [fst snd] in *. destruct ok.
  2: { do 2 eexists. split_and!; [done|done|done|done|done|by rewrite app_nil_r|done]. }
  apply topic_fromPart_sound in Ht as (_ & _ & _ & _ & _ & Hok); [|done].
  assert (topic_ok t) as Hok' by (destruct Hok; constructor; try done; by cbn).
  destruct (topic_roundtrip t Hok') as (d & Hd & _ & Hdd). rewrite Hd.
  change (p ← Ok (Part_bytes d); withGroup (Some (dd_ (name_ t))) p) with
    (withGroup (Some (dd_ (name_ t))) (Part_bytes d)).
  rewrite withGroup_name by apply Hok'. rewrite bind_lift. unfold on_dispatch, zoom, mbind, M_bind.
  rewrite send_one by done. cbn [zdispatch_ set_dispatch]. unfold lift, mret, M_ret.
  change (outcome_bind part part (fun p0 : part => withGroup (Some BrokerUpdt) p0) (Ok (Part_bytes d)))
    with (Ok (mkPart d 0 BrokerUpdt false) : outcome part).
  cbv beta iota. rewrite send_one by (by apply accepts_log).
  do 2 eexists. split_and!; [done| |done|done|exact Ha| |].
  - destruct Hb1. constructor; done.
  - cbn. by rewrite <-app_assoc.
  - by exists d.
Qed.

(** ** Snapshots *)

(** A message of a snapshot *)
Definition reply_part (rouID syncseq : Z) (kind d : bytes) : part :=
  mkPart (encs [FStr kind; FInt 1 syncseq; FStr d]) rouID [] false.

Definition send_msg (m : part) : M broker unit :=
  n ← on_snapshot (trySend [m]);
  if n =? -1 then throw (mkError ZMQSocketSendFailed EAGAIN) else mret tt.

Lemma snapshot_send_msg kind syncseq d rouID :
  rouID <> 0 -> in_width 1 syncseq -> zlen kind < u32_max -> zlen d < u32_max ->
  snapshot_send kind syncseq (Ok (Part_bytes d)) rouID = send_msg (reply_part rouID syncseq kind d).
Proof.
  intros Hr Hs Hk Hd. unfold snapshot_send, snapshot_message.
  change (p ← Ok (Part_bytes d); m ← pack [FStr kind; FInt 1 syncseq; FStr (p_data p)]; withRoutingID rouID m)
    with (m ← pack [FStr kind; FInt 1 syncseq; FStr d]; withRoutingID rouID m).
  destruct (pack_fields [FStr kind; FInt 1 syncseq; FStr d]) as (-> & _).
  { cbn. lia. }
  { repeat apply Forall_cons_2; cbn; try done. split; [lia|done]. }
  cbn [mbind outcome_bind]. unfold withRoutingID, setRoutingID, zmq_msg_set_routing_id.
  by rewrite (proj2 (Z.eqb_neq rouID 0)).
Qed.

Lemma send_msg_eq r b m :
  ptr_ (zsnapshot_ b) = Some r ->
  send_msg m b =
    match zmq_msg_send r (calls_ (zsnapshot_ b)) true m with
    | None => (Ok tt, set_snapshot (log_call [m] (zsnapshot_ b)) b)
    | Some e => (Throw (mkError ZMQSocketSendFailed e), set_snapshot (log_call [] (zsnapshot_ b)) b)
    end.
Proof.
  intros Hr. unfold send_msg, on_snapshot, zoom, trySend, sendMessagePart, mbind, M_bind, Prelude.get,
    modify, mret, M_ret, throw. rewrite Hr.
  destruct (zmq_msg_send _ _ _ _) as [e|].
  - by destruct (Z.eqb_spec e EAGAIN) as [->|].
  - by rewrite (proj2 (Z.eqb_neq (Part.size m) (-1))) by (unfold Part.size; lia).
Qed.

(** Sending a list of messages: a prefix of it is sent, all of it unless the library
    reports an error. *)
Lemma send_msgs r ms : forall b o b',
  ptr_ (zsnapshot_ b) = Some r -> mfor ms send_msg b = (o, b') ->
  exists k s', b' = set_snapshot s' b /\ ptr_ s' = Some r /\
    sent_ s' = sent_ (zsnapshot_ b) ++ take k ms /\
    (o = Ok tt /\ k = length ms \/
     exists e m n, o = Throw (mkError ZMQSocketSendFailed e) /\ ms !! k = Some m /\
       zmq_msg_send r n true m = Some e).
Proof.
  induction ms as [|m ms IH]; intros b o b' Hr.
  - intros [= <- <-]. exists 0%nat, (zsnapshot_ b). split_and!; [by destruct b|done|by rewrite app_nil_r|by left].
  - cbn [mfor]. unfold mbind, M_bind. rewrite (send_msg_eq r) by done.
    destruct (zmq_msg_send r (calls_ (zsnapshot_ b)) true m) as [e|] eqn:Ez.
    + intros [= <- <-]. exists 0%nat, (log_call [] (zsnapshot_ b)). split_and!; try done.
      right. by exists e, m, (calls_ (zsnapshot_ b)).
    + intros Ho. apply IH in Ho as (k & s' & -> & Hp & Hs & Hk); [|done].
      exists (S k), s'. split_and!; [done|done| |].
      * rewrite Hs. cbn. by rewrite <-app_assoc.
      * destruct Hk as [[-> ->]|(e & m0 & n & -> & Hm & Hz)]; [by left|]. right. by exists e, m0, n.
Qed.

(** The topics of a snapshot: the last one of each name, in the order of the storage. *)
Definition snapshot_topics (ts : tstore) (conf : WorkerConfig) : list topic :=
  filter (fun t => left_out conf t = false) (omap (fun kv => snd <$> last kv.2) ts).

(** Topics that can be packed inside another message *)
Definition small_topic (t : topic) : Prop := topic_ok t /\ zlen (p_data (data_ t)) < u32_max - 1024.

Lemma small_topic_part t : small_topic t ->
  exists d, topic_toPart t = Ok (Part_bytes d) /\ zlen d < u32_max - 6 /\
    topic_fromPart (Part_bytes d) = Ok t.
Proof.
  intros [Hok Hs]. destruct (topic_roundtrip t Hok) as (d & Hd & _ & Hf). exists d. split_and!; try done.
  unfold topic_toPart in Hd. fold (topic_fields t) in Hd.
  destruct (pack_fields (topic_fields t)) as (Hp & _); [cbn; lia|by apply topic_fields_small|].
  assert (ASSERT ((toIntegral State <=? toIntegral (Topic.type_ t)) &&
                  (toIntegral (Topic.type_ t) <=? toIntegral Event)) = Ok tt) as Ha
    by (by destruct (Topic.type_ t)).
  rewrite Ha in Hd. cbn [mbind outcome_bind] in Hd. rewrite Hp in Hd. injection Hd as <-.
  unfold topic_fields. rewrite !encs_cons, !zlen_app. cbn [enc]. rewrite !zlen_app, !zlen_to.
  change (zlen (encs [])) with 0. destruct Hok as [Hb Hw _ Hn _ _]. unfold zlen in *.
  rewrite Hb, Hw, (name_str_length _ Hn). destruct Hn as [Hn _].
  unfold uuid_size, name_capacity, dd_size in *. lia.
Qed.

(** A name that has a topic to send. *)
Definition holds_topic (kv : name * list (uuid * topic)) : Prop :=
  exists w t, last kv.2 = Some (w, t) /\ small_topic t.

(** The body sends the list of messages. *)
Lemma elements_loop rouID syncseq conf els :
  rouID <> 0 -> in_width 1 syncseq ->
  Forall holds_topic (mapv items els) ->
  exists ds, Forall2 (fun t d => topic_fromPart (Part_bytes d) = Ok t)
               (snapshot_topics (mapv items els) conf) ds /\
    forall b, mfor els (fun el =>
        t ← lift (last_topic el.2);
        if left_out conf t then mret tt
        else snapshot_send BrokerSyncElemn syncseq (topic_toPart t) rouID) b =
      mfor (reply_part rouID syncseq BrokerSyncElemn <$> ds) send_msg b.
Proof.
  intros Hr Hs Hels. unfold mapv in Hels. rewrite Forall_fmap in Hels.
  induction Hels as [|[n c] els (w & t & Hl & Ht) _ (ds & Hds & IH)].
  - exists []. split; [constructor|done].
  - cbn [snd] in Hl. unfold snapshot_topics, mapv in *. rewrite fmap_cons.
    cbn [fst snd omap list_omap]. rewrite Hl. change (snd <$> Some (w, t)) with (Some t).
    cbv beta iota. rewrite filter_cons.
    destruct (left_out conf t) eqn:El.
    + rewrite decide_False by done. exists ds. split; [exact Hds|]. intros b. cbn [mfor snd].
      unfold last_topic. rewrite Hl. unfold lift, mbind, M_bind. cbn [snd]. rewrite El. apply IH.
    + rewrite decide_True by done. destruct (small_topic_part t Ht) as (d & Hd & Hz & Hf).
      exists (d :: ds). split; [constructor; [done|exact Hds]|]. intros b. rewrite fmap_cons.
      cbn [mfor snd]. apply M_bind_ext; [|intros []; apply IH].
      unfold last_topic. rewrite Hl. unfold lift, mbind, M_bind. cbn [snd].
      by rewrite El, Hd, snapshot_send_msg by (done || lia).
Qed.

Lemma uuid_toPart_bytes u : uuid_ok u -> uuid_toPart u = Ok (Part_bytes u).
Proof.
  intros Hu. unfold uuid_toPart. destruct (pack_fields [FArr u]) as (-> & _).
  - cbn. lia.
  - repeat constructor. cbn. unfold zlen. by rewrite Hu.
  - unfold encs. cbn. by rewrite app_nil_r.
Qed.

(** Every name of the storage has a topic, and they can be packed. *)
Definition storage_full (b : broker) : Prop := Forall holds_topic (abs b).1.







Lemma accepts_msgs ms b : accepts true (zsnapshot_ b) ->
  exists s', mfor ms send_msg b = (Ok tt, set_snapshot s' b) /\ accepts true s' /\
    sent_ s' = sent_ (zsnapshot_ b) ++ ms.
Proof.
  intros (r & Hr & Hz). destruct (mfor ms send_msg b) as [o b'] eqn:E.
  apply (send_msgs r) in E as (k & s' & -> & Hp & Hs & [[-> ->]|(e & m & n & _ & _ & He)]); [| |done].
  - exists s'. split_and!; [done|by exists r|]. by rewrite Hs, take_ge by done.
  - by rewrite Hz in He.
Qed.

(** A name without topics at the end of the storage aborts the snapshot. *)
Lemma reply_empty_aborts rouID syncseq conf b els n c :
  rouID <> 0 -> in_width 1 syncseq -> uuid_ok (uuid_ b) -> accepts true (zsnapshot_ b) ->
  items (storTopic_ b) = els ++ [(n, c)] -> items c = [] ->
  Forall holds_topic (mapv items els) ->
  exists b', reply_body rouID syncseq conf b = (Abort, b').
Proof.
  intros Hr Hs Hu Hacc Hit Hc Hels.
  destruct (elements_loop rouID syncseq conf els Hr Hs Hels) as (ds & _ & Hloop).
  unfold reply_body. rewrite bind_get, Hit.
  rewrite uuid_toPart_bytes by done.
  assert (zlen (uuid_ b) < u32_max) by (unfold zlen; by rewrite Hu).
  rewrite !snapshot_send_msg by done.
  destruct (accepts_msgs [reply_part rouID syncseq BrokerSyncBegin (uuid_ b)] b Hacc) as (s1 & E1 & Ha1 & _).
  assert (send_msg (reply_part rouID syncseq BrokerSyncBegin (uuid_ b)) b = (Ok tt, set_snapshot s1 b)) as E1'.
  { cbn [mfor] in E1. unfold mbind, M_bind in E1. destruct (send_msg _ b) as [[[]| | |] ?]; done. }
  rewrite (M_bind_eq _ _ _ _ _ E1'). unfold mbind at 1, M_bind at 1. rewrite mfor_app.
  unfold mbind at 1, M_bind at 1. rewrite Hloop.
  destruct (accepts_msgs (reply_part rouID syncseq BrokerSyncElemn <$> ds) (set_snapshot s1 b) Ha1)
    as (s2 & -> & _ & _).
  cbn [mfor snd]. unfold last_topic. rewrite Hc. by eexists.
Qed.

End Messages.

(** ** Theorems *)

(** C1: The broker's storage implements its specification: on any state the broker can be in,
    [storeTopic] returns (no dangling iterator, no failed assertion), decides and stores as the
    abstract storage does, keeps the invariant of the three levels of caches and touches
    nothing else. *)
Theorem storeTopic_refines (t : topic) (b : broker) :
  broker_inv b ->
  exists b', storeTopic t b = (Ok (spec_store t (abs b)).1, b') /\
    broker_inv b' /\ abs b' = (spec_store t (abs b)).2 /\
    (uuid_ b', conf_ b', zsnapshot_ b', zdelivery_ b', zdispatch_ b', zhugz_ b') =
    (uuid_ b, conf_ b, zsnapshot_ b, zdelivery_ b, zdispatch_ b, zhugz_ b).
Proof.
  intros Hb. destruct (storeTopic_spec t b Hb) as (c & w & E & Hi & Ha). by eexists.
Qed.

Definition sample_broker : broker := new_broker (replicate 16 Byte.xaa) 1.
Definition topic_of (w : byte) (n : string) (seqn : Z) (data : string) (ty : topic_type) : topic :=
  mkTopic nil_uuid (replicate 16 w) seqn (Name (str n)) (Part_bytes (str data)) ty.

Lemma storeTopic_refines_witness :
  exists b', storeTopic (topic_of Byte.x01 "t" 5 "v" State) sample_broker = (Ok true, b') /\
    broker_inv b'.
Proof.
  destruct (storeTopic_refines (topic_of Byte.x01 "t" 5 "v" State) sample_broker)
    as (b' & E & Hi & _).
  - apply new_broker_inv.
  - exists b'. split; [exact E|exact Hi].
Defined.

(** C4: At most once, in order: whatever topics reach a new broker from at most 64 workers, the
    accepted topics of each worker have strictly increasing sequence numbers, and a topic with a
    positive number that is newer than all the earlier ones of its worker is accepted (the number 0, which
    no worker dispatches with, is refused). *)
Theorem accept_in_order (u : uuid) (tok : Z) (ts : list topic) (w : uuid) :
  (base.size (list_to_set (worker_ <$> ts) : gset uuid) <= 64)%nat ->
  exists l b', store_all ts (new_broker u tok) = (Ok l, b') /\
    StronglySorted Z.lt (0 :: (seqn_ <$> filter (fun t => worker_ t = w) l)) /\
    forall pre t post, ts = pre ++ t :: post -> 0 < seqn_ t ->
      (forall t', t' ∈ pre -> worker_ t' = worker_ t -> seqn_ t' < seqn_ t) -> t ∈ l.
Proof.
  intros Hsz. destruct (store_all_spec ts (new_broker u tok) (new_broker_inv u tok)) as (b' & E & _ & _).
  exists (accepted ts ([], [])).1, b'. split; [exact E|].
  assert (workers_in (list_to_set (worker_ <$> ts)) []) as Hw0.
  { split; [constructor|]. by intros ? ?%not_elem_of_nil. }
  assert (forall t, t ∈ ts -> worker_ t ∈ (list_to_set (worker_ <$> ts) : gset uuid)) as Hall.
  { intros t Ht. apply elem_of_list_to_set, list_elem_of_fmap. eauto. }
  split; [by apply (accepted_sorted _ ts Hsz ([], []))|].
  intros pre t post -> Hpos Hpre. by apply (accepted_complete _ pre t post Hsz ([], [])).
Qed.

Definition sample_run : list topic :=
  [topic_of Byte.x01 "a" 1 "x" State; topic_of Byte.x02 "a" 7 "y" State;
   topic_of Byte.x01 "b" 3 "z" State; topic_of Byte.x01 "a" 2 "old" State].

Lemma accept_in_order_witness :
  exists l b', store_all sample_run (new_broker nil_uuid 1) = (Ok l, b') /\
    StronglySorted Z.lt (0 :: (seqn_ <$> filter (fun t => worker_ t = replicate 16 Byte.x01) l)).
Proof.
  destruct (accept_in_order nil_uuid 1 sample_run (replicate 16 Byte.x01)) as (l & b' & H1 & H2 & _).
  - vm_compute. lia.
  - exists l, b'. split; [exact H1|exact H2].
Defined.

(** The storage holds the last accepted topic of each name: after any topics with at most
    1024 names, what a snapshot takes for a name is the last accepted topic with that
    name, of whichever worker, and nothing when none was accepted. *)
Theorem latest_accepted (u : uuid) (tok : Z) (ts : list topic) (n : name) :
  (base.size (list_to_set (name_ <$> ts) : gset name) <= 1024)%nat ->
  exists l b', store_all ts (new_broker u tok) = (Ok l, b') /\
    latest n (abs b').1 = last (filter (fun t => name_ t = n) l).
Proof.
  intros Hsz. destruct (store_all_spec ts (new_broker u tok) (new_broker_inv u tok)) as (b' & E & _ & Ha).
  exists (accepted ts ([], [])).1, b'. split; [exact E|]. rewrite Ha.
  change (abs (new_broker u tok)) with ([] : tstore, [] : wstore).
  assert (names_in (list_to_set (name_ <$> ts)) []) as Hn0.
  { split; [constructor|]. by intros ? ?%not_elem_of_nil. }
  rewrite (accepted_latest _ ts Hsz ([], []) Hn0).
  - cbn. by destruct (last _).
  - intros t Ht. apply elem_of_list_to_set, list_elem_of_fmap. eauto.
Qed.

Lemma latest_accepted_witness :
  exists l b', store_all sample_run (new_broker nil_uuid 1) = (Ok l, b') /\
    latest (Name (str "a")) (abs b').1 = last (filter (fun t => name_ t = Name (str "a")) l).
Proof. apply latest_accepted. vm_compute. lia. Defined.

(** Forwarding: a topic message from a worker is stored under the broker's uuid; when it is
    accepted exactly two messages leave, one to the group of the topic's name and one to
    the group of all updates, both decoding to that topic; when it is not, none. *)
Theorem broker_forwards (P : Platform) (Z_ : Zmq) (p : part) (t0 : topic) (b : broker) :
  broker_inv b -> uuid_ok (uuid_ b) -> accepts false (zdispatch_ b) ->
  group p = WorkerUpdt -> fits (p_data p) -> topic_fromPart p = Ok t0 ->
  exists b' ms, collectWorkerMessage p b = (Ok tt, b') /\
    abs b' = (spec_store (withBroker (uuid_ b) t0) (abs b)).2 /\
    sent_ (zdispatch_ b') = sent_ (zdispatch_ b) ++ ms /\
    if (spec_store (withBroker (uuid_ b) t0) (abs b)).1
    then exists d, topic_fromPart (Part_bytes d) = Ok (withBroker (uuid_ b) t0) /\
         ms = [mkPart d 0 (cstr (name_str (name_ t0))) false; mkPart d 0 BrokerUpdt false]
    else ms = [].
Proof.
  intros Hb Hu Hacc Hg Hfit Ht.
  destruct (collect_updt p t0 b Hb Hu Hacc Hg Hfit Ht) as (b' & ms & H1 & _ & H3 & H4 & H5).
  exists b', ms. split_and!; try done. destruct (spec_store _ _) as [[] ?]; [|done].
  destruct H5 as (d & -> & Hd & _). by exists d.
Qed.

(** A broker after a start. *)
Definition start_op : Operation.operation :=
  Operation.mkOp Operation.Start Operation.Success
    (match @BrokerConfig_toPart x86_64 sample_bconfig with Ok p => p | _ => Part_empty end).
Definition started_broker : broker :=
  (@operationReady x86_64 ok_zmq start_op sample_broker).2.

(** A stop of another execution is dropped, the one of this execution ends the session before
    the second start. *)
Definition oper_item (tok : Z) (op : Operation.operation) : ready bready :=
  ROper (Part_uint8 (P := x86_64) tok)
    (match @Operation.operation_toPart x86_64 op with Ok p => p | _ => Part_empty end).
Definition stop_op : Operation.operation := Operation.mkOp Operation.Stop Operation.Success Part_empty.
Definition sample_items : list (list (ready bready)) :=
  [[oper_item 1 start_op; oper_item 0 stop_op]; [oper_item 1 stop_op; oper_item 1 start_op]].
Definition sample_fins : sock := (@connect ok_zmq (Socket 9 PAIR)).2.

Lemma session_run_spec_witness :
  exists z' b', @Session.run x86_64 broker bready (@broker_ops x86_64 ok_zmq) ok_zmq sample_items (sample_fins, sample_broker) =
    (Ok true, (z', b')) /\ sent_ z' = [Part_uint8 (P := x86_64) 1] /\ isOpen (zdispatch_ b') = false.
Proof.
  pose proof (@session_run_spec broker bready (@broker_ops x86_64 ok_zmq) (@broker_session_laws x86_64 ok_zmq)
    x86_64 ok_zmq sample_items sample_fins sample_broker) as H.
  assert (let '(w, b) := @plan x86_64 bready (token_ sample_broker) (concat sample_items) in
    let '(o, s') := mfor w (@do_work broker bready (@broker_ops x86_64 ok_zmq)) sample_broker in
    (b, o, isOpen (zdispatch_ s')) = (true, Ok tt, false)) as K by (vm_compute; reflexivity).
  cbn [token_of broker_ops] in H.
  destruct (@plan x86_64 bready (token_ sample_broker) (concat sample_items)) as [w b].
  destruct (mfor w (@do_work broker bready (@broker_ops x86_64 ok_zmq)) sample_broker) as [o s'].
  injection K as -> -> K. do 2 eexists. split; [apply H|split; [reflexivity|exact K]].
  - cbn [concat sample_items app]. repeat (apply Forall_cons_2; [eexists; vm_compute; reflexivity|]). constructor.
  - exists (9%nat, 0%nat). split; [vm_compute; reflexivity|reflexivity].
Defined.

Definition updt_message (t : topic) : part :=
  match @topic_toPart x86_64 t with Ok p => mkPart (p_data p) 0 WorkerUpdt false | _ => Part_empty end.

Lemma started_topics : storTopic_ started_broker = LRUCache cap_topics.
Proof. vm_cast_no_check (eq_refl (LRUCache cap_topics : lru name topic_cache)). Qed.
Lemma started_workers : storWorker_ started_broker = LRUCache cap_workers.
Proof. vm_cast_no_check (eq_refl (LRUCache cap_workers : lru uuid Z)). Qed.

Lemma started_inv : broker_inv started_broker.
Proof.
  constructor; rewrite ?started_topics, ?started_workers; try apply inv_LRUCache; [constructor|reflexivity..].
Qed.

Lemma broker_forwards_witness :
  exists b' d, @collectWorkerMessage x86_64 ok_zmq (updt_message (topic_of Byte.x01 "t" 5 "v" State))
      started_broker = (Ok tt, b') /\
    sent_ (zdispatch_ b') = [mkPart d 0 (str "t") false; mkPart d 0 (str "UPDT") false].
Proof.
  destruct (broker_forwards x86_64 ok_zmq (updt_message (topic_of Byte.x01 "t" 5 "v" State))
    (topic_of Byte.x01 "t" 5 "v" State) started_broker) as (b' & ms & H1 & _ & H3 & H4).
  - exact started_inv.
  - vm_compute. reflexivity.
  - exists (3%nat, 0%nat). split; [vm_compute; reflexivity|intros n p; reflexivity].
  - vm_compute. reflexivity.
  - vm_compute. reflexivity.
  - vm_compute. reflexivity.
  - assert ((spec_store (withBroker (uuid_ started_broker) (topic_of Byte.x01 "t" 5 "v" State))
              (abs started_broker)).1 = true) as E by (vm_compute; reflexivity).
    rewrite E in H4. destruct H4 as (d & _ & Hms).
    assert (sent_ (zdispatch_ started_broker) = []) as E0 by (vm_compute; reflexivity).
    exists b', d. split; [exact H1|]. rewrite H3, Hms, E0. reflexivity.
Defined.


(** A configuration that asks for every topic. *)
Definition all_params : part :=
  match @WorkerConfig_toPart x86_64 (mkWorkerConfig nil_uuid 0 true [] [] [] []) with
  | Ok p => p | _ => Part_empty end.





(** A rejected topic can take the broker down: a topic with a name the broker does not hold and a
    number that is not newer than the last one of its worker is rejected, but leaves an
    entry without topics, and the next valid snapshot request fails an assertion and
    aborts the process. *)
Theorem rejected_topic_aborts_snapshot (P : Platform) (Z_ : Zmq) (b : broker) (t : topic)
    (rouID syncseq : Z) (params : part) (conf : WorkerConfig) :
  broker_inv b -> uuid_ok (uuid_ b) -> storage_full b -> accepts true (zsnapshot_ b) ->
  assoc (name_ t) (abs b).1 = None -> seqn_ t <= last_seq (worker_ t) (abs b).2 ->
  rouID <> 0 -> in_width 1 syncseq -> WorkerConfig_fromPart params = Ok conf ->
  exists b1 b2, storeTopic t b = (Ok false, b1) /\
    replySnapshot rouID syncseq params b1 = (Abort, b2).
Proof.
  intros Hb Hu Hfull Hacc Hn Hseq Hr Hs Hc.
  destruct (storeTopic_spec t b Hb) as (c & w & E & Hb1 & Ha).
  assert ((spec_store t (abs b)) = (false, (spec_put cap_topics (name_ t) [] (abs b).1, (abs b).2))) as Es.
  { unfold spec_store. destruct (abs b) as [ts ws]. cbn [fst snd] in *. rewrite Hn.
    apply Z.leb_le in Hseq. by rewrite Hseq. }
  rewrite Es in *. cbn [fst snd] in *. set (b1 := set_storWorker w (set_storTopic c b)) in *.
  assert ((abs b1).1 = (if decide (0 < cap_topics <= length (abs b).1)%nat then tail (abs b).1
                        else (abs b).1) ++ [(name_ t, [])]) as Hab.
  { rewrite Ha. cbn [fst]. unfold spec_put. by rewrite Hn. }
  change (abs b1).1 with (mapv items (items (storTopic_ b1))) in Hab. unfold mapv in Hab.
  apply fmap_app_inv in Hab as (els & tl & Hels & Htl & Hit).
  destruct tl as [|[n1 c1] [|? tl]]; try done. injection Htl as Hn1 Hc1. subst n1.
  destruct (reply_empty_aborts rouID syncseq conf b1 els (name_ t) c1) as (b2 & Eb); try done.
  { unfold mapv. rewrite <-Hels. case_decide; [|done].
    unfold storage_full in Hfull. destruct (abs b).1 as [|? l]; [done|]. by apply Forall_cons in Hfull as []. }
  exists b1, b2. split; [done|]. unfold replySnapshot. rewrite Hc, bind_lift. unfold try_catch.
  by rewrite Eb.
Qed.

Lemma rejected_topic_aborts_snapshot_witness :
  exists b1 b2, storeTopic (topic_of Byte.x01 "t" 0 "v" State) started_broker = (Ok false, b1) /\
    @replySnapshot x86_64 ok_zmq 9 1 all_params b1 = (Abort, b2).
Proof.
  apply (rejected_topic_aborts_snapshot x86_64 ok_zmq started_broker (topic_of Byte.x01 "t" 0 "v" State)
    9 1 all_params (mkWorkerConfig nil_uuid 0 true [] [] [] [])).
  - exact started_inv.
  - vm_compute. reflexivity.
  - unfold storage_full, abs. rewrite started_topics. constructor.
  - exists (1%nat, 0%nat). split; [vm_compute; reflexivity|intros n p; reflexivity].
  - unfold abs. rewrite started_topics. reflexivity.
  - unfold abs. rewrite started_workers. vm_compute. congruence.
  - discriminate.
  - vm_compute. split; congruence.
  - vm_compute. reflexivity.
Defined.

End BrokerSession.
