(* ===== verification/ConnMachine.v ===== *)
(** * ConnMachine (src/connmachine.cpp, src/connmachine.h)

    The state machine that keeps a worker connected.  It owns two timers and acts on
    its host through four functions: [doClose], [doOpen], [doPong] and [onChange].  The
    machine is written over an arbitrary host; [ConnHost] is the contract the host's
    functions promise, and the theorems on the machine are proved against it. *)

From S2P Require Import Prelude Timer.

Local Open Scope Z_scope.

Module ConnMachine.
Import Timer.

Inductive state := Halted | Trying | Stable.

#[global] Instance state_eq_dec : EqDecision state.
Proof. solve_decision. Defined.

Record conn := mkConn { timerTry_ : timer; timerTmo_ : timer; state_ : state }.

(** The functions a host gives to the machine. *)
Class ConnHooks (H : Type) := {
  doClose : M H unit;
  doOpen : M H unit;
  doPong : M H unit;
  onChange : state -> M H unit;
}.

(** Lenses: an action of the host, an update of the machine. *)
Definition host {H A} (m : M H A) : M (conn * H) A := zoom snd (fun h s => (s.1, h)) m.
Definition mach {H} (f : conn -> conn) : M (conn * H) unit := modify (fun s => (f s.1, s.2)).

Definition set_try (f : timer -> timer) (c : conn) : conn :=
  mkConn (f (timerTry_ c)) (timerTmo_ c) (state_ c).
Definition set_tmo (f : timer -> timer) (c : conn) : conn :=
  mkConn (timerTry_ c) (f (timerTmo_ c)) (state_ c).
Definition set_state (v : state) (c : conn) : conn := mkConn (timerTry_ c) (timerTmo_ c) v.

Section Machine.
Context {H : Type} {hooks : ConnHooks H}.

(** [ConnMachine::change] *)
Definition change (st : state) : M (conn * H) unit :=
  s ← get;
  if decide (state_ s.1 = st) then mret tt else mach (set_state st);; host (onChange st).

(** [ConnMachine::trigger] *)
Definition trigger : M (conn * H) unit :=
  mach (set_try start);;
  mach (set_tmo start);;
  change Trying;;
  host doClose;;
  host doOpen;;
  host doPong.

(** [ConnMachine::halt] *)
Definition halt : M (conn * H) unit :=
  mach (set_try stop);;
  mach (set_tmo stop);;
  host doClose;;
  change Halted.

(** The constructor: gives the machine after [halt()]. *)
Definition new_conn (retry timeout : Z) : conn :=
  mkConn (setInterval retry (setSingleShot false Timer.new))
         (setInterval timeout (setSingleShot true Timer.new)) Halted.
Definition ConnMachine (retry timeout : Z) (h : H) : outcome unit * (conn * H) :=
  halt (new_conn retry timeout, h).

(** [ConnMachine::onStart], [ConnMachine::onStop] *)
Definition onStart : M (conn * H) unit :=
  s ← get; if decide (state_ s.1 <> Halted) then mret tt else trigger.
Definition onStop : M (conn * H) unit :=
  s ← get; if decide (state_ s.1 = Halted) then mret tt else halt.

(** [ConnMachine::onPing] *)
Definition onPing : M (conn * H) unit :=
  s ← get;
  if decide (state_ s.1 = Halted) then mret tt else
  mach (set_try stop);;
  mach (set_tmo start);;
  change Stable;;
  host doPong.

(** [ConnMachine::onTimerRetryFired] *)
Definition onTimerRetryFired : M (conn * H) unit :=
  mach (set_try consume_if_expired);;
  s ← get;
  if decide (state_ s.1 = Halted) then mret tt else
  if decide (state_ s.1 = Stable) then mret tt else
  host doPong.

(** [ConnMachine::onTimerTimeoutFired] *)
Definition onTimerTimeoutFired : M (conn * H) unit :=
  mach (set_tmo consume_if_expired);;
  s ← get;
  if decide (state_ s.1 = Halted) then mret tt else trigger.

End Machine.

(** ** The contract of a host *)

Definition is_up (st : state) : bool := match st with Stable => true | _ => false end.

(** What the machine relies on: closing always succeeds, opening starts from closed
    sockets, a pong needs open sockets; none of them aborts the process.  [sockets_open]
    and [reported] observe the host: whether its sockets are all open or all closed, and whether it was told
    that the connection is up. *)
Class ConnHost (H : Type) `{hooks : ConnHooks H} := {
  sockets_open : H -> option bool;
  reported : H -> bool;
  close_law h : exists h', doClose h = (Ok tt, h') /\
    sockets_open h' = Some false /\ reported h' = reported h;
  open_law h o h' : sockets_open h = Some false -> doOpen h = (o, h') ->
    o <> Abort /\ o <> Undef /\ reported h' = reported h /\
    (o = Ok tt -> sockets_open h' = Some true);
  pong_law h o h' : sockets_open h = Some true -> doPong h = (o, h') ->
    o <> Abort /\ o <> Undef /\ reported h' = reported h /\ sockets_open h' = Some true;
  change_law st h o h' : onChange st h = (o, h') ->
    o <> Abort /\ o <> Undef /\ (o = Ok tt -> reported h' = is_up st) /\
    sockets_open h' = sockets_open h;
}.

(** ** Events *)

Inductive event :=
  | Start | Stop | Ping | RetryFired | TimeoutFired  (** calls of the owner *)
  | RetryExpires | TimeoutExpires.                   (** the timers run *)

#[export] Instance event_eq_dec : EqDecision event.
Proof. solve_decision. Defined.

Definition handle {H} `{ConnHooks H} (e : event) : M (conn * H) unit :=
  match e with
  | Start => onStart
  | Stop => onStop
  | Ping => onPing
  | RetryFired => onTimerRetryFired
  | TimeoutFired => onTimerTimeoutFired
  | RetryExpires => mach (set_try (fun t => if active t then fire t else t))
  | TimeoutExpires => mach (set_tmo (fun t => if active t then fire t else t))
  end.

(** ** The table of the machine

    For each event and state: the next state and the calls to the host, in order.  The table
    is the one of the code.  The comments of connmachine.h differ from it in Halted: they say
    that the timeout acts in any state and that a ping moves to Stable, and both are ignored
    there (see [conn_halted_ignores]). *)

Inductive hook := HChange (st : state) | HClose | HOpen | HPong.

Definition run_hook {H} `{ConnHooks H} (k : hook) : M H unit :=
  match k with
  | HChange st => onChange st
  | HClose => doClose
  | HOpen => doOpen
  | HPong => doPong
  end.

Definition spec (e : event) (st : state) : state * list hook :=
  match e, st with
  | Start, Halted => (Trying, [HChange Trying; HClose; HOpen; HPong])
  | Stop, (Trying | Stable) => (Halted, [HClose; HChange Halted])
  | Ping, Trying => (Stable, [HChange Stable; HPong])
  | Ping, Stable => (Stable, [HPong])
  | RetryFired, Trying => (Trying, [HPong])
  | TimeoutFired, Trying => (Trying, [HClose; HOpen; HPong])
  | TimeoutFired, Stable => (Trying, [HChange Trying; HClose; HOpen; HPong])
  | _, st => (st, [])
  end.

(** ** Lemmas *)

Section Facts.
Context {H : Type} {hooks : ConnHooks H}.

Lemma host_bind {A B} (m : M H A) (k : A -> M (conn * H) B) c h :
  (host m ≫= k) (c, h) =
    match m h with
    | (Ok a, h') => k a (c, h')
    | (Throw e, h') => (Throw e, (c, h'))
    | (Abort, h') => (Abort, (c, h'))
    | (Undef, h') => (Undef, (c, h'))
    end.
Proof. unfold mbind, M_bind, host, zoom. cbn. by destruct (m h) as [[] ?]. Qed.

Lemma mach_bind {B} f (k : unit -> M (conn * H) B) c h : (mach f ≫= k) (c, h) = k tt (f c, h).
Proof. done. Qed.

Lemma get_bind {B} (k : conn * H -> M (conn * H) B) s : (get ≫= k) s = k s s.
Proof. done. Qed.

(** What the functions of the host leave alone, the machine does too. *)
Lemma conn_handle_frames {A} (f : H -> A) e :
  frames f doClose -> frames f doOpen -> frames f doPong -> (forall st, frames f (onChange st)) ->
  frames (fun s : conn * H => f s.2) (handle e).
Proof.
  intros H1 H2 H3 H4.
  assert (forall m : M H unit, frames f m -> frames (fun s : conn * H => f s.2) (host m)) as Hh
    by (intros m Hm; by apply (frames_zoom_in _ f)).
  pose proof (Hh _ H1). pose proof (Hh _ H2). pose proof (Hh _ H3). pose proof (fun st => Hh _ (H4 st)).
  destruct e; cbn [handle]; unfold onStart, onStop, onPing, onTimerRetryFired, onTimerTimeoutFired, trigger,
    halt, change, mach; frame; auto.
Qed.

(** The next call to the host. *)
Ltac call_hook :=
  match goal with
  | |- context [doClose ?h] => is_var h; destruct (doClose h) as [[[]| | |] ?]
  | |- context [doOpen ?h] => is_var h; destruct (doOpen h) as [[[]| | |] ?]
  | |- context [doPong ?h] => is_var h; destruct (doPong h) as [[[]| | |] ?]
  | |- context [onChange ?s ?h] => is_var h; destruct (onChange s h) as [[[]| | |] ?]
  end.

(** The machine acts on its host exactly as the specification says, whatever the host's
    functions do. *)
Lemma handle_host e c h : let '(o, (_, h')) := handle e (c, h) in
  mfor (spec e (state_ c)).2 run_hook h = (o, h').
Proof.
  destruct c as [t1 t2 st]. destruct e, st; cbn [handle spec snd state_ mfor run_hook];
    unfold onStart, onStop, onPing, onTimerRetryFired, onTimerTimeoutFired, trigger, halt, change;
    unfold mbind, M_bind, host, zoom, mach, modify, mret, M_ret, get; cbn;
    repeat (first [progress decs|call_hook]; cbn); done.
Qed.

(** The state after a call: the one of the table, unless a function of the host did not return. *)
Lemma handle_state e c h : let '(o, (c', _)) := handle e (c, h) in
  (o = Ok tt -> state_ c' = (spec e (state_ c)).1) /\
  (state_ c' = state_ c \/ state_ c' = (spec e (state_ c)).1).
Proof.
  destruct c as [t1 t2 st]. destruct e, st; cbn [handle spec fst state_];
    unfold onStart, onStop, onPing, onTimerRetryFired, onTimerTimeoutFired, trigger, halt, change;
    unfold mbind, M_bind, host, zoom, mach, modify, mret, M_ret, get; cbn;
    repeat (first [progress decs|call_hook]; cbn); (split; [done|by auto]).
Qed.

(** The timers of each state.  The timeout is running or its expiry is waiting to be
    handled, so a machine that is not halted cannot be left alone forever. *)
Definition timers_ok (c : conn) : Prop :=
  singleshot_ (timerTry_ c) = false /\ singleshot_ (timerTmo_ c) = true /\
  active (timerTry_ c) = match state_ c with Trying => true | _ => false end /\
  match state_ c with
  | Halted => active (timerTmo_ c) = false
  | Trying | Stable => (active (timerTmo_ c) || expired (timerTmo_ c))%bool = true
  end.

Context {laws : ConnHost H}.

Definition conn_inv (s : conn * H) : Prop :=
  timers_ok s.1 /\
  sockets_open s.2 = Some match state_ s.1 with Halted => false | _ => true end /\
  reported s.2 = is_up (state_ s.1).

Ltac law_hook :=
  match goal with
  | |- context [doClose ?h] =>
    is_var h; let h1 := fresh "h" in let E1 := fresh "E" in
    destruct (close_law h) as (h1 & E1 & ? & ?); rewrite E1
  | |- context [doOpen ?h] =>
    is_var h; let o := fresh "o" in let h1 := fresh "h" in let E1 := fresh "E" in
    destruct (doOpen h) as [o h1] eqn:E1;
    destruct (open_law h o h1) as (? & ? & ? & ?); [congruence|done|]; destruct o as [[]| | |]
  | |- context [doPong ?h] =>
    is_var h; let o := fresh "o" in let h1 := fresh "h" in let E1 := fresh "E" in
    destruct (doPong h) as [o h1] eqn:E1;
    destruct (pong_law h o h1) as (? & ? & ? & ?); [by auto || congruence|done|];
    destruct o as [[]| | |]
  | |- context [onChange ?s ?h] =>
    is_var h; let o := fresh "o" in let h1 := fresh "h" in let E1 := fresh "E" in
    destruct (onChange s h) as [o h1] eqn:E1;
    destruct (change_law s h o h1 E1) as (? & ? & ? & ?); destruct o as [[]| | |]
  end;
  repeat match goal with E : Ok tt = Ok tt -> _ |- _ => specialize (E eq_refl) end.

Lemma conn_handle_inv e c h o c' h' :
  conn_inv (c, h) -> handle e (c, h) = (o, (c', h')) ->
  o <> Abort /\ o <> Undef /\
  (o = Ok tt -> conn_inv (c', h') /\ state_ c' = (spec e (state_ c)).1).
Proof.
  destruct c as [[i1 s1 a1 e1] [i2 s2 a2 e2] st].
  unfold conn_inv, timers_ok. cbn. intros ((Hs1 & Hs2 & Ha1 & Ha2) & Ho & Hr).
  destruct e, st; cbn in *; subst;
    unfold onStart, onStop, onPing, onTimerRetryFired, onTimerTimeoutFired, trigger, halt, change,
      mbind, M_bind, host, zoom, mach, modify, mret, M_ret, get; cbn;
    repeat (first [progress decs|law_hook]; cbn);
    intros [= <- <- <-]; (split; [congruence|split; [congruence|intros Hok]]);
    try discriminate Hok;
    destruct e1, e2; try destruct a2; cbn in *; split_and!; (done || congruence).
Qed.

Lemma ConnMachine_inv retry timeout h : reported h = false ->
  exists c h', ConnMachine retry timeout h = (Ok tt, (c, h')) /\ conn_inv (c, h').
Proof.
  intros Hr. unfold ConnMachine, halt, change, mbind, M_bind, host, zoom, mach, modify, mret, M_ret, get.
  cbn. destruct (close_law h) as (h1 & -> & Ho & Hr1). cbn. decs.
  do 2 eexists. split; [done|]. unfold conn_inv, timers_ok. cbn. split_and!; congruence.
Qed.

(** The machine runs from its construction, as long as no function of the host throws. *)
Inductive reachable : conn * H -> Prop :=
  | reach_new retry timeout h c h' :
    reported h = false -> ConnMachine retry timeout h = (Ok tt, (c, h')) -> reachable (c, h')
  | reach_event e s s' : reachable s -> handle e s = (Ok tt, s') -> reachable s'.

Lemma conn_reachable_inv s : reachable s -> conn_inv s.
Proof.
  induction 1 as [retry timeout h c h' Hr E|e [c h] [c' h'] _ IH E].
  - destruct (ConnMachine_inv retry timeout h Hr) as (? & ? & E' & Hi). congruence.
  - by eapply conn_handle_inv in E as (_ & _ & []).
Qed.

(** The machine after a sequence of events that all succeed. *)
Fixpoint run (es : list event) (s : conn * H) : option (conn * H) :=
  match es with
  | [] => Some s
  | e :: es => match handle e s with (Ok _, s') => run es s' | _ => None end
  end.

Lemma conn_reachable_run es s s' : reachable s -> run es s = Some s' -> reachable s'.
Proof.
  revert s. induction es as [|e es IH]; intros s Hr; cbn [run]; [by intros [= <-]|].
  destruct (handle e s) as [[[]| | |] s1] eqn:E; try done. intros Hs.
  eapply IH; [|done]. by eapply reach_event.
Qed.

End Facts.

(** ** A host that records the calls *)

Module Trace.

Record trace := mkTrace { calls : list hook; is_open : bool; last : bool }.

Definition log (k : hook) (o l : bool -> bool) : M trace unit :=
  modify (fun t => mkTrace (calls t ++ [k]) (o (is_open t)) (l (last t))).

#[export] Instance trace_hooks : ConnHooks trace := {|
  doClose := log HClose (fun _ => false) (fun l => l);
  doOpen := log HOpen (fun _ => true) (fun l => l);
  doPong := log HPong (fun b => b) (fun l => l);
  onChange st := log (HChange st) (fun b => b) (fun _ => is_up st);
|}.

#[export] Instance trace_laws : ConnHost trace.
Proof.
  refine {| sockets_open t := Some (is_open t); reported := last |}.
  - intros h. eexists. split; [reflexivity|done].
  - intros h o h' Hh [= <- <-]. cbn. split_and!; done.
  - intros h o h' Hh [= <- <-]. cbn. split_and!; done.
  - intros st h o h' [= <- <-]. cbn. split_and!; done.
Defined.

Definition init : trace := mkTrace [] false false.

Definition start : conn * trace := (ConnMachine 500 3000 init).2.

Lemma conn_reachable_start : reachable start.
Proof. apply (reach_new 500 3000 init); [done|]. vm_compute. reflexivity. Qed.

End Trace.
Import Trace.

(** ** Theorems *)

(** Every reachable state of the connection machine, whatever the order of calls, pings and
    expirations: all the sockets are open when it is not halted and closed when it is, the owner was told
    that the connection is up exactly in Stable, the retry timer runs exactly in Trying, and outside of Halted the
    timeout is running or waiting to be handled, so the machine cannot get stuck. *)
Theorem conn_invariant {H} `{ConnHost H} (s : conn * H) :
  reachable s ->
  sockets_open s.2 = Some match state_ s.1 with Halted => false | _ => true end /\
  reported s.2 = match state_ s.1 with Stable => true | _ => false end /\
  active (timerTry_ s.1) = match state_ s.1 with Trying => true | _ => false end /\
  (state_ s.1 <> Halted -> active (timerTmo_ s.1) = true \/ expired (timerTmo_ s.1) = true) /\
  (state_ s.1 = Halted -> active (timerTmo_ s.1) = false).
Proof.
  intros ((_ & _ & Ha & Ht) & Ho & Hr)%conn_reachable_inv. split_and!; try done;
    destruct (state_ s.1); try done; intros _; by apply orb_true_iff in Ht.
Qed.

Lemma conn_invariant_witness :
  exists s, run [Start; Ping] Trace.start = Some s /\ state_ s.1 = Stable /\
    sockets_open s.2 = Some true.
Proof.
  destruct (run [Start; Ping] Trace.start) as [s|] eqn:E; [|vm_compute in E; discriminate E].
  exists s. split; [reflexivity|].
  assert (state_ s.1 = Stable) as Est by (vm_compute in E; injection E as <-; reflexivity).
  split; [exact Est|]. destruct (conn_invariant s) as [Ho _].
  - exact (conn_reachable_run _ _ _ Trace.conn_reachable_start E).
  - rewrite Ho, Est. reflexivity.
Defined.

(** C8: Refinement of the table [spec] by the code of the connection machine, in every state of
    the machine and whatever the functions of the host do, exceptions and aborts included: each call runs
    the functions of the host exactly as the table lists them, in order, up to the first one that does
    not return; when all return the machine is in the state of the table, and otherwise it is there
    or where it was.  When the host keeps the contract [ConnHost], no call on a machine reached
    from its construction aborts.  The table is the one of the code: a halted machine ignores
    timeouts and pings, although the comments say that a timeout acts in any state and that a
    ping moves to Stable. *)
Theorem conn_refines_spec {H} {hooks : ConnHooks H} (e : event) (c : conn) (h : H) :
  exists o c' h', handle e (c, h) = (o, (c', h')) /\
    mfor (spec e (state_ c)).2 run_hook h = (o, h') /\
    (o = Ok tt -> state_ c' = (spec e (state_ c)).1) /\
    (state_ c' = state_ c \/ state_ c' = (spec e (state_ c)).1) /\
    (forall laws : ConnHost H, reachable (c, h) -> o <> Abort /\ o <> Undef).
Proof.
  pose proof (handle_host e c h) as Hh. pose proof (handle_state e c h) as Hs.
  destruct (handle e (c, h)) as [o [c' h']] eqn:E. exists o, c', h'. destruct Hs as [Hs1 Hs2].
  split_and!; try done. intros laws Hr%conn_reachable_inv.
  by destruct (conn_handle_inv e c h o c' h' Hr E) as (? & ? & _).
Qed.

(** A machine that was started and pinged, and whose timeout fires *)
Lemma conn_refines_spec_witness :
  exists s o c' h', run [Start; Ping] Trace.start = Some s /\
    handle TimeoutFired s = (o, (c', h')) /\ o <> Abort /\
    mfor [HChange Trying; HClose; HOpen; HPong] run_hook s.2 = (o, h').
Proof.
  destruct (run [Start; Ping] Trace.start) as [[c h]|] eqn:E; [|vm_compute in E; discriminate E].
  assert (state_ c = Stable) as Est by (vm_compute in E; injection E as <- _; reflexivity).
  destruct (conn_refines_spec TimeoutFired c h) as (o & c' & h' & H1 & H2 & _ & _ & H3).
  destruct (H3 _ (conn_reachable_run _ _ _ Trace.conn_reachable_start E)) as [H4 _].
  exists (c, h), o, c', h'. split; [reflexivity|]. split; [exact H1|]. split; [exact H4|].
  rewrite Est in H2. exact H2.
Defined.

(** In Halted a ping and the expirations of the timers change neither the state nor the host,
    unlike what connmachine.h says of [onTimerTimeoutFired] and [onPing]. *)
Theorem conn_halted_ignores {H} {hooks : ConnHooks H} (e : event) (c : conn) (h : H) :
  state_ c = Halted -> e <> Start ->
  exists c', handle e (c, h) = (Ok tt, (c', h)) /\ state_ c' = Halted.
Proof.
  destruct c as [t1 t2 st]. cbn. intros -> He. destruct e; try done; eexists; (split; [reflexivity|done]).
Qed.

End ConnMachine.
