(* ===== verification/SyncMachine.v ===== *)
(** * SyncMachine (src/syncmachine.cpp, src/syncmachine.h)

    The state machine that downloads a snapshot of the topics from one of several
    brokers, each behind a socket with an index: a request that times out is repeated on
    the next socket, up to a maximum number of retries.  As for the connection machine
    the host is abstract, and [SyncHost] is its contract. *)

From S2P Require Import Prelude Timer.

Local Open Scope Z_scope.

Module SyncMachine.
Import Timer.

Inductive state := Halted | Download | Failed | Synced.
Inductive ReplyType := Snapshot | Complete.
Inductive ReplyResult := Unexpected | Discarded | Accepted.

#[global] Instance state_eq_dec : EqDecision state.
Proof. solve_decision. Defined.
#[export] Instance ReplyType_eq_dec : EqDecision ReplyType.
Proof. solve_decision. Defined.
#[export] Instance ReplyResult_eq_dec : EqDecision ReplyResult.
Proof. solve_decision. Defined.

Record sync := mkSync {
  indexMax_ : Z;
  retryMax_ : Z;
  timerTmo_ : timer;
  state_ : state;
  indexCurr_ : Z;
  indexNext_ : Z;
  retryCurr_ : Z;
  seqNum_ : Z;
}.

Class SyncHooks (H : Type) := {
  doClose : Z -> M H unit;
  doOpen : Z -> M H unit;
  doSync : Z -> Z -> M H unit;
  onChange : state -> M H unit;
}.

Definition host {H A} (m : M H A) : M (sync * H) A := zoom snd (fun h s => (s.1, h)) m.
Definition mach {H} (f : sync -> sync) : M (sync * H) unit := modify (fun s => (f s.1, s.2)).

Definition set_tmo (f : timer -> timer) (c : sync) : sync :=
  mkSync (indexMax_ c) (retryMax_ c) (f (timerTmo_ c)) (state_ c) (indexCurr_ c) (indexNext_ c)
    (retryCurr_ c) (seqNum_ c).
Definition set_state (v : state) (c : sync) : sync :=
  mkSync (indexMax_ c) (retryMax_ c) (timerTmo_ c) v (indexCurr_ c) (indexNext_ c)
    (retryCurr_ c) (seqNum_ c).
Definition set_curr (v : Z) (c : sync) : sync :=
  mkSync (indexMax_ c) (retryMax_ c) (timerTmo_ c) (state_ c) v (indexNext_ c)
    (retryCurr_ c) (seqNum_ c).
Definition set_next (v : Z) (c : sync) : sync :=
  mkSync (indexMax_ c) (retryMax_ c) (timerTmo_ c) (state_ c) (indexCurr_ c) v
    (retryCurr_ c) (seqNum_ c).
Definition set_retry (v : Z) (c : sync) : sync :=
  mkSync (indexMax_ c) (retryMax_ c) (timerTmo_ c) (state_ c) (indexCurr_ c) (indexNext_ c)
    v (seqNum_ c).
Definition set_seq (v : Z) (c : sync) : sync :=
  mkSync (indexMax_ c) (retryMax_ c) (timerTmo_ c) (state_ c) (indexCurr_ c) (indexNext_ c)
    (retryCurr_ c) v.

(** The result of an [int] addition: signed overflow is undefined. *)
Definition int_ (z : Z) : outcome Z :=
  if ((- int_max - 1 <=? z) && (z <=? int_max))%bool then Ok z else Undef.

Section Machine.
Context {H : Type} {hooks : SyncHooks H}.

(** [SyncMachine::setNextIndex] *)
Definition setNextIndex (index : Z) : M (sync * H) unit :=
  s ← get;
  let index := if index <? 0 then 0 else index in
  n ← lift (int_ (indexMax_ s.1 + 1));
  mach (set_next (Z.rem index n)).

(** [SyncMachine::change] *)
Definition change (st : state) : M (sync * H) unit :=
  s ← get;
  if decide (state_ s.1 = st) then mret tt else mach (set_state st);; host (onChange st).

(** [SyncMachine::close], [SyncMachine::open] *)
Definition close (index : Z) : M (sync * H) unit :=
  if index <? 0 then mret tt else host (doClose index).
Definition open (index : Z) : M (sync * H) unit :=
  if index <? 0 then mret tt else host (doOpen index).

(** [SyncMachine::halt] *)
Definition halt (indexClose : Z) : M (sync * H) unit :=
  mach (set_tmo stop);;
  mach (set_seq 0);;
  mach (set_retry 0);;
  mach (set_curr 0);;
  setNextIndex 1;;
  close indexClose;;
  change Halted.

(** [SyncMachine::fail] *)
Definition fail (indexClose : Z) : M (sync * H) unit :=
  mach (set_tmo stop);;
  close indexClose;;
  change Failed.

(** [SyncMachine::sync] *)
Definition do_sync (indexClose indexOpen : Z) : M (sync * H) unit :=
  mach (set_tmo start);;
  mach (fun c => set_seq (wrap8 (seqNum_ c + 1)) c);;
  change Download;;
  close indexClose;;
  open indexOpen;;
  s ← get;
  host (doSync (indexCurr_ s.1) (seqNum_ s.1)).

(** The constructor *)
Definition new_sync (maxIndex maxRetry timeout : Z) : sync :=
  mkSync maxIndex maxRetry (setInterval timeout (setSingleShot true Timer.new)) Halted 0 0 0 0.
Definition SyncMachine (maxIndex maxRetry timeout : Z) : M (sync * H) unit :=
  lift (ASSERT (0 <=? maxIndex));;
  lift (ASSERT (0 <=? maxRetry));;
  lift (ASSERT (maxIndex <? int_max));;
  lift (ASSERT (maxRetry <? int_max));;
  mfor (seqZ 0 (maxIndex + 1)) (fun idx => host (doClose idx));;
  halt (-1).

(** [SyncMachine::onHalt] *)
Definition onHalt : M (sync * H) unit :=
  s ← get;
  match state_ s.1 with
  | Halted => mret tt
  | Failed => halt (-1)
  | Download | Synced => halt (indexCurr_ s.1)
  end.

(** [SyncMachine::onSync]; the case of Failed falls through to the one of Halted. *)
Definition onSync : M (sync * H) unit :=
  s ← get;
  if decide (state_ s.1 = Download) then mret tt else
  mach (set_retry 0);;
  match state_ s.1 with
  | Failed =>
    mach (fun c => set_curr (indexNext_ c) c);;
    s ← get;
    n ← lift (int_ (indexCurr_ s.1 + 1));
    setNextIndex n;;
    s ← get;
    do_sync (-1) (indexCurr_ s.1)
  | Halted => do_sync (-1) (indexCurr_ s.1)
  | Synced => do_sync (-1) (-1)
  | Download => mret tt
  end.

(** [SyncMachine::onReply] *)
Definition onReply (index seqn : Z) (reply : ReplyType) : M (sync * H) ReplyResult :=
  s ← get;
  if decide (state_ s.1 <> Download) then mret Unexpected else
  if (negb (index =? indexCurr_ s.1) || negb (seqn =? seqNum_ s.1))%bool then mret Discarded else
  match reply with
  | Snapshot => mach (set_tmo start)
  | Complete => mach (set_tmo stop);; change Synced
  end;;
  mret Accepted.

(** [SyncMachine::onTimerTimeoutFired] *)
Definition onTimerTimeoutFired : M (sync * H) unit :=
  mach (set_tmo consume_if_expired);;
  s ← get;
  if decide (state_ s.1 <> Download) then mret tt else
  r ← lift (int_ (retryCurr_ s.1 + 1));
  if retryMax_ s.1 <? r then fail (indexCurr_ s.1) else
  mach (set_retry r);;
  let indexPrev := indexCurr_ s.1 in
  mach (fun c => set_curr (indexNext_ c) c);;
  s ← get;
  n ← lift (int_ (indexCurr_ s.1 + 1));
  setNextIndex n;;
  s ← get;
  do_sync indexPrev (indexCurr_ s.1).

End Machine.

(** ** The contract of a host *)

Definition is_download (st : state) : bool := match st with Download => true | _ => false end.

(** [host_ok] is what the host needs of itself for its functions not to abort; [opened] and
    [reported] observe the sockets that are open and whether the owner was told of a
    download. *)
Class SyncHost (H : Type) `{hooks : SyncHooks H} := {
  max_index : Z;
  host_ok : H -> Prop;
  opened : H -> gset Z;
  reported : H -> bool;
  close_law i h : 0 <= i <= max_index -> host_ok h -> exists h', doClose i h = (Ok tt, h') /\
    host_ok h' /\ opened h' = opened h ∖ {[i]} /\ reported h' = reported h;
  open_law i h o h' : 0 <= i <= max_index -> host_ok h -> opened h = ∅ -> doOpen i h = (o, h') ->
    o <> Abort /\ o <> Undef /\ host_ok h' /\ reported h' = reported h /\
    (o = Ok tt -> opened h' = {[i]});
  sync_law i n h o h' : 0 <= n < 256 -> host_ok h -> opened h = {[i]} -> doSync i n h = (o, h') ->
    o <> Abort /\ o <> Undef /\ host_ok h' /\ reported h' = reported h /\ opened h' = {[i]};
  change_law st h o h' : host_ok h -> onChange st h = (o, h') ->
    o <> Abort /\ o <> Undef /\ host_ok h' /\ (o = Ok tt -> reported h' = is_download st) /\
    opened h' = opened h;
}.

(** ** Events *)

Inductive event :=
  | Halt | Sync | Reply (index seqn : Z) (reply : ReplyType) | TimeoutFired | SetNext (index : Z)
  | TimeoutExpires.

Definition handle {H} `{SyncHooks H} (e : event) : M (sync * H) unit :=
  match e with
  | Halt => onHalt
  | Sync => onSync
  | Reply i n r => onReply i n r;; mret tt
  | TimeoutFired => onTimerTimeoutFired
  | SetNext i => setNextIndex i
  | TimeoutExpires => mach (set_tmo (fun t => if active t then fire t else t))
  end.

(** ** The table of the machine

    The state without timers and machine integers; for each event the next state
    and the calls to the host.  The table is the one of the code.  The comments of
    syncmachine.h differ from it: they say that [onSync] uses the next index, which then becomes
    the current one, and that is so in Failed only (see [sync_ignores_next]); and that the
    machine is Halted when the retries are exhausted, where the code moves to Failed. *)

Record view := mkView { v_state : state; v_curr : Z; v_next : Z; v_retry : Z; v_seq : Z }.

Definition view_of (c : sync) : view :=
  mkView (state_ c) (indexCurr_ c) (indexNext_ c) (retryCurr_ c) (seqNum_ c).

Inductive hook := HChange (st : state) | HClose (i : Z) | HOpen (i : Z) | HSync (i n : Z).

Definition run_hook {H} `{SyncHooks H} (k : hook) : M H unit :=
  match k with
  | HChange st => onChange st
  | HClose i => doClose i
  | HOpen i => doOpen i
  | HSync i n => doSync i n
  end.

Section Spec.
Variables maxi maxr : Z.

(** The index after [i], in circle. *)
Definition succ (i : Z) : Z := (i + 1) mod (maxi + 1).
(** The number of the next request. *)
Definition next_seq (n : Z) : Z := (n + 1) mod 256.

Definition spec (e : event) (v : view) : view * list hook :=
  let 'mkView st curr next retry seq := v in
  let n := next_seq seq in
  match e, st with
  | Halt, (Download | Synced) => (mkView Halted 0 (1 mod (maxi + 1)) 0 0, [HClose curr; HChange Halted])
  | Halt, Failed => (mkView Halted 0 (1 mod (maxi + 1)) 0 0, [HChange Halted])
  | Sync, Halted => (mkView Download curr next 0 n, [HChange Download; HOpen curr; HSync curr n])
  | Sync, Failed =>
    (mkView Download next (succ next) 0 n, [HChange Download; HOpen next; HSync next n])
  | Sync, Synced => (mkView Download curr next 0 n, [HChange Download; HSync curr n])
  | Reply i k Complete, Download =>
    if ((i =? curr) && (k =? seq))%bool
    then (mkView Synced curr next retry seq, [HChange Synced]) else (v, [])
  | TimeoutFired, Download =>
    if maxr <=? retry then (mkView Failed curr next retry seq, [HClose curr; HChange Failed])
    else (mkView Download next (succ next) (retry + 1) n, [HClose curr; HOpen next; HSync next n])
  | SetNext i, _ => (mkView st curr (Z.max 0 i mod (maxi + 1)) retry seq, [])
  | _, _ => (v, [])
  end.

End Spec.

(** ** Invariant *)

Section Facts.
Context {H : Type} {hooks : SyncHooks H} {laws : SyncHost H}.

Definition mach_ok (c : sync) : Prop :=
  0 <= indexMax_ c < int_max /\ 0 <= retryMax_ c < int_max /\
  0 <= indexCurr_ c <= indexMax_ c /\ 0 <= indexNext_ c <= indexMax_ c /\
  0 <= retryCurr_ c <= retryMax_ c /\ 0 <= seqNum_ c < 256 /\
  singleshot_ (timerTmo_ c) = true /\
  match state_ c with
  | Download => (active (timerTmo_ c) || expired (timerTmo_ c))%bool = true
  | _ => active (timerTmo_ c) = false
  end.

Definition sync_inv (s : sync * H) : Prop :=
  mach_ok s.1 /\ indexMax_ s.1 = max_index /\ host_ok s.2 /\
  opened s.2 = match state_ s.1 with
               | Download | Synced => {[indexCurr_ s.1]}
               | _ => ∅
               end /\
  reported s.2 = is_download (state_ s.1).

(** What the functions of the host leave alone, the machine does too. *)
Lemma sync_handle_frames {A} (f : H -> A) e :
  (forall i, frames f (doClose i)) -> (forall i, frames f (doOpen i)) -> (forall i n, frames f (doSync i n)) ->
  (forall st, frames f (onChange st)) -> frames (fun s : sync * H => f s.2) (handle e).
Proof.
  intros H1 H2 H3 H4.
  assert (forall m : M H unit, frames f m -> frames (fun s : sync * H => f s.2) (host m)) as Hh
    by (intros m Hm; by apply (frames_zoom_in _ f)).
  destruct e; cbn [handle]; unfold onHalt, onSync, onReply, onTimerTimeoutFired, setNextIndex, do_sync, fail,
    halt, close, open, setNextIndex, change, mach; frame; auto.
Qed.

Lemma int_Ok z : 0 <= z <= int_max -> int_ z = Ok z.
Proof.
  intros Hz. unfold int_. unfold int_max in *. rewrite (proj2 (Z.leb_le _ _)), (proj2 (Z.leb_le _ _));
    [done|lia..].
Qed.

Lemma wrap8_next n : wrap8 (n + 1) = next_seq n.
Proof. done. Qed.

Lemma succ_range maxi i : 0 <= maxi -> 0 <= i mod (maxi + 1) <= maxi.
Proof. intros. pose proof (Z.mod_pos_bound i (maxi + 1)). lia. Qed.

Lemma next_seq_range n : 0 <= next_seq n < 256.
Proof. apply Z.mod_pos_bound. lia. Qed.

Lemma setNextIndex_eq i c (h : H) : 0 <= indexMax_ c < int_max ->
  setNextIndex i (c, h) = (Ok tt, (set_next (Z.max 0 i mod (indexMax_ c + 1)) c, h)).
Proof.
  intros Hm. unfold setNextIndex, mbind, M_bind, get, lift. cbn [fst snd].
  rewrite int_Ok by lia. unfold mach, modify. cbn [fst snd]. do 3 f_equal.
  rewrite Z.rem_mod_nonneg; [|destruct (Z.ltb_spec i 0); lia|lia].
  f_equal. destruct (Z.ltb_spec i 0); lia.
Qed.

(** ** The machine implements the table *)

(** Run from machine [c] and host [h], the code calls the functions [ks] of the host in
    order, stopping at the first one that does not return, and ends with machine [c']. *)
Definition calls (m : M (sync * H) unit) (c : sync) (h : H) (c' : sync) (ks : list hook) : Prop :=
  forall o h', mfor ks run_hook h = (o, h') ->
    exists c1, m (c, h) = (o, (c1, h')) /\ (o = Ok tt -> c1 = c').

Lemma calls_ret c h : calls (mret tt) c h c [].
Proof. intros o h' [= <- <-]. by exists c. Qed.

Lemma calls_mach f c h : calls (mach f) c h (f c) [].
Proof. intros o h' [= <- <-]. by exists (f c). Qed.

Lemma calls_hook k c h : calls (host (run_hook k)) c h c [k].
Proof.
  intros o h' Hr. exists c. split; [|done]. cbn [mfor] in Hr.
  unfold host, zoom, mbind, M_bind in *. cbn [fst snd].
  destruct (run_hook k h) as [[[]| | |] h1]; by injection Hr as <- <-.
Qed.

Lemma calls_bind m k c h c1 c2 ks1 ks2 :
  calls m c h c1 ks1 -> (forall h1, calls (k tt) c1 h1 c2 ks2) ->
  calls (m ≫= k) c h c2 (ks1 ++ ks2).
Proof.
  intros Hm Hk o h' Hr. rewrite mfor_app in Hr. unfold mbind, M_bind in Hr.
  destruct (mfor ks1 run_hook h) as [o1 h1] eqn:E1.
  destruct (Hm o1 h1 E1) as (c3 & E3 & H3). unfold mbind, M_bind. rewrite E3.
  destruct o1 as [[]| | |]; [rewrite H3 by done; by apply Hk| | |];
    injection Hr as <- <-; by exists c3.
Qed.

Lemma calls_conv m c h c1 c2 ks1 ks2 :
  calls m c h c1 ks1 -> c1 = c2 -> ks1 = ks2 -> calls m c h c2 ks2.
Proof. by intros ? -> ->. Qed.

Lemma calls_mach_bind f k c h c2 ks :
  (forall h1, calls (k tt) (f c) h1 c2 ks) -> calls (mach f ≫= k) c h c2 ks.
Proof. intros Hk. apply (calls_bind _ _ _ _ (f c) _ []); [apply calls_mach|done]. Qed.

Lemma calls_get k c h c2 ks : calls (k (c, h)) c h c2 ks -> calls (get ≫= k) c h c2 ks.
Proof. done. Qed.

Lemma calls_int z k c h c2 ks : 0 <= z <= int_max -> calls (k z) c h c2 ks ->
  calls (lift (int_ z) ≫= k) c h c2 ks.
Proof.
  intros Hz Hk o h' Hr. destruct (Hk o h' Hr) as (c1 & E & H1). exists c1.
  split; [|done]. rewrite (M_bind_eq _ _ _ z (c, h)); [done|]. unfold lift. by rewrite int_Ok.
Qed.

Lemma calls_next i c h : 0 <= indexMax_ c < int_max ->
  calls (setNextIndex i) c h (set_next (Z.max 0 i mod (indexMax_ c + 1)) c) [].
Proof. intros Hm o h' [= <- <-]. rewrite setNextIndex_eq by done. by eexists. Qed.

Lemma calls_change st c h :
  calls (change st) c h (set_state st c) (if decide (state_ c = st) then [] else [HChange st]).
Proof.
  unfold change. apply calls_get. cbn [fst]. case_decide as E.
  - replace (set_state st c) with c by (destruct c; cbn in *; by subst). apply calls_ret.
  - apply calls_mach_bind. intros h1. apply (calls_hook (HChange st)).
Qed.

Lemma calls_close i c h : calls (close i) c h c (if i <? 0 then [] else [HClose i]).
Proof. unfold close. destruct (i <? 0); [apply calls_ret|apply (calls_hook (HClose i))]. Qed.
Lemma calls_open i c h : calls (open i) c h c (if i <? 0 then [] else [HOpen i]).
Proof. unfold open. destruct (i <? 0); [apply calls_ret|apply (calls_hook (HOpen i))]. Qed.

Lemma calls_halt i c h : 0 <= indexMax_ c < int_max ->
  calls (halt i) c h
    (mkSync (indexMax_ c) (retryMax_ c) (stop (timerTmo_ c)) Halted 0 (1 mod (indexMax_ c + 1)) 0 0)
    ((if i <? 0 then [] else [HClose i]) ++ if decide (state_ c = Halted) then [] else [HChange Halted]).
Proof.
  intros Hm. unfold halt. do 4 (apply calls_mach_bind; intros ?).
  eapply (calls_bind _ _ _ _ _ _ []); [by apply calls_next|intros ?].
  eapply calls_bind; [apply calls_close|intros ?].
  by eapply calls_conv; [apply calls_change|..].
Qed.

Lemma calls_fail i c h :
  calls (fail i) c h (set_state Failed (set_tmo stop c))
    ((if i <? 0 then [] else [HClose i]) ++ if decide (state_ c = Failed) then [] else [HChange Failed]).
Proof.
  unfold fail. apply calls_mach_bind; intros ?.
  eapply calls_bind; [apply calls_close|intros ?].
  by eapply calls_conv; [apply calls_change|..].
Qed.

Lemma calls_do_sync i j c h :
  calls (do_sync i j) c h
    (set_state Download (set_seq (next_seq (seqNum_ c)) (set_tmo start c)))
    ((if decide (state_ c = Download) then [] else [HChange Download]) ++
     (if i <? 0 then [] else [HClose i]) ++ (if j <? 0 then [] else [HOpen j]) ++
     [HSync (indexCurr_ c) (next_seq (seqNum_ c))]).
Proof.
  unfold do_sync. do 2 (apply calls_mach_bind; intros ?).
  eapply calls_bind; [by eapply calls_conv; [apply calls_change|..]|intros ?].
  eapply calls_bind; [apply calls_close|intros ?].
  eapply calls_bind; [apply calls_open|intros ?].
  apply calls_get. apply (calls_hook (HSync _ _)).
Qed.

(** Moving to the next index *)
Lemma calls_advance (k : unit -> M (sync * H) unit) c h c2 ks :
  0 <= indexMax_ c < int_max -> 0 <= indexNext_ c <= indexMax_ c ->
  (forall h1, calls (k tt) (set_next (succ (indexMax_ c) (indexNext_ c)) (set_curr (indexNext_ c) c))
     h1 c2 ks) ->
  calls (mach (fun c => set_curr (indexNext_ c) c);;
         s ← get; n ← lift (int_ (indexCurr_ s.1 + 1)); setNextIndex n ≫= k) c h c2 ks.
Proof.
  intros Hm Hn Hk. apply calls_mach_bind; intros ?. apply calls_get.
  apply calls_int; [cbn; lia|].
  eapply (calls_bind _ _ _ _ _ _ []); [apply calls_next; done|]. cbn [fst indexCurr_ set_curr indexMax_].
  rewrite Z.max_r by lia. done.
Qed.

Lemma calls_reply i n r c h :
  calls (onReply i n r;; mret tt) c h
    (if decide (state_ c = Download /\ i = indexCurr_ c /\ n = seqNum_ c)
     then match r with Snapshot => set_tmo start c | Complete => set_state Synced (set_tmo stop c) end
     else c)
    (spec (indexMax_ c) (retryMax_ c) (Reply i n r) (view_of c)).2.
Proof.
  intros o h' Hr. destruct c as [mi mr t st cu ne re se]. cbn in Hr.
  unfold onReply, change, mbind, M_bind, get, mret, M_ret, mach, modify, host, zoom. cbn.
  destruct (decide (st = Download)) as [->|Hst].
  - decs. cbn. destruct (Z.eqb_spec i cu) as [->|], (Z.eqb_spec n se) as [->|]; cbn in *; decs.
    + destruct r; cbn in *; [injection Hr as <- <-; by eexists|]. decs. cbn.
      unfold mbind, M_bind in Hr. destruct (onChange Synced h) as [[[]| | |] h1]; cbn;
        injection Hr as <- <-; by eexists.
    + destruct r; injection Hr as <- <-; eexists; (split; [done|]); intros _; by rewrite decide_False by tauto.
    + destruct r; injection Hr as <- <-; eexists; (split; [done|]); intros _; by rewrite decide_False by tauto.
    + destruct r; injection Hr as <- <-; eexists; (split; [done|]); intros _; by rewrite decide_False by tauto.
  - rewrite decide_True by done. assert (Ok tt = o /\ h = h') as [<- <-].
    { destruct r, st; try done; by injection Hr. }
    eexists. split; [done|]. intros _. rewrite decide_False by tauto. done.
Qed.

(** What each event does to a machine within its bounds. *)
Definition step_ok (e : event) (c : sync) : Prop :=
  exists c', mach_ok c' /\ indexMax_ c' = indexMax_ c /\ retryMax_ c' = retryMax_ c /\
    view_of c' = (spec (indexMax_ c) (retryMax_ c) e (view_of c)).1 /\
    forall h, calls (handle e) c h c' (spec (indexMax_ c) (retryMax_ c) e (view_of c)).2.

Ltac step_with c' :=
  exists c'; unfold mach_ok in *; cbn -[Z.modulo] in *;
  split_and!; [..|intros h]; cbn -[Z.modulo]; try done; try lia;
  try (unfold succ; lia).

Lemma halt_ok c : mach_ok c -> step_ok Halt c.
Proof.
  intros Hok. pose proof Hok as (Hmi & Hmr & Hcu & Hne & Hre & Hse & Hsi & Hti).
  pose proof (succ_range (indexMax_ c) 1). destruct c as [mi mr t st cu ne re se]. destruct st.
  - step_with (mkSync mi mr t Halted cu ne re se); apply calls_get, calls_ret.
  - step_with (mkSync mi mr (stop t) Halted 0 (1 mod (mi + 1)) 0 0). apply calls_get.
    eapply calls_conv; [apply calls_halt; done|done|]. cbn.
    by rewrite (proj2 (Z.ltb_ge cu 0)) by lia.
  - step_with (mkSync mi mr (stop t) Halted 0 (1 mod (mi + 1)) 0 0). apply calls_get.
    by eapply calls_conv; [apply calls_halt; done|..].
  - step_with (mkSync mi mr (stop t) Halted 0 (1 mod (mi + 1)) 0 0). apply calls_get.
    eapply calls_conv; [apply calls_halt; done|done|]. cbn.
    by rewrite (proj2 (Z.ltb_ge cu 0)) by lia.
Qed.

Lemma sync_ok c : mach_ok c -> step_ok Sync c.
Proof.
  intros Hok. pose proof Hok as (Hmi & Hmr & Hcu & Hne & Hre & Hse & Hsi & Hti).
  pose proof (succ_range (indexMax_ c) (indexNext_ c + 1)). pose proof (next_seq_range (seqNum_ c)).
  destruct c as [mi mr t st cu ne re se]. destruct st.
  - step_with (mkSync mi mr (start t) Download cu ne 0 (next_seq se)). apply calls_get.
    cbn [fst state_]. decs. apply calls_mach_bind; intros ?.
    eapply calls_conv; [apply calls_do_sync|done|]. cbn.
    by rewrite (proj2 (Z.ltb_ge cu 0)) by lia.
  - step_with (mkSync mi mr t Download cu ne re se); apply calls_get; cbn [fst state_]; decs;
      apply calls_ret.
  - step_with (mkSync mi mr (start t) Download ne (succ mi ne) 0 (next_seq se)). apply calls_get.
    cbn [fst state_]. decs. apply calls_mach_bind; intros ?. apply calls_advance; [done..|intros ?].
    apply calls_get. eapply calls_conv; [apply calls_do_sync|done|]. cbn.
    by rewrite (proj2 (Z.ltb_ge ne 0)) by lia.
  - step_with (mkSync mi mr (start t) Download cu ne 0 (next_seq se)). apply calls_get.
    cbn [fst state_]. decs. apply calls_mach_bind; intros ?.
    by eapply calls_conv; [apply calls_do_sync|..].
Qed.

Lemma reply_ok i n r c : mach_ok c -> step_ok (Reply i n r) c.
Proof.
  intros Hok. pose proof (calls_reply i n r c) as Hc. unfold step_ok.
  eexists. split_and!; last exact Hc; clear Hc.
  all: destruct c as [mi mr t st cu ne re se]; case_decide as Hd; cbn in *; try done.
  - destruct Hd as (-> & -> & ->). unfold mach_ok in *. destruct r; cbn in *; intuition.
  - destruct r; done.
  - destruct r; done.
  - destruct Hd as (-> & -> & ->). rewrite !Z.eqb_refl. by destruct r.
  - destruct r, st; try done. destruct (Z.eqb_spec i cu), (Z.eqb_spec n se); cbn; try done. tauto.
Qed.

Lemma timeout_ok c : mach_ok c -> step_ok TimeoutFired c.
Proof.
  intros Hok. pose proof Hok as (Hmi & Hmr & Hcu & Hne & Hre & Hse & Hsi & Hti).
  pose proof (succ_range (indexMax_ c) (indexNext_ c + 1)). pose proof (next_seq_range (seqNum_ c)).
  destruct c as [mi mr t st cu ne re se]. unfold handle, onTimerTimeoutFired.
  assert (forall t, active (consume_if_expired t) = active t /\
            singleshot_ (consume_if_expired t) = singleshot_ t) as Hcons.
  { intros t'. unfold consume_if_expired. by destruct (isExpired t'). }
  destruct (Hcons t) as [Hca Hcs].
  destruct st.
  2: destruct (Z.leb_spec mr re) as [Hr|Hr].
  2: { step_with (mkSync mi mr (stop (consume_if_expired t)) Failed cu ne re se);
         rewrite ?(proj2 (Z.leb_le mr re)) by done; try done; try congruence.
       apply calls_mach_bind; intros ?. apply calls_get. cbn [fst state_ set_tmo]. decs.
       apply calls_int; [cbn; lia|]. cbn -[Z.ltb]. rewrite (proj2 (Z.ltb_lt _ _)) by lia.
       eapply calls_conv; [apply calls_fail|done|]. cbn.
       by rewrite (proj2 (Z.ltb_ge cu 0)) by lia. }
  2: { step_with (mkSync mi mr (start (consume_if_expired t)) Download ne (succ mi ne) (re + 1)
                    (next_seq se));
         rewrite ?(proj2 (Z.leb_gt mr re)) by done; try done; try congruence.
       apply calls_mach_bind; intros ?. apply calls_get. cbn [fst state_ set_tmo]. decs.
       apply calls_int; [cbn; lia|]. cbn -[Z.ltb Z.add]. rewrite (proj2 (Z.ltb_ge _ _)) by lia.
       apply calls_mach_bind; intros ?. apply calls_advance; [done..|intros ?].
       apply calls_get. eapply calls_conv; [apply calls_do_sync|done|]. cbn.
       by rewrite (proj2 (Z.ltb_ge ne 0)), (proj2 (Z.ltb_ge cu 0)) by lia. }
  all: eexists (mkSync mi mr (consume_if_expired t) _ cu ne re se); unfold mach_ok in *; cbn in *;
    split_and!; last (intros h; apply calls_mach_bind; intros ?; apply calls_get; cbn [fst state_ set_tmo];
      rewrite decide_True by done; apply calls_ret); try done; try lia; congruence.
Qed.

Lemma handle_calls e c : mach_ok c -> step_ok e c.
Proof.
  intros Hok. destruct e as [| |i n r| |i|].
  - by apply halt_ok.
  - by apply sync_ok.
  - by apply reply_ok.
  - by apply timeout_ok.
  - pose proof (succ_range (indexMax_ c) (Z.max 0 i)). destruct Hok as (Hmi & Hok).
    eexists. split_and!; last (intros h; by apply calls_next); destruct c, state_0; cbn in *; done || idtac.
    all: unfold mach_ok in *; cbn in *; intuition lia.
  - destruct Hok as (Hmi & Hmr & Hcu & Hne & Hre & Hse & Hsi & Hti).
    eexists. split_and!; last (intros h; apply calls_mach);
      destruct c as [mi mr [ti ts ta te] st cu ne re se]; cbn in *; try by destruct st.
    all: unfold mach_ok; cbn; destruct ta, st; cbn in *; subst; intuition (congruence || lia).
Qed.

(** ** The host follows the table *)

Definition host_rel (v : view) (h : H) : Prop :=
  host_ok h /\
  opened h = match v_state v with Download | Synced => {[v_curr v]} | _ => ∅ end /\
  reported h = is_download (v_state v).

Definition view_ok (v : view) : Prop :=
  0 <= v_curr v <= max_index /\ 0 <= v_next v <= max_index /\ 0 <= v_seq v < 256.

(** Running the next call of a list, with what the contract says of it. *)
Ltac law_hook :=
  match goal with
  | |- context [doClose ?i ?h] =>
    let h1 := fresh "h" in let E1 := fresh "E" in
    destruct (close_law i h) as (h1 & E1 & ? & ? & ?); [lia|done|]; rewrite E1
  | |- context [doOpen ?i ?h] =>
    let o := fresh "o" in let h1 := fresh "h" in let E1 := fresh "E" in
    destruct (doOpen i h) as [o h1] eqn:E1;
    destruct (open_law i h o h1) as (? & ? & ? & ? & ?); [lia|done|set_solver|done|]; destruct o as [[]| | |]
  | |- context [doSync ?i ?n ?h] =>
    let o := fresh "o" in let h1 := fresh "h" in let E1 := fresh "E" in
    destruct (doSync i n h) as [o h1] eqn:E1;
    destruct (sync_law i n h o h1) as (? & ? & ? & ? & ?); [lia|done|by auto || congruence|done|];
    destruct o as [[]| | |]
  | |- context [onChange ?s ?h] =>
    let o := fresh "o" in let h1 := fresh "h" in let E1 := fresh "E" in
    destruct (onChange s h) as [o h1] eqn:E1;
    destruct (change_law s h o h1) as (? & ? & ? & ? & ?); [done|done|]; destruct o as [[]| | |]
  end;
  repeat match goal with E : Ok tt = Ok tt -> _ |- _ => specialize (E eq_refl) end.

Lemma spec_host maxr e v h o h' :
  view_ok v -> host_rel v h -> mfor (spec max_index maxr e v).2 run_hook h = (o, h') ->
  o <> Abort /\ o <> Undef /\ (o = Ok tt -> host_rel (spec max_index maxr e v).1 h').
Proof.
  destruct v as [st curr next retry seq]. unfold view_ok, host_rel. cbn.
  intros (Hc & Hn & Hs) (Hh & Ho & Hr). pose proof (next_seq_range seq).
  destruct e as [| |i n [|]| |i|], st; cbn in *;
    try (intros [= <- <-]; split_and!; done);
    repeat (case_match; cbn);
    try (intros [= <- <-]; split_and!; done);
    unfold mbind, M_bind; repeat (law_hook; cbn);
    intros [= <- <-]; (split; [congruence|split; [congruence|intros Hok]]);
    try discriminate Hok; (split; [done|split; [set_solver|cbn in *; congruence]]).
Qed.

Lemma sync_handle_inv e c h o c' h' :
  sync_inv (c, h) -> handle e (c, h) = (o, (c', h')) ->
  o <> Abort /\ o <> Undef /\
  mfor (spec (indexMax_ c) (retryMax_ c) e (view_of c)).2 run_hook h = (o, h') /\
  (o = Ok tt -> sync_inv (c', h') /\
     view_of c' = (spec (indexMax_ c) (retryMax_ c) e (view_of c)).1 /\
     indexMax_ c' = indexMax_ c /\ retryMax_ c' = retryMax_ c).
Proof.
  intros (Hok & Hmax & Hhok & Hop & Hre) E. cbn [fst snd] in *.
  destruct (handle_calls e c Hok) as (c1 & Hok1 & Hi1 & Hr1 & Hv1 & Hc).
  destruct (mfor (spec (indexMax_ c) (retryMax_ c) e (view_of c)).2 run_hook h) as [o1 h1] eqn:Em.
  destruct (Hc h o1 h1 Em) as (c2 & E2 & H2). rewrite E in E2. injection E2 as <- <- <-.
  pose proof Hok as (_ & _ & Hcu & Hne & _ & Hse & _). pose proof Em as Em'. rewrite Hmax in Em.
  apply spec_host in Em as (H3 & H4 & H5); [| |done].
  2: { unfold view_ok. cbn. rewrite <-Hmax. done. }
  split_and!; try done. intros Ho. specialize (H2 Ho). subst c1.
  rewrite <-Hmax, <-Hv1 in H5. destruct (H5 Ho) as (H8 & H6 & H7). split_and!; try done.
  unfold sync_inv. cbn [fst snd]. split_and!; try done. congruence.
Qed.

(** The loop of the constructor *)
Lemma close_all l (c : sync) h : Forall (fun i => 0 <= i <= max_index) l -> host_ok h ->
  exists h', mfor l (fun idx => host (doClose idx)) (c, h) = (Ok tt, (c, h')) /\ host_ok h' /\
    reported h' = reported h /\ opened h' = opened h ∖ list_to_set l.
Proof.
  revert h. induction l as [|i l IH]; intros h Hl Hh.
  - exists h. split_and!; [done..|set_solver].
  - apply Forall_cons in Hl as [Hi Hl]. destruct (close_law i h Hi Hh) as (h1 & E1 & K1 & O1 & R1).
    destruct (IH h1 Hl K1) as (h2 & E2 & K2 & R2 & O2). exists h2. cbn [mfor].
    rewrite (M_bind_eq _ _ _ tt (c, h1)) by (unfold host, zoom; cbn; by rewrite E1).
    split_and!; [done|done|congruence|set_solver].
Qed.

Lemma bind_ASSERT {B} b (k : unit -> M (sync * H) B) s :
  b = true -> (lift (ASSERT b) ≫= k) s = k tt s.
Proof. by intros ->. Qed.

Lemma SyncMachine_inv maxRetry timeout (h : H) :
  0 <= max_index < int_max -> 0 <= maxRetry < int_max -> host_ok h -> reported h = false ->
  opened h ⊆ list_to_set (seqZ 0 (max_index + 1)) ->
  exists c h', SyncMachine max_index maxRetry timeout (new_sync max_index maxRetry timeout, h)
    = (Ok tt, (c, h')) /\ sync_inv (c, h') /\ indexMax_ c = max_index /\ retryMax_ c = maxRetry.
Proof.
  intros Hi Hr Hh Hrep Hop. unfold SyncMachine.
  rewrite !bind_ASSERT by (first [apply Z.leb_le|apply Z.ltb_lt]; lia).
  destruct (close_all (seqZ 0 (max_index + 1)) (new_sync max_index maxRetry timeout) h)
    as (h1 & E1 & K1 & R1 & O1); [|done|].
  { apply Forall_forall. intros i Hin. apply elem_of_seqZ in Hin. lia. }
  rewrite (M_bind_eq _ _ _ _ _ E1).
  destruct (calls_halt (-1) (new_sync max_index maxRetry timeout) h1 Hi (Ok tt) h1 eq_refl)
    as (c1 & E2 & Hc1). rewrite (Hc1 eq_refl) in E2.
  do 2 eexists. split; [exact E2|]. pose proof (succ_range max_index 1). cbn.
  unfold sync_inv, mach_ok. cbn -[Z.modulo]. split_and!; try done; try lia; [set_solver|congruence].
Qed.

Inductive reachable : sync * H -> Prop :=
  | reach_new maxRetry timeout h c h' :
    0 <= max_index < int_max -> 0 <= maxRetry < int_max -> host_ok h -> reported h = false ->
    opened h ⊆ list_to_set (seqZ 0 (max_index + 1)) ->
    SyncMachine max_index maxRetry timeout (new_sync max_index maxRetry timeout, h)
      = (Ok tt, (c, h')) -> reachable (c, h')
  | reach_event e s s' : reachable s -> handle e s = (Ok tt, s') -> reachable s'.

Lemma sync_reachable_inv s : reachable s -> sync_inv s.
Proof.
  induction 1 as [maxRetry timeout h c h' Hm Hr Hh Hrep Hop E|e [c h] [c' h'] _ IH E].
  - destruct (SyncMachine_inv maxRetry timeout h Hm Hr Hh Hrep Hop) as (? & ? & E' & Hi & _).
    rewrite E in E'. by injection E' as -> ->.
  - by eapply sync_handle_inv in E as (_ & _ & _ & []).
Qed.

Fixpoint run (es : list event) (s : sync * H) : outcome unit * (sync * H) :=
  match es with
  | [] => (Ok tt, s)
  | e :: es => match handle e s with (Ok _, s') => run es s' | r => r end
  end.

Lemma sync_reachable_run es s s' : reachable s -> run es s = (Ok tt, s') -> reachable s'.
Proof.
  revert s. induction es as [|e es IH]; intros s Hr; cbn [run]; [by intros [= <-]|].
  destruct (handle e s) as [[[]| | |] s1] eqn:E; try done. intros Hs.
  eapply IH; [|done]. by eapply reach_event.
Qed.

(** Timeouts without an answer: the number of retries grows, the index goes round. *)
Lemma run_timeouts n c h c' h' :
  sync_inv (c, h) -> state_ c = Download -> retryCurr_ c + Z.of_nat n <= retryMax_ c ->
  run (replicate n TimeoutFired) (c, h) = (Ok tt, (c', h')) ->
  sync_inv (c', h') /\ state_ c' = Download /\ retryCurr_ c' = retryCurr_ c + Z.of_nat n /\
  retryMax_ c' = retryMax_ c /\ indexMax_ c' = indexMax_ c /\
  seqNum_ c' = (seqNum_ c + Z.of_nat n) mod 256 /\
  indexNext_ c' = (indexNext_ c + Z.of_nat n) mod (indexMax_ c + 1).
Proof.
  revert c h. induction n as [|n IH]; intros c h Hi Hst Hr; cbn [replicate run].
  - pose proof Hi as ((Hmi & _ & _ & Hne & _ & Hse & _) & _). cbn [fst] in *.
    intros [= <- <-]. rewrite !Z.add_0_r, !Z.mod_small by lia. done.
  - destruct (handle TimeoutFired (c, h)) as [o [c1 h1]] eqn:E. pose proof E as E'.
    eapply sync_handle_inv in E as (_ & _ & _ & Hok); [|done].
    destruct o as [[]| | |]; try done. destruct (Hok eq_refl) as (Hi1 & Hv & Hm1 & Hr1).
    destruct c as [mi mr t st cu ne re se]. cbn -[Z.modulo] in Hst, Hv. subst st.
    cbn [retryMax_ retryCurr_ indexMax_ indexNext_ seqNum_] in *.
    rewrite (proj2 (Z.leb_gt mr re)) in Hv by lia. cbn [fst] in Hv. unfold view_of in Hv. injection Hv as Hs Hc Hn Hre Hsq.
    intros Hrun. pose proof Hi as ((Hmi & _) & _). cbn in Hmi.
    destruct (IH c1 h1 Hi1 Hs) as (K1 & K2 & K3 & K4 & K5 & K6 & K7); [lia|done|].
    split_and!; try done; [lia|congruence|congruence| |].
    + rewrite K6, Hsq. unfold next_seq. rewrite Z.add_mod_idemp_l by lia. f_equal. lia.
    + rewrite K7, Hn, Hm1. unfold succ. rewrite Z.add_mod_idemp_l by lia. f_equal. lia.
Qed.

(** With a host whose functions return, every event is handled. *)
Lemma handle_total e c h :
  (forall k h, exists h', run_hook k h = (Ok tt, h')) -> sync_inv (c, h) ->
  exists c' h', handle e (c, h) = (Ok tt, (c', h')).
Proof.
  intros Ht Hi. destruct (handle e (c, h)) as [o [c' h']] eqn:E. pose proof E as E'.
  eapply sync_handle_inv in E as (_ & _ & Hm & _); [|done].
  assert (forall ks h, exists h', mfor ks run_hook h = (Ok tt, h')) as Hks.
  { intros ks. induction ks as [|k ks IH]; intros h0; [by exists h0|]. cbn [mfor].
    destruct (Ht k h0) as (h1 & Hk). destruct (IH h1) as (h2 & Hr). exists h2.
    by rewrite (M_bind_eq _ _ _ _ _ Hk). }
  destruct (Hks (spec (indexMax_ c) (retryMax_ c) e (view_of c)).2 h) as (h1 & Hm1).
  rewrite Hm in Hm1. injection Hm1 as -> ->. eauto.
Qed.

Lemma run_total es c h :
  (forall k h, exists h', run_hook k h = (Ok tt, h')) -> sync_inv (c, h) ->
  exists c' h', run es (c, h) = (Ok tt, (c', h')).
Proof.
  intros Ht. revert c h. induction es as [|e es IH]; intros c h Hi; [by exists c, h|]. cbn [run].
  destruct (handle_total e c h Ht Hi) as (c1 & h1 & E). rewrite E.
  apply IH. by eapply sync_handle_inv in E as (_ & _ & _ & []).
Qed.

Lemma run_app es1 es2 (s : sync * H) :
  run (es1 ++ es2) s = match run es1 s with (Ok _, s') => run es2 s' | r => r end.
Proof.
  revert s. induction es1 as [|e es1 IH]; intros s; [done|]. cbn [app run].
  destruct (handle e s) as [[]]; done || apply IH.
Qed.

End Facts.

(** ** A host that records its calls *)

Module Trace.

Record trace := mkTrace { log : list hook; sockets : gset Z; last : bool }.

Definition put (k : hook) (f : gset Z -> gset Z) (l : bool -> bool) : M trace unit :=
  modify (fun t => mkTrace (log t ++ [k]) (f (sockets t)) (l (last t))).

#[export] Instance trace_hooks : SyncHooks trace := {|
  doClose i := put (HClose i) (fun x => x ∖ {[i]}) (fun l => l);
  doOpen i := put (HOpen i) (fun x => {[i]} ∪ x) (fun l => l);
  doSync i n := put (HSync i n) (fun x => x) (fun l => l);
  onChange st := put (HChange st) (fun x => x) (fun _ => is_download st);
|}.

(** Three sockets *)
#[export] Instance trace_laws : SyncHost trace.
Proof.
  refine {| max_index := 2; host_ok _ := True; opened := sockets; reported := last |}.
  - intros i h _ _. eexists. split; [reflexivity|done].
  - intros i h o h' _ _ Hh [= <- <-]. cbn. split_and!; try done. intros _. set_solver.
  - intros i n h o h' _ _ Hh [= <- <-]. cbn. split_and!; done.
  - intros st h o h' _ [= <- <-]. cbn. split_and!; done.
Defined.

Definition start : sync * trace :=
  (SyncMachine 2 1 3000 (new_sync 2 1 3000, mkTrace [] ∅ false)).2.

Lemma sync_reachable_start : reachable start.
Proof.
  apply (reach_new 1 3000 (mkTrace [] ∅ false)); try done; vm_compute; reflexivity.
Qed.

Lemma total k (h : trace) : exists h', run_hook k h = (Ok tt, h').
Proof. destruct k; by eexists. Qed.

End Trace.
Import Trace.

(** ** Theorems *)

(** C31: Every reachable state of the synchronization machine, with any number of sockets and
    retries: indices, retries and request numbers stay in their ranges (so no [int]
    operation overflows), the sockets of the current index, and no other, are open exactly
    while downloading or synced, the owner was told of a download exactly in Download, which
    always has its timeout running or waiting to be handled. *)
Theorem sync_invariant {H} `{SyncHost H} (s : sync * H) :
  reachable s ->
  0 <= indexCurr_ s.1 <= indexMax_ s.1 /\ 0 <= indexNext_ s.1 <= indexMax_ s.1 /\
  0 <= retryCurr_ s.1 <= retryMax_ s.1 /\ 0 <= seqNum_ s.1 < 256 /\
  opened s.2 = (match state_ s.1 with
                | Download | Synced => {[indexCurr_ s.1]} | Halted | Failed => ∅ end) /\
  reported s.2 = match state_ s.1 with Download => true | _ => false end /\
  (state_ s.1 = Download -> active (timerTmo_ s.1) = true \/ expired (timerTmo_ s.1) = true) /\
  (state_ s.1 <> Download -> active (timerTmo_ s.1) = false).
Proof.
  intros ((Hmi & Hmr & Hcu & Hne & Hre & Hse & Hsi & Hti) & Hmax & _ & Hop & Hr)%sync_reachable_inv.
  destruct s as [c h]. cbn in *. split_and!; try lia; try done.
  - intros Est. rewrite Est in Hti. by apply orb_true_iff in Hti.
  - intros Est. by destruct (state_ c).
Qed.

Lemma sync_invariant_witness :
  exists s, run [Sync; TimeoutExpires; TimeoutFired] Trace.start = (Ok tt, s) /\
    state_ s.1 = Download /\ opened s.2 = {[1]}.
Proof.
  destruct (run [Sync; TimeoutExpires; TimeoutFired] Trace.start) as [o s] eqn:E.
  assert (o = Ok tt) as -> by (vm_compute in E; injection E as <- _; reflexivity).
  assert (state_ s.1 = Download /\ indexCurr_ s.1 = 1) as [Est Ec]
    by (vm_compute in E; injection E as <-; split; reflexivity).
  exists s. split; [reflexivity|]. split; [exact Est|].
  destruct (sync_invariant s) as (_ & _ & _ & _ & Ho & _).
  - exact (sync_reachable_run _ _ _ Trace.sync_reachable_start E).
  - rewrite Ho, Est, Ec. reflexivity.
Defined.

(** C7: Refinement of the table [spec] by the code of the synchronization machine, with any number
    of sockets and retries and any host that keeps the contract [SyncHost]: each call on a machine
    reached from its construction runs the functions of the host exactly as the table lists them,
    stopping at the first one that throws, never aborts, and when all return the state, the
    current and next index, the retries and the request number are those of the table.  The table
    is the one of the code; where the comments differ (the index used by onSync, the state
    after the last retry) it follows the code. *)
Theorem sync_refines_spec {H} `{SyncHost H} (e : event) (c : sync) (h : H) :
  reachable (c, h) ->
  exists o c' h', handle e (c, h) = (o, (c', h')) /\ o <> Abort /\ o <> Undef /\
    mfor (spec (indexMax_ c) (retryMax_ c) e (view_of c)).2 run_hook h = (o, h') /\
    (o = Ok tt -> view_of c' = (spec (indexMax_ c) (retryMax_ c) e (view_of c)).1).
Proof.
  intros Hi%sync_reachable_inv. destruct (handle e (c, h)) as [o [c' h']] eqn:E. exists o, c', h'.
  destruct (sync_handle_inv e c h o c' h' Hi E) as (H1 & H2 & H3 & H4).
  split_and!; try done. intros Ho. by destruct (H4 Ho) as (_ & ? & _).
Qed.

Lemma sync_refines_spec_witness :
  exists c h o c' h', run [Sync] Trace.start = (Ok tt, (c, h)) /\
    handle TimeoutFired (c, h) = (o, (c', h')) /\
    mfor [HClose 0; HOpen 1; HSync 1 2] run_hook h = (o, h').
Proof.
  destruct (run [Sync] Trace.start) as [o [c h]] eqn:E.
  assert (o = Ok tt) as -> by (vm_compute in E; injection E as <- _; reflexivity).
  destruct (sync_refines_spec TimeoutFired c h) as (o & c' & h' & H1 & _ & _ & H2 & _).
  - exact (sync_reachable_run _ _ _ Trace.sync_reachable_start E).
  - exists c, h, o, c', h'. split; [reflexivity|]. split; [exact H1|].
    vm_compute in E. injection E as <- <-. exact H2.
Defined.

(** The index chosen with [setNextIndex] is not used by the next synchronization, unlike what
    syncmachine.h says of [onSync]: in Halted and in Synced the request goes through the current
    index, whatever the next one is set to, and the current index stays. *)
Theorem sync_ignores_next {H} `{SyncHost H} (c : sync) (h : H) (i : Z) :
  reachable (c, h) -> state_ c = Halted \/ state_ c = Synced ->
  exists c1, handle (SetNext i) (c, h) = (Ok tt, (c1, h)) /\ indexNext_ c1 = Z.max 0 i mod (indexMax_ c + 1) /\
    exists o c2 h2, handle Sync (c1, h) = (o, (c2, h2)) /\
      mfor ([HChange Download] ++ (if decide (state_ c = Halted) then [HOpen (indexCurr_ c)] else []) ++
            [HSync (indexCurr_ c) (next_seq (seqNum_ c))]) run_hook h = (o, h2) /\
      (o = Ok tt -> indexCurr_ c2 = indexCurr_ c /\ indexNext_ c2 = indexNext_ c1).
Proof.
  intros Hi%sync_reachable_inv Hst. pose proof Hi as ((Hm & _) & _). cbn [fst] in Hm.
  eexists. split; [by apply setNextIndex_eq|]. split; [done|].
  destruct (handle Sync (set_next (Z.max 0 i mod (indexMax_ c + 1)) c, h)) as [o [c2 h2]] eqn:E.
  exists o, c2, h2. split; [done|].
  apply sync_handle_inv in E as (_ & _ & H3 & H4).
  2: { assert (handle (SetNext i) (c, h) = (Ok tt, (set_next (Z.max 0 i mod (indexMax_ c + 1)) c, h))) as E1
         by (by apply setNextIndex_eq).
       by apply sync_handle_inv in E1 as (_ & _ & _ & E1); [destruct (E1 eq_refl)|]. }
  destruct c as [mi mr ti st cu ne re se]. cbn in *.
  destruct Hst as [-> | ->]; cbn in *; (split; [done|]); intros Ho; by destruct (H4 Ho) as (_ & [= _ -> -> _ _] & _).
Qed.

(** C32: A download that gets no answer terminates: after exactly [maxRetry - retryCount + 1]
    timeouts the machine is in Failed with every socket closed, having stayed in Download and
    used a new request number and the next index in circle at each retry before. *)
Theorem sync_gives_up {H} `{SyncHost H} (c : sync) (h : H) (n : nat) :
  (forall k (h : H), exists h', run_hook k h = (Ok tt, h')) ->
  reachable (c, h) -> state_ c = Download -> retryCurr_ c + Z.of_nat n = retryMax_ c ->
  (exists c' h', run (replicate (S n) TimeoutFired) (c, h) = (Ok tt, (c', h')) /\
     state_ c' = Failed /\ opened h' = ∅ /\ active (timerTmo_ c') = false) /\
  (forall m, (m <= n)%nat -> exists c' h',
     run (replicate m TimeoutFired) (c, h) = (Ok tt, (c', h')) /\ state_ c' = Download /\
     seqNum_ c' = (seqNum_ c + Z.of_nat m) mod 256 /\
     indexNext_ c' = (indexNext_ c + Z.of_nat m) mod (indexMax_ c + 1)).
Proof.
  intros Ht Hi%sync_reachable_inv Hst Hn. split.
  - rewrite replicate_S_end, run_app.
    destruct (run_total (replicate n TimeoutFired) c h Ht Hi) as (c1 & h1 & E1). rewrite E1.
    apply run_timeouts in E1 as (Hi1 & Hst1 & Hre1 & Hr1 & _); [|done|done|lia].
    destruct (handle_total TimeoutFired c1 h1 Ht Hi1) as (c2 & h2 & E2). cbn [run]. rewrite E2.
    exists c2, h2. eapply sync_handle_inv in E2 as (_ & _ & _ & E2); [|done].
    destruct (E2 eq_refl) as (Hi2 & Hv & _). cbn in Hv. rewrite Hst1 in Hv.
    rewrite (proj2 (Z.leb_le _ _)) in Hv by lia. injection Hv as Hs2 _.
    destruct Hi2 as (Hok & _ & _ & Ho & _). cbn in Ho, Hok.
    destruct Hok as (_ & _ & _ & _ & _ & _ & _ & Hti). rewrite Hs2 in *. done.
  - intros m Hm. destruct (run_total (replicate m TimeoutFired) c h Ht Hi) as (c1 & h1 & E1).
    exists c1, h1. split; [done|].
    apply run_timeouts in E1 as (_ & H1 & _ & _ & _ & H2 & H3); [|done|done|lia]. done.
Qed.

Lemma sync_gives_up_witness :
  exists c h c' h', run [Sync] Trace.start = (Ok tt, (c, h)) /\
    run [TimeoutFired; TimeoutFired] (c, h) = (Ok tt, (c', h')) /\ state_ c' = Failed.
Proof.
  destruct (run [Sync] Trace.start) as [o [c h]] eqn:E.
  assert (o = Ok tt) as -> by (vm_compute in E; injection E as <- _; reflexivity).
  destruct (sync_gives_up c h 1) as ((c' & h' & H1 & H2 & _) & _).
  - exact Trace.total.
  - exact (sync_reachable_run _ _ _ Trace.sync_reachable_start E).
  - vm_compute in E. injection E as <- <-. reflexivity.
  - vm_compute in E. injection E as <- <-. reflexivity.
  - exists c, h, c', h'. split; [reflexivity|]. split; [exact H1|exact H2].
Defined.

(** Late answers are never taken for current ones: a reply is accepted only while
    downloading, from the current socket and with the number of the current request; in
    particular one that answers any of the 255 requests before the current one changes
    neither the machine nor its host. *)
Theorem stale_reply_ignored {H} `{SyncHost H} (c : sync) (h : H) (i n k : Z) (r : ReplyType) :
  reachable (c, h) ->
  (forall s', onReply i n r (c, h) = (Ok Accepted, s') ->
     state_ c = Download /\ i = indexCurr_ c /\ n = seqNum_ c) /\
  (0 < k < 256 -> n = (seqNum_ c - k) mod 256 ->
     onReply i n r (c, h) =
       (Ok (if decide (state_ c = Download) then Discarded else Unexpected), (c, h))).
Proof.
  intros ((_ & _ & _ & _ & _ & Hse & _) & _)%sync_reachable_inv. cbn [fst] in Hse.
  unfold onReply, mbind, M_bind, get, mret, M_ret. cbn [fst].
  destruct (decide (state_ c = Download)) as [E|E].
  - rewrite decide_False by tauto. split.
    + intros s'. destruct (Z.eqb_spec i (indexCurr_ c)), (Z.eqb_spec n (seqNum_ c)); cbn [negb orb]; done.
    + intros Hk Hn. destruct (Z.eqb_spec n (seqNum_ c)) as [En|]; [|by rewrite orb_true_r].
      exfalso. pose proof (Z.div_mod (seqNum_ c - k) 256). lia.
  - rewrite decide_True by done. done.
Qed.

Lemma stale_reply_ignored_witness :
  exists c h, run [Sync; TimeoutFired] Trace.start = (Ok tt, (c, h)) /\
    onReply 1 1 Complete (c, h) = (Ok Discarded, (c, h)).
Proof.
  destruct (run [Sync; TimeoutFired] Trace.start) as [o [c h]] eqn:E.
  assert (o = Ok tt) as -> by (vm_compute in E; injection E as <- _; reflexivity).
  assert (state_ c = Download /\ seqNum_ c = 2) as [Est Esq]
    by (vm_compute in E; injection E as <- _; split; reflexivity).
  exists c, h. split; [reflexivity|].
  destruct (stale_reply_ignored c h 1 1 1 Complete) as [_ H].
  - exact (sync_reachable_run _ _ _ Trace.sync_reachable_start E).
  - rewrite H, Est; [reflexivity|lia|rewrite Esq; reflexivity].
Defined.

End SyncMachine.
