(* ===== verification/WorkerSession.v ===== *)
(** * WorkerSession (src/sessionworker.cpp, include/fuurin/sessionworker.h)

    The asynchronous task of a worker: it drives the connection and the synchronization
    machines, dispatches topics with the worker's sequence number, and turns what it
    receives from brokers into events.  Its state is the two machines and [whost], the
    rest of the session, which implements the functions the machines call. *)

From S2P Require Import Prelude Part PartMulti Codec LruCache Uuid Topic Event Config.
From S2P Require Import Socket Session Timer ConnMachine SyncMachine.

Local Open Scope Z_scope.

Module WorkerSession.
Import Part PartMulti Codec LruCache Uuid Topic Config Socket SessionEnv Session.

Abbreviation get := Prelude.get.
Abbreviation conn := ConnMachine.conn.
Abbreviation sync := SyncMachine.sync.

Record whost := mkHost {
  token_ : Z;
  zevs_ : sock;
  zsnapshot_ : sock;
  zdelivery_ : sock;
  zdispatch_ : sock;
  zseqs_ : sock;
  isOnline_ : bool;
  isSnapshot_ : bool;
  brokerUuid_ : uuid;
  conf_ : WorkerConfig;
  seqNum_ : Z;
  subscrTopic_ : lru name bool;
  workerSeqNum_ : lru uuid Z;
}.

Record wsession := mkSession { conn_ : conn; sync_ : sync; host_ : whost }.

Definition set_zevs (v : sock) (h : whost) : whost :=
  mkHost (token_ h) v (zsnapshot_ h) (zdelivery_ h) (zdispatch_ h) (zseqs_ h) (isOnline_ h)
    (isSnapshot_ h) (brokerUuid_ h) (conf_ h) (seqNum_ h) (subscrTopic_ h) (workerSeqNum_ h).
Definition set_zsnapshot (v : sock) (h : whost) : whost :=
  mkHost (token_ h) (zevs_ h) v (zdelivery_ h) (zdispatch_ h) (zseqs_ h) (isOnline_ h)
    (isSnapshot_ h) (brokerUuid_ h) (conf_ h) (seqNum_ h) (subscrTopic_ h) (workerSeqNum_ h).
Definition set_zdelivery (v : sock) (h : whost) : whost :=
  mkHost (token_ h) (zevs_ h) (zsnapshot_ h) v (zdispatch_ h) (zseqs_ h) (isOnline_ h)
    (isSnapshot_ h) (brokerUuid_ h) (conf_ h) (seqNum_ h) (subscrTopic_ h) (workerSeqNum_ h).
Definition set_zdispatch (v : sock) (h : whost) : whost :=
  mkHost (token_ h) (zevs_ h) (zsnapshot_ h) (zdelivery_ h) v (zseqs_ h) (isOnline_ h)
    (isSnapshot_ h) (brokerUuid_ h) (conf_ h) (seqNum_ h) (subscrTopic_ h) (workerSeqNum_ h).
Definition set_zseqs (v : sock) (h : whost) : whost :=
  mkHost (token_ h) (zevs_ h) (zsnapshot_ h) (zdelivery_ h) (zdispatch_ h) v (isOnline_ h)
    (isSnapshot_ h) (brokerUuid_ h) (conf_ h) (seqNum_ h) (subscrTopic_ h) (workerSeqNum_ h).
Definition set_isOnline (v : bool) (h : whost) : whost :=
  mkHost (token_ h) (zevs_ h) (zsnapshot_ h) (zdelivery_ h) (zdispatch_ h) (zseqs_ h) v
    (isSnapshot_ h) (brokerUuid_ h) (conf_ h) (seqNum_ h) (subscrTopic_ h) (workerSeqNum_ h).
Definition set_isSnapshot (v : bool) (h : whost) : whost :=
  mkHost (token_ h) (zevs_ h) (zsnapshot_ h) (zdelivery_ h) (zdispatch_ h) (zseqs_ h) (isOnline_ h)
    v (brokerUuid_ h) (conf_ h) (seqNum_ h) (subscrTopic_ h) (workerSeqNum_ h).
Definition set_brokerUuid (v : uuid) (h : whost) : whost :=
  mkHost (token_ h) (zevs_ h) (zsnapshot_ h) (zdelivery_ h) (zdispatch_ h) (zseqs_ h) (isOnline_ h)
    (isSnapshot_ h) v (conf_ h) (seqNum_ h) (subscrTopic_ h) (workerSeqNum_ h).
Definition set_conf (v : WorkerConfig) (h : whost) : whost :=
  mkHost (token_ h) (zevs_ h) (zsnapshot_ h) (zdelivery_ h) (zdispatch_ h) (zseqs_ h) (isOnline_ h)
    (isSnapshot_ h) (brokerUuid_ h) v (seqNum_ h) (subscrTopic_ h) (workerSeqNum_ h).
Definition set_seqNum (v : Z) (h : whost) : whost :=
  mkHost (token_ h) (zevs_ h) (zsnapshot_ h) (zdelivery_ h) (zdispatch_ h) (zseqs_ h) (isOnline_ h)
    (isSnapshot_ h) (brokerUuid_ h) (conf_ h) v (subscrTopic_ h) (workerSeqNum_ h).
Definition set_subscrTopic (v : lru name bool) (h : whost) : whost :=
  mkHost (token_ h) (zevs_ h) (zsnapshot_ h) (zdelivery_ h) (zdispatch_ h) (zseqs_ h) (isOnline_ h)
    (isSnapshot_ h) (brokerUuid_ h) (conf_ h) (seqNum_ h) v (workerSeqNum_ h).
Definition set_workerSeqNum (v : lru uuid Z) (h : whost) : whost :=
  mkHost (token_ h) (zevs_ h) (zsnapshot_ h) (zdelivery_ h) (zdispatch_ h) (zseqs_ h) (isOnline_ h)
    (isSnapshot_ h) (brokerUuid_ h) (conf_ h) (seqNum_ h) (subscrTopic_ h) v.

Definition on_zevs {A} (m : M sock A) : M whost A := zoom zevs_ set_zevs m.
Definition on_zsnapshot {A} (m : M sock A) : M whost A := zoom zsnapshot_ set_zsnapshot m.
Definition on_zdelivery {A} (m : M sock A) : M whost A := zoom zdelivery_ set_zdelivery m.
Definition on_zdispatch {A} (m : M sock A) : M whost A := zoom zdispatch_ set_zdispatch m.
Definition on_zseqs {A} (m : M sock A) : M whost A := zoom zseqs_ set_zseqs m.

(** Lexicographic order and insertion of [std::set<std::string>] *)
Fixpoint bytes_ltb (a b : bytes) : bool :=
  match a, b with
  | _, [] => false
  | [], _ :: _ => true
  | x :: a, y :: b =>
    if byte_Z x <? byte_Z y then true else if byte_Z y <? byte_Z x then false else bytes_ltb a b
  end.
Fixpoint set_insert (x : bytes) (l : list bytes) : list bytes :=
  match l with
  | [] => [x]
  | y :: l => if bytes_ltb x y then x :: y :: l else if bytes_ltb y x then y :: set_insert x l else y :: l
  end.

Section WithEnv.
Context {P : Platform} {Z_ : Zmq}.

(** [Session::sendEvent] of this session *)
Definition w_sendEvent (ev : Event.type) (pay : part) : M whost unit :=
  h ← get; on_zevs (sendEvent (token_ h) ev pay).

(** [WorkerSession::notifySequenceNumber]: any failure is fatal. *)
Definition notifySequenceNumber : M whost unit := fun h =>
  match on_zseqs (trySend [Part_uint64 (seqNum_ h)]) h with
  | (Ok n, h') => if n =? -1 then (Abort, h') else (Ok tt, h')
  | (Throw _, h') => (Abort, h')
  | (Abort, h') => (Abort, h')
  | (Undef, h') => (Undef, h')
  end.

(** [WorkerSession::connClose], [WorkerSession::snapClose] *)
Definition connClose : M whost unit := on_zdelivery close;; on_zdispatch close.
Definition snapClose : M whost unit := on_zsnapshot close.

(** The loop over the names of [WorkerSession::connOpen] *)
Fixpoint insert_groups (names : list name) (groups : list bytes) : outcome (list bytes) :=
  match names with
  | [] => Ok groups
  | n :: names =>
    if decide (name_str n = BrokerUpdt) then Throw (mkError Error 0)
    else insert_groups names (set_insert (name_str n) groups)
  end.

(** [WorkerSession::connOpen] *)
Definition connOpen : M whost unit :=
  h ← get;
  on_zdelivery (modify (setEndpoints (endpDelivery (conf_ h))));;
  on_zdispatch (modify (setEndpoints (endpDispatch (conf_ h))));;
  groups ← lift (if topicsAll (conf_ h)
                 then Ok (set_insert BrokerUpdt [BrokerHugz])
                 else insert_groups (topicsNames (conf_ h)) [BrokerHugz]);
  on_zdelivery (modify (setGroups groups));;
  on_zdelivery connect;;
  on_zdispatch connect.

(** [WorkerSession::snapOpen] *)
Definition snapOpen : M whost unit :=
  h ← get;
  on_zsnapshot (modify (setEndpoints (endpSnapshot (conf_ h))));;
  on_zsnapshot connect.

(** [WorkerSession::sendAnnounce] *)
Definition sendAnnounce : M whost unit :=
  p ← lift (withGroup (Some WorkerHugz) Part_empty);
  on_zdispatch (send [p]);; mret tt.

(** [WorkerSession::sendSync]: a request that would block is dropped. *)
Definition sendSync (syncseq : Z) : M whost unit :=
  h ← get;
  let conf := conf_ h in
  let conf := mkWorkerConfig (uuid_ conf) (seqNum_ h) (topicsAll conf) (topicsNames conf)
                (endpDelivery conf) (endpDispatch conf) (endpSnapshot conf) in
  params ← lift (WorkerConfig_toPart conf);
  copy ← lift (Part_copy params);
  m ← lift (pack [FStr BrokerSyncReqst; FInt 1 syncseq; FStr (p_data copy)]);
  on_zsnapshot (trySend [m]);;
  w_sendEvent Event.SyncRequest params.

(** [WorkerSession::notifyConnectionUpdate], [WorkerSession::notifySnapshotDownload] *)
Definition notifyConnectionUpdate (isUp : bool) : M whost unit :=
  h ← get;
  if Bool.eqb isUp (isOnline_ h) then mret tt else
  modify (set_isOnline isUp);;
  w_sendEvent (if isUp then Event.Online else Event.Offline) Part_empty.
Definition notifySnapshotDownload (isSync : bool) : M whost unit :=
  h ← get;
  if Bool.eqb isSync (isSnapshot_ h) then mret tt else
  modify (set_isSnapshot isSync);;
  w_sendEvent (if isSync then Event.SyncDownloadOn else Event.SyncDownloadOff) Part_empty.

(** [WorkerSession::onConnChanged] *)
Definition onConnChanged (st : ConnMachine.state) : M whost unit :=
  match st with
  | ConnMachine.Halted | ConnMachine.Trying => notifyConnectionUpdate false
  | ConnMachine.Stable => notifyConnectionUpdate true
  end.

(** Sends an event with the uuid of the broker *)
Definition sendBrokerEvent (ev : Event.type) : M whost unit :=
  h ← get; p ← lift (uuid_toPart (brokerUuid_ h)); w_sendEvent ev p.

(** [WorkerSession::onSyncChanged] *)
Definition onSyncChanged (st : SyncMachine.state) : M whost unit :=
  match st with
  | SyncMachine.Halted =>
    h ← get;
    (if isSnapshot_ h then sendBrokerEvent Event.SyncError else mret tt);;
    modify (set_brokerUuid nil_uuid);;
    notifySnapshotDownload false
  | SyncMachine.Synced => sendBrokerEvent Event.SyncSuccess;; notifySnapshotDownload false
  | SyncMachine.Failed => sendBrokerEvent Event.SyncError;; notifySnapshotDownload false
  | SyncMachine.Download => notifySnapshotDownload true
  end.

#[export] Instance worker_conn_hooks : ConnMachine.ConnHooks whost := {|
  ConnMachine.doClose := connClose;
  ConnMachine.doOpen := connOpen;
  ConnMachine.doPong := sendAnnounce;
  ConnMachine.onChange := onConnChanged;
|}.

#[export] Instance worker_sync_hooks : SyncMachine.SyncHooks whost := {|
  SyncMachine.doClose _ := snapClose;
  SyncMachine.doOpen _ := snapOpen;
  SyncMachine.doSync _ n := sendSync n;
  SyncMachine.onChange := onSyncChanged;
|}.

(** Actions of the machines and of the host *)
Definition on_conn {A} (m : M (conn * whost) A) : M wsession A :=
  zoom (fun s => (conn_ s, host_ s)) (fun p s => mkSession p.1 (sync_ s) p.2) m.
Definition on_sync {A} (m : M (sync * whost) A) : M wsession A :=
  zoom (fun s => (sync_ s, host_ s)) (fun p s => mkSession (conn_ s) p.1 p.2) m.
Definition on_host {A} (m : M whost A) : M wsession A :=
  zoom host_ (fun h s => mkSession (conn_ s) (sync_ s) h) m.

(** [WorkerSession::saveConfiguration]; a put gives an iterator to the new item, never the end. *)
Definition saveConfiguration (p : part) : M whost unit :=
  conf ← lift (WorkerConfig_fromPart p);
  modify (set_conf conf);;
  modify (fun h => set_subscrTopic (clear (subscrTopic_ h)) h);;
  mfor (topicsNames conf) (fun n =>
    h ← get;
    '(_, c) ← lift (put n false (subscrTopic_ h));
    modify (set_subscrTopic c));;
  modify (set_seqNum (seqNum conf)).

(** [WorkerSession::acceptTopic(const Uuid&, Topic::SeqN)] *)
Definition acceptSeq (worker : uuid) (value : Z) : M whost bool :=
  h ← get;
  last ← (match find worker (workerSeqNum_ h) with
          | None => mret 0
          | Some it => match deref (workerSeqNum_ h) it with
                       | Some kv => mret kv.2
                       | None => lift Undef
                       end
          end : M whost Z);
  if value <=? last then mret false else
  '(_, c) ← lift (put worker value (workerSeqNum_ h));
  modify (set_workerSeqNum c);;
  mret true.

(** [WorkerSession::acceptTopic(const zmq::Part&)] *)
Definition acceptTopic (p : part) : M whost bool :=
  t ← lift (topic_fromPart p);
  ok ← acceptSeq (worker_ t) (seqn_ t);
  if negb ok then mret false else
  h ← get;
  if (negb (uuid_eqb (worker_ t) (uuid_ (conf_ h))) || (seqn_ t <=? seqNum_ h))%bool
  then mret true
  else modify (set_seqNum (seqn_ t));; notifySequenceNumber;; mret true.

(** [WorkerSession::collectBrokerMessage]; other groups are logged. *)
Definition collectBrokerMessage (payload : part) : M wsession unit :=
  s ← get;
  if decide (group payload = BrokerHugz) then on_conn ConnMachine.onPing
  else if (bool_decide (group payload = BrokerUpdt) ||
           match find (Name (group payload)) (subscrTopic_ (host_ s)) with Some _ => true | None => false end)%bool
  then
    ok ← on_host (acceptTopic payload);
    if (ok : bool) then on_host (w_sendEvent Event.Delivery payload) else mret tt
  else mret tt.

(** [WorkerSession::recvBrokerSnapshot]; other replies are logged. *)
Definition recvBrokerSnapshot (payload : part) : M wsession unit :=
  fs ← lift (unpack [TStr; TInt 1; TStr] (p_data payload));
  match fs with
  | [FStr reply; FInt _ syncseq; FStr params] =>
    let params := Part_bytes params in
    if decide (reply = BrokerSyncBegin) then
      u ← lift (uuid_fromPart params);
      on_host (modify (set_brokerUuid u));;
      on_host (sendBrokerEvent Event.SyncBegin)
    else if decide (reply = BrokerSyncElemn) then
      on_host (acceptTopic params);;
      on_host (w_sendEvent Event.SyncElement params);;
      on_sync (SyncMachine.onReply 0 syncseq SyncMachine.Snapshot);;
      mret tt
    else if decide (reply = BrokerSyncCompl) then
      u ← lift (uuid_fromPart params);
      on_host (modify (fun h => if uuid_eqb u (brokerUuid_ h) then h else set_brokerUuid u h));;
      on_sync (SyncMachine.onReply 0 syncseq SyncMachine.Complete);;
      mret tt
    else mret tt
  | _ => lift Undef
  end.

(** [WorkerSession::operationReady]; unknown operations are logged. *)
Definition operationReady (oper : Operation.operation) : M wsession unit :=
  let payload := Operation.payld_ oper in
  match Operation.type_ oper with
  | Operation.Start =>
    on_host (saveConfiguration payload);;
    on_host (w_sendEvent Event.Started payload);;
    on_conn ConnMachine.onStart
  | Operation.Stop =>
    on_conn ConnMachine.onStop;;
    on_sync SyncMachine.onHalt;;
    on_host (w_sendEvent Event.Stopped payload)
  | Operation.Dispatch =>
    on_host (modify (fun h => set_seqNum (wrap64 (seqNum_ h + 1)) h));;
    on_host notifySequenceNumber;;
    s ← get;
    m ← lift (p ← part_withSeqNum payload (seqNum_ (host_ s)); withGroup (Some WorkerUpdt) p);
    on_host (on_zdispatch (send [m]));;
    mret tt
  | Operation.Sync =>
    on_host (modify (set_brokerUuid nil_uuid));;
    on_sync SyncMachine.onSync
  | _ => mret tt
  end.

(** What the poller reports, with the message [recv] takes *)
Inductive wready :=
  | WSnapshot (payload : part) | WDelivery (payload : part)
  | WRetry | WTimeout | WSyncTimeout | WUnknown.

(** [WorkerSession::socketReady] *)
Definition socketReady (r : wready) : M wsession unit :=
  match r with
  | WSnapshot payload => recvBrokerSnapshot payload
  | WDelivery payload => collectBrokerMessage payload
  | WRetry => on_conn ConnMachine.onTimerRetryFired
  | WTimeout => on_conn ConnMachine.onTimerTimeoutFired
  | WSyncTimeout => on_sync SyncMachine.onTimerTimeoutFired
  | WUnknown => lift Abort
  end.

#[export] Instance worker_ops : SessionOps wsession wready :=
  {| token_of s := token_ (host_ s); Session.operationReady := operationReady;
     Session.socketReady := socketReady |}.

(** [WorkerSession::WorkerSession]: the host is built first, then the two machines.  The
    configuration and the sequence number have no value until the start operation. *)
Definition new_host (token : Z) (conf0 : WorkerConfig) (seq0 : Z) (zevs zseqs : sock) : whost :=
  mkHost token zevs (Socket 1 CLIENT) (Socket 2 DISH) (Socket 3 RADIO) zseqs false false nil_uuid
    conf0 seq0 (LRUCache 0) (LRUCache 0).
Definition WorkerSession (h : whost) : outcome unit * wsession :=
  let '(o1, (c, h)) := ConnMachine.ConnMachine 500 3000 h in
  let '(o2, (y, h)) := SyncMachine.SyncMachine 0 1 3000 (SyncMachine.new_sync 0 1 3000, h) in
  (o1;; o2, mkSession c y h).

(** ** The host keeps the contracts of the machines *)

(** What the functions given to a machine leave alone. *)
Definition rest (h : whost) :=
  (token_ h, zseqs_ h, conf_ h, seqNum_ h, subscrTopic_ h, workerSeqNum_ h).
Definition sync_part (h : whost) := (zsnapshot_ h, isSnapshot_ h, brokerUuid_ h).
Definition conn_part (h : whost) := (zdelivery_ h, zdispatch_ h, isOnline_ h).

Lemma w_sendEvent_result ev pay h o h' :
  ev <> Event.COUNT -> (length (p_group pay) <= ZMQ_GROUP_MAX_LENGTH)%nat ->
  w_sendEvent ev pay h = (o, h') ->
  o <> Abort /\ o <> Undef /\ rest h' = rest h /\ sync_part h' = sync_part h /\ conn_part h' = conn_part h.
Proof.
  intros Hev Hg. unfold w_sendEvent, on_zevs, zoom, sendEvent, mbind, M_bind, Prelude.get, lift, mret, M_ret.
  destruct (event_message_safe (token_ h) ev pay Hev Hg) as [(e & ->)|(m & ->)].
  - intros [= <- <-]. done.
  - destruct (send [m] (zevs_ h)) as [o1 s1] eqn:E.
    destruct (send_one_result m (zevs_ h) o1 s1) as (H1 & H2 & _); [by left|].
    destruct o1; intros [= <- <-]; done.
Qed.

Lemma close_closed s : exists s', close s = (Ok tt, s') /\ isOpen s' = false.
Proof.
  destruct (close_spec s) as (s' & E & Hp & _). exists s'. split; [done|]. unfold isOpen. by rewrite Hp.
Qed.

(** All open, all closed, or neither *)
Definition conn_open (h : whost) : option bool :=
  if Bool.eqb (isOpen (zdelivery_ h)) (isOpen (zdispatch_ h)) then Some (isOpen (zdelivery_ h)) else None.

Lemma connClose_result h : exists h', connClose h = (Ok tt, h') /\ conn_open h' = Some false /\
  isOnline_ h' = isOnline_ h /\ rest h' = rest h /\ sync_part h' = sync_part h.
Proof.
  unfold connClose, on_zdelivery, on_zdispatch, zoom, mbind, M_bind.
  destruct (close_closed (zdelivery_ h)) as (s1 & -> & Hs1).
  destruct (close_closed (zdispatch_ (set_zdelivery s1 h))) as (s2 & -> & Hs2).
  eexists. split; [done|]. unfold conn_open. cbn. by rewrite Hs1, Hs2.
Qed.

Lemma insert_groups_safe names : forall groups,
  insert_groups names groups <> Abort /\ insert_groups names groups <> Undef.
Proof. induction names as [|n names IH]; intros groups; cbn [insert_groups]; [done|]. by case_decide. Qed.

Lemma connOpen_result h o h' : connOpen h = (o, h') ->
  o <> Abort /\ o <> Undef /\ isOnline_ h' = isOnline_ h /\ rest h' = rest h /\
  sync_part h' = sync_part h /\ (o = Ok tt -> conn_open h' = Some true).
Proof.
  unfold connOpen, on_zdelivery, on_zdispatch, zoom, mbind, M_bind, Prelude.get, lift, modify.
  destruct (if topicsAll (conf_ h) then _ else _) as [groups|e| |] eqn:Eg.
  - match goal with |- context [connect ?s] => destruct (connect s) as [o1 s1] eqn:E1 end.
    apply open_result in E1 as (H1 & H2 & _ & H3); [|apply keeps_connect1].
    destruct o1 as [[]| | |]; try done; [|by intros [= <- <-]].
    match goal with |- context [connect ?s] => destruct (connect s) as [o2 s2] eqn:E2 end.
    apply open_result in E2 as (K1 & K2 & _ & K3); [|apply keeps_connect1].
    intros [= <- <-]. split_and!; try done. intros ->. unfold conn_open. cbn.
    by rewrite H3, K3.
  - intros [= <- <-]. done.
  - by destruct (topicsAll (conf_ h)), (insert_groups_safe (topicsNames (conf_ h)) [BrokerHugz]).
  - by destruct (topicsAll (conf_ h)), (insert_groups_safe (topicsNames (conf_ h)) [BrokerHugz]).
Qed.

Lemma sendAnnounce_result h o h' : sendAnnounce h = (o, h') ->
  o <> Abort /\ o <> Undef /\ isOnline_ h' = isOnline_ h /\ rest h' = rest h /\
  sync_part h' = sync_part h /\ conn_open h' = conn_open h.
Proof.
  unfold sendAnnounce, on_zdispatch, zoom, mbind, M_bind, lift, mret, M_ret.
  change (withGroup (Some WorkerHugz) Part_empty) with (Ok (mkPart [] 0 WorkerHugz false) : outcome part).
  cbv beta iota. destruct (send _ (zdispatch_ h)) as [o1 s1] eqn:E.
  destruct (send_one_result _ _ _ _ (or_introl E)) as (H1 & H2 & H3 & _).
  assert (conn_open (set_zdispatch s1 h) = conn_open h) as Hc.
  { unfold conn_open, isOpen. cbn. by rewrite H3. }
  destruct o1; try done; intros [= <- <-]; split_and!; done.
Qed.

Lemma onConnChanged_result st h o h' : onConnChanged st h = (o, h') ->
  o <> Abort /\ o <> Undef /\ isOnline_ h' = ConnMachine.is_up st /\ rest h' = rest h /\
  sync_part h' = sync_part h /\ conn_open h' = conn_open h.
Proof.
  assert (forall b, notifyConnectionUpdate b h = (o, h') ->
    o <> Abort /\ o <> Undef /\ isOnline_ h' = b /\ rest h' = rest h /\
    sync_part h' = sync_part h /\ conn_open h' = conn_open h) as Hn.
  { intros b. unfold notifyConnectionUpdate, mbind, M_bind, Prelude.get, modify, mret, M_ret.
    destruct (Bool.eqb b (isOnline_ h)) eqn:Eb.
    - apply eqb_prop in Eb. intros [= <- <-]. done.
    - intros E. apply w_sendEvent_result in E as (H1 & H2 & H3 & H4 & H5); [|by destruct b|cbn; lia].
      unfold conn_part, conn_open in *. cbn in H5. injection H5 as K1 K2 K3. rewrite K1, K2. done. }
  destruct st; cbn; apply Hn.
Qed.

#[export] Instance worker_conn_host : ConnMachine.ConnHost whost.
Proof.
  refine {| ConnMachine.sockets_open := conn_open; ConnMachine.reported := isOnline_ |}; cbn.
  - intros h. destruct (connClose_result h) as (h' & E & H1 & H2 & _). by exists h'.
  - intros h o h' _ E. apply connOpen_result in E as (H1 & H2 & H3 & _ & _ & H4). done.
  - intros h o h' Hh E. apply sendAnnounce_result in E as (H1 & H2 & H3 & _ & _ & H4).
    split_and!; congruence.
  - intros st h o h' E. apply onConnChanged_result in E as (H1 & H2 & H3 & _ & _ & H4). done.
Defined.

Definition snap_open (h : whost) : bool := isOpen (zsnapshot_ h).
Definition opened_set (h : whost) : gset Z := if snap_open h then {[0]} else ∅.
Definition uuids_ok (h : whost) : Prop := uuid_ok (uuid_ (conf_ h)) /\ uuid_ok (brokerUuid_ h).

Lemma snapClose_result h : exists h', snapClose h = (Ok tt, h') /\ snap_open h' = false /\
  isSnapshot_ h' = isSnapshot_ h /\ brokerUuid_ h' = brokerUuid_ h /\
  rest h' = rest h /\ conn_part h' = conn_part h.
Proof.
  unfold snapClose, on_zsnapshot, zoom.
  destruct (close_closed (zsnapshot_ h)) as (s1 & -> & Hs1). eexists. split; [done|]. done.
Qed.

Lemma snapOpen_result h o h' : snapOpen h = (o, h') ->
  o <> Abort /\ o <> Undef /\ isSnapshot_ h' = isSnapshot_ h /\ brokerUuid_ h' = brokerUuid_ h /\
  rest h' = rest h /\ conn_part h' = conn_part h /\ (o = Ok tt -> snap_open h' = true).
Proof.
  unfold snapOpen, on_zsnapshot, zoom, mbind, M_bind, Prelude.get, modify.
  match goal with |- context [connect ?s] => destruct (connect s) as [o1 s1] eqn:E1 end.
  apply open_result in E1 as (H1 & H2 & _ & H3); [|apply keeps_connect1].
  intros [= <- <-]. split_and!; done.
Qed.

Lemma sendSync_result n h o h' : uuids_ok h -> sendSync n h = (o, h') ->
  o <> Abort /\ o <> Undef /\ isSnapshot_ h' = isSnapshot_ h /\ brokerUuid_ h' = brokerUuid_ h /\
  rest h' = rest h /\ conn_part h' = conn_part h /\ snap_open h' = snap_open h.
Proof.
  intros [Hu _]. unfold sendSync, mbind, M_bind, Prelude.get, lift.
  match goal with |- context [WorkerConfig_toPart ?wc] =>
    destruct (WorkerConfig_toPart_safe wc Hu) as [(e & ->)|(d & ->)] end.
  { intros [= <- <-]. done. }
  assert (Part_copy (Part_bytes d) = Ok (Part_bytes d)) as -> by done. cbn [p_data Part_bytes].
  unfold pack. match goal with |- context [pack_over ?f ?fs] =>
    destruct (pack_over_safe f fs) as [->|(m & ->)] end.
  { repeat constructor. }
  { intros [= <- <-]. done. }
  unfold on_zsnapshot, zoom. destruct (trySend [Part_bytes m] (zsnapshot_ h)) as [o1 s1] eqn:E.
  destruct (send_one_result _ _ _ _ (or_intror E)) as (H1 & H2 & H3 & _).
  assert (snap_open (set_zsnapshot s1 h) = snap_open h) as Hs by (unfold snap_open, isOpen; cbn; by rewrite H3).
  destruct o1; try done.
  - intros K. apply w_sendEvent_result in K as (K1 & K2 & K3 & K4 & K5); [|done|cbn; lia].
    unfold sync_part in K4. injection K4 as J1 J2 J3. split_and!; try done.
    unfold snap_open. rewrite J1. exact Hs.
  - intros [= <- <-]. done.
Qed.

Lemma sendBrokerEvent_result ev h o h' : ev <> Event.COUNT -> uuid_ok (brokerUuid_ h) ->
  sendBrokerEvent ev h = (o, h') ->
  o <> Abort /\ o <> Undef /\ rest h' = rest h /\ sync_part h' = sync_part h /\ conn_part h' = conn_part h.
Proof.
  intros Hev Hu. unfold sendBrokerEvent, mbind, M_bind, Prelude.get, lift.
  destruct (uuid_roundtrip (brokerUuid_ h) Hu) as (d & -> & _).
  intros K. apply w_sendEvent_result in K; [done|done|cbn; lia].
Qed.

Lemma notifySnapshotDownload_result b h o h' : notifySnapshotDownload b h = (o, h') ->
  o <> Abort /\ o <> Undef /\ isSnapshot_ h' = b /\ brokerUuid_ h' = brokerUuid_ h /\ rest h' = rest h /\
  zsnapshot_ h' = zsnapshot_ h /\ conn_part h' = conn_part h.
Proof.
  unfold notifySnapshotDownload, mbind, M_bind, Prelude.get, modify, mret, M_ret.
  destruct (Bool.eqb b (isSnapshot_ h)) eqn:Eb.
  - apply eqb_prop in Eb. intros [= <- <-]. done.
  - intros K. apply w_sendEvent_result in K as (K1 & K2 & K3 & K4 & K5); [|by destruct b|cbn; lia].
    unfold sync_part in K4. cbn in K4. injection K4 as -> -> ->. done.
Qed.

(** Code of the host that never aborts and changes, of what matters to the machines, at most
    the uuid of the broker and the flag of the download. *)
Definition calm {A} (m : M whost A) : Prop := forall h o h', uuids_ok h -> m h = (o, h') ->
  o <> Abort /\ o <> Undef /\ uuids_ok h' /\
  zsnapshot_ h' = zsnapshot_ h /\ rest h' = rest h /\ conn_part h' = conn_part h.

Lemma calm_bind {A B} (m : M whost A) (k : A -> M whost B) :
  calm m -> (forall a, calm (k a)) -> calm (m ≫= k).
Proof.
  intros Hm Hk h o h' Hu. unfold mbind, M_bind. destruct (m h) as [o1 h1] eqn:E.
  destruct (Hm h o1 h1 Hu E) as (H1 & H2 & H3 & H4 & H5 & H6).
  destruct o1 as [a|e| |]; try done.
  - intros K. destruct (Hk a h1 o h' H3 K) as (K1 & K2 & K3 & K4 & K5 & K6). split_and!; congruence || done.
  - intros [= <- <-]. done.
Qed.

Lemma calm_ret {A} (a : A) : calm (mret a).
Proof. intros h o h' Hu [= <- <-]. done. Qed.

Lemma calm_get {A} (k : whost -> M whost A) : (forall h, calm (k h)) -> calm (get ≫= k).
Proof. intros Hk h o h' Hu E. by apply (Hk h h o h' Hu). Qed.

Lemma uuids_rest h h' : rest h' = rest h -> brokerUuid_ h' = brokerUuid_ h -> uuids_ok h -> uuids_ok h'.
Proof. unfold rest, uuids_ok. intros [= _ _ -> _ _ _] ->. done. Qed.

Lemma calm_sendEvent ev pay :
  ev <> Event.COUNT -> (length (p_group pay) <= ZMQ_GROUP_MAX_LENGTH)%nat -> calm (w_sendEvent ev pay).
Proof.
  intros Hev Hg h o h' Hu E. apply w_sendEvent_result in E as (H1 & H2 & H3 & H4 & H5); [|done|done].
  unfold sync_part in H4. injection H4 as K1 K2 K3. split_and!; try done. by apply (uuids_rest h).
Qed.

Lemma calm_sendBrokerEvent ev : ev <> Event.COUNT -> calm (sendBrokerEvent ev).
Proof.
  intros Hev h o h' Hu E. apply sendBrokerEvent_result in E as (H1 & H2 & H3 & H4 & H5); [|done|apply Hu].
  unfold sync_part in H4. injection H4 as K1 K2 K3. split_and!; try done. by apply (uuids_rest h).
Qed.

Lemma calm_notifySnapshotDownload b : calm (notifySnapshotDownload b).
Proof.
  intros h o h' Hu E. apply notifySnapshotDownload_result in E as (H1 & H2 & H3 & H4 & H5 & H6 & H7).
  split_and!; try done. by apply (uuids_rest h).
Qed.

Lemma onSyncChanged_result st h o h' : uuids_ok h -> onSyncChanged st h = (o, h') ->
  o <> Abort /\ o <> Undef /\ uuids_ok h' /\ zsnapshot_ h' = zsnapshot_ h /\ rest h' = rest h /\
  conn_part h' = conn_part h /\ (o = Ok tt -> isSnapshot_ h' = SyncMachine.is_download st).
Proof.
  intros Hu E.
  assert (calm (onSyncChanged st)) as Hcalm.
  { destruct st; cbn [onSyncChanged].
    - apply calm_get. intros h1. apply calm_bind; [|intros _; apply calm_bind].
      + destruct (isSnapshot_ h1); [by apply calm_sendBrokerEvent|apply calm_ret].
      + intros h2 o2 h2' [Hu1 Hu2] [= <- <-]. done.
      + intros _. apply calm_notifySnapshotDownload.
    - apply calm_notifySnapshotDownload.
    - apply calm_bind; [by apply calm_sendBrokerEvent|intros _; apply calm_notifySnapshotDownload].
    - apply calm_bind; [by apply calm_sendBrokerEvent|intros _; apply calm_notifySnapshotDownload]. }
  destruct (Hcalm h o h' Hu E) as (H1 & H2 & H3 & H4 & H5 & H6). split_and!; try done.
  intros ->. destruct st; cbn [onSyncChanged SyncMachine.is_download] in *.
  - apply M_bind_Ok in E as (? & ? & _ & E). apply M_bind_Ok in E as (? & ? & _ & E).
    apply M_bind_Ok in E as (? & ? & _ & E). by apply notifySnapshotDownload_result in E as (_ & _ & ? & _).
  - by apply notifySnapshotDownload_result in E as (_ & _ & ? & _).
  - apply M_bind_Ok in E as (? & ? & _ & E). by apply notifySnapshotDownload_result in E as (_ & _ & ? & _).
  - apply M_bind_Ok in E as (? & ? & _ & E). by apply notifySnapshotDownload_result in E as (_ & _ & ? & _).
Qed.

#[export] Instance worker_sync_host : SyncMachine.SyncHost whost.
Proof.
  refine {| SyncMachine.max_index := 0; SyncMachine.host_ok := uuids_ok;
            SyncMachine.opened := opened_set; SyncMachine.reported := isSnapshot_ |}; cbn.
  - intros i h Hi Hu. destruct (snapClose_result h) as (h' & E & H1 & H2 & H3 & H4 & _).
    exists h'. split_and!; try done; [by apply (uuids_rest h)|]. unfold opened_set. rewrite H1.
    assert (i = 0) as -> by lia. destruct (snap_open h); set_solver.
  - intros i h o h' Hi Hu _ E. apply snapOpen_result in E as (H1 & H2 & H3 & H4 & H5 & _ & H6).
    split_and!; try done; [by apply (uuids_rest h)|]. intros Ho. unfold opened_set. rewrite (H6 Ho).
    by assert (i = 0) as -> by lia.
  - intros i n h o h' _ Hu Ho E. apply sendSync_result in E as (H1 & H2 & H3 & H4 & H5 & _ & H6); [|done].
    split_and!; try done; [by apply (uuids_rest h)|]. unfold opened_set in *. by rewrite H6.
  - intros st h o h' Hu E. apply onSyncChanged_result in E as (H1 & H2 & H3 & H4 & H5 & _ & H6); [|done].
    split_and!; try done. unfold opened_set, snap_open. by rewrite H4.
Defined.

End WithEnv.
End WorkerSession.
