(* ===== verification/WorkerInvariant.v ===== *)
(** * Invariant of the worker session

    The two machines and the host of a worker session stay consistent whatever operations,
    messages and timer expiries arrive: the sockets that are open, the flags [isOnline_] and
    [isSnapshot_] the user is told of, and the caches all agree with the states of the
    machines.  The proofs use the machines' theorems through the contracts [ConnHost] and
    [SyncHost] the session implements, and frames for what each machine leaves alone. *)

From S2P Require Import Prelude Part PartMulti Codec LruCache Uuid Topic Event Config.
From S2P Require Import Socket Session Timer ConnMachine SyncMachine WorkerSession.

Local Open Scope Z_scope.

Module WorkerInvariant.
Import Part PartMulti Codec LruCache Uuid Topic Config Socket SessionEnv Session WorkerSession.

Abbreviation get := Prelude.get.

Section WithEnv.
Context {P : Platform} {Z_ : Zmq}.

(** The caches: iterators are valid, the numbers of the workers are never evicted. *)
Definition caches_ok (h : whost) : Prop :=
  inv (workerSeqNum_ h) /\ capacity_ (workerSeqNum_ h) = 0%nat /\ inv (subscrTopic_ h).

Record session_inv (s : wsession) : Prop := mkSessionInv {
  si_conn : ConnMachine.conn_inv (conn_ s, host_ s);
  si_sync : SyncMachine.sync_inv (sync_ s, host_ s);
  si_caches : caches_ok (host_ s);
}.

(** What the machines observe of the host *)
Definition observed (h : whost) := (conn_open h, isOnline_ h, snap_open h, isSnapshot_ h).

Definition host_fine (h : whost) : Prop := uuids_ok h /\ caches_ok h.

(** Code of the host that the machines do not notice *)
Definition quiet {A} (m : M whost A) : Prop := forall h o h', host_fine h -> m h = (o, h') ->
  o <> Undef /\ host_fine h' /\ observed h' = observed h.

Lemma quiet_bind {A B} (m : M whost A) (k : A -> M whost B) :
  quiet m -> (forall a, quiet (k a)) -> quiet (m ≫= k).
Proof.
  intros Hm Hk h o h' Hh. unfold mbind, M_bind. destruct (m h) as [o1 h1] eqn:E.
  destruct (Hm h o1 h1 Hh E) as (H1 & H2 & H3).
  destruct o1 as [a|e| |]; try done; [|by intros [= <- <-]..].
  intros K. destruct (Hk a h1 o h' H2 K) as (K1 & K2 & K3). split_and!; congruence || done.
Qed.

(** The value of a decoder may be used in what follows. *)
Lemma quiet_lift {A B} (o : outcome A) (k : A -> M whost B) :
  o <> Undef -> (forall a, o = Ok a -> quiet (k a)) -> quiet (lift o ≫= k).
Proof.
  intros Ho Hk h o' h' Hh. unfold mbind, M_bind, lift.
  destruct o as [a|e| |]; [by apply Hk|by intros [= <- <-]..|done].
Qed.

Lemma quiet_ret {A} (a : A) : quiet (mret a).
Proof. intros h o h' Hh [= <- <-]. done. Qed.

(** Reading the state gives one that is fine. *)
Lemma quiet_get {A} (k : whost -> M whost A) :
  (forall h, host_fine h -> quiet (k h)) -> quiet (get ≫= k).
Proof. intros Hk h o h' Hh E. by apply (Hk h Hh h). Qed.

Lemma quiet_modify f :
  (forall h, host_fine h -> host_fine (f h) /\ observed (f h) = observed h) -> quiet (modify f).
Proof. intros Hf h o h' Hh [= <- <-]. by destruct (Hf h Hh). Qed.

Lemma quiet_sendEvent ev pay :
  ev <> Event.COUNT -> (length (p_group pay) <= ZMQ_GROUP_MAX_LENGTH)%nat -> quiet (w_sendEvent ev pay).
Proof.
  intros Hev Hg h o h' [Hu Hc] E. apply w_sendEvent_result in E as (_ & H2 & H3 & H4 & H5); [|done..].
  unfold rest, sync_part, conn_part in *. injection H3 as _ _ Hcf _ Hs Hw. injection H4 as Hz Hf Hb.
  injection H5 as Hd Hp Ho. unfold host_fine, uuids_ok, caches_ok, observed, conn_open, snap_open.
  rewrite Hcf, Hs, Hw, Hz, Hf, Hb, Hd, Hp, Ho. done.
Qed.

Lemma quiet_on_socket {A} (m : M sock A) (g : whost -> sock) (put : sock -> whost -> whost) :
  (forall s o s', m s = (o, s') -> o <> Undef /\ isOpen s' = isOpen s) ->
  (forall h s, isOpen s = isOpen (g h) -> observed (put s h) = observed h) ->
  (forall h s, host_fine h -> host_fine (put s h)) ->
  quiet (zoom g put m).
Proof.
  intros Hm Ho Hf h o h' Hh. unfold zoom. destruct (m (g h)) as [o1 s1] eqn:E. intros [= <- <-].
  destruct (Hm _ _ _ E) as [H1 H2]. split_and!; auto.
Qed.

Lemma send_part_open m s o s' : send [m] s = (o, s') \/ trySend [m] s = (o, s') ->
  o <> Undef /\ isOpen s' = isOpen s.
Proof.
  intros E. destruct (send_one_result m s o s' E) as (_ & H2 & H3 & _). unfold isOpen. by rewrite H3.
Qed.

Lemma quiet_notify : quiet notifySequenceNumber.
Proof.
  intros h o h' Hh. unfold notifySequenceNumber.
  assert (quiet (on_zseqs (trySend [Part_uint64 (seqNum_ h)]))) as Hq.
  { apply quiet_on_socket; [|done..]. intros s o1 s' E. by apply (send_part_open _ _ _ _ (or_intror E)). }
  destruct (on_zseqs _ h) as [o1 h1] eqn:E. destruct (Hq h o1 h1 Hh E) as (H1 & H2 & H3).
  destruct o1 as [n| | |]; [destruct (n =? -1)|..]; intros [= <- <-]; done.
Qed.

(** ** The cache of sequence numbers *)

Definition seen (h : whost) (w : uuid) : Z := default 0 (assoc w (items (workerSeqNum_ h))).

Lemma acceptSeq_spec w n h : caches_ok h ->
  if n <=? seen h w then acceptSeq w n h = (Ok false, h)
  else exists c, acceptSeq w n h = (Ok true, set_workerSeqNum c h) /\ inv c /\ capacity_ c = 0%nat /\
    items c = spec_put 0 w n (items (workerSeqNum_ h)).
Proof.
  intros (Hi & Hcap & _). unfold acceptSeq. rewrite bind_get.
  assert ((match find w (workerSeqNum_ h) with
           | None => mret 0
           | Some it => match deref (workerSeqNum_ h) it with Some kv => mret kv.2 | None => lift Undef end
           end : M whost Z) = mret (seen h w)) as ->.
  { unfold seen. destruct (find w (workerSeqNum_ h)) as [it|] eqn:E.
    - by destruct (lru_lookup _ _ _ Hi E) as (v & -> & -> & _).
    - apply find_None_assoc in E; [|done]. by rewrite E. }
  rewrite bind_ret. destruct (n <=? seen h w); [done|].
  destruct (put_spec (workerSeqNum_ h) w n Hi) as (c & -> & Hc & Hcc & Hit). rewrite bind_lift.
  exists c. split_and!; [done..|congruence|]. by rewrite Hit, Hcap.
Qed.

Lemma seen_put c w n h w' : NoDup ((items (workerSeqNum_ h)).*1) ->
  items c = spec_put 0 w n (items (workerSeqNum_ h)) ->
  seen (set_workerSeqNum c h) w' = if decide (w' = w) then n else seen h w'.
Proof.
  intros Hn E. unfold seen. cbn [workerSeqNum_ set_workerSeqNum]. rewrite E, spec_put_unbounded by done.
  by case_decide.
Qed.

Lemma quiet_acceptSeq w n : quiet (acceptSeq w n).
Proof.
  intros h o h' [Hu Hc] E. pose proof (acceptSeq_spec w n h Hc) as Hs.
  destruct (n <=? seen h w); [rewrite Hs in E; by injection E as <- <-|].
  destruct Hs as (c & Hs & Hi & Hcap & _). rewrite Hs in E. injection E as <- <-.
  split_and!; [done|split; [done|]|done]. destruct Hc as (_ & _ & Hc). done.
Qed.

Lemma quiet_acceptTopic p : fits (p_data p) -> quiet (acceptTopic p).
Proof.
  intros Hd. unfold acceptTopic. apply quiet_lift; [by apply topic_fromPart_defined|intros t _].
  apply quiet_bind; [apply quiet_acceptSeq|intros ok].
  destruct ok; cbn [negb]; [|apply quiet_ret]. apply quiet_get. intros h Hh.
  case_goal; [apply quiet_ret|]. apply quiet_bind; [by apply quiet_modify|intros _].
  apply quiet_bind; [apply quiet_notify|intros _; apply quiet_ret].
Qed.

(** Start: the configuration decodes to a value, or to an exception. *)
Lemma quiet_saveConfiguration p : fits (p_data p) -> ~ bad_flag (p_data p) ->
  quiet (saveConfiguration p).
Proof.
  intros Hd Hp. unfold saveConfiguration.
  apply quiet_lift; [by rewrite WorkerConfig_fromPart_flag by done|intros conf Hconf].
  apply WorkerConfig_fromPart_uuid in Hconf as [Hu _]; [|done].
  apply quiet_bind; [apply quiet_modify; intros h [[_ Hb] Hc]; done|intros _].
  apply quiet_bind; [apply quiet_modify; intros h [Hb (Hi & Hcap & _)]|intros _].
  { split; [|done]. split; [done|]. split_and!; [done..|apply inv_clear]. }
  apply quiet_bind; [|intros _; by apply quiet_modify].
  induction (topicsNames conf) as [|n ns IH]; cbn [mfor]; [apply quiet_ret|].
  apply quiet_bind; [|done]. apply quiet_get. intros h [_ (_ & _ & Hs)].
  destruct (put_spec (subscrTopic_ h) n false Hs) as (c & -> & Hi & _).
  apply quiet_lift; [done|]. intros [it c'] [= <- <-].
  apply quiet_modify. intros h' [Hb (Hi' & Hcap & _)]. done.
Qed.

(** ** Frames of the machines *)

Lemma conn_frame e c h o c' h' : ConnMachine.handle e (c, h) = (o, (c', h')) ->
  rest h' = rest h /\ sync_part h' = sync_part h.
Proof.
  intros E. pose proof (ConnMachine.handle_host e c h) as Hh. rewrite E in Hh. clear E.
  revert h Hh. induction (ConnMachine.spec e (ConnMachine.state_ c)).2 as [|k ks IH]; intros h.
  - by intros [= _ <-].
  - cbn [mfor]. unfold mbind, M_bind. destruct (ConnMachine.run_hook k h) as [o1 h1] eqn:E.
    assert (rest h1 = rest h /\ sync_part h1 = sync_part h) as [H1 H2].
    { destruct k as [st| | |]; cbn in E.
      - by apply onConnChanged_result in E as (_ & _ & _ & ? & ? & _).
      - destruct (connClose_result h) as (h2 & E2 & _ & _ & ? & ?). rewrite E2 in E. by injection E as <- <-.
      - by apply connOpen_result in E as (_ & _ & _ & ? & ? & _).
      - by apply sendAnnounce_result in E as (_ & _ & _ & ? & ? & _). }
    destruct o1 as [[]| | |]; [|by intros [= _ <-]..].
    intros [H3 H4]%IH. split; congruence.
Qed.

Lemma sync_hooks_frame ks h o h' : uuids_ok h -> mfor ks SyncMachine.run_hook h = (o, h') ->
  uuids_ok h' /\ rest h' = rest h /\ conn_part h' = conn_part h.
Proof.
  revert h. induction ks as [|k ks IH]; intros h Hu; [by intros [= _ <-]|].
  cbn [mfor]. unfold mbind, M_bind. destruct (SyncMachine.run_hook k h) as [o1 h1] eqn:E.
  assert (uuids_ok h1 /\ rest h1 = rest h /\ conn_part h1 = conn_part h) as (H1 & H2 & H3).
  { destruct k as [st|i|i|i n]; cbn in E.
    - by apply onSyncChanged_result in E as (_ & _ & ? & _ & ? & ? & _).
    - destruct (snapClose_result h) as (h2 & E2 & _ & _ & Hb & Hr & Hp). rewrite E2 in E.
      injection E as <- <-. split_and!; [by apply (uuids_rest h)|done..].
    - apply snapOpen_result in E as (_ & _ & _ & Hb & Hr & Hp & _).
      split_and!; [by apply (uuids_rest h)|done..].
    - apply sendSync_result in E as (_ & _ & _ & Hb & Hr & Hp & _); [|done].
      split_and!; [by apply (uuids_rest h)|done..]. }
  destruct o1 as [[]| | |]; [|by intros [= _ <-]..].
  intros (H4 & H5 & H6)%IH; [|done]. split_and!; [done|congruence..].
Qed.

(** ** Actions of the session that keep the invariant *)

Definition preserves {A} (m : M wsession A) : Prop := forall s o s', session_inv s -> m s = (o, s') ->
  o <> Undef /\ (forall a, o = Ok a -> session_inv s').

Lemma preserves_bind {A B} (m : M wsession A) (k : A -> M wsession B) :
  preserves m -> (forall a, preserves (k a)) -> preserves (m ≫= k).
Proof.
  intros Hm Hk s o s' Hs. unfold mbind, M_bind. destruct (m s) as [o1 s1] eqn:E.
  destruct (Hm s o1 s1 Hs E) as (H1 & H2).
  destruct o1 as [a|e| |]; try done; [|by intros [= <- <-]..].
  apply Hk. by eapply H2.
Qed.

Lemma preserves_lift {A B} (o : outcome A) (k : A -> M wsession B) :
  o <> Undef -> (forall a, o = Ok a -> preserves (k a)) -> preserves (lift o ≫= k).
Proof.
  intros Ho Hk s o' s' Hs. unfold mbind, M_bind, lift.
  destruct o as [a|e| |]; [by apply Hk|by intros [= <- <-]..|done].
Qed.

Lemma preserves_ret {A} (a : A) : preserves (mret a).
Proof. intros s o s' Hs [= <- <-]. done. Qed.

Lemma preserves_get {A} (k : wsession -> M wsession A) :
  (forall s, session_inv s -> preserves (k s)) -> preserves (get ≫= k).
Proof. intros Hk s o s' Hs E. by apply (Hk s Hs s). Qed.

Lemma preserves_host {A} (m : M whost A) : quiet m -> preserves (on_host m).
Proof.
  intros Hm [c y h] o s' [Hc (Hy1 & Hy2 & Hy3 & Hy4) Hca]. unfold on_host, zoom. cbn [host_ conn_ sync_].
  destruct (m h) as [o1 h1] eqn:E. intros [= <- <-].
  destruct (Hm h o1 h1 (conj Hy3 Hca) E) as (H1 & [H2 H3] & [= K1 K2 K3 K4]). split; [done|intros a _].
  unfold ConnMachine.conn_inv, SyncMachine.sync_inv in *. cbn in *.
  constructor; unfold ConnMachine.conn_inv, SyncMachine.sync_inv; cbn; [by rewrite K1, K2| |done].
  unfold opened_set in *. by rewrite K3, K4.
Qed.

Lemma preserves_conn e : preserves (on_conn (ConnMachine.handle e)).
Proof.
  intros [c y h] o s' [Hc Hy Hca]. unfold on_conn, zoom. cbn [host_ conn_ sync_] in *.
  destruct (ConnMachine.handle e (c, h)) as [o1 [c1 h1]] eqn:E. intros [= <- <-].
  destruct (conn_frame _ _ _ _ _ _ E) as [[= _ _ Hcf _ Hsu Hw] [= Hz Hs Hb]].
  apply ConnMachine.conn_handle_inv in E as (_ & H2 & H3); [|done]. split; [done|]. intros [] Ho.
  destruct (H3 Ho) as [H4 _]. constructor; cbn [host_ conn_ sync_ fst snd]; [done| |].
  - unfold SyncMachine.sync_inv in *. cbn in *. unfold uuids_ok, opened_set, snap_open in *.
    by rewrite Hcf, Hz, Hs, Hb.
  - unfold caches_ok in *. cbn in *. by rewrite Hsu, Hw.
Qed.

Lemma preserves_sync e : preserves (on_sync (SyncMachine.handle e)).
Proof.
  intros [c y h] o s' [Hc Hy Hca]. unfold on_sync, zoom. cbn [host_ conn_ sync_] in *.
  destruct (SyncMachine.handle e (y, h)) as [o1 [y1 h1]] eqn:E. intros [= <- <-].
  apply SyncMachine.sync_handle_inv in E as (_ & H2 & H3 & H4); [|done].
  apply sync_hooks_frame in H3 as (_ & [= _ _ Hcf _ Hsu Hw] & [= Hd Hp Ho]); [|apply Hy].
  split; [done|]. intros [] Hok. destruct (H4 Hok) as [H5 _].
  constructor; cbn [host_ conn_ sync_ fst snd]; [|done|].
  - unfold ConnMachine.conn_inv in *. cbn in *. unfold conn_open in *. by rewrite Hd, Hp, Ho.
  - unfold caches_ok in *. cbn in *. by rewrite Hsu, Hw.
Qed.

(** ** The handlers *)

(** What any ZMQ message satisfies: its size fits the address space, its group 255 characters. *)
Definition part_fine (p : part) : Prop :=
  fits (p_data p) /\ (length (p_group p) <= ZMQ_GROUP_MAX_LENGTH)%nat.

(** Operations of the main thread: the byte of the flag in the configuration of a start is a
    [bool], as [toPart] packs it ([WorkerConfig_toPart_flag]). *)
Definition oper_fine (op : Operation.operation) : Prop :=
  part_fine (Operation.payld_ op) /\
  (Operation.type_ op = Operation.Start -> ~ bad_flag (p_data (Operation.payld_ op))).

Definition ready_fine (r : wready) : Prop :=
  match r with WSnapshot p | WDelivery p => part_fine p | _ => True end.

Lemma preserves_onReply i n r : preserves (on_sync (SyncMachine.onReply i n r)).
Proof.
  intros s o s' Hs. pose proof (preserves_sync (SyncMachine.Reply i n r)) as Hp.
  unfold preserves, on_sync, zoom, SyncMachine.handle, mbind, M_bind in *. specialize (Hp s).
  destruct (SyncMachine.onReply i n r (sync_ s, host_ s)) as [[a|e| |] s1]; intros [= <- <-];
    destruct (Hp _ _ Hs eq_refl) as [H1 H2]; try done.
  split; [done|]. intros a' _. by apply (H2 tt).
Qed.

Lemma quiet_setBroker f : (forall h, f h = h \/ exists u, uuid_ok u /\ f h = set_brokerUuid u h) ->
  quiet (modify f).
Proof.
  intros Hf. apply quiet_modify. intros h Hh. destruct (Hf h) as [->|(u & Hu & ->)]; [done|].
  destruct Hh as [[Hh _] Hc]. done.
Qed.

Lemma quiet_sendBrokerEvent ev : ev <> Event.COUNT -> quiet (sendBrokerEvent ev).
Proof.
  intros Hev. apply quiet_get. intros h [[_ Hb] _].
  destruct (uuid_roundtrip (brokerUuid_ h) Hb) as (d & -> & _).
  apply quiet_lift; [done|]. intros p [= <-]. apply quiet_sendEvent; [done|cbn; lia].
Qed.

Lemma preserves_snapshot p : part_fine p -> preserves (recvBrokerSnapshot p).
Proof.
  intros [Hd Hg]. unfold recvBrokerSnapshot.
  assert (Forall ftype_ok [TStr; TInt 1; TStr]) as Hts by (repeat constructor; done || lia).
  apply preserves_lift; [by apply unpack_defined; [|set_solver|]|].
  intros fs Hfs. apply unpack_types in Hfs as [Ht Hok]; [|done..]. shape Ht.
  repeat (apply Forall_cons in Hok as [? Hok]). cbn [field_ok] in *.
  assert (fits (p_data (Part_bytes s0))) as Hf by (unfold fits, u64_max, u32_max in *; cbn; lia).
  destruct (uuid_fromPart_result (Part_bytes s0) Hf) as (H3 & _ & H4).
  repeat case_decide.
  - apply preserves_lift; [done|intros u Hu]. apply preserves_bind; [apply preserves_host|intros _].
    + apply quiet_setBroker. intros h. right. eauto.
    + by apply preserves_host, quiet_sendBrokerEvent.
  - apply preserves_bind; [by apply preserves_host, quiet_acceptTopic|intros _].
    apply preserves_bind; [apply preserves_host, quiet_sendEvent; [done|cbn; lia]|intros _].
    apply preserves_bind; [apply preserves_onReply|intros _; apply preserves_ret].
  - apply preserves_lift; [done|intros u Hu]. apply preserves_bind; [apply preserves_host|intros _].
    + apply quiet_setBroker. intros h. destruct (uuid_eqb u (brokerUuid_ h)); [by left|right; eauto].
    + apply preserves_bind; [apply preserves_onReply|intros _; apply preserves_ret].
  - apply preserves_ret.
Qed.

Lemma preserves_delivery p : part_fine p -> preserves (collectBrokerMessage p).
Proof.
  intros [Hd Hg]. apply preserves_get. intros s Hs. case_decide; [apply (preserves_conn ConnMachine.Ping)|].
  case_goal; [|apply preserves_ret].
  apply preserves_bind; [by apply preserves_host, quiet_acceptTopic|intros ok].
  destruct ok; [by apply preserves_host, quiet_sendEvent|apply preserves_ret].
Qed.

Lemma preserves_dispatch p n : preserves (
  m ← lift (q ← part_withSeqNum p n; withGroup (Some WorkerUpdt) q);
  on_host (on_zdispatch (send [m]));; mret tt).
Proof.
  apply preserves_lift.
  - destruct (part_withSeqNum_defined p n) as [H1 H2].
    by destruct (part_withSeqNum p n) as [q| | |].
  - intros m _. apply preserves_bind; [apply preserves_host|intros _; apply preserves_ret].
    apply quiet_on_socket; [|intros h s' Hs; unfold observed, conn_open; cbn; by rewrite Hs|done].
    intros s1 o s' E. by apply (send_part_open _ _ _ _ (or_introl E)).
Qed.

Lemma preserves_operation op : oper_fine op -> preserves (operationReady op).
Proof.
  intros [[Hd Hg] Hst]. unfold operationReady. destruct (Operation.type_ op); try apply preserves_ret.
  - apply preserves_bind; [by apply preserves_host, quiet_saveConfiguration; auto|intros _].
    apply preserves_bind; [by apply preserves_host, quiet_sendEvent|intros _].
    apply (preserves_conn ConnMachine.Start).
  - apply preserves_bind; [apply (preserves_conn ConnMachine.Stop)|intros _].
    apply preserves_bind; [apply (preserves_sync SyncMachine.Halt)|intros _].
    by apply preserves_host, quiet_sendEvent.
  - apply preserves_bind; [by apply preserves_host, quiet_modify|intros _].
    apply preserves_bind; [apply preserves_host, quiet_notify|intros _].
    apply preserves_get. intros s Hs. apply preserves_dispatch.
  - apply preserves_bind; [apply preserves_host, quiet_setBroker|intros _].
    + intros h. right. by exists nil_uuid.
    + apply (preserves_sync SyncMachine.Sync).
Qed.

Lemma preserves_ready r : ready_fine r -> preserves (socketReady r).
Proof.
  destruct r as [p|p| | | |]; cbn [socketReady ready_fine]; intros Hr.
  - by apply preserves_snapshot.
  - by apply preserves_delivery.
  - apply (preserves_conn ConnMachine.RetryFired).
  - apply (preserves_conn ConnMachine.TimeoutFired).
  - apply (preserves_sync SyncMachine.TimeoutFired).
  - intros s o s' Hs [= <- <-]. done.
Qed.

(** ** Runs of a session *)

(** An operation, a ready item of the poller, or the expiry of a timer in its own thread. *)
Inductive winput :=
  | IOper (op : Operation.operation) | IReady (r : wready)
  | IConnExpires (retry : bool) | ISyncExpires.

Definition input_fine (i : winput) : Prop :=
  match i with IOper op => oper_fine op | IReady r => ready_fine r | _ => True end.

(** Any message and any operation the library can hold *)
Definition wire_fine (i : winput) : Prop :=
  match i with IOper op => part_fine (Operation.payld_ op) | IReady r => ready_fine r | _ => True end.

Definition winput_step (i : winput) : M wsession unit :=
  match i with
  | IOper op => operationReady op
  | IReady r => socketReady r
  | IConnExpires b =>
    on_conn (ConnMachine.handle (if b then ConnMachine.RetryExpires else ConnMachine.TimeoutExpires))
  | ISyncExpires => on_sync (SyncMachine.handle SyncMachine.TimeoutExpires)
  end.

(** The start of a configuration whose flag is no [bool] *)
Lemma fine_or_bad i : wire_fine i -> input_fine i \/
  exists op, i = IOper op /\ Operation.type_ op = Operation.Start /\ bad_flag (p_data (Operation.payld_ op)).
Proof.
  destruct i as [op|r|b|]; cbn [wire_fine input_fine]; auto. intros Hp. unfold oper_fine.
  destruct (decide (Operation.type_ op = Operation.Start)) as [Hst|]; [|left; split; [done|done]].
  destruct (decide (bad_flag (p_data (Operation.payld_ op)))) as [Hb|Hb]; [right; eauto|by left].
Qed.

Lemma start_bad_flag op s : part_fine (Operation.payld_ op) -> Operation.type_ op = Operation.Start ->
  bad_flag (p_data (Operation.payld_ op)) -> (winput_step (IOper op) s).1 = Undef.
Proof.
  intros [Hd _] Hst Hb. apply WorkerConfig_fromPart_flag in Hb; [|done].
  cbn [winput_step]. unfold operationReady. rewrite Hst. unfold saveConfiguration, on_host, zoom, mbind, M_bind, lift. by rewrite Hb.
Qed.

Lemma preserves_input i : input_fine i -> preserves (winput_step i).
Proof.
  destruct i as [op|r|b|]; cbn [winput_step input_fine]; intros Hi.
  - by apply preserves_operation.
  - by apply preserves_ready.
  - apply preserves_conn.
  - apply (preserves_sync SyncMachine.TimeoutExpires).
Qed.

Lemma WorkerSession_inv token conf0 seq0 zevs zseqs : uuid_ok (uuid_ conf0) ->
  exists s, WorkerSession (new_host token conf0 seq0 zevs zseqs) = (Ok tt, s) /\ session_inv s.
Proof.
  intros Hu. eexists. split; [reflexivity|]. constructor.
  - unfold ConnMachine.conn_inv, ConnMachine.timers_ok. cbn. done.
  - unfold SyncMachine.sync_inv, SyncMachine.mach_ok, uuids_ok, int_max. cbn. split_and!; (done || lia).
  - split_and!; [apply inv_LRUCache|done|apply inv_LRUCache].
Qed.

(** The states of a session as long as no handler throws: an exception ends it. *)
Inductive reachable : wsession -> Prop :=
  | reach_new token conf0 seq0 zevs zseqs s :
    uuid_ok (uuid_ conf0) -> WorkerSession (new_host token conf0 seq0 zevs zseqs) = (Ok tt, s) ->
    reachable s
  | reach_step i s s' : reachable s -> input_fine i -> winput_step i s = (Ok tt, s') -> reachable s'.

Lemma worker_reachable_inv s : reachable s -> session_inv s.
Proof.
  induction 1 as [token conf0 seq0 zevs zseqs s Hu E|i s s' _ IH Hi E].
  - destruct (WorkerSession_inv token conf0 seq0 zevs zseqs Hu) as (s1 & E1 & H1). congruence.
  - destruct (preserves_input i Hi s _ _ IH E) as [_ H2]. by apply (H2 tt).
Qed.

Fixpoint run (ins : list winput) (s : wsession) : option wsession :=
  match ins with
  | [] => Some s
  | i :: ins => match winput_step i s with (Ok _, s') => run ins s' | _ => None end
  end.

Lemma worker_reachable_run ins s s' : reachable s -> Forall input_fine ins -> run ins s = Some s' -> reachable s'.
Proof.
  intros Hr Hi. revert s Hr. induction Hi as [|i ins Hi _ IH]; intros s Hr; cbn [run]; [by intros [= <-]|].
  destruct (winput_step i s) as [[[]| | |] s1] eqn:E; try done. apply IH. by eapply reach_step.
Qed.

(** No handler of the worker changes its token. *)
Lemma frames_conn e : frames (fun s => token_ (host_ s)) (on_conn (ConnMachine.handle e)).
Proof.
  apply (frames_zoom_in _ (fun p => token_ p.2)); [done..|].
  apply ConnMachine.conn_handle_frames; cbn; intros; unfold connClose, connOpen, sendAnnounce, onConnChanged,
    notifyConnectionUpdate, w_sendEvent, on_zdelivery, on_zdispatch, on_zevs; frame.
Qed.

Lemma frames_sync e : frames (fun s => token_ (host_ s)) (on_sync (SyncMachine.handle e)).
Proof.
  apply (frames_zoom_in _ (fun p => token_ p.2)); [done..|].
  apply SyncMachine.sync_handle_frames; cbn; intros; unfold snapClose, snapOpen, sendSync, onSyncChanged,
    sendBrokerEvent, notifySnapshotDownload, w_sendEvent, on_zsnapshot, on_zevs; frame.
Qed.

Lemma frames_onReply i n r : frames (fun s => token_ (host_ s)) (on_sync (SyncMachine.onReply i n r)).
Proof.
  intros s. pose proof (frames_sync (SyncMachine.Reply i n r) s) as H. revert H.
  unfold on_sync, zoom, SyncMachine.handle, mbind, M_bind.
  by destruct (SyncMachine.onReply i n r (sync_ s, host_ s)) as [[| | |] ?].
Qed.

Lemma frames_host {A} (m : M whost A) : frames token_ m -> frames (fun s => token_ (host_ s)) (on_host m).
Proof. intros Hm. by apply (frames_zoom_in _ token_). Qed.

Lemma frames_notify : frames token_ notifySequenceNumber.
Proof.
  intros h. unfold notifySequenceNumber, on_zseqs, zoom.
  destruct (trySend _ _) as [[n| | |] z]; [destruct (n =? -1)|..]; done.
Qed.

Lemma frames_acceptTopic p : frames token_ (acceptTopic p).
Proof.
  pose proof frames_notify.
  unfold acceptTopic, acceptSeq. frame.
Qed.

#[export] Instance worker_session_laws : SessionLaws wsession wready.
Proof.
  assert (forall ev pay, frames token_ (w_sendEvent ev pay)) as Hev
    by (intros; unfold w_sendEvent, on_zevs; frame).
  assert (forall ev, frames token_ (sendBrokerEvent ev)) as Hbr
    by (intros; unfold sendBrokerEvent; frame; auto).
  pose proof frames_notify.
  split; cbn.
  - intros op. unfold operationReady.
    pose proof (frames_conn ConnMachine.Start). pose proof (frames_conn ConnMachine.Stop).
    pose proof (frames_sync SyncMachine.Halt). pose proof (frames_sync SyncMachine.Sync).
    frame; try apply frames_host; auto; unfold saveConfiguration, on_zdispatch; frame.
  - intros r. unfold socketReady, recvBrokerSnapshot, collectBrokerMessage.
    pose proof (frames_conn ConnMachine.Ping). pose proof (frames_conn ConnMachine.RetryFired).
    pose proof (frames_conn ConnMachine.TimeoutFired). pose proof (frames_sync SyncMachine.TimeoutFired).
    pose proof frames_onReply. pose proof frames_acceptTopic.
    frame; try apply frames_host; auto; frame.
Qed.

(** [isOpen] of the sockets for delivery, dispatch and snapshots *)
Definition sockets (h : whost) := (isOpen (zdelivery_ h), isOpen (zdispatch_ h), isOpen (zsnapshot_ h)).

Lemma inv_sockets s : session_inv s ->
  let up := match ConnMachine.state_ (conn_ s) with ConnMachine.Halted => false | _ => true end in
  let snap := match SyncMachine.state_ (sync_ s) with
              | SyncMachine.Download | SyncMachine.Synced => true | _ => false end in
  sockets (host_ s) = (up, up, snap).
Proof.
  intros [(_ & Hc & _) ((_ & _ & Hcu & _) & Hmax & _ & Hs & _) _]. cbn in *. unfold sockets.
  assert (isOpen (zsnapshot_ (host_ s)) = match SyncMachine.state_ (sync_ s) with
    | SyncMachine.Download | SyncMachine.Synced => true | _ => false end) as ->.
  { unfold opened_set, snap_open in Hs. destruct (isOpen _), (SyncMachine.state_ (sync_ s)); set_solver. }
  unfold conn_open in Hc. destruct (isOpen (zdelivery_ _)), (isOpen (zdispatch_ _));
    cbn in Hc; try discriminate Hc; by injection Hc as <-.
Qed.

End WithEnv.

(** ** Theorems *)

(** C6: Every reachable state of a worker session, whatever operations, messages and timer
    expiries arrive in whatever order: the sockets for delivery and dispatch are open exactly
    when the connection machine is not halted, the one for snapshots exactly while a
    synchronization is in progress or done; the session is online exactly in Stable and
    downloading exactly in Download, so the user's notifications agree with the machines; the
    machines' timers are active, or expired with the expiry still to be handled, whenever a
    machine waits. *)
Theorem worker_invariant (P : Platform) (Z_ : Zmq) (s : wsession) :
  reachable s ->
  let c := ConnMachine.state_ (conn_ s) in
  let y := SyncMachine.state_ (sync_ s) in
  isOpen (zdelivery_ (host_ s)) = bool_decide (c <> ConnMachine.Halted) /\
  isOpen (zdispatch_ (host_ s)) = bool_decide (c <> ConnMachine.Halted) /\
  isOpen (zsnapshot_ (host_ s)) = bool_decide (y = SyncMachine.Download \/ y = SyncMachine.Synced) /\
  isOnline_ (host_ s) = bool_decide (c = ConnMachine.Stable) /\
  isSnapshot_ (host_ s) = bool_decide (y = SyncMachine.Download) /\
  (c <> ConnMachine.Halted -> Timer.active (ConnMachine.timerTmo_ (conn_ s)) = true \/
                              Timer.expired (ConnMachine.timerTmo_ (conn_ s)) = true) /\
  (y = SyncMachine.Download -> Timer.active (SyncMachine.timerTmo_ (sync_ s)) = true \/
                               Timer.expired (SyncMachine.timerTmo_ (sync_ s)) = true).
Proof.
  intros Hr%worker_reachable_inv. pose proof (inv_sockets s Hr) as [= H1 H2 H3]. rewrite H1, H2, H3.
  destruct Hr as [((_ & _ & _ & Ht) & _ & Ho) ((_ & _ & _ & _ & _ & _ & _ & Hy) & _ & _ & _ & Hs) _].
  cbn in *. rewrite Ho, Hs. destruct (ConnMachine.state_ (conn_ s)), (SyncMachine.state_ (sync_ s));
    split_and!; try done; intros _; by apply orb_true_iff.
Qed.

(** A session whose library always succeeds *)
Definition sample_zsock (id : nat) (t : Socket.type) : sock := (@connect ok_zmq (Socket id t)).2.
Definition sample_start : wsession :=
  (@WorkerSession x86_64 ok_zmq
     (new_host 1 sample_wconfig 0 (sample_zsock 10 RADIO) (sample_zsock 11 PUSH))).2.
Definition start_op : Operation.operation :=
  Operation.mkOp Operation.Start Operation.Success
    (match @WorkerConfig_toPart x86_64 sample_wconfig with Ok p => p | _ => Part_empty end).
Definition sample_inputs : list winput :=
  [IOper start_op; IReady (WDelivery (mkPart [] 0 BrokerHugz false));
   IOper (Operation.mkOp Operation.Sync Operation.Success Part_empty)].

Lemma sample_reachable : @reachable x86_64 ok_zmq sample_start.
Proof. apply (reach_new 1 sample_wconfig 0 (sample_zsock 10 RADIO) (sample_zsock 11 PUSH)); reflexivity. Qed.

Lemma sample_fine : Forall input_fine sample_inputs.
Proof.
  apply Forall_cons_2; [|apply Forall_cons_2; [|apply Forall_cons_2; [|constructor]]].
  - split; [split; vm_compute; [reflexivity|lia]|]. intros _. apply good_flag. vm_compute. reflexivity.
  - split; vm_compute; [reflexivity|lia].
  - split; [split; vm_compute; [reflexivity|lia]|]. intros H. discriminate H.
Qed.

Lemma worker_invariant_witness :
  exists s, @run x86_64 ok_zmq sample_inputs sample_start = Some s /\
    isOnline_ (host_ s) = true /\ isSnapshot_ (host_ s) = true.
Proof.
  assert ((fun s => (ConnMachine.state_ (conn_ s), SyncMachine.state_ (sync_ s))) <$>
    @run x86_64 ok_zmq sample_inputs sample_start = Some (ConnMachine.Stable, SyncMachine.Download)) as K
    by (vm_compute; reflexivity).
  destruct (@run x86_64 ok_zmq sample_inputs sample_start) as [s|] eqn:E; [|discriminate K].
  injection K as E1 E2. exists s. split; [reflexivity|].
  destruct (worker_invariant x86_64 ok_zmq s) as (_ & _ & _ & H4 & H5 & _).
  - exact (worker_reachable_run _ _ _ sample_reachable sample_fine E).
  - rewrite H4, H5, E1, E2. split; reflexivity.
Defined.

(** C36: Inputs of a worker session are defined: in any reachable state, whatever bytes the brokers
    send, whatever timers expire and whatever operation arrives, no handler uses an iterator that is
    no longer valid, reads outside a message or takes a variant that is not there, but for one
    case: a start whose configuration has, in the place of its flag, a byte that is neither 0
    nor 1 (there the decoder reads a [bool] that has no value, and the handler is undefined);
    and no configuration within the limits of its packed form packs to such bytes.  Messages fit the
    64-bit address space. *)
Theorem worker_defined (P : Platform) (Z_ : Zmq) (s : wsession) (i : winput) :
  reachable s -> wire_fine i ->
  ((winput_step i s).1 = Undef <->
   exists op, i = IOper op /\ Operation.type_ op = Operation.Start /\ bad_flag (p_data (Operation.payld_ op))) /\
  (forall wc p, WorkerConfig_ok wc -> WorkerConfig_toPart wc = Ok p -> ~ bad_flag (p_data p)).
Proof.
  intros Hi%worker_reachable_inv Hf. split; [|by apply WorkerConfig_toPart_flag]. split.
  - intros Hu. destruct (fine_or_bad i Hf) as [Hfine|Hbad]; [|done].
    destruct (winput_step i s) as [o s'] eqn:E. destruct (preserves_input i Hfine s o s' Hi E) as [H1 _]. by destruct H1.
  - intros (op & -> & Hst & Hbad). by apply start_bad_flag.
Qed.

(** A snapshot message whose announced string is longer than the message, and starts whose flag is
    1 and 2 *)
Definition start_flag (b : byte) : winput :=
  IOper (Operation.mkOp Operation.Start Operation.Success (Part_bytes (replicate 24 Byte.x00 ++ [b] ++ replicate 16 Byte.x00))).
Lemma worker_defined_witness :
  (@winput_step x86_64 ok_zmq (IReady (WSnapshot (Part_bytes (replicate 4 Byte.xff)))) sample_start).1 <> Undef /\
  (@winput_step x86_64 ok_zmq (start_flag Byte.x01) sample_start).1 <> Undef /\
  (@winput_step x86_64 ok_zmq (start_flag Byte.x02) sample_start).1 = Undef.
Proof.
  split; [|split].
  - destruct (worker_defined x86_64 ok_zmq sample_start (IReady (WSnapshot (Part_bytes (replicate 4 Byte.xff))))) as [H _].
    + exact sample_reachable.
    + split; vm_compute; [reflexivity|lia].
    + intros E. apply H in E as (op & E & _). discriminate E.
  - destruct (worker_defined x86_64 ok_zmq sample_start (start_flag Byte.x01)) as [H _].
    + exact sample_reachable.
    + split; vm_compute; [reflexivity|lia].
    + intros E. apply H in E as (op & [= <-] & _ & E). revert E. apply good_flag. vm_compute. reflexivity.
  - destruct (worker_defined x86_64 ok_zmq sample_start (start_flag Byte.x02)) as [H _].
    + exact sample_reachable.
    + split; vm_compute; [reflexivity|lia].
    + apply H. eexists. split; [reflexivity|]. split; [reflexivity|]. exists Byte.x02. split; [vm_compute; reflexivity|].
      split; discriminate.
Defined.

End WorkerInvariant.
