(* ===== verification/WorkerDelivery.v ===== *)
(** * What a worker session delivers and dispatches

    The topics received from brokers reach the user at most once and in order, the topics of
    the user leave with fresh sequence numbers. *)

From Stdlib Require Import Sorting.Sorted.
From S2P Require Import Prelude Part PartMulti Codec LruCache Uuid Topic Event Config.
From S2P Require Import Socket Session Timer ConnMachine SyncMachine WorkerSession WorkerInvariant.

Local Open Scope Z_scope.

Module WorkerDelivery.
Import Part PartMulti Codec LruCache Uuid Topic Config Socket SessionEnv Session WorkerSession
  WorkerInvariant.

Abbreviation get := Prelude.get.

(** The topics that are newer than all the earlier ones of their worker *)
Fixpoint newer (ts : list topic) (last : uuid -> Z) : list topic :=
  match ts with
  | [] => []
  | t :: ts =>
    if seqn_ t <=? last (worker_ t) then newer ts last
    else t :: newer ts (fun w => if decide (w = worker_ t) then seqn_ t else last w)
  end.

Lemma newer_ext ts : forall f g, (forall w, f w = g w) -> newer ts f = newer ts g.
Proof.
  induction ts as [|t ts IH]; intros f g Hfg; cbn [newer]; [done|]. rewrite Hfg.
  case_goal; [by apply IH|]. f_equal. apply IH. intros w. by case_decide.
Qed.

Lemma newer_sorted ts : forall last w,
  StronglySorted Z.lt (last w :: (seqn_ <$> filter (fun t => worker_ t = w) (newer ts last))).
Proof.
  induction ts as [|t ts IH]; intros last w; cbn [newer]; [repeat constructor|].
  destruct (Z.leb_spec (seqn_ t) (last (worker_ t))) as [Hle|Hlt]; [apply IH|].
  specialize (IH (fun w => if decide (w = worker_ t) then seqn_ t else last w) w). cbv beta in IH.
  rewrite filter_cons. destruct (decide (worker_ t = w)) as [E|E].
  2: { by rewrite decide_False in IH. }
  rewrite decide_True in IH by done. subst. constructor; [done|]. apply StronglySorted_inv in IH as [_ IH]. rewrite fmap_cons.
  constructor; [done|]. eapply Forall_impl; [exact IH|]. cbn. lia.
Qed.

Section WithEnv.
Context {P : Platform} {Z_ : Zmq}.

(** An update of a broker that carries a topic *)
Definition update_of (t : topic) (p : part) : Prop :=
  group p = BrokerUpdt /\ topic_fromPart p = Ok t /\ p_rid p = 0 /\ zlen (p_data p) < u32_max - 6.

(** An event of the session that delivers a topic to the user *)
Definition delivered (token : Z) (t : topic) (m : part) : Prop :=
  group m = GROUP_EVENTS /\
  exists e d, unpack [TInt 1; TStr] (p_data m) = Ok [FInt 1 token; FStr e] /\
    Event.event_fromString e = Ok (Event.mkEvent Event.Delivery Event.Success (Part_bytes d)) /\
    topic_fromPart (Part_bytes d) = Ok t.

Record can_deliver (h : whost) : Prop := mkCan {
  cd_token : in_width 1 (token_ h);
  cd_caches : caches_ok h;
  cd_events : accepts false (zevs_ h);
  cd_seqs : accepts true (zseqs_ h);
}.

Lemma notify_ok h : accepts true (zseqs_ h) ->
  notifySequenceNumber h = (Ok tt, set_zseqs (log_call [Part_uint64 (seqNum_ h)] (zseqs_ h)) h).
Proof.
  intros Ha. unfold notifySequenceNumber, on_zseqs, zoom. rewrite trySend_one by done.
  by rewrite (proj2 (Z.eqb_neq _ (-1))) by (unfold Part.size; lia).
Qed.

(** Accepting a topic keeps the session able to deliver and sends no event. *)
Lemma acceptTopic_spec p t h : topic_fromPart p = Ok t -> can_deliver h ->
  exists h', acceptTopic p h = (Ok (negb (seqn_ t <=? seen h (worker_ t))), h') /\ can_deliver h' /\
    (zevs_ h', subscrTopic_ h', zdispatch_ h', token_ h', isOnline_ h') =
      (zevs_ h, subscrTopic_ h, zdispatch_ h, token_ h, isOnline_ h) /\
    (forall w, seen h' w = if decide (w = worker_ t) then Z.max (seqn_ t) (seen h w) else seen h w).
Proof.
  intros Ht [Htok Hc Hev Hsq]. unfold acceptTopic. rewrite Ht, bind_lift.
  pose proof (acceptSeq_spec (worker_ t) (seqn_ t) h Hc) as Hs.
  destruct (Z.leb_spec (seqn_ t) (seen h (worker_ t))) as [Hle|Hlt].
  - rewrite (M_bind_eq _ _ _ _ _ Hs). cbn [negb]. exists h. split_and!; [done|done|done|].
    intros w. case_decide; [subst; lia|done].
  - destruct Hs as (c & Hs & Hi & Hcap & Hit). rewrite (M_bind_eq _ _ _ _ _ Hs). cbn [negb].
    rewrite bind_get.
    assert (forall w, seen (set_workerSeqNum c h) w =
      if decide (w = worker_ t) then Z.max (seqn_ t) (seen h w) else seen h w) as Hseen.
    { intros w. rewrite (seen_put c _ _ _ w) by (done || apply inv_keys; apply Hc).
      case_decide; [subst; lia|done]. }
    assert (caches_ok (set_workerSeqNum c h)) by (destruct Hc as (_ & _ & ?); done).
    case_goal; [by eexists|]. rewrite bind_modify.
    rewrite (M_bind_eq _ _ _ _ _ (notify_ok (set_seqNum (seqn_ t) (set_workerSeqNum c h)) Hsq)).
    eexists. split_and!; [done| |done|done]. by constructor.
Qed.

Lemma w_sendEvent_ok ev pay t h : topic_fromPart pay = Ok t -> can_deliver h ->
  ev = Event.Delivery -> zlen (p_data pay) < u32_max - 6 -> p_rid pay = 0 ->
  (length (p_group pay) <= ZMQ_GROUP_MAX_LENGTH)%nat ->
  exists m, w_sendEvent ev pay h = (Ok tt, set_zevs (log_call [m] (zevs_ h)) h) /\
    delivered (token_ h) t m.
Proof.
  intros Ht Hc -> Hsz Hrid Hg. destruct Hc as [Htok _ Hev _].
  destruct (event_message_spec (token_ h) Event.Delivery pay) as (d & Em & e & Hu & He); try done.
  exists (mkPart d 0 GROUP_EVENTS false). unfold w_sendEvent, sendEvent. rewrite bind_get.
  unfold on_zevs, zoom. rewrite Em, bind_lift. unfold mbind, M_bind. rewrite send_one by done.
  split; [done|]. split; [done|]. exists e, (p_data pay). done.
Qed.

(** ** The messages of brokers *)

(** Whether a message is one of a topic: its group is not the one of keepalives and is the one of
    all updates or the name of a topic the worker subscribed to. *)
Definition takes (h : whost) (p : part) : bool :=
  negb (bool_decide (group p = BrokerHugz)) &&
  (bool_decide (group p = BrokerUpdt) ||
   match find (Name (group p)) (subscrTopic_ h) with Some _ => true | None => false end).

(** The topic a message brings, if it is one of a topic *)
Definition heard (h : whost) (p : part) : option topic :=
  if takes h p then match topic_fromPart p with Ok t => Some t | _ => None end else None.

(** A message as the library gives it, that carries a topic when it is one of a topic *)
Definition arrives (h : whost) (p : part) : Prop :=
  p_rid p = 0 /\ zlen (p_data p) < u32_max - 6 /\ (length (p_group p) <= ZMQ_GROUP_MAX_LENGTH)%nat /\
  (takes h p = true -> exists t, topic_fromPart p = Ok t).

(** The events that deliver a topic *)
Definition is_delivery (m : part) : bool :=
  match unpack [TInt 1; TStr] (p_data m) with
  | Ok [FInt _ _; FStr e] =>
    match Event.event_fromString e with Ok ev => bool_decide (Event.type_ ev = Event.Delivery) | _ => false end
  | _ => false
  end.

Lemma delivered_is token t m : delivered token t m -> is_delivery m = true.
Proof. intros (_ & e & d & Hu & He & _). unfold is_delivery. rewrite Hu, He. done. Qed.

(** The session can answer a keepalive. *)
Definition can_pong (s : wsession) : Prop :=
  ConnMachine.state_ (conn_ s) <> ConnMachine.Halted -> accepts false (zdispatch_ (host_ s)).

(** What a message leaves alone *)
Definition kept (s s' : wsession) : Prop :=
  can_deliver (host_ s') /\ can_pong s' /\ token_ (host_ s') = token_ (host_ s) /\
  subscrTopic_ (host_ s') = subscrTopic_ (host_ s).

Lemma taken_step p t s : heard (host_ s) p = Some t -> arrives (host_ s) p -> can_deliver (host_ s) ->
  exists s' ms, collectBrokerMessage p s = (Ok tt, s') /\ can_deliver (host_ s') /\ (can_pong s -> can_pong s') /\
    token_ (host_ s') = token_ (host_ s) /\ subscrTopic_ (host_ s') = subscrTopic_ (host_ s) /\
    sent_ (zevs_ (host_ s')) = sent_ (zevs_ (host_ s)) ++ ms /\
    (if seqn_ t <=? seen (host_ s) (worker_ t) then ms = []
     else exists m, ms = [m] /\ delivered (token_ (host_ s)) t m) /\
    (forall w, seen (host_ s') w =
       if decide (w = worker_ t) then Z.max (seqn_ t) (seen (host_ s) w) else seen (host_ s) w).
Proof.
  intros Hh (Hrid & Hsz & Hgl & _) Hc. destruct s as [c y h]. cbn [host_] in *. unfold heard in Hh.
  destruct (takes h p) eqn:Htk; [|done]. destruct (topic_fromPart p) as [t'| | |] eqn:Ht; try done. injection Hh as ->.
  unfold takes in Htk. apply andb_true_iff in Htk as [Hg1%negb_true_iff%bool_decide_eq_false Hg2].
  unfold collectBrokerMessage. rewrite bind_get, decide_False by done. cbn [host_]. rewrite Hg2.
  destruct (acceptTopic_spec p t h Ht Hc) as (h1 & E1 & Hc1 & [= Hz Hsu Hzd Htok _] & Hs).
  unfold mbind, M_bind, on_host, zoom. cbn [host_ conn_ sync_]. rewrite E1.
  destruct (seqn_ t <=? seen h (worker_ t)); cbn [negb host_ conn_ sync_].
  - exists (mkSession c y h1), []. cbn [host_]. unfold can_pong. cbn. rewrite Hz, Hzd, app_nil_r. done.
  - destruct (w_sendEvent_ok Event.Delivery p t h1) as (m & -> & Hm); try done.
    eexists _, [m]. split; [done|]. unfold can_pong. cbn. rewrite Hz, Hzd. split_and!; [|done|done|done|done| |done].
    + destruct Hc1 as [? ? Hev1 ?]. rewrite Hz in Hev1. by constructor.
    + exists m. by rewrite <-Htok.
Qed.

Lemma delivery_step p t s : update_of t p -> can_deliver (host_ s) ->
  exists s' ms, collectBrokerMessage p s = (Ok tt, s') /\ can_deliver (host_ s') /\
    token_ (host_ s') = token_ (host_ s) /\
    sent_ (zevs_ (host_ s')) = sent_ (zevs_ (host_ s)) ++ ms /\
    (if seqn_ t <=? seen (host_ s) (worker_ t) then ms = []
     else exists m, ms = [m] /\ delivered (token_ (host_ s)) t m) /\
    (forall w, seen (host_ s') w =
       if decide (w = worker_ t) then Z.max (seqn_ t) (seen (host_ s) w) else seen (host_ s) w).
Proof.
  intros (Hg & Ht & Hrid & Hsz) Hc.
  assert (takes (host_ s) p = true) as Htk.
  { unfold takes. rewrite Hg. rewrite bool_decide_eq_false_2 by (vm_compute; discriminate).
    by rewrite bool_decide_eq_true_2. }
  destruct (taken_step p t s) as (s' & ms & H1 & H2 & _ & H4 & _ & H6); [| |done|exists s', ms; tauto].
  - unfold heard. by rewrite Htk, Ht.
  - split_and!; try done; [|by eexists]. unfold group in Hg. rewrite Hg. vm_compute. lia.
Qed.

(** An event of the state of the connection is not a delivery. *)
Lemma notify_online b h : can_deliver h ->
  exists h' ms, notifyConnectionUpdate b h = (Ok tt, h') /\ can_deliver h' /\ rest h' = rest h /\
    zdispatch_ h' = zdispatch_ h /\ sent_ (zevs_ h') = sent_ (zevs_ h) ++ ms /\ filter is_delivery ms = [].
Proof.
  intros [Htok Hc Hev Hsq]. unfold notifyConnectionUpdate. rewrite bind_get. destruct (Bool.eqb b (isOnline_ h)).
  { exists h, []. rewrite app_nil_r. split_and!; done. }
  rewrite bind_modify.
  destruct (event_message_spec (token_ h) (if b then Event.Online else Event.Offline) Part_empty) as (d & Em & e & Hu & He);
    [done|by destruct b|done|done|cbn; lia|].
  unfold w_sendEvent, sendEvent. rewrite bind_get. unfold on_zevs, zoom. cbn [token_ set_isOnline zevs_].
  rewrite Em, bind_lift. unfold mbind, M_bind. rewrite send_one by done.
  eexists _, [mkPart d 0 GROUP_EVENTS false]. split_and!; try done.
  rewrite filter_cons_False; [done|]. unfold is_delivery. cbn [p_data]. rewrite Hu, He. cbn [Event.type_].
  rewrite bool_decide_eq_false_2; [by intros []|by destruct b].
Qed.

(** A keepalive delivers nothing, whatever it carries. *)
Lemma hugz_step p s : group p = BrokerHugz -> can_deliver (host_ s) -> can_pong s ->
  exists s' ms, collectBrokerMessage p s = (Ok tt, s') /\ kept s s' /\
    sent_ (zevs_ (host_ s')) = sent_ (zevs_ (host_ s)) ++ ms /\ filter is_delivery ms = [] /\
    (forall w, seen (host_ s') w = seen (host_ s) w).
Proof.
  intros Hg Hc Hp. destruct s as [[t1 t2 st] y h]. unfold kept, can_pong in *. cbn [host_ conn_ ConnMachine.state_] in *.
  unfold collectBrokerMessage. rewrite bind_get, decide_True by done. unfold on_conn, zoom. cbn [conn_ host_ sync_].
  unfold ConnMachine.onPing. rewrite ConnMachine.get_bind. cbn [fst ConnMachine.state_].
  destruct (decide (st = ConnMachine.Halted)) as [->|Hst].
  { eexists _, []. split; [done|]. cbn. rewrite app_nil_r. split_and!; done. }
  specialize (Hp Hst). rewrite !ConnMachine.mach_bind. cbn [ConnMachine.set_try ConnMachine.set_tmo].
  assert (exists h' ms, ConnMachine.change ConnMachine.Stable (ConnMachine.mkConn (Timer.Timer.stop t1) (Timer.Timer.start t2) st, h) =
      (Ok tt, (ConnMachine.mkConn (Timer.Timer.stop t1) (Timer.Timer.start t2) ConnMachine.Stable, h')) /\
    can_deliver h' /\ rest h' = rest h /\ zdispatch_ h' = zdispatch_ h /\ sent_ (zevs_ h') = sent_ (zevs_ h) ++ ms /\
    filter is_delivery ms = []) as (h1 & ms & E1 & Hc1 & Hr1 & Hz1 & Hs1 & Hf1).
  { unfold ConnMachine.change. rewrite ConnMachine.get_bind. cbn [fst ConnMachine.state_]. case_decide as Hd.
    - subst st. exists h, []. rewrite app_nil_r. split_and!; done.
    - rewrite ConnMachine.mach_bind. unfold ConnMachine.host, zoom. cbn [snd ConnMachine.onChange worker_conn_hooks onConnChanged].
      destruct (notify_online true h Hc) as (h' & ms & -> & H). by exists h', ms. }
  cbn [ConnMachine.timerTry_ ConnMachine.timerTmo_ ConnMachine.state_]. rewrite (M_bind_eq _ _ _ _ _ E1).
  unfold ConnMachine.host, zoom. cbn [snd fst ConnMachine.doPong worker_conn_hooks]. unfold sendAnnounce.
  change (withGroup (Some WorkerHugz) Part_empty) with (Ok (mkPart [] 0 WorkerHugz false) : outcome part).
  rewrite bind_lift. unfold on_zdispatch, zoom, mbind, M_bind. rewrite send_one by (by rewrite Hz1).
  injection Hr1 as Htok Hsq Hcf Hsn Hsu Hw.
  eexists _, ms. split; [done|]. cbn [host_ conn_ ConnMachine.state_]. split_and!; try done.
  - destruct Hc1. by constructor.
  - intros _. cbn. by rewrite Hz1.
  - intros w. unfold seen. cbn. by rewrite Hw.
Qed.

Lemma takes_same h h' p : subscrTopic_ h' = subscrTopic_ h -> takes h' p = takes h p.
Proof. unfold takes. by intros ->. Qed.

(** Any message of a broker *)
Lemma message_step p s : arrives (host_ s) p -> can_deliver (host_ s) -> can_pong s ->
  exists s' ms, collectBrokerMessage p s = (Ok tt, s') /\ kept s s' /\
    sent_ (zevs_ (host_ s')) = sent_ (zevs_ (host_ s)) ++ ms /\
    Forall2 (delivered (token_ (host_ s))) (newer (option_list (heard (host_ s) p)) (seen (host_ s))) (filter is_delivery ms) /\
    (forall ts, newer (option_list (heard (host_ s) p) ++ ts) (seen (host_ s)) =
       newer (option_list (heard (host_ s) p)) (seen (host_ s)) ++ newer ts (seen (host_ s'))).
Proof.
  intros Ha Hc Hp. destruct (heard (host_ s) p) as [t|] eqn:Eh.
  - destruct (taken_step p t s Eh Ha Hc) as (s' & ms & E & H1 & H2 & H3 & H4 & H5 & Hm & Hseen). exists s', ms.
    split; [done|]. split; [unfold kept; auto|]. split; [done|]. change (option_list (Some t)) with [t]. cbn [app newer].
    destruct (Z.leb_spec (seqn_ t) (seen (host_ s) (worker_ t))) as [Hle|Hlt].
    + subst ms. rewrite filter_nil. split; [constructor|]. intros ts. apply newer_ext. intros w. rewrite Hseen. case_decide; [subst; lia|done].
    + destruct Hm as (m & -> & Hm). rewrite filter_cons_True, filter_nil by (by rewrite (delivered_is _ _ _ Hm)). split; [by apply Forall2_cons_2; [|constructor]|].
      intros ts. cbn [app]. f_equal. apply newer_ext. intros w. rewrite Hseen. case_decide; [subst; lia|done].
  - change (option_list None) with (@nil topic). cbn [app newer]. destruct (decide (group p = BrokerHugz)) as [Hg|Hg].
    + destruct (hugz_step p s Hg Hc Hp) as (s' & ms & E & Hk & Hs & Hf & Hseen). exists s', ms. rewrite Hf.
      split_and!; try done. intros ts. apply newer_ext. intros w. by rewrite Hseen.
    + exists s, []. rewrite app_nil_r, filter_nil. split_and!; try done. unfold collectBrokerMessage.
      rewrite bind_get, decide_False by done. unfold heard, takes in Eh. rewrite bool_decide_eq_false_2 in Eh by done.
      cbn [negb andb] in Eh. destruct (_ || _)%bool eqn:Eg; [|done]. exfalso. destruct Ha as (_ & _ & _ & Ha).
      destruct Ha as [t Ht]; [unfold takes; by rewrite bool_decide_eq_false_2, Eg by done|]. by rewrite Ht in Eh.
Qed.

Lemma arrives_same h h' p : subscrTopic_ h' = subscrTopic_ h -> arrives h p -> arrives h' p.
Proof. intros Hs (H1 & H2 & H3 & H4). split_and!; try done. by rewrite (takes_same h h'). Qed.

Lemma delivery_all ps : forall s, Forall (arrives (host_ s)) ps -> can_deliver (host_ s) -> can_pong s ->
  exists s' ms, mfor ps collectBrokerMessage s = (Ok tt, s') /\
    sent_ (zevs_ (host_ s')) = sent_ (zevs_ (host_ s)) ++ ms /\
    Forall2 (delivered (token_ (host_ s))) (newer (omap (heard (host_ s)) ps) (seen (host_ s))) (filter is_delivery ms).
Proof.
  induction ps as [|p ps IH]; intros s Hps Hc Hp.
  - exists s, []. rewrite app_nil_r, filter_nil. by repeat constructor.
  - apply Forall_cons in Hps as [Ha Hps].
    destruct (message_step p s Ha Hc Hp) as (s1 & ms1 & E1 & (Hc1 & Hp1 & Htk & Hsu) & Hs1 & Hd1 & Hn).
    destruct (IH s1) as (s2 & ms2 & E2 & Hs2 & Hd2); [|done|done|].
    { eapply Forall_impl; [exact Hps|]. intros q. by apply arrives_same. }
    exists s2, (ms1 ++ ms2). cbn [mfor]. rewrite (M_bind_eq _ _ _ _ _ E1). split_and!; [done|by rewrite Hs2, Hs1, app_assoc|].
    assert (omap (heard (host_ s)) (p :: ps) = option_list (heard (host_ s) p) ++ omap (heard (host_ s)) ps) as ->
      by (cbn; by destruct (heard (host_ s) p)).
    rewrite Hn, filter_app. apply Forall2_app; [done|]. rewrite Htk in Hd2.
    assert (omap (heard (host_ s)) ps = omap (heard (host_ s1)) ps) as ->; [|done].
    apply list_omap_ext. apply Forall2_same_length_lookup. split; [done|]. intros i x y Hx Hy.
    rewrite Hx in Hy. injection Hy as ->. unfold heard. by rewrite (takes_same (host_ s) (host_ s1)).
Qed.

(** ** The sequence number of the worker *)

(** The numbers the next dispatch depends on *)
Definition own_key (h : whost) := (uuid_ (conf_ h), seqNum_ h, workerSeqNum_ h).

(** No topic of this worker was seen with a number above the one last used. *)
Definition own_ok (h : whost) : Prop := in_width 8 (seqNum_ h) /\ seen h (uuid_ (conf_ h)) <= seqNum_ h.

Lemma own_ok_key h h' : own_key h' = own_key h -> own_ok h -> own_ok h'.
Proof. unfold own_ok, seen. intros [= -> -> ->]. done. Qed.

Lemma own_key_rest h h' : rest h' = rest h -> own_key h' = own_key h.
Proof. unfold own_key. by intros [= _ _ -> -> _ ->]. Qed.

(** Code of the host that keeps the numbers *)
Definition keeps_own {A} (m : M whost A) : Prop := forall h a h',
  host_fine h -> m h = (Ok a, h') -> own_ok h -> own_ok h'.

Lemma keeps_own_bind {A B} (m : M whost A) (k : A -> M whost B) :
  quiet m -> keeps_own m -> (forall a, keeps_own (k a)) -> keeps_own (m ≫= k).
Proof.
  intros Hq Hm Hk h b h' Hh E Ho. apply M_bind_Ok in E as (a & h1 & E1 & E2).
  apply (Hk a h1 b h'); [|done|by eapply Hm]. by apply (Hq h (Ok a) h1).
Qed.

Lemma keeps_own_key {A} (m : M whost A) : (forall h o h', m h = (o, h') -> own_key h' = own_key h) ->
  keeps_own m.
Proof. intros Hm h a h' _ E. by apply own_ok_key, (Hm h (Ok a)). Qed.

Lemma keeps_own_sendEvent ev pay :
  ev <> Event.COUNT -> (length (p_group pay) <= ZMQ_GROUP_MAX_LENGTH)%nat -> keeps_own (w_sendEvent ev pay).
Proof.
  intros Hev Hg. apply keeps_own_key. intros h o h' E.
  apply w_sendEvent_result in E as (_ & _ & H3 & _); [|done..]. by apply own_key_rest.
Qed.

Lemma keeps_own_notify : keeps_own notifySequenceNumber.
Proof.
  apply keeps_own_key. intros h o h'. unfold notifySequenceNumber, on_zseqs, zoom.
  destruct (trySend _ _) as [[n| | |] z]; [destruct (n =? -1)|..]; by intros [= _ <-].
Qed.

(** A topic of this worker with a higher number moves the number of the worker up. *)
Lemma keeps_own_acceptTopic p : fits (p_data p) -> keeps_own (acceptTopic p).
Proof.
  intros Hd h a h' [Hu Hc] E Ho. unfold acceptTopic in E.
  apply M_bind_Ok in E as (t & h0 & [= Ht <-] & E). apply M_bind_Ok in E as (ok & h1 & E1 & E).
  pose proof (acceptSeq_spec (worker_ t) (seqn_ t) h Hc) as Hs.
  destruct (seqn_ t <=? seen h (worker_ t)).
  { rewrite Hs in E1. injection E1 as <- <-. by injection E as <- <-. }
  destruct Hs as (c & Hs & Hi & Hcap & Hit). rewrite Hs in E1. injection E1 as <- <-. cbn [negb] in E.
  pose proof (fun w => seen_put c _ _ _ w (inv_keys _ (proj1 Hc)) Hit) as Hseen.
  unfold own_ok in *. unfold mbind at 1, M_bind at 1, Prelude.get in E.
  change (conf_ (set_workerSeqNum c h)) with (conf_ h) in E.
  change (seqNum_ (set_workerSeqNum c h)) with (seqNum_ h) in E.
  destruct (negb (uuid_eqb (worker_ t) (uuid_ (conf_ h))) || (seqn_ t <=? seqNum_ h))%bool eqn:Eb.
  - injection E as <- <-. change (conf_ (set_workerSeqNum c h)) with (conf_ h). rewrite Hseen.
    change (seqNum_ (set_workerSeqNum c h)) with (seqNum_ h). split; [apply Ho|]. case_decide as Ew; [|apply Ho].
    unfold uuid_eqb in Eb. rewrite bool_decide_eq_true_2 in Eb by done. cbn in Eb. lia.
  - apply M_bind_Ok in E as (? & h2 & [= <- <-] & E). apply M_bind_Ok in E as ([] & h3 & E3 & [= <- <-]).
    refine (keeps_own_notify _ _ _ _ E3 _).
    + split; [done|]. destruct Hc as (_ & _ & Hc). done.
    + unfold own_ok. apply orb_false_iff in Eb as [Eb _]. apply negb_false_iff in Eb.
      unfold uuid_eqb in Eb. apply bool_decide_eq_true in Eb.
      split; [by apply topic_fromPart_sound in Ht as (_ & _ & _ & _ & _ & []); [|done]|].
      change (seen (set_workerSeqNum c h) (uuid_ (conf_ h)) <= seqn_ t). rewrite Hseen, decide_True by done. lia.
Qed.

(** Actions of the session that keep the numbers *)
Definition holds_own {A} (m : M wsession A) : Prop := forall s a s',
  session_inv s -> m s = (Ok a, s') -> own_ok (host_ s) -> own_ok (host_ s').

Lemma holds_bind {A B} (m : M wsession A) (k : A -> M wsession B) :
  preserves m -> holds_own m -> (forall a, holds_own (k a)) -> holds_own (m ≫= k).
Proof.
  intros Hp Hm Hk s b s' Hs E Ho. apply M_bind_Ok in E as (a & s1 & E1 & E2).
  apply (Hk a s1 b s'); [|done|by eapply Hm]. by eapply (Hp s (Ok a) s1).
Qed.

Lemma holds_ret {A} (a : A) : holds_own (mret a).
Proof. by intros s b s' Hs [= _ <-]. Qed.

Lemma holds_lift {A B} (o : outcome A) (k : A -> M wsession B) :
  (forall a, o = Ok a -> holds_own (k a)) -> holds_own (lift o ≫= k).
Proof. intros Hk s b s' Hs E. apply M_bind_Ok in E as (a & s1 & [= Ho <-] & E). by eapply Hk. Qed.

Lemma holds_get {A} (k : wsession -> M wsession A) :
  (forall s, holds_own (k s)) -> holds_own (get ≫= k).
Proof. intros Hk s a s' Hs E. by apply (Hk s s a s'). Qed.

Lemma holds_host {A} (m : M whost A) : keeps_own m -> holds_own (on_host m).
Proof.
  intros Hm [c y h] a s' Hs. unfold on_host, zoom. cbn [host_ conn_ sync_].
  destruct (m h) as [o1 h1] eqn:E. intros [= -> <-]. cbn [host_]. apply (Hm h a h1); [|done].
  destruct Hs as [_ (_ & _ & Hu & _) Hc]. done.
Qed.

Lemma holds_conn e : holds_own (on_conn (ConnMachine.handle e)).
Proof.
  intros [c y h] a s' Hs. unfold on_conn, zoom. cbn [host_ conn_ sync_].
  destruct (ConnMachine.handle e (c, h)) as [o1 [c1 h1]] eqn:E. intros [= _ <-]. cbn [host_ snd].
  apply conn_frame in E as [E _]. by apply own_ok_key, own_key_rest.
Qed.

Lemma holds_sync e : holds_own (on_sync (SyncMachine.handle e)).
Proof.
  intros [c y h] a s' [_ Hs _]. unfold on_sync, zoom. cbn [host_ conn_ sync_] in *.
  destruct (SyncMachine.handle e (y, h)) as [o1 [c1 h1]] eqn:E. intros [= _ <-]. cbn [host_ snd].
  apply SyncMachine.sync_handle_inv in E as (_ & _ & E & _); [|done].
  apply sync_hooks_frame in E as (_ & E & _); [|apply Hs]. by apply own_ok_key, own_key_rest.
Qed.

Lemma holds_onReply i n r : holds_own (on_sync (SyncMachine.onReply i n r)).
Proof.
  intros s a s' Hs. pose proof (holds_sync (SyncMachine.Reply i n r) s tt) as Hp.
  unfold on_sync, zoom, SyncMachine.handle, mbind, M_bind in *.
  destruct (SyncMachine.onReply i n r (sync_ s, host_ s)) as [[b|e| |] s1]; try discriminate.
  intros [= _ <-]. by apply Hp.
Qed.

Lemma keeps_own_setBroker f : (forall h, own_key (f h) = own_key h) -> keeps_own (modify f).
Proof. intros Hf. apply keeps_own_key. intros h o h' [= _ <-]. apply Hf. Qed.

Lemma keeps_own_sendBrokerEvent ev : ev <> Event.COUNT -> keeps_own (sendBrokerEvent ev).
Proof.
  intros Hev h a h' [[Hu Hb] Hc] E. apply sendBrokerEvent_result in E as (_ & _ & E & _); [|done..].
  by apply own_ok_key, own_key_rest.
Qed.

Lemma holds_snapshot p : part_fine p -> holds_own (recvBrokerSnapshot p).
Proof.
  intros [Hd Hg]. apply holds_lift. intros fs Hfs.
  apply unpack_types in Hfs as [Ht Hok]; [|repeat constructor; done || lia|done]. shape Ht.
  repeat (apply Forall_cons in Hok as [? Hok]). cbn [field_ok] in *.
  assert (fits (p_data (Part_bytes s0))) as Hf by (unfold fits, u64_max, u32_max in *; cbn; lia).
  destruct (uuid_fromPart_result (Part_bytes s0) Hf) as (_ & _ & H4).
  repeat case_decide.
  - apply holds_lift. intros u Hu. apply holds_bind; [apply preserves_host|apply holds_host|intros _].
    + apply quiet_setBroker. intros h. right. eauto.
    + by apply keeps_own_setBroker.
    + by apply holds_host, keeps_own_sendBrokerEvent.
  - apply holds_bind; [by apply preserves_host, quiet_acceptTopic|
      by apply holds_host, keeps_own_acceptTopic|intros _].
    apply holds_bind; [apply preserves_host, quiet_sendEvent|
      apply holds_host, keeps_own_sendEvent|intros _]; [done|cbn; lia|done|cbn; lia|].
    apply holds_bind; [apply preserves_onReply|apply holds_onReply|intros _; apply holds_ret].
  - apply holds_lift. intros u Hu. apply holds_bind; [apply preserves_host|apply holds_host|intros _].
    + apply quiet_setBroker. intros h. destruct (uuid_eqb u (brokerUuid_ h)); [by left|right; eauto].
    + apply keeps_own_setBroker. intros h. by case_goal.
    + apply holds_bind; [apply preserves_onReply|apply holds_onReply|intros _; apply holds_ret].
  - apply holds_ret.
Qed.

Lemma holds_delivery p : part_fine p -> holds_own (collectBrokerMessage p).
Proof.
  intros [Hd Hg]. apply holds_get. intros s. case_decide; [apply (holds_conn ConnMachine.Ping)|].
  case_goal; [|apply holds_ret].
  apply holds_bind; [by apply preserves_host, quiet_acceptTopic|
    by apply holds_host, keeps_own_acceptTopic|intros ok].
  destruct ok; [by apply holds_host, keeps_own_sendEvent|apply holds_ret].
Qed.

(** Operations other than a start *)
Lemma holds_operation op s s' : oper_fine op -> Operation.type_ op <> Operation.Start ->
  seqNum_ (host_ s) < u64_max - 1 -> session_inv s -> operationReady op s = (Ok tt, s') ->
  own_ok (host_ s) -> own_ok (host_ s').
Proof.
  intros [[Hd Hg] _] Hst Hn Hs E. unfold operationReady in E.
  destruct (Operation.type_ op); try done; try (by injection E as <-).
  - revert E. apply (holds_bind _ _ (preserves_conn ConnMachine.Stop) (holds_conn ConnMachine.Stop)); [|done].
    intros _. apply (holds_bind _ _ (preserves_sync SyncMachine.Halt) (holds_sync SyncMachine.Halt)).
    intros _. by apply holds_host, keeps_own_sendEvent.
  - intros Ho. apply M_bind_Ok in E as ([] & s1 & [= <-] & E).
    assert (own_ok (set_seqNum (wrap64 (seqNum_ (host_ s) + 1)) (host_ s))) as Ho1.
    { destruct Ho as [Hw Ho]. split; [apply wrapn_in_width|]. cbn [seqNum_ conf_ set_seqNum].
      change (seen (set_seqNum _ (host_ s))) with (seen (host_ s)).
      unfold in_width in Hw. cbn in Hw. rewrite wrap64_id by lia. lia. }
    revert E Ho1. set (s1 := mkSession _ _ _).
    assert (session_inv s1) as Hs1.
    { destruct Hs as [H1 H2 H3]. constructor; done. }
    intros E Ho1. refine (holds_bind _ _ (preserves_host _ quiet_notify)
      (holds_host _ keeps_own_notify) _ s1 tt s' Hs1 E Ho1).
    intros _. apply holds_get. intros s2. apply holds_lift. intros m _.
    intros s3 b s4 _ E2. apply M_bind_Ok in E2 as (z & s5 & E2 & [= _ <-]).
    revert E2. unfold on_host, on_zdispatch, zoom. destruct (send _ _) as [o1 z1].
    intros [= _ <-]. by apply own_ok_key.
  - revert E. apply holds_bind; [apply preserves_host, quiet_setBroker|apply holds_host|intros _|done].
    + intros h. right. by exists nil_uuid.
    + by apply keeps_own_setBroker.
    + apply (holds_sync SyncMachine.Sync).
Qed.

(** A start gives the session the number of its configuration. *)
Lemma saveConfiguration_numbers p h h' : fits (p_data p) -> saveConfiguration p h = (Ok tt, h') ->
  in_width 8 (seqNum_ h') /\ workerSeqNum_ h' = workerSeqNum_ h.
Proof.
  intros Hd E. apply M_bind_Ok in E as (conf & h0 & [= Hconf <-] & E).
  apply WorkerConfig_fromPart_uuid in Hconf as [_ Hn]; [|done].
  apply M_bind_Ok in E as (? & h1 & [= _ <-] & E). apply M_bind_Ok in E as (? & h2 & [= _ <-] & E).
  apply M_bind_Ok in E as (? & h3 & E & [= <-]). split; [done|]. cbn [workerSeqNum_ set_seqNum].
  assert (forall ns ha u hb, mfor ns (fun n => h ← get; '(_, c) ← lift (put n false (subscrTopic_ h));
    modify (set_subscrTopic c)) ha = (Ok u, hb) -> workerSeqNum_ hb = workerSeqNum_ ha) as Hl.
  { induction ns as [|n ns IH]; intros ha u hb; cbn [mfor]; [by intros [= _ <-]|].
    intros K. apply M_bind_Ok in K as (? & hc & K & K2). apply IH in K2 as ->.
    apply M_bind_Ok in K as (? & hd & [= <- <-] & K). apply M_bind_Ok in K as ([i c] & he & [= _ <-] & K).
    by injection K as _ <-. }
  by apply Hl in E as ->.
Qed.

(** A session from its start on: inputs other than another start, before the sequence number
    reaches its maximum *)
Inductive running : wsession -> Prop :=
  | running_start token conf0 seq0 zevs zseqs s op s' :
    uuid_ok (uuid_ conf0) -> WorkerSession (new_host token conf0 seq0 zevs zseqs) = (Ok tt, s) ->
    Operation.type_ op = Operation.Start -> oper_fine op -> operationReady op s = (Ok tt, s') ->
    running s'
  | running_step i s s' :
    running s -> input_fine i -> (forall op, i = IOper op -> Operation.type_ op <> Operation.Start) ->
    seqNum_ (host_ s) < u64_max - 1 -> winput_step i s = (Ok tt, s') -> running s'.

Lemma running_reachable s : running s -> reachable s.
Proof.
  induction 1 as [token conf0 seq0 zevs zseqs s op s' Hu E Hty Hop E2|i s s' _ IH Hi _ _ E].
  - eapply (reach_step (IOper op)); [by eapply reach_new|done|done].
  - by eapply reach_step.
Qed.

Lemma start_own token conf0 seq0 zevs zseqs s op s' :
  uuid_ok (uuid_ conf0) -> WorkerSession (new_host token conf0 seq0 zevs zseqs) = (Ok tt, s) ->
  Operation.type_ op = Operation.Start -> oper_fine op -> operationReady op s = (Ok tt, s') ->
  own_ok (host_ s').
Proof.
  intros Hu E Hty Hop E2. assert (session_inv s) as Hs by (apply worker_reachable_inv; by eapply reach_new).
  assert (workerSeqNum_ (host_ s) = LRUCache 0) as Hw.
  { assert (s = (WorkerSession (new_host token conf0 seq0 zevs zseqs)).2) as -> by (by rewrite E). done. }
  destruct Hop as [[Hd Hg] Hdef]. unfold operationReady in E2. rewrite Hty in E2.
  apply M_bind_Ok in E2 as ([] & s1 & E1 & E2).
  pose proof (preserves_host _ (quiet_saveConfiguration _ Hd (Hdef Hty)) s _ _ Hs E1) as [_ Hs1].
  specialize (Hs1 tt eq_refl). unfold on_host, zoom in E1.
  destruct (saveConfiguration _ (host_ s)) as [o1 h1] eqn:Ec. injection E1 as -> <-.
  apply saveConfiguration_numbers in Ec as [Hn Hws]; [|done].
  assert (own_ok h1) as Ho.
  { split; [done|]. unfold seen. rewrite Hws, Hw. cbn. apply Hn. }
  refine (holds_bind _ _ (preserves_host _ (quiet_sendEvent _ _ _ Hg))
    (holds_host _ (keeps_own_sendEvent _ _ _ Hg)) (fun _ => holds_conn ConnMachine.Start) _ _ _ Hs1 E2 Ho);
    done.
Qed.

Lemma running_own s : running s -> own_ok (host_ s).
Proof.
  induction 1 as [token conf0 seq0 zevs zseqs s op s' Hu E Hty Hop E2|i s s' Hr IH Hi Hns Hn E].
  - by eapply start_own.
  - pose proof (worker_reachable_inv s (running_reachable s Hr)) as Hs. revert IH.
    destruct i as [op|r|b|]; cbn [winput_step input_fine] in *.
    + by apply (holds_operation op s); auto.
    + revert Hs E. apply (fun m => m : holds_own (socketReady r)). destruct r; cbn [socketReady].
      * by apply holds_snapshot.
      * by apply holds_delivery.
      * apply (holds_conn ConnMachine.RetryFired).
      * apply (holds_conn ConnMachine.TimeoutFired).
      * apply (holds_sync SyncMachine.TimeoutFired).
      * by intros s1 a s2 _ [=].
    + by apply (holds_conn _ _ _ _ Hs E).
    + by apply (holds_sync _ _ _ _ Hs E).
Qed.

(** [Dispatch] on a session whose sockets take the messages *)
Lemma dispatch_spec op t s :
  Operation.type_ op = Operation.Dispatch -> fits (p_data (Operation.payld_ op)) ->
  topic_fromPart (Operation.payld_ op) = Ok t ->
  accepts true (zseqs_ (host_ s)) -> accepts false (zdispatch_ (host_ s)) ->
  let n := wrap64 (seqNum_ (host_ s) + 1) in
  exists m s', operationReady op s = (Ok tt, s') /\
    group m = WorkerUpdt /\ topic_fromPart m = Ok (withSeqNum n t) /\
    conn_ s' = conn_ s /\ sync_ s' = sync_ s /\
    host_ s' = set_zdispatch (log_call [m] (zdispatch_ (host_ s)))
                 (set_zseqs (log_call [Part_uint64 n] (zseqs_ (host_ s))) (set_seqNum n (host_ s))) /\
    fits (p_data m).
Proof.
  intros Hty Hd Ht Hsq Hdi n. destruct s as [c y h]. cbn [host_ conn_ sync_] in *.
  destruct (part_withSeqNum_topic (Operation.payld_ op) t n) as (q & Eq & Hq & Hsz & _); [done|apply wrapn_in_width|done|].
  exists (mkPart (p_data q) (p_rid q) WorkerUpdt (p_more q)). eexists. split.
  - unfold operationReady. rewrite Hty. unfold on_host, on_zdispatch, zoom, mbind at 1, M_bind at 1, modify.
    cbn [host_ conn_ sync_]. fold n. unfold mbind at 1, M_bind at 1. cbn [host_ conn_ sync_].
    rewrite notify_ok by done. rewrite bind_get. cbn [host_ seqNum_ set_zseqs set_seqNum]. rewrite Eq.
    assert ((p ← Ok q; withGroup (Some WorkerUpdt) p) =
      Ok (mkPart (p_data q) (p_rid q) WorkerUpdt (p_more q))) as -> by done.
    rewrite bind_lift. unfold mbind, M_bind. cbn [host_ conn_ sync_ zdispatch_ set_zseqs set_seqNum].
    rewrite send_one by done. reflexivity.
  - split_and!; try done. unfold fits, zlen, Part.size in *. cbn [p_data]. by rewrite Hsz.
Qed.

End WithEnv.

(** ** Theorems *)

(** C5: At most once, in order, nothing newer lost: whatever messages brokers send to a worker session,
    in any groups, repeated and through several brokers, as long as those in the groups it takes
    carry topics and its sockets accept messages.  The messages it takes are those in the group UPDT
    and in the groups of the names it subscribed to, but for the group HUGZ, where every
    message is a keepalive whatever it carries (so a topic named HUGZ is lost when it comes in the
    group of its name).  The topics that reach the user are exactly those of the messages it
    takes that are newer than all the earlier ones of the same worker, each in one Delivery event that
    carries the topic unchanged; so the topics of each worker reach the user with strictly
    increasing sequence numbers. *)
Theorem delivery_in_order (P : Platform) (Z_ : Zmq) (s : wsession) (ps : list part) :
  reachable s -> in_width 1 (token_ (host_ s)) ->
  accepts false (zevs_ (host_ s)) -> accepts true (zseqs_ (host_ s)) -> can_pong s ->
  Forall (arrives (host_ s)) ps ->
  let ts := omap (heard (host_ s)) ps in
  exists s' ms, mfor ps collectBrokerMessage s = (Ok tt, s') /\
    sent_ (zevs_ (host_ s')) = sent_ (zevs_ (host_ s)) ++ ms /\
    Forall2 (delivered (token_ (host_ s))) (newer ts (seen (host_ s))) (filter is_delivery ms) /\
    forall w, StronglySorted Z.lt (seen (host_ s) w ::
      (seqn_ <$> filter (fun t => worker_ t = w) (newer ts (seen (host_ s))))).
Proof.
  intros [_ _ Hc]%worker_reachable_inv Htok Hev Hsq Hp Hps ts.
  destruct (delivery_all ps s Hps) as (s' & ms & E & H1 & H2); [by constructor|done|].
  exists s', ms. split_and!; [done..|]. apply newer_sorted.
Qed.

Definition topic_of (w : byte) (n : string) (seqn : Z) (data : string) : topic :=
  mkTopic nil_uuid (replicate 16 w) seqn (Name (str n)) (Part_bytes (str data)) State.
Definition update_part (g : string) (t : topic) : part :=
  match @topic_toPart x86_64 t with Ok p => mkPart (p_data p) 0 (str g) false | _ => Part_empty end.

(** A session that subscribed to the names a and HUGZ *)
Definition names_op : Operation.operation :=
  Operation.mkOp Operation.Start Operation.Success
    (match @WorkerConfig_toPart x86_64 (mkWorkerConfig (uuid_ sample_wconfig) (seqNum sample_wconfig) false
             [Name (str "a"); Name (str "HUGZ")] (endpDelivery sample_wconfig) (endpDispatch sample_wconfig)
             (endpSnapshot sample_wconfig)) with Ok p => p | _ => Part_empty end).
Definition names_session : wsession := default sample_start (@run x86_64 ok_zmq [IOper names_op] sample_start).

Lemma names_reachable : @reachable x86_64 ok_zmq names_session.
Proof.
  assert (match @run x86_64 ok_zmq [IOper names_op] sample_start with Some _ => true | None => false end = true) as K
    by (vm_compute; reflexivity).
  unfold names_session. destruct (@run x86_64 ok_zmq [IOper names_op] sample_start) as [s|] eqn:E; [|discriminate K].
  refine (worker_reachable_run [IOper names_op] sample_start s sample_reachable _ E).
  apply Forall_cons_2; [|constructor]. split; [split; vm_compute; [reflexivity|lia]|]. intros _. apply good_flag. vm_compute. reflexivity.
Qed.

(** Topics in the groups of all updates and of a name, repeated and late; a keepalive, a topic
    named HUGZ and a message of a group that is not taken *)
Definition sample_messages : list part :=
  [update_part "a" (topic_of Byte.x01 "a" 5 "v"); update_part "UPDT" (topic_of Byte.x01 "a" 5 "v");
   mkPart [] 0 BrokerHugz false; update_part "a" (topic_of Byte.x02 "a" 3 "w");
   update_part "HUGZ" (topic_of Byte.x02 "HUGZ" 4 "h"); mkPart (str "x") 0 (str "b") false;
   update_part "a" (topic_of Byte.x01 "a" 4 "u"); update_part "UPDT" (topic_of Byte.x01 "a" 6 "z")].
Definition sample_delivered : list topic :=
  [topic_of Byte.x01 "a" 5 "v"; topic_of Byte.x02 "a" 3 "w"; topic_of Byte.x01 "a" 6 "z"].

Definition carries_topic (p : part) : bool := match @topic_fromPart x86_64 p with Ok _ => true | _ => false end.
Lemma sample_arrive : Forall (@arrives x86_64 (host_ names_session)) sample_messages.
Proof.
  assert (forall p, (bool_decide (p_rid p = 0) && (zlen (p_data p) <? u32_max - 6) &&
    (length (p_group p) <=? ZMQ_GROUP_MAX_LENGTH)%nat && (negb (takes (host_ names_session) p) || carries_topic p))%bool = true ->
    @arrives x86_64 (host_ names_session) p) as Hp.
  { intros p [[[H1%bool_decide_eq_true H2%Z.ltb_lt]%andb_true_iff H3%Nat.leb_le]%andb_true_iff H4]%andb_true_iff.
    split_and!; try done. intros Ht. rewrite Ht in H4. unfold carries_topic in H4.
    destruct (topic_fromPart p); [by eexists|discriminate H4..]. }
  repeat (apply Forall_cons_2; [apply Hp; vm_compute; reflexivity|]). constructor.
Qed.

Lemma delivery_in_order_witness :
  exists s' ms, mfor sample_messages (@collectBrokerMessage x86_64 ok_zmq) names_session = (Ok tt, s') /\
    Forall2 (@delivered x86_64 1) sample_delivered (filter (@is_delivery x86_64) ms).
Proof.
  destruct (delivery_in_order x86_64 ok_zmq names_session sample_messages) as (s' & ms & H1 & _ & H3 & _).
  - exact names_reachable.
  - vm_compute. split; [discriminate|reflexivity].
  - exists (10%nat, 0%nat). split; [vm_compute; reflexivity|reflexivity].
  - exists (11%nat, 0%nat). split; [vm_compute; reflexivity|reflexivity].
  - intros _. exists (3%nat, 0%nat). split; [vm_compute; reflexivity|reflexivity].
  - exact sample_arrive.
  - exists s', ms. split; [exact H1|].
    assert (newer (omap (@heard x86_64 (host_ names_session)) sample_messages) (seen (host_ names_session)) = sample_delivered) as En
      by (vm_compute; reflexivity).
    rewrite En in H3. exact H3.
Defined.

(** Dispatch: the user's topic leaves the worker as one update message that decodes to the
    same topic with the next sequence number, which is also stored and reported to the main
    thread; nothing else of the session changes. *)
Theorem dispatch_sends (P : Platform) (Z_ : Zmq) (s : wsession) (op : Operation.operation) (t : topic) :
  Operation.type_ op = Operation.Dispatch -> fits (p_data (Operation.payld_ op)) ->
  topic_fromPart (Operation.payld_ op) = Ok t ->
  accepts true (zseqs_ (host_ s)) -> accepts false (zdispatch_ (host_ s)) ->
  let n := (seqNum_ (host_ s) + 1) mod 2 ^ 64 in
  exists m s', operationReady op s = (Ok tt, s') /\
    group m = WorkerUpdt /\ topic_fromPart m = Ok (withSeqNum n t) /\
    conn_ s' = conn_ s /\ sync_ s' = sync_ s /\
    host_ s' = set_zdispatch (log_call [m] (zdispatch_ (host_ s)))
                 (set_zseqs (log_call [Part_uint64 n] (zseqs_ (host_ s))) (set_seqNum n (host_ s))).
Proof.
  intros Hty Hd Ht Hsq Hdi. destruct (dispatch_spec op t s Hty Hd Ht Hsq Hdi) as (m & s' & H1 & H2 & H3 & H4 & H5 & H6 & _).
  exists m, s'. done.
Qed.

Definition dispatch_op (t : topic) : Operation.operation :=
  Operation.mkOp Operation.Dispatch Operation.Success
    (match @topic_toPart x86_64 t with Ok p => p | _ => Part_empty end).
Definition sample_started : wsession := (@operationReady x86_64 ok_zmq start_op sample_start).2.

Lemma dispatch_sends_witness :
  exists m s', @operationReady x86_64 ok_zmq (dispatch_op (topic_of Byte.x01 "a" 0 "v")) sample_started =
      (Ok tt, s') /\
    @topic_fromPart x86_64 m = Ok (withSeqNum ((seqNum_ (host_ sample_started) + 1) mod 2 ^ 64)
                                     (topic_of Byte.x01 "a" 0 "v")).
Proof.
  destruct (dispatch_sends x86_64 ok_zmq sample_started (dispatch_op (topic_of Byte.x01 "a" 0 "v"))
    (topic_of Byte.x01 "a" 0 "v")) as (m & s' & H1 & _ & H3 & _).
  - reflexivity.
  - vm_compute. reflexivity.
  - vm_compute. reflexivity.
  - exists (11%nat, 0%nat). split; [vm_compute; reflexivity|reflexivity].
  - exists (3%nat, 0%nat). split; [vm_compute; reflexivity|reflexivity].
  - exists m, s'. split; [exact H1|exact H3].
Defined.

(** C26: Fresh numbers: from its start on, and until the 64-bit number is used up, a worker session
    never holds a number below one it has seen on a topic of its own, whatever it receives
    (snapshots and updates of an earlier run of the same worker included); so its next
    dispatch is newer than all of them and a broker that stored them accepts it. *)
Theorem own_number_fresh (P : Platform) (Z_ : Zmq) (s : wsession) :
  running s -> seqNum_ (host_ s) < 2 ^ 64 - 1 ->
  seen (host_ s) (uuid_ (conf_ (host_ s))) < (seqNum_ (host_ s) + 1) mod 2 ^ 64.
Proof.
  intros [Hw Ho]%running_own Hlt. unfold in_width in Hw. rewrite Z.mod_small by (cbn in *; lia). lia.
Qed.

Definition own_update : part :=
  update_part "UPDT" (mkTopic nil_uuid (uuid_ sample_wconfig) 41 (Name (str "a")) (Part_bytes (str "v")) State).
Definition sample_resumed : wsession :=
  (@winput_step x86_64 ok_zmq (IReady (WDelivery own_update)) sample_started).2.

Lemma started_step : @operationReady x86_64 ok_zmq start_op sample_start = (Ok tt, sample_started).
Proof.
  refine (step_Ok (@operationReady x86_64 ok_zmq start_op) sample_start tt _). vm_compute. reflexivity.
Qed.
Lemma resumed_step :
  @winput_step x86_64 ok_zmq (IReady (WDelivery own_update)) sample_started = (Ok tt, sample_resumed).
Proof.
  refine (step_Ok (@winput_step x86_64 ok_zmq (IReady (WDelivery own_update))) sample_started tt _).
  vm_compute. reflexivity.
Qed.

(** After an update of an earlier run the number moves on. *)
Lemma own_number_fresh_witness :
  seqNum_ (host_ sample_resumed) = 41 /\
  seen (host_ sample_resumed) (uuid_ (conf_ (host_ sample_resumed))) <
    (seqNum_ (host_ sample_resumed) + 1) mod 2 ^ 64.
Proof.
  split; [vm_compute; reflexivity|]. apply (own_number_fresh x86_64 ok_zmq).
  - apply (running_step (IReady (WDelivery own_update)) sample_started).
    + apply (running_start 1 sample_wconfig 0 (sample_zsock 10 RADIO) (sample_zsock 11 PUSH)
        sample_start start_op); [reflexivity..| |].
      * split; [split; vm_compute; [reflexivity|lia]|]. intros _. apply good_flag. vm_compute. reflexivity.
      * exact started_step.
    + split; vm_compute; [reflexivity|lia].
    + intros op H. discriminate H.
    + vm_compute. reflexivity.
    + exact resumed_step.
  - vm_compute. reflexivity.
Defined.

End WorkerDelivery.
