(* ===== verification/Network.v ===== *)
(** * A network of workers and brokers

    The sessions of WorkerSession.v and BrokerSession.v composed: what a session sends on
    its sockets may arrive at the others, at any time, repeated, reordered or never.  The
    theorems follow a topic from the user that dispatches it to the users it is delivered
    to. *)

From S2P Require Import Prelude Part PartMulti Codec LruCache Uuid Topic Event Config.
From S2P Require Import Socket Session Timer ConnMachine SyncMachine.
From S2P Require Import BrokerSession WorkerSession WorkerInvariant WorkerDelivery.

Local Open Scope Z_scope.

Module Network.
Import Part PartMulti Codec LruCache Uuid Topic Config Socket SessionEnv Session WorkerSession
  WorkerInvariant WorkerDelivery.

Abbreviation get := Prelude.get.

(** As [respect], with the results of the steps *)
Ltac respect_with :=
  repeat first
    [ progress respect_step
    | match goal with
      | |- respects ?R (mbind ?k ?m) => apply (respects_bind_with R m k); [|intros ? ? ? ?]
      end ].

(** ** What a session may send *)

(** The log of a socket grows by messages that satisfy [Q]. *)
Definition grows (Q : part -> Prop) (s s' : sock) : Prop :=
  exists l, sent_ s' = sent_ s ++ l /\ Forall Q l.

#[export] Instance grows_preorder Q : PreOrder (grows Q).
Proof.
  split.
  - intros s. exists []. by rewrite app_nil_r.
  - intros s1 s2 s3 (l1 & H1 & F1) (l2 & H2 & F2). exists (l1 ++ l2).
    rewrite H2, H1, app_assoc. split; [done|]. by apply Forall_app.
Qed.

Section Sockets.
Context {Z_ : Zmq} (Q : part -> Prop).

Lemma grows_same s s' : sent_ s' = sent_ s -> grows Q s s'.
Proof. intros H. exists []. by rewrite H, app_nil_r. Qed.

Lemma respects_send_one b m : Q m -> respects (grows Q) (sendMessagePart b m).
Proof.
  intros Hm s. destruct (sendMessagePart b m s) as [o s'] eqn:E.
  apply sendMessagePart_result in E as (_ & _ & _ & l & Hl & Hor). exists l. split; [done|].
  destruct Hor as [->| ->]; by repeat constructor.
Qed.
Lemma respects_send m : Q m -> respects (grows Q) (send [m]).
Proof. apply respects_send_one. Qed.
Lemma respects_trySend m : Q m -> respects (grows Q) (trySend [m]).
Proof. apply respects_send_one. Qed.
Lemma respects_close : respects (grows Q) close.
Proof. intros s. destruct (close_spec s) as (s' & -> & _ & H & _). by apply grows_same. Qed.
Lemma respects_open action : (forall e, keeps (action e)) -> respects (grows Q) (open action).
Proof.
  intros Ha s. destruct (open action s) as [o s'] eqn:E. apply open_result in E as (_ & _ & H & _); [|done].
  by apply grows_same.
Qed.
Lemma respects_connect : respects (grows Q) connect.
Proof. apply respects_open, keeps_connect1. Qed.
Lemma respects_bind_ : respects (grows Q) bind.
Proof. apply respects_open, keeps_bind1. Qed.
Lemma respects_config g : (forall s, sent_ (g s) = sent_ s) -> respects (grows Q) (modify g).
Proof. intros Hg. apply respects_modify. intros s. by apply grows_same. Qed.

End Sockets.

Lemma lift_Ok {S A} (o : outcome A) (s s' : S) a : lift o s = (Ok a, s') -> o = Ok a.
Proof. by intros [= -> _]. Qed.
Lemma withGroup_data g p q : withGroup g p = Ok q -> p_data q = p_data p.
Proof. unfold withGroup, setGroup. intros E. repeat case_hyp; by simplify_eq. Qed.

Section Worker.
Context {P : Platform} {Z_ : Zmq} (H : topic -> Prop).

(** A message that carries no topic but those of [H] *)
Definition topic_from (m : part) : Prop := forall t, topic_fromPart m = Ok t -> H t.

(** An event message; the ones that bring a topic to the user bring one of [H]. *)
Definition brings (ev : Event.type) : Prop := ev = Event.Delivery \/ ev = Event.SyncElement.
Definition event_from (m : part) : Prop :=
  exists tok ev pay, event_message tok ev pay = Ok m /\
    (brings ev -> exists t, topic_fromPart pay = Ok t /\ H t).

Definition wgrows (h h' : whost) : Prop :=
  grows topic_from (zdispatch_ h) (zdispatch_ h') /\ grows event_from (zevs_ h) (zevs_ h').

#[local] Instance wgrows_preorder : PreOrder wgrows.
Proof.
  split.
  - intros h. by split.
  - intros h1 h2 h3 [? ?] [? ?]. split; by etrans.
Qed.

Lemma wgrows_same h h' : zdispatch_ h' = zdispatch_ h -> zevs_ h' = zevs_ h -> wgrows h h'.
Proof. intros H1 H2. by split; rewrite ?H1, ?H2. Qed.
Lemma wgrows_modify f : (forall h, zdispatch_ (f h) = zdispatch_ h /\ zevs_ (f h) = zevs_ h) ->
  respects wgrows (modify f).
Proof. intros Hf. apply respects_modify. intros h. by apply wgrows_same; apply Hf. Qed.

Lemma wgrows_zdispatch {A} (m : M sock A) : respects (grows topic_from) m -> respects wgrows (on_zdispatch m).
Proof. intros Hm. eapply respects_zoom; [done|]. intros h t Ht. by split. Qed.
Lemma wgrows_zevs {A} (m : M sock A) : respects (grows event_from) m -> respects wgrows (on_zevs m).
Proof. intros Hm. eapply respects_zoom; [done|]. intros h t Ht. by split. Qed.
Lemma wgrows_zdelivery {A} (m : M sock A) : respects wgrows (on_zdelivery m).
Proof. apply (respects_zoom _ (fun _ _ => True)); [done|]. intros. by apply wgrows_same. Qed.
Lemma wgrows_zsnapshot {A} (m : M sock A) : respects wgrows (on_zsnapshot m).
Proof. apply (respects_zoom _ (fun _ _ => True)); [done|]. intros. by apply wgrows_same. Qed.
Lemma wgrows_zseqs {A} (m : M sock A) : respects wgrows (on_zseqs m).
Proof. apply (respects_zoom _ (fun _ _ => True)); [done|]. intros. by apply wgrows_same. Qed.

Lemma wgrows_sendEvent ev pay : (brings ev -> exists t, topic_fromPart pay = Ok t /\ H t) ->
  respects wgrows (w_sendEvent ev pay).
Proof.
  intros Hev. unfold w_sendEvent. respect. apply wgrows_zevs. unfold sendEvent. intros s.
  destruct (event_message (token_ b) ev pay) as [m| | |] eqn:E; cbn; try reflexivity.
  apply (respects_bind (grows event_from) (send [m])); [|intros; exact (respects_ret (grows event_from) tt)].
  apply respects_send. exists (token_ b), ev, pay. done.
Qed.
(** The events that bring no topic *)
Lemma wgrows_plain ev pay : ~ brings ev -> respects wgrows (w_sendEvent ev pay).
Proof. intros Hev. by apply wgrows_sendEvent. Qed.

Lemma wgrows_notify : respects wgrows notifySequenceNumber.
Proof.
  intros h. unfold notifySequenceNumber. pose proof (wgrows_zseqs (trySend [Part_uint64 (seqNum_ h)]) h) as Hz.
  destruct (on_zseqs _ h) as [[n| | |] h']; try done. by destruct (n =? -1).
Qed.

(** The functions given to the machines *)
Lemma wgrows_announce : respects wgrows sendAnnounce.
Proof.
  assert (respects wgrows (on_zdispatch (send [mkPart [] 0 WorkerHugz false]);; mret tt)) as Hr; [|exact Hr].
  respect. apply wgrows_zdispatch, respects_send. intros t Ht. vm_compute in Ht. discriminate.
Qed.

Ltac leaf :=
  match goal with
  | |- respects _ (modify _) => apply wgrows_modify; (done || (intros; repeat case_goal; done))
  | |- respects _ (on_zdelivery _) => apply wgrows_zdelivery
  | |- respects _ (on_zsnapshot _) => apply wgrows_zsnapshot
  | |- respects _ snapClose => apply wgrows_zsnapshot
  | |- respects _ (on_zseqs _) => apply wgrows_zseqs
  | |- respects _ (on_zdispatch close) => apply wgrows_zdispatch, respects_close
  | |- respects _ (on_zdispatch connect) => apply wgrows_zdispatch, respects_connect
  | |- respects _ (on_zdispatch (modify _)) => apply wgrows_zdispatch, respects_config; done
  | |- respects _ (w_sendEvent _ _) => apply wgrows_plain; (intros [?|?]; discriminate)
  | |- respects _ notifySequenceNumber => apply wgrows_notify
  | |- respects _ sendAnnounce => apply wgrows_announce
  end.

Lemma wgrows_connUpdate b : respects wgrows (notifyConnectionUpdate b).
Proof. unfold notifyConnectionUpdate. destruct b; respect; leaf. Qed.
Lemma wgrows_snapshotDownload b : respects wgrows (notifySnapshotDownload b).
Proof. unfold notifySnapshotDownload. destruct b; respect; leaf. Qed.
Lemma wgrows_brokerEvent ev : ~ brings ev -> respects wgrows (sendBrokerEvent ev).
Proof. intros Hev. unfold sendBrokerEvent. respect. by apply wgrows_plain. Qed.

Lemma wgrows_onConnChanged st : respects wgrows (onConnChanged st).
Proof. unfold onConnChanged. respect; apply wgrows_connUpdate. Qed.
Lemma wgrows_onSyncChanged st : respects wgrows (onSyncChanged st).
Proof.
  unfold onSyncChanged. respect;
    first [apply wgrows_snapshotDownload|apply wgrows_brokerEvent; intros [?|?]; discriminate|leaf].
Qed.
Lemma wgrows_connClose : respects wgrows connClose.
Proof. unfold connClose. respect; leaf. Qed.
Lemma wgrows_connOpen : respects wgrows connOpen.
Proof. unfold connOpen. respect; leaf. Qed.
Lemma wgrows_snapOpen : respects wgrows snapOpen.
Proof. unfold snapOpen. respect; leaf. Qed.
Lemma wgrows_sendSync n : respects wgrows (sendSync n).
Proof. unfold sendSync. respect; leaf. Qed.

(** The machines: what their functions may send, the machine may *)
Definition pgrows {T} (a b : T * whost) : Prop := wgrows a.2 b.2.
#[local] Instance pgrows_preorder T : PreOrder (@pgrows T).
Proof. split; [by intros ?|]. intros ? ? ?. unfold pgrows. by etrans. Qed.

Lemma pgrows_conn_host {A} (m : M whost A) : respects wgrows m -> respects pgrows (ConnMachine.host m).
Proof. intros Hm. by eapply respects_zoom. Qed.
Lemma pgrows_sync_host {A} (m : M whost A) : respects wgrows m -> respects pgrows (SyncMachine.host m).
Proof. intros Hm. by eapply respects_zoom. Qed.
Lemma pgrows_conn_mach f : respects pgrows (@ConnMachine.mach whost f).
Proof. apply respects_modify. intros s. unfold pgrows. reflexivity. Qed.
Lemma pgrows_sync_mach f : respects pgrows (@SyncMachine.mach whost f).
Proof. apply respects_modify. intros s. unfold pgrows. reflexivity. Qed.

Ltac machine :=
  respect;
  match goal with
  | |- respects _ (ConnMachine.mach _) => apply pgrows_conn_mach
  | |- respects _ (SyncMachine.mach _) => apply pgrows_sync_mach
  | |- respects _ (ConnMachine.host _) => apply pgrows_conn_host;
      first [apply wgrows_connClose|apply wgrows_connOpen|apply wgrows_announce|apply wgrows_onConnChanged]
  | |- respects _ (SyncMachine.host _) => apply pgrows_sync_host;
      first [apply wgrows_zsnapshot|apply wgrows_snapOpen|apply wgrows_sendSync|apply wgrows_onSyncChanged]
  end.

Lemma pgrows_conn e : respects pgrows (ConnMachine.handle (H := whost) e).
Proof.
  unfold ConnMachine.handle, ConnMachine.onStart, ConnMachine.onStop, ConnMachine.onPing,
    ConnMachine.onTimerRetryFired, ConnMachine.onTimerTimeoutFired, ConnMachine.trigger, ConnMachine.halt,
    ConnMachine.change. machine.
Qed.
Lemma pgrows_conn_halt : respects pgrows (ConnMachine.halt (H := whost)).
Proof. unfold ConnMachine.halt, ConnMachine.change. machine. Qed.
Lemma pgrows_sync_new : respects pgrows (SyncMachine.SyncMachine (H := whost) 0 1 3000).
Proof.
  unfold SyncMachine.SyncMachine, SyncMachine.halt, SyncMachine.setNextIndex, SyncMachine.close,
    SyncMachine.change. machine.
Qed.
Lemma pgrows_onReply i n r : respects pgrows (SyncMachine.onReply (H := whost) i n r).
Proof. unfold SyncMachine.onReply, SyncMachine.change. machine. Qed.
Lemma pgrows_sync e : respects pgrows (SyncMachine.handle (H := whost) e).
Proof.
  pose proof pgrows_onReply as Hr.
  unfold SyncMachine.handle, SyncMachine.onHalt, SyncMachine.onSync, SyncMachine.onTimerTimeoutFired,
    SyncMachine.do_sync, SyncMachine.halt, SyncMachine.fail, SyncMachine.setNextIndex, SyncMachine.change,
    SyncMachine.close, SyncMachine.open. destruct e; machine || (respect; apply Hr).
Qed.

(** The session *)
Definition sgrows (s s' : wsession) : Prop := wgrows (host_ s) (host_ s').
#[local] Instance sgrows_preorder : PreOrder sgrows.
Proof. split; [by intros ?|]. intros ? ? ?. unfold sgrows. by etrans. Qed.

Lemma sgrows_host {A} (m : M whost A) : respects wgrows m -> respects sgrows (on_host m).
Proof. intros Hm. by eapply respects_zoom. Qed.
Lemma sgrows_conn {A} (m : M (conn * whost) A) : respects pgrows m -> respects sgrows (on_conn m).
Proof. intros Hm. by eapply respects_zoom. Qed.
Lemma sgrows_sync {A} (m : M (sync * whost) A) : respects pgrows m -> respects sgrows (on_sync m).
Proof. intros Hm. by eapply respects_zoom. Qed.

Lemma wgrows_accept p : respects wgrows (acceptTopic p).
Proof. unfold acceptTopic, acceptSeq. respect; leaf. Qed.

Lemma accept_decodes p s b s' : on_host (acceptTopic p) s = (Ok b, s') -> exists t, topic_fromPart p = Ok t.
Proof.
  unfold on_host, zoom. destruct (acceptTopic p (host_ s)) as [o h] eqn:E. intros [= -> <-].
  apply M_bind_Ok in E as (t & h1 & [= E _] & _). eauto.
Qed.

Lemma sgrows_collect p : topic_from p -> respects sgrows (collectBrokerMessage p).
Proof.
  intros Hp. unfold collectBrokerMessage. respect_with.
  - apply sgrows_conn, (pgrows_conn ConnMachine.Ping).
  - apply sgrows_host, wgrows_accept.
  - apply sgrows_host, wgrows_sendEvent. intros _.
    match goal with Ha : on_host _ _ = _ |- _ => apply accept_decodes in Ha as [t Ht] end. eauto.
Qed.

(** A snapshot message whose element, if it is one, carries a topic of [H] *)
Definition snap_from (m : part) : Prop := forall n syncseq params,
  unpack [TStr; TInt 1; TStr] (p_data m) = Ok [FStr BrokerSyncElemn; FInt n syncseq; FStr params] ->
  topic_from (Part_bytes params).

Lemma sgrows_snapshot p : snap_from p -> respects sgrows (recvBrokerSnapshot p).
Proof.
  intros Hp. unfold recvBrokerSnapshot. respect_with;
    try (apply sgrows_host; first [apply wgrows_accept|apply wgrows_brokerEvent; intros [?|?]; discriminate|leaf]);
    try (apply sgrows_sync, pgrows_onReply).
  apply sgrows_host, wgrows_sendEvent. intros _.
  match goal with Ha : on_host _ _ = _ |- _ => apply accept_decodes in Ha as [t Ht] end.
  exists t. split; [done|]. match goal with Hu : lift _ _ = _ |- _ => injection Hu as Hu _ end.
  subst. by eapply Hp.
Qed.

Lemma sgrows_oper op : Operation.type_ op <> Operation.Dispatch -> respects sgrows (operationReady op).
Proof.
  intros Hop. unfold operationReady. destruct (Operation.type_ op); try done; respect;
    first [apply sgrows_conn; first [apply (pgrows_conn ConnMachine.Start)|apply (pgrows_conn ConnMachine.Stop)]
          |apply sgrows_sync; first [apply (pgrows_sync SyncMachine.Halt)|apply (pgrows_sync SyncMachine.Sync)]
          |apply sgrows_host; first [leaf|unfold saveConfiguration; respect; leaf]].
Qed.

(** A dispatch: the message carries the number that follows. *)
Lemma sgrows_dispatch op t s : Operation.type_ op = Operation.Dispatch -> fits (p_data (Operation.payld_ op)) ->
  topic_fromPart (Operation.payld_ op) = Ok t -> H (withSeqNum (wrap64 (seqNum_ (host_ s) + 1)) t) ->
  sgrows s (operationReady op s).2.
Proof.
  intros Hty Hd Ht HH. unfold operationReady. rewrite Hty.
  set (n := wrap64 (seqNum_ (host_ s) + 1)) in *.
  destruct (part_withSeqNum_topic (Operation.payld_ op) t n) as (q & Eq & Hq & _); [done|apply wrapn_in_width|done|].
  destruct s as [c y h]. cbn [host_] in *. set (s1 := mkSession c y (set_seqNum n h)).
  transitivity s1; [by apply wgrows_same|].
  assert (forall k : unit -> M wsession unit, (on_host (modify (fun h => set_seqNum (wrap64 (seqNum_ h + 1)) h)) ≫= k)
    (mkSession c y h) = k tt s1) as -> by done.
  pose proof (sgrows_host notifySequenceNumber wgrows_notify s1) as H1.
  destruct (on_host notifySequenceNumber s1) as [[[]| | |] s2] eqn:E;
    [rewrite (M_bind_eq _ _ _ _ _ E)|unfold mbind, M_bind; by rewrite E..]. etrans; [exact H1|].
  assert (seqNum_ (host_ s2) = n) as Hn.
  { unfold on_host, zoom, notifySequenceNumber, on_zseqs, zoom in E. cbn [s1 host_ conn_ sync_] in E.
    destruct (trySend _ _) as [[k| | |] z]; [destruct (k =? -1)|..]; by simplify_eq. }
  rewrite bind_get, Hn, Eq. cbn [mbind outcome_bind].
  destruct (withGroup (Some WorkerUpdt) q) as [m| | |] eqn:Eg; try reflexivity. rewrite bind_lift.
  revert s2 E H1 Hn. assert (respects sgrows (on_host (on_zdispatch (send [m]));; mret tt)) as Hr; [|intros; apply Hr].
  respect. apply sgrows_host, wgrows_zdispatch, respects_send. intros t' Ht'.
  apply withGroup_data in Eg. unfold topic_fromPart in *. congruence.
Qed.

End Worker.

(** ** The broker *)

Section Broker.
Context {P : Platform} {Z_ : Zmq} (H : topic -> Prop).
Context (H_small : forall t, H t -> BrokerSession.small_topic t).
Context (H_broker : forall u t, uuid_ok u -> H t -> H (withBroker u t)).

Abbreviation broker := BrokerSession.broker.
Abbreviation abs := BrokerSession.abs.

Definition stored (ts : BrokerSession.tstore) : Prop := Forall (fun kv => Forall (fun wt => H wt.2) kv.2) ts.

(** The broker stores, and has sent, topics of [H] only. *)
Record bsound (b : broker) : Prop := mkBsound {
  bs_inv : BrokerSession.broker_inv b;
  bs_uuid : uuid_ok (BrokerSession.uuid_ b);
  bs_stored : stored (abs b).1;
  bs_dispatch : Forall (topic_from H) (sent_ (BrokerSession.zdispatch_ b));
  bs_snapshot : Forall (snap_from H) (sent_ (BrokerSession.zsnapshot_ b));
}.
Definition bkeeps (b b' : broker) : Prop := bsound b -> bsound b'.
#[local] Instance bkeeps_preorder : PreOrder bkeeps.
Proof. split; unfold bkeeps; [by intros ?|]. intros ? ? ? ? ?. auto. Qed.

Lemma grows_Forall Q s s' : grows Q s s' -> Forall Q (sent_ s) -> Forall Q (sent_ s').
Proof. intros (l & -> & Hl) Hs. by apply Forall_app. Qed.

Lemma bkeeps_dispatch {A} (m : M sock A) : respects (grows (topic_from H)) m ->
  respects bkeeps (BrokerSession.on_dispatch m).
Proof.
  intros Hm. eapply respects_zoom; [done|]. intros b t Ht [[] ? ? ? ?]. split; try done.
  by eapply grows_Forall.
Qed.
Lemma bkeeps_snapshot {A} (m : M sock A) : respects (grows (snap_from H)) m ->
  respects bkeeps (BrokerSession.on_snapshot m).
Proof.
  intros Hm. eapply respects_zoom; [done|]. intros b t Ht [[] ? ? ? ?]. split; try done.
  by eapply grows_Forall.
Qed.
Lemma bkeeps_delivery {A} (m : M sock A) : respects bkeeps (BrokerSession.on_delivery m).
Proof.
  apply (respects_zoom _ (fun _ _ => True)); [done|]. intros b t _ [[] ? ? ? ?]. by split.
Qed.
Lemma bkeeps_hugz f : respects bkeeps (modify (fun b => BrokerSession.set_hugz (f b) b)).
Proof. apply respects_modify. intros b [[] ? ? ? ?]. by split. Qed.

Lemma bkeeps_oper op : respects bkeeps (BrokerSession.operationReady op).
Proof.
  unfold BrokerSession.operationReady, BrokerSession.saveConfiguration, BrokerSession.openSockets,
    BrokerSession.closeSockets. respect;
  first
    [ apply bkeeps_delivery
    | apply bkeeps_dispatch; first [apply respects_bind_|apply respects_close|apply respects_config; done]
    | apply bkeeps_snapshot; first [apply respects_bind_|apply respects_close|apply respects_config; done]
    | apply respects_modify; intros b0 [[] ? ? ? ?]; by split ].
Qed.

(** The storage *)
Lemma spec_store_stored t ts ws : NoDup (ts.*1) -> stored ts -> H t ->
  stored (BrokerSession.spec_store t (ts, ws)).2.1.
Proof.
  intros Hnd Hts Ht. unfold BrokerSession.spec_store.
  set (ts1 := match assoc (name_ t) ts with Some _ => ts | None => _ end).
  assert (stored ts1) as H1.
  { unfold ts1. destruct (assoc (name_ t) ts); [done|]. by apply BrokerSession.Forall_spec_put. }
  assert (NoDup (ts1.*1)) as Hnd1.
  { unfold ts1. destruct (assoc (name_ t) ts) eqn:E; [done|]. by apply spec_put_keys. }
  destruct (seqn_ t <=? _); cbn [snd fst]; [done|]. apply BrokerSession.Forall_update; [done|]. intros v0 _. cbn.
  apply BrokerSession.Forall_spec_put; [|done]. destruct (assoc (name_ t) ts1) as [l|] eqn:E; [|constructor].
  apply assoc_Some in E; [|done]. unfold stored in H1. rewrite Forall_forall in H1. by apply (H1 _ E).
Qed.

Lemma bkeeps_store t : H t -> respects bkeeps (BrokerSession.storeTopic t).
Proof.
  intros Ht b [Hi Hu Hs Hd Hn]. destruct (BrokerSession.storeTopic_spec t b Hi) as (c & w & -> & Hi' & Ha).
  split; try done. cbn [snd]. rewrite Ha.
  assert (abs b = ((abs b).1, (abs b).2)) as -> by done. apply spec_store_stored; [|done|done].
  unfold abs, BrokerSession.abs_topics. cbn [fst]. unfold BrokerSession.mapv. rewrite <-list_fmap_compose.
  apply (inv_keys (BrokerSession.storTopic_ b)). apply Hi.
Qed.

(** Reading the state gives one that is sound. *)
Lemma bkeeps_get {A} (k : broker -> M broker A) : (forall b, bsound b -> respects bkeeps (k b)) ->
  respects bkeeps (get ≫= k).
Proof. intros Hk b Hb. rewrite bind_get. by apply (Hk b Hb). Qed.

Lemma topic_message t g p : H t -> (q ← topic_toPart t; withGroup g q) = Ok p -> topic_from H p.
Proof.
  intros Ht E t' Ht'. destruct (BrokerSession.small_topic_part t (H_small t Ht)) as (d & Hd & _ & Hf).
  rewrite Hd in E. cbn [mbind outcome_bind] in E. apply withGroup_data in E as Hp.
  assert (topic_fromPart p = Ok t) as Hpt; [|rewrite Hpt in Ht'; by injection Ht' as <-]. rewrite <-Hf. unfold topic_fromPart. by rewrite Hp.
Qed.

Lemma bkeeps_collect p : topic_from H p -> respects bkeeps (BrokerSession.collectWorkerMessage p).
Proof.
  intros Hp. unfold BrokerSession.collectWorkerMessage.
  destruct (BrokerSession.strncmp_eq _ WorkerHugz _).
  { apply respects_modify. intros b. destruct (Timer.isActive _); [done|]. intros [[] ? ? ? ?]. by split. }
  destruct (BrokerSession.strncmp_eq _ WorkerUpdt _); [|respect]. apply bkeeps_get. intros b Hb.
  respect_with. all: repeat match goal with E : lift _ _ = (Ok _, _) |- _ => apply lift_Ok in E end.
  - apply bkeeps_store, H_broker; [apply Hb|auto].
  - apply bkeeps_dispatch, respects_send. eapply topic_message; [|eassumption]. apply H_broker; [apply Hb|auto].
  - apply bkeeps_dispatch, respects_send. eapply topic_message; [|eassumption]. apply H_broker; [apply Hb|auto].
Qed.

Lemma bkeeps_sendHugz : respects bkeeps BrokerSession.sendHugz.
Proof.
  assert (respects bkeeps (BrokerSession.on_dispatch (send [mkPart [] 0 BrokerHugz false]);; mret tt)) as Hr; [|exact Hr].
  respect. apply bkeeps_dispatch, respects_send. intros t Ht. vm_compute in Ht. discriminate.
Qed.

(** The snapshot *)
Lemma reply_from rouID syncseq kind d : in_width 1 syncseq -> zlen kind < u32_max -> zlen d < u32_max ->
  (kind = BrokerSyncElemn -> topic_from H (Part_bytes d)) ->
  snap_from H (BrokerSession.reply_part rouID syncseq kind d).
Proof.
  intros Hs Hk Hd Hkind n q params. cbn [BrokerSession.reply_part p_data].
  destruct (pack_fields [FStr kind; FInt 1 syncseq; FStr d]) as (_ & _ & Hu).
  { cbn. lia. }
  { repeat apply Forall_cons_2; cbn; try done. split; [lia|done]. }
  cbn [fmap list_fmap type_of] in Hu. rewrite Hu. intros [= -> _ _ <-]. auto.
Qed.

Lemma bkeeps_reply kind syncseq d rouID : in_width 1 syncseq -> zlen kind < u32_max -> zlen d < u32_max ->
  (kind = BrokerSyncElemn -> topic_from H (Part_bytes d)) ->
  respects bkeeps (BrokerSession.snapshot_send kind syncseq (Ok (Part_bytes d)) rouID).
Proof.
  intros Hs Hk Hd Hkind. destruct (decide (rouID = 0)) as [->|Hr].
  - unfold BrokerSession.snapshot_send, BrokerSession.snapshot_message. cbn [mbind outcome_bind].
    destruct (pack _) as [m| | |]; intros b; done.
  - rewrite BrokerSession.snapshot_send_msg by done. unfold BrokerSession.send_msg. respect.
    apply bkeeps_snapshot, respects_trySend. by apply reply_from.
Qed.

Lemma bkeeps_uuid kind syncseq u rouID : in_width 1 syncseq -> zlen kind < u32_max -> uuid_ok u ->
  kind <> BrokerSyncElemn -> respects bkeeps (BrokerSession.snapshot_send kind syncseq (uuid_toPart u) rouID).
Proof.
  intros Hs Hk Hu Hkind. rewrite BrokerSession.uuid_toPart_bytes by done. apply bkeeps_reply; try done.
  unfold zlen. by rewrite Hu.
Qed.

Lemma bkeeps_body rouID syncseq conf : in_width 1 syncseq ->
  respects bkeeps (BrokerSession.reply_body rouID syncseq conf).
Proof.
  intros Hs. unfold BrokerSession.reply_body. apply bkeeps_get. intros b [_ Hu Hst _ _]. unfold abs in Hst. cbn [fst] in Hst.
  apply (respects_bind bkeeps); [by apply bkeeps_uuid|intros _]. apply (respects_bind bkeeps); [|intros _; by apply bkeeps_uuid].
  unfold stored, BrokerSession.abs_topics, BrokerSession.mapv in Hst. rewrite Forall_fmap in Hst.
  induction Hst as [|[n c] els Ht _ IH]; cbn [mfor]; [respect|]. apply (respects_bind bkeeps); [|intros _; exact IH].
  cbn [snd] in *. unfold BrokerSession.last_topic. destruct (last (items c)) as [[w t]|] eqn:El; [|intros b'; done].
  assert (H t) as Hh.
  { apply last_Some_elem_of in El. unfold compose in Ht. cbn [fst snd] in Ht. rewrite Forall_forall in Ht. by apply (Ht (w, t)). }
  intros b'. rewrite bind_lift. revert b'. cbn [snd].
  destruct (BrokerSession.left_out conf t); [apply (respects_ret bkeeps)|].
  destruct (BrokerSession.small_topic_part t (H_small t Hh)) as (d & -> & Hz & Hf).
  apply (bkeeps_reply BrokerSyncElemn syncseq d rouID); try (done || lia). intros _ t' Ht'. rewrite Hf in Ht'. by injection Ht' as <-.
Qed.

Lemma bkeeps_command p : fits (p_data p) -> respects bkeeps (BrokerSession.receiveWorkerCommand p).
Proof.
  intros Hd. unfold BrokerSession.receiveWorkerCommand.
  apply (respects_bind_with bkeeps); [apply respects_lift, bkeeps_preorder|]. intros s fs s1 Hfs%lift_Ok.
  apply unpack_types in Hfs as [Ht Hok]; [|repeat constructor; done || lia|done]. shape Ht.
  case_decide; [respect|]. unfold BrokerSession.replySnapshot. respect. apply bkeeps_body.
  apply Forall_cons in Hok as [_ Hok]. apply Forall_cons in Hok as [Hok _]. apply Hok.
Qed.

Definition arrives_ok (r : BrokerSession.bready) : Prop :=
  match r with
  | BrokerSession.BSnapshot p => fits (p_data p)
  | BrokerSession.BDelivery p => topic_from H p
  | _ => True
  end.

Lemma bkeeps_ready r : arrives_ok r -> respects bkeeps (BrokerSession.socketReady r).
Proof.
  destruct r as [p|p| |]; intros Hr; cbn [BrokerSession.socketReady].
  - by apply bkeeps_command.
  - by apply bkeeps_collect.
  - respect; [apply bkeeps_hugz|apply bkeeps_sendHugz].
  - respect.
Qed.

End Broker.

(** ** The network *)

Section Net.
Context {P : Platform} {Z_ : Zmq}.

(** The sessions, and the topics users dispatched, with their numbers *)
Record net := mkNet {
  workers_ : gmap nat wsession;
  brokers_ : gmap nat BrokerSession.broker;
  history_ : list topic;
}.

(** A message that arrives: the bytes and the group of one that was sent *)
Definition copy_of (m p : part) : Prop := p_data p = p_data m /\ p_group p = p_group m /\ fits (p_data m).

(** The steps: sessions come up; users start, stop, dispatch and ask for a synchronization;
    timers expire; messages of any session arrive at any other.  A handler may end with any
    outcome. *)
Inductive nstep (n : net) : net -> Prop :=
  | step_worker i token conf0 seq0 zevs zseqs s :
    workers_ n !! i = None -> sent_ zevs = [] ->
    WorkerSession (new_host token conf0 seq0 zevs zseqs) = (Ok tt, s) ->
    nstep n (mkNet (<[i := s]> (workers_ n)) (brokers_ n) (history_ n))
  | step_broker j u token :
    brokers_ n !! j = None -> uuid_ok u ->
    nstep n (mkNet (workers_ n) (<[j := BrokerSession.new_broker u token]> (brokers_ n)) (history_ n))
  | step_dispatch i s op t :
    workers_ n !! i = Some s -> Operation.type_ op = Operation.Dispatch ->
    BrokerSession.small_topic t -> topic_toPart t = Ok (Operation.payld_ op) ->
    nstep n (mkNet (<[i := (operationReady op s).2]> (workers_ n)) (brokers_ n)
               (history_ n ++ [withSeqNum (wrap64 (seqNum_ (host_ s) + 1)) t]))
  | step_oper i s op :
    workers_ n !! i = Some s -> Operation.type_ op <> Operation.Dispatch ->
    nstep n (mkNet (<[i := (operationReady op s).2]> (workers_ n)) (brokers_ n) (history_ n))
  | step_timer i s r :
    workers_ n !! i = Some s -> r = WRetry \/ r = WTimeout \/ r = WSyncTimeout ->
    nstep n (mkNet (<[i := (socketReady r s).2]> (workers_ n)) (brokers_ n) (history_ n))
  | step_delivery i s j b m p :
    workers_ n !! i = Some s -> brokers_ n !! j = Some b ->
    m ∈ sent_ (BrokerSession.zdispatch_ b) -> copy_of m p ->
    nstep n (mkNet (<[i := (socketReady (WDelivery p) s).2]> (workers_ n)) (brokers_ n) (history_ n))
  | step_snapshot i s j b m p :
    workers_ n !! i = Some s -> brokers_ n !! j = Some b ->
    m ∈ sent_ (BrokerSession.zsnapshot_ b) -> copy_of m p ->
    nstep n (mkNet (<[i := (socketReady (WSnapshot p) s).2]> (workers_ n)) (brokers_ n) (history_ n))
  | step_boper j b op :
    brokers_ n !! j = Some b ->
    nstep n (mkNet (workers_ n) (<[j := (BrokerSession.operationReady op b).2]> (brokers_ n)) (history_ n))
  | step_hugz j b :
    brokers_ n !! j = Some b ->
    nstep n (mkNet (workers_ n) (<[j := (BrokerSession.socketReady BrokerSession.BHugz b).2]> (brokers_ n)) (history_ n))
  | step_collect i s j b m p :
    workers_ n !! i = Some s -> brokers_ n !! j = Some b ->
    m ∈ sent_ (zdispatch_ (host_ s)) -> copy_of m p ->
    nstep n (mkNet (workers_ n)
               (<[j := (BrokerSession.socketReady (BrokerSession.BDelivery p) b).2]> (brokers_ n)) (history_ n))
  | step_request j b p :
    brokers_ n !! j = Some b -> fits (p_data p) ->
    nstep n (mkNet (workers_ n)
               (<[j := (BrokerSession.socketReady (BrokerSession.BSnapshot p) b).2]> (brokers_ n)) (history_ n)).

Definition empty_net : net := mkNet ∅ ∅ [].
Definition nreachable : net -> Prop := rtc nstep empty_net.

(** The same topic but for the broker that forwarded it *)
Definition same_topic (t t0 : topic) : Prop := withBroker nil_uuid t = withBroker nil_uuid t0.

(** A topic that comes from a dispatch *)
Definition dispatched (hist : list topic) (t : topic) : Prop :=
  BrokerSession.small_topic t /\ exists t0, t0 ∈ hist /\ same_topic t t0.

Lemma dispatched_mono hist l t : dispatched hist t -> dispatched (hist ++ l) t.
Proof. intros (? & t0 & ? & ?). split; [done|]. exists t0. split; [|done]. by apply elem_of_app; left. Qed.
Lemma small_broker u t : uuid_ok u -> BrokerSession.small_topic t -> BrokerSession.small_topic (withBroker u t).
Proof. intros Hu [[] ?]. split; [|done]. by split. Qed.
Lemma small_seqNum n t : in_width 8 n -> BrokerSession.small_topic t -> BrokerSession.small_topic (withSeqNum n t).
Proof. intros Hu [[] ?]. split; [|done]. by split. Qed.
Lemma dispatched_small hist t : dispatched hist t -> BrokerSession.small_topic t.
Proof. by intros []. Qed.
Lemma dispatched_broker hist u t : uuid_ok u -> dispatched hist t -> dispatched hist (withBroker u t).
Proof. intros Hu [? (t0 & ? & ?)]. split; [by apply small_broker|]. by exists t0. Qed.

(** ** The invariant *)

Definition wsound (H : topic -> Prop) (s : wsession) : Prop :=
  Forall (topic_from H) (sent_ (zdispatch_ (host_ s))) /\ Forall (event_from H) (sent_ (zevs_ (host_ s))).

Record ninv (n : net) : Prop := mkNinv {
  ni_workers : map_Forall (fun _ s => wsound (dispatched (history_ n)) s) (workers_ n);
  ni_brokers : map_Forall (fun _ b => bsound (dispatched (history_ n)) b) (brokers_ n);
}.

Lemma wsound_grows H s s' : wsound H s -> sgrows H s s' -> wsound H s'.
Proof. intros [? ?] [? ?]. split; by eapply grows_Forall. Qed.

Lemma wsound_mono (H H' : topic -> Prop) s : (forall t, H t -> H' t) -> wsound H s -> wsound H' s.
Proof.
  intros HH [H1 H2]. split; eapply Forall_impl; [exact H1| |exact H2|].
  - intros m Hm t Ht. auto.
  - intros m (tok & ev & pay & E & Hb). exists tok, ev, pay. split; [done|]. intros Hv.
    destruct (Hb Hv) as (t & ? & ?). eauto.
Qed.
Lemma bsound_mono (H H' : topic -> Prop) b : (forall t, H t -> H' t) -> bsound H b -> bsound H' b.
Proof.
  intros HH [H1 H2 H3 H4 H5]. split; try done.
  - eapply Forall_impl; [exact H3|]. intros kv Hkv. eapply Forall_impl; [exact Hkv|]. cbn. auto.
  - eapply Forall_impl; [exact H4|]. intros m Hm t Ht. auto.
  - eapply Forall_impl; [exact H5|]. intros m Hm k q p E t Ht. eapply HH, Hm; eauto.
Qed.

(** The constructor sends no topics. *)
Lemma new_session_grows H h s : WorkerSession h = (Ok tt, s) -> sent_ (zevs_ h) = [] -> sent_ (zdispatch_ h) = [] ->
  wsound H s.
Proof.
  intros E He Hd. unfold WorkerSession in E.
  destruct (ConnMachine.ConnMachine 500 3000 h) as [o1 [c h1]] eqn:E1.
  destruct (SyncMachine.SyncMachine 0 1 3000 _) as [o2 [y h2]] eqn:E2. injection E as _ <-.
  assert (pgrows H (ConnMachine.new_conn 500 3000, h) (c, h1)) as H1.
  { pose proof (pgrows_conn_halt H (ConnMachine.new_conn 500 3000, h)) as Hh.
    unfold ConnMachine.ConnMachine in E1. rewrite E1 in Hh. exact Hh. }
  assert (pgrows H (SyncMachine.new_sync 0 1 3000, h1) (y, h2)) as H2.
  { pose proof (pgrows_sync_new H (SyncMachine.new_sync 0 1 3000, h1)) as Hh. rewrite E2 in Hh. exact Hh. }
  split; (eapply grows_Forall; [exact (proj1 H2)|eapply grows_Forall; [exact (proj1 H1)|cbn; by rewrite Hd]]) ||
    (eapply grows_Forall; [exact (proj2 H2)|eapply grows_Forall; [exact (proj2 H1)|cbn; by rewrite He]]).
Qed.

Lemma copy_topic H m p : copy_of m p -> topic_from H m -> topic_from H p.
Proof. intros [Hd _] Hm t. unfold topic_fromPart. rewrite Hd. apply Hm. Qed.
Lemma copy_snap H m p : copy_of m p -> snap_from H m -> snap_from H p.
Proof. intros [Hd _] Hm k q x. rewrite Hd. apply Hm. Qed.

Lemma ninv_worker n i s s' : ninv n -> workers_ n !! i = Some s -> sgrows (dispatched (history_ n)) s s' ->
  ninv (mkNet (<[i := s']> (workers_ n)) (brokers_ n) (history_ n)).
Proof.
  intros [Hw Hb] Hs Hg. split; cbn; [|done]. apply map_Forall_insert_2; [|done].
  eapply wsound_grows; [by apply (Hw i)|done].
Qed.
Lemma ninv_broker n j b b' : ninv n -> brokers_ n !! j = Some b -> bkeeps (dispatched (history_ n)) b b' ->
  ninv (mkNet (workers_ n) (<[j := b']> (brokers_ n)) (history_ n)).
Proof.
  intros [Hw Hb] Hs Hg. split; cbn; [done|]. apply map_Forall_insert_2; [|done]. apply Hg. by apply (Hb j).
Qed.

Lemma dispatch_payload t p : BrokerSession.small_topic t -> topic_toPart t = Ok p ->
  fits (p_data p) /\ topic_fromPart p = Ok t.
Proof. intros [Hok _] E. destruct (topic_roundtrip t Hok) as (d & Hd & Hf & Hr). rewrite E in Hd. injection Hd as ->. split; [exact Hf|exact Hr]. Qed.

Lemma ready_timer H r : r = WRetry \/ r = WTimeout \/ r = WSyncTimeout -> respects (sgrows H) (socketReady r).
Proof.
  intros [->|[->| ->]]; cbn [socketReady].
  - exact (sgrows_conn H _ (pgrows_conn H ConnMachine.RetryFired)).
  - exact (sgrows_conn H _ (pgrows_conn H ConnMachine.TimeoutFired)).
  - exact (sgrows_sync H _ (pgrows_sync H SyncMachine.TimeoutFired)).
Qed.

Lemma ninv_dispatch n i s op t : ninv n -> workers_ n !! i = Some s ->
  Operation.type_ op = Operation.Dispatch -> BrokerSession.small_topic t ->
  topic_toPart t = Ok (Operation.payld_ op) ->
  ninv (mkNet (<[i := (operationReady op s).2]> (workers_ n)) (brokers_ n)
          (history_ n ++ [withSeqNum (wrap64 (seqNum_ (host_ s) + 1)) t])).
Proof.
  intros Hn Hs Hty Hsm Hp. set (t' := withSeqNum _ t). destruct (dispatch_payload _ _ Hsm Hp) as [Hf Ht].
  assert (ninv (mkNet (workers_ n) (brokers_ n) (history_ n ++ [t']))) as Hn1.
  { destruct Hn as [Hw Hb]. split; eapply map_Forall_impl; [exact Hw| |exact Hb|]; cbn.
    - intros k x. apply wsound_mono. intros. by apply dispatched_mono.
    - intros k x. apply bsound_mono. intros. by apply dispatched_mono. }
  apply (ninv_worker _ i s _ Hn1); [done|]. cbn. apply (sgrows_dispatch _ op t); try done.
  split; [apply small_seqNum; [apply wrapn_in_width|done]|]. exists t'. split; [|done].
  apply elem_of_app. right. by apply list_elem_of_singleton.
Qed.

Lemma ninv_step n n' : ninv n -> nstep n n' -> ninv n'.
Proof.
  intros Hn [i token conf0 seq0 zevs zseqs s Hi Hz E|j u token Hj Hu|i s op t Hs Hty Hsm Hp|i s op Hs Hty|i s r Hs Hr
    |i s j b m p Hs Hb Hm Hc|i s j b m p Hs Hb Hm Hc|j b op Hb|j b Hb|i s j b m p Hs Hb Hm Hc|j b p Hb Hf].
  - destruct Hn as [Hw Hb]. split; cbn; [|done]. apply map_Forall_insert_2; [|done].
    by eapply new_session_grows.
  - destruct Hn as [Hw Hb]. split; cbn; [done|]. apply map_Forall_insert_2; [|done].
    split; [apply BrokerSession.new_broker_inv|done|constructor..].
  - by apply ninv_dispatch.
  - eapply ninv_worker; [done..|]. by apply sgrows_oper.
  - eapply ninv_worker; [done..|]. by apply ready_timer.
  - eapply ninv_worker; [done..|]. apply sgrows_collect. eapply copy_topic; [done|].
    pose proof (bs_dispatch _ _ (ni_brokers _ Hn j b Hb)) as Hall. rewrite Forall_forall in Hall. auto.
  - eapply ninv_worker; [done..|]. apply sgrows_snapshot. eapply copy_snap; [done|].
    pose proof (bs_snapshot _ _ (ni_brokers _ Hn j b Hb)) as Hall. rewrite Forall_forall in Hall. auto.
  - eapply ninv_broker; [done..|]. apply bkeeps_oper.
  - eapply ninv_broker; [done..|]. apply (bkeeps_ready _ (dispatched_small _) (dispatched_broker _)). done.
  - eapply ninv_broker; [done..|]. apply (bkeeps_ready _ (dispatched_small _) (dispatched_broker _)). cbn.
    eapply copy_topic; [done|]. destruct (ni_workers _ Hn i s Hs) as [Hall _]. rewrite Forall_forall in Hall. auto.
  - eapply ninv_broker; [done..|]. apply (bkeeps_ready _ (dispatched_small _) (dispatched_broker _)). done.
Qed.

Lemma nreachable_inv n : nreachable n -> ninv n.
Proof.
  unfold nreachable. intros Hr. assert (ninv empty_net) as H0 by (split; apply map_Forall_empty).
  induction Hr as [|n1 n2 n3 Hs _ IH]; [done|]. by eapply IH, ninv_step.
Qed.

(** ** From one user to another *)

(** The topics of a sequence of dispatches with the numbers they get *)
Fixpoint numbered (n : Z) (ts : list topic) : list topic :=
  match ts with [] => [] | t :: ts => withSeqNum (n + 1) t :: numbered (n + 1) ts end.

Definition dispatch_of (t : topic) (op : Operation.operation) : Prop :=
  Operation.type_ op = Operation.Dispatch /\ BrokerSession.small_topic t /\ topic_toPart t = Ok (Operation.payld_ op).

Definition update_from (t : topic) (m : part) : Prop :=
  group m = WorkerUpdt /\ topic_fromPart m = Ok t /\ fits (p_data m).

Lemma dispatch_all ts : forall ops s, Forall2 dispatch_of ts ops ->
  accepts true (zseqs_ (host_ s)) -> accepts false (zdispatch_ (host_ s)) ->
  0 <= seqNum_ (host_ s) -> seqNum_ (host_ s) + Z.of_nat (length ts) < u64_max ->
  exists s' ms, mfor ops operationReady s = (Ok tt, s') /\
    sent_ (zdispatch_ (host_ s')) = sent_ (zdispatch_ (host_ s)) ++ ms /\
    Forall2 update_from (numbered (seqNum_ (host_ s)) ts) ms.
Proof.
  induction ts as [|t ts IH]; intros ops s Hops Hsq Hdi H0 Hmax; inversion_clear Hops as [|? op ? ops' [Hty [Hsm Hp]] Hops'].
  - exists s, []. rewrite app_nil_r. done.
  - cbn [length] in Hmax.
    destruct (dispatch_payload _ _ Hsm Hp) as [Hf Ht].
    destruct (dispatch_spec op t s Hty Hf Ht Hsq Hdi) as (m & s1 & E & Hg & Hm & _ & _ & Hh & Hfm).
    assert (wrap64 (seqNum_ (host_ s) + 1) = seqNum_ (host_ s) + 1) as Hn
      by (apply wrapn_id; unfold in_width, u64_max in *; cbn in *; lia).
    rewrite Hn in *. destruct (IH ops' s1 Hops') as (s' & ms & E' & Hs' & Hms).
    { by rewrite Hh. } { by rewrite Hh. } { rewrite Hh. cbn. lia. } { rewrite Hh. cbn. lia. }
    exists s', (m :: ms). cbn [mfor]. rewrite (M_bind_eq _ _ _ _ _ E). split_and!; [done| |].
    + rewrite Hs', Hh. cbn. by rewrite <-app_assoc.
    + rewrite Hh in Hms. constructor; [done|exact Hms].
Qed.

(** Topics of one worker with increasing numbers, above [n] *)
Fixpoint above (u : uuid) (n : Z) (ts : list topic) : Prop :=
  match ts with [] => True | t :: ts => worker_ t = u /\ n < seqn_ t /\ above u (seqn_ t) ts end.

Lemma numbered_above u ts : Forall (fun t => worker_ t = u) ts -> forall n k, k <= n -> above u k (numbered n ts).
Proof.
  induction 1 as [|t ts Hu _ IH]; intros n k Hk; cbn [numbered above]; [done|]. split_and!; [done|cbn; lia|].
  apply IH. cbn. lia.
Qed.

Lemma forward_all u ts : forall ms b, Forall2 update_from ts ms ->
  BrokerSession.broker_inv b -> uuid_ok (BrokerSession.uuid_ b) -> accepts false (BrokerSession.zdispatch_ b) ->
  above u (BrokerSession.last_seq u (BrokerSession.abs b).2) ts ->
  exists b' out, mfor ms BrokerSession.collectWorkerMessage b = (Ok tt, b') /\
    sent_ (BrokerSession.zdispatch_ b') = sent_ (BrokerSession.zdispatch_ b) ++ concat out /\
    Forall2 BrokerSession.forwarded (withBroker (BrokerSession.uuid_ b) <$> ts) out.
Proof.
  induction ts as [|t ts IH]; intros ms b Hms Hi Hu Ha Hab; inversion_clear Hms as [|? m ? ms' (Hg & Ht & Hf) Hms'].
  - exists b, []. cbn. rewrite app_nil_r. done.
  - destruct Hab as (Hw & Hlt & Hab).
    destruct (BrokerSession.collect_updt m t b Hi Hu Ha Hg Hf Ht) as (b1 & ms1 & E & (Hi1 & Hu1 & Ha1) & Habs & Hs1 & Hout).
    assert (NoDup ((BrokerSession.abs b).2.*1)) as Hnd by (apply inv_keys, Hi).
    destruct (BrokerSession.abs b) as [st ws] eqn:Eab. unfold BrokerSession.spec_store in *. cbn [snd fst] in *.
    cbn [worker_ seqn_ withBroker] in *. rewrite Hw in *.
    rewrite (proj2 (Z.leb_gt _ _) Hlt) in *. cbn [snd fst] in *.
    destruct (IH ms' b1 Hms' Hi1) as (b' & out & E' & Hs' & Hfw); [congruence|done| |].
    { rewrite Habs. cbn [snd]. unfold BrokerSession.last_seq. by rewrite spec_put_same. }
    exists b', (ms1 :: out). cbn [mfor concat]. rewrite (M_bind_eq _ _ _ _ _ E). split_and!; [done| |].
    + by rewrite Hs', Hs1, app_assoc.
    + rewrite Hu1 in Hfw. by constructor.
Qed.

(** What a worker that takes all topics receives of what the broker sends *)
Definition updates (ms : list part) : list part := filter (fun m => group m = BrokerUpdt) ms.

Lemma updates_forwarded t ms : BrokerSession.small_topic t -> BrokerSession.forwarded t ms ->
  Forall (update_of t) (updates ms) /\ updates ms <> [].
Proof.
  intros Hsm (d & -> & Hf & Hp). destruct (BrokerSession.small_topic_part t Hsm) as (d' & Hp' & Hz & _).
  rewrite Hp in Hp'. injection Hp' as <-. unfold updates.
  rewrite filter_cons, (filter_cons_True _ (mkPart d 0 BrokerUpdt false)) by done. rewrite filter_nil.
  case_decide as Hd; (split; [repeat constructor; done|done]).
Qed.

(** Copies of one new topic bring it to the user once. *)
Lemma deliver_copies u t ps : forall v, Forall (update_of t) ps -> ps <> [] -> can_deliver (host_ v) ->
  worker_ t = u -> seen (host_ v) u < seqn_ t ->
  exists v' e, mfor ps collectBrokerMessage v = (Ok tt, v') /\ can_deliver (host_ v') /\
    token_ (host_ v') = token_ (host_ v) /\ seen (host_ v') u = seqn_ t /\
    sent_ (zevs_ (host_ v')) = sent_ (zevs_ (host_ v)) ++ [e] /\ delivered (token_ (host_ v)) t e.
Proof.
  intros v Hps Hne Hc Hw Hlt. destruct ps as [|p ps]; [done|]. apply Forall_cons in Hps as [Hp Hps].
  destruct (delivery_step p t v Hp Hc) as (v1 & ms & E & Hc1 & Htk & Hs & Hm & Hseen).
  rewrite Hw in *. rewrite (proj2 (Z.leb_gt _ _) Hlt) in Hm. destruct Hm as (e & -> & He).
  specialize (Hseen u) as Hu. rewrite decide_True in Hu by done.
  assert (forall ps v2, Forall (update_of t) ps -> can_deliver (host_ v2) -> seen (host_ v2) u = seqn_ t ->
    exists v', mfor ps collectBrokerMessage v2 = (Ok tt, v') /\ can_deliver (host_ v') /\
      token_ (host_ v') = token_ (host_ v2) /\ seen (host_ v') u = seqn_ t /\
      sent_ (zevs_ (host_ v')) = sent_ (zevs_ (host_ v2))) as Hdup.
  { clear -Hw. induction ps as [|p ps IH]; intros v2 Hps Hc Hs; [by exists v2|].
    apply Forall_cons in Hps as [Hp Hps].
    destruct (delivery_step p t v2 Hp Hc) as (v3 & ms & E & Hc3 & Htk & Hs3 & Hm & Hseen).
    rewrite Hw, Hs, (proj2 (Z.leb_le _ _)) in Hm by lia. subst ms. rewrite app_nil_r in Hs3.
    specialize (Hseen u). rewrite decide_True in Hseen by done.
    destruct (IH v3 Hps Hc3) as (v' & E' & ? & ? & ? & ?); [lia|].
    exists v'. cbn [mfor]. rewrite (M_bind_eq _ _ _ _ _ E). split_and!; try done; congruence. }
  destruct (Hdup ps v1 Hps Hc1) as (v' & E' & Hc' & Htk' & Hs' & Hl); [lia|].
  exists v', e. cbn [mfor]. rewrite (M_bind_eq _ _ _ _ _ E). split_and!; try done; congruence.
Qed.

Lemma deliver_all u ts : forall out v, Forall2 BrokerSession.forwarded ts out ->
  Forall BrokerSession.small_topic ts -> can_deliver (host_ v) -> above u (seen (host_ v) u) ts ->
  exists v' es, mfor (updates (concat out)) collectBrokerMessage v = (Ok tt, v') /\
    sent_ (zevs_ (host_ v')) = sent_ (zevs_ (host_ v)) ++ es /\
    Forall2 (delivered (token_ (host_ v))) ts es.
Proof.
  induction ts as [|t ts IH]; intros out v Hout Hsm Hc Hab; inversion_clear Hout as [|? ms ? out' Hf Hout'].
  - exists v, []. rewrite app_nil_r. done.
  - apply Forall_cons in Hsm as [Hst Hsm]. destruct Hab as (Hw & Hlt & Hab).
    destruct (updates_forwarded t ms Hst Hf) as [Hup Hne].
    destruct (deliver_copies u t _ v Hup Hne Hc Hw Hlt) as (v1 & e & E & Hc1 & Htk & Hs & Hl & He).
    destruct (IH out' v1 Hout' Hsm Hc1) as (v' & es & E' & Hl' & Hd); [by rewrite Hs|].
    exists v', (e :: es). cbn [concat]. unfold updates in *. rewrite filter_app, mfor_app, (M_bind_eq _ _ _ _ _ E).
    split_and!; [done|by rewrite Hl', Hl, <-app_assoc|]. rewrite Htk in Hd. by constructor.
Qed.

Lemma above_broker u b n ts : above u n (withBroker b <$> ts) <-> above u n ts.
Proof. revert n. induction ts as [|t ts IH]; intros n; cbn; [done|]. by rewrite IH. Qed.

Lemma numbered_small ts : Forall BrokerSession.small_topic ts -> forall n,
  0 <= n -> n + Z.of_nat (length ts) < u64_max -> Forall BrokerSession.small_topic (numbered n ts).
Proof.
  induction 1 as [|t ts Ht _ IH]; intros n H0 Hn; cbn [numbered]; [constructor|]. cbn [length] in Hn.
  constructor; [|apply IH; lia]. apply small_seqNum; [|done]. unfold in_width, u64_max in *. cbn in *. lia.
Qed.

End Net.

(** ** Theorems *)

(** C2: End to end: the topics a user dispatches, through a broker that has not seen newer ones
    of that worker, to a worker that takes all topics and has not either: when the sockets
    take the messages, each topic reaches the other user in exactly one Delivery event, in the
    order of the dispatches, with the same name, data, type and worker, the numbers that follow
    the sender's last one, and the uuid of the broker. *)
Theorem end_to_end (P : Platform) (Zs Zb Zr : Zmq) (s r : wsession) (b : BrokerSession.broker) (u : uuid)
    (ts : list topic) (ops : list Operation.operation) :
  Forall2 dispatch_of ts ops -> Forall (fun t => worker_ t = u) ts ->
  0 <= seqNum_ (host_ s) -> seqNum_ (host_ s) + Z.of_nat (length ts) < 2 ^ 64 ->
  @accepts Zs true (zseqs_ (host_ s)) -> @accepts Zs false (zdispatch_ (host_ s)) ->
  BrokerSession.broker_inv b -> uuid_ok (BrokerSession.uuid_ b) ->
  @accepts Zb false (BrokerSession.zdispatch_ b) ->
  BrokerSession.last_seq u (BrokerSession.abs b).2 <= seqNum_ (host_ s) ->
  @can_deliver Zr (host_ r) -> seen (host_ r) u <= seqNum_ (host_ s) ->
  exists s' b' r' sent out evs,
    mfor ops (@operationReady P Zs) s = (Ok tt, s') /\
    sent_ (zdispatch_ (host_ s')) = sent_ (zdispatch_ (host_ s)) ++ sent /\
    mfor sent (@BrokerSession.collectWorkerMessage P Zb) b = (Ok tt, b') /\
    sent_ (BrokerSession.zdispatch_ b') = sent_ (BrokerSession.zdispatch_ b) ++ out /\
    mfor (updates out) (@collectBrokerMessage P Zr) r = (Ok tt, r') /\
    sent_ (zevs_ (host_ r')) = sent_ (zevs_ (host_ r)) ++ evs /\
    Forall2 (delivered (token_ (host_ r)))
      (withBroker (BrokerSession.uuid_ b) <$> numbered (seqNum_ (host_ s)) ts) evs.
Proof.
  intros Hops Hu H0 Hmax Hsq Hdi Hi Hb Ha Hlast Hc Hseen.
  destruct (dispatch_all ts ops s Hops Hsq Hdi H0 Hmax) as (s' & sent & E1 & L1 & F1).
  assert (forall k, k <= seqNum_ (host_ s) -> above u k (numbered (seqNum_ (host_ s)) ts)) as Hab
    by (intros; by apply numbered_above).
  destruct (forward_all u _ sent b F1 Hi Hb Ha (Hab _ Hlast)) as (b' & out & E2 & L2 & F2).
  destruct (deliver_all u _ out r F2) as (r' & evs & E3 & L3 & F3); [|done|by apply above_broker, Hab|].
  - apply Forall_fmap. eapply Forall_impl; [|intros t; by apply small_broker].
    apply numbered_small; [|done|done]. clear -Hops. induction Hops as [|t op ts ops [_ [? _]]]; by constructor.
  - exists s', b', r', sent, (concat out), evs. split_and!; done.
Qed.

Definition sample_topics : list topic :=
  [topic_of Byte.x01 "a" 0 "v"; topic_of Byte.x01 "UPDT" 0 "w"; topic_of Byte.x01 "a" 0 "x"].

Lemma sample_dispatches : Forall2 (@dispatch_of x86_64) sample_topics (dispatch_op <$> sample_topics).
Proof.
  repeat (apply Forall2_cons_2; [split; [reflexivity|split; [|reflexivity]];
    split; [constructor; vm_compute; repeat split; lia || done|vm_compute; reflexivity]|]). constructor.
Qed.

(** Three topics, one of them with the name of the group of all updates. *)
Lemma end_to_end_witness :
  exists r' out evs, mfor (updates out) (@collectBrokerMessage x86_64 ok_zmq) sample_start = (Ok tt, r') /\
    length evs = 3%nat /\ sent_ (zevs_ (host_ r')) = sent_ (zevs_ (host_ sample_start)) ++ evs.
Proof.
  destruct (end_to_end x86_64 ok_zmq ok_zmq ok_zmq sample_started sample_start BrokerSession.started_broker
    (replicate 16 Byte.x01) sample_topics (dispatch_op <$> sample_topics))
    as (s' & b' & r' & sent & out & evs & _ & _ & _ & _ & H5 & H6 & H7).
  - exact sample_dispatches.
  - repeat constructor.
  - vm_compute. discriminate.
  - vm_compute. reflexivity.
  - exists (11%nat, 0%nat). split; [vm_compute; reflexivity|reflexivity].
  - exists (3%nat, 0%nat). split; [vm_compute; reflexivity|reflexivity].
  - exact BrokerSession.started_inv.
  - vm_compute. reflexivity.
  - exists (3%nat, 0%nat). split; [vm_compute; reflexivity|reflexivity].
  - unfold BrokerSession.abs. cbn [snd]. rewrite BrokerSession.started_workers. vm_compute. discriminate.
  - destruct (worker_reachable_inv sample_start sample_reachable) as [_ _ Hc]. constructor.
    + vm_compute. split; [discriminate|reflexivity].
    + exact Hc.
    + exists (10%nat, 0%nat). split; [vm_compute; reflexivity|reflexivity].
    + exists (11%nat, 0%nat). split; [vm_compute; reflexivity|reflexivity].
  - vm_compute. discriminate.
  - exists r', out, evs. split; [exact H5|]. split; [|exact H6].
    apply Forall2_length in H7. rewrite <-H7. reflexivity.
Defined.

(** C3: Integrity: in any network of workers and brokers, with messages lost, repeated, reordered
    and sessions that fail at any point, every topic a Delivery or SyncElement event brings to a
    user was dispatched by a user, with the same number, name, data, type and worker. *)
Theorem network_integrity (P : Platform) (Z_ : Zmq) (n : net) (i : nat) (s : wsession) (m : part) :
  nreachable n -> workers_ n !! i = Some s -> m ∈ sent_ (zevs_ (host_ s)) ->
  exists tok ev pay, event_message tok ev pay = Ok m /\
    (ev = Event.Delivery \/ ev = Event.SyncElement ->
     exists t t0, topic_fromPart pay = Ok t /\ t0 ∈ history_ n /\
       withBroker nil_uuid t = withBroker nil_uuid t0).
Proof.
  intros Hn%nreachable_inv Hs Hm. destruct (ni_workers _ Hn i s Hs) as [_ Hall]. rewrite Forall_forall in Hall.
  destruct (Hall m Hm) as (tok & ev & pay & E & Hb). exists tok, ev, pay. split; [done|]. intros Hev.
  destruct (Hb Hev) as (t & Ht & _ & t0 & ? & ?). eauto.
Qed.


(** A worker that starts, dispatches a topic, and gets it back from a broker *)
Definition sample_sender : wsession :=
  (@operationReady x86_64 ok_zmq (dispatch_op (topic_of Byte.x01 "a" 0 "v")) sample_started).2.
Definition sample_update_msg : part :=
  default Part_empty (last (sent_ (zdispatch_ (host_ sample_sender)))).
Definition sample_broker0 : BrokerSession.broker := BrokerSession.new_broker (replicate 16 Byte.xaa) 1.
Definition sample_bstarted : BrokerSession.broker :=
  (@BrokerSession.operationReady x86_64 ok_zmq BrokerSession.start_op sample_broker0).2.
Definition sample_bsent : BrokerSession.broker :=
  (@BrokerSession.socketReady x86_64 ok_zmq (BrokerSession.BDelivery sample_update_msg) sample_bstarted).2.
Definition sample_forward : part := default Part_empty (last (sent_ (BrokerSession.zdispatch_ sample_bsent))).
Definition sample_receiver : wsession :=
  (@socketReady x86_64 ok_zmq (WDelivery sample_forward) sample_sender).2.
Definition sample_history : list topic :=
  [withSeqNum (wrap64 (seqNum_ (host_ sample_started) + 1)) (topic_of Byte.x01 "a" 0 "v")].

Definition sample_nets : list net :=
  let w1 := <[0%nat := sample_start]> ∅ in
  let w2 := <[0%nat := sample_started]> w1 in
  let w3 := <[0%nat := sample_sender]> w2 in
  let w4 := <[0%nat := sample_receiver]> w3 in
  let b1 := <[0%nat := sample_broker0]> ∅ in
  let b2 := <[0%nat := sample_bstarted]> b1 in
  let b3 := <[0%nat := sample_bsent]> b2 in
  [mkNet w1 ∅ []; mkNet w2 ∅ []; mkNet w2 b1 []; mkNet w2 b2 []; mkNet w3 b2 sample_history;
   mkNet w3 b3 sample_history; mkNet w4 b3 sample_history].
Definition sample_net : net := default empty_net (last sample_nets).

Lemma last_in {A} (d : A) (l : list A) : l <> [] -> default d (last l) ∈ l.
Proof.
  intros Hl. destruct (last l) as [x|] eqn:E; [by apply last_Some_elem_of|]. by apply last_None in E.
Qed.

Lemma sample_net_reachable : @nreachable x86_64 ok_zmq sample_net.
Proof.
  apply rtc_l with (mkNet (<[0%nat := sample_start]> ∅) ∅ []).
  { apply (step_worker (P := x86_64) (Z_ := ok_zmq) empty_net 0 1 sample_wconfig 0 (sample_zsock 10 RADIO) (sample_zsock 11 PUSH) sample_start);
      reflexivity. }
  apply rtc_l with (mkNet (<[0%nat := sample_started]> (<[0%nat := sample_start]> ∅)) ∅ []).
  { exact (step_oper (P := x86_64) (Z_ := ok_zmq) (mkNet (<[0%nat := sample_start]> ∅) ∅ []) 0 sample_start start_op (lookup_insert_eq _ _ _)
      ltac:(discriminate)). }
  set (w2 := <[0%nat := sample_started]> (<[0%nat := sample_start]> ∅)).
  apply rtc_l with (mkNet w2 (<[0%nat := sample_broker0]> ∅) []).
  { exact (step_broker (P := x86_64) (Z_ := ok_zmq) (mkNet w2 ∅ []) 0 (replicate 16 Byte.xaa) 1 (lookup_empty _) eq_refl). }
  apply rtc_l with (mkNet w2 (<[0%nat := sample_bstarted]> (<[0%nat := sample_broker0]> ∅)) []).
  { exact (step_boper (P := x86_64) (Z_ := ok_zmq) (mkNet w2 (<[0%nat := sample_broker0]> ∅) []) 0 sample_broker0 BrokerSession.start_op
      (lookup_insert_eq _ _ _)). }
  set (b2 := <[0%nat := sample_bstarted]> (<[0%nat := sample_broker0]> ∅)).
  apply rtc_l with (mkNet (<[0%nat := sample_sender]> w2) b2 sample_history).
  { refine (step_dispatch (P := x86_64) (Z_ := ok_zmq) (mkNet w2 b2 []) 0 sample_started (dispatch_op (topic_of Byte.x01 "a" 0 "v"))
      (topic_of Byte.x01 "a" 0 "v") (lookup_insert_eq _ _ _) eq_refl _ _); [|vm_compute; reflexivity].
    split; [constructor; vm_compute; repeat split; lia || done|vm_compute; reflexivity]. }
  apply rtc_l with (mkNet (<[0%nat := sample_sender]> w2) (<[0%nat := sample_bsent]> b2) sample_history).
  { refine (step_collect (P := x86_64) (Z_ := ok_zmq) (mkNet (<[0%nat := sample_sender]> w2) b2 sample_history) 0 sample_sender 0 sample_bstarted
      sample_update_msg sample_update_msg (lookup_insert_eq _ _ _) (lookup_insert_eq _ _ _) _ _).
    - apply last_in. vm_compute. discriminate.
    - split; [reflexivity|split; vm_compute; reflexivity]. }
  apply rtc_once.
  refine (step_delivery (P := x86_64) (Z_ := ok_zmq) (mkNet (<[0%nat := sample_sender]> w2) (<[0%nat := sample_bsent]> b2) sample_history) 0
    sample_sender 0 sample_bsent sample_forward sample_forward (lookup_insert_eq _ _ _) (lookup_insert_eq _ _ _) _ _).
  - apply last_in. vm_compute. discriminate.
  - split; [reflexivity|split; vm_compute; reflexivity].
Qed.

Lemma network_integrity_witness :
  exists m tok ev pay, m ∈ sent_ (zevs_ (host_ sample_receiver)) /\ @event_message x86_64 tok ev pay = Ok m /\
    (ev = Event.Delivery \/ ev = Event.SyncElement ->
     exists t t0, @topic_fromPart x86_64 pay = Ok t /\ t0 ∈ sample_history /\
       withBroker nil_uuid t = withBroker nil_uuid t0).
Proof.
  assert (default Part_empty (last (sent_ (zevs_ (host_ sample_receiver)))) ∈ sent_ (zevs_ (host_ sample_receiver)))
    as Hin by (apply last_in; vm_compute; discriminate).
  destruct (network_integrity x86_64 ok_zmq sample_net 0 sample_receiver _ sample_net_reachable (lookup_insert_eq _ _ _) Hin)
    as (tok & ev & pay & E & H).
  eexists _, tok, ev, pay. split; [exact Hin|]. split; [exact E|exact H].
Defined.

(** A name of the protocol: a worker may subscribe to the topic named HUGZ (the name UPDT is
    refused); of the two messages a broker sends for such a topic it gets one, and takes it for
    a keepalive, so no event brings the topic to its user. *)
Theorem hugz_name_lost (P : Platform) (Z_ : Zmq) (t : topic) (ms : list part) :
  name_ t = Name (str "HUGZ") -> BrokerSession.forwarded t ms ->
  insert_groups [Name (str "HUGZ")] [BrokerHugz] = Ok [BrokerHugz] /\
  (exists e, insert_groups [Name (str "UPDT")] [BrokerHugz] = Throw e) /\
  exists m, filter (fun m => group m ∈ [BrokerHugz]) ms = [m] /\ topic_fromPart m = Ok t /\
    forall s, collectBrokerMessage m s = on_conn ConnMachine.onPing s /\
      sgrows (fun _ => False) s (collectBrokerMessage m s).2.
Proof.
  intros Hn (d & -> & Hf & _). split; [reflexivity|]. split; [by eexists|].
  exists (mkPart d 0 BrokerHugz false). rewrite Hn.
  change (BrokerSession.name_group (Name (str "HUGZ"))) with BrokerHugz. split; [|split; [done|]].
  - rewrite filter_cons_True by (by apply list_elem_of_singleton).
    rewrite filter_cons_False; [done|]. intros E%list_elem_of_singleton. vm_compute in E. discriminate.
  - intros s. assert (collectBrokerMessage (mkPart d 0 BrokerHugz false) s = on_conn ConnMachine.onPing s) as E.
    { unfold collectBrokerMessage. rewrite bind_get. by rewrite decide_True. }
    split; [exact E|]. rewrite E. exact (sgrows_conn _ _ (pgrows_conn _ ConnMachine.Ping) s).
Qed.

Lemma hugz_name_lost_witness :
  exists m, @topic_fromPart x86_64 m = Ok (topic_of Byte.x01 "HUGZ" 1 "v") /\
    forall s, @collectBrokerMessage x86_64 ok_zmq m s =
      on_conn (@ConnMachine.onPing whost (@worker_conn_hooks x86_64 ok_zmq)) s.
Proof.
  destruct (topic_roundtrip (P := x86_64) (topic_of Byte.x01 "HUGZ" 1 "v")) as (d & Hd & _ & Hf).
  { constructor; vm_compute; repeat split; lia || done. }
  destruct (hugz_name_lost x86_64 ok_zmq (topic_of Byte.x01 "HUGZ" 1 "v")
    [mkPart d 0 (str "HUGZ") false; mkPart d 0 BrokerUpdt false]) as (_ & _ & m & _ & Hm & Hs).
  - reflexivity.
  - exists d. split; [reflexivity|]. split; [exact Hf|exact Hd].
  - exists m. split; [exact Hm|]. intros s. apply Hs.
Defined.

End Network.
