(* ===== verification/Runner.v ===== *)
(** * Runner, Worker and Broker (src/runner.cpp, src/worker.cpp, src/broker.cpp)

    The main-thread side: starting and stopping the asynchronous task, the operations sent to
    it with the execution token, the events it sends back, and the user's calls of a worker.

    The inter-thread sockets are inproc ones of the runner itself, created with the runner;
    they are modelled by what they hold: a queue for operations and one for events, and the
    last message for the two sockets with the conflate option (completion and sequence
    number). *)

From S2P Require Import Prelude Part PartMulti Codec Uuid Topic Event Config Session.

Local Open Scope Z_scope.

Module Runner.
Import Part PartMulti Codec Uuid Topic Config Session.

Abbreviation get := Prelude.get.

(** [Runner] *)
Record runner := mkRunner {
  uuid_ : uuid;
  zops_ : list (part * part);
  zevr_ : list part;
  zfinr_ : option part;
  running_ : bool;
  token_ : Z;
  endpDelivery_ : list bytes;
  endpDispatch_ : list bytes;
  endpSnapshot_ : list bytes;
}.

(** [Runner::Runner] *)
Definition Runner (id : uuid) : runner :=
  mkRunner id [] [] None false 0
    [str "ipc:///tmp/worker_delivery"] [str "ipc:///tmp/worker_dispatch"] [str "ipc:///tmp/broker_snapshot"].

Definition set_zops (v : list (part * part)) (r : runner) : runner :=
  mkRunner (uuid_ r) v (zevr_ r) (zfinr_ r) (running_ r) (token_ r) (endpDelivery_ r) (endpDispatch_ r)
    (endpSnapshot_ r).
Definition set_zevr (v : list part) (r : runner) : runner :=
  mkRunner (uuid_ r) (zops_ r) v (zfinr_ r) (running_ r) (token_ r) (endpDelivery_ r) (endpDispatch_ r)
    (endpSnapshot_ r).
Definition set_zfinr (v : option part) (r : runner) : runner :=
  mkRunner (uuid_ r) (zops_ r) (zevr_ r) v (running_ r) (token_ r) (endpDelivery_ r) (endpDispatch_ r)
    (endpSnapshot_ r).
Definition set_running (v : bool) (r : runner) : runner :=
  mkRunner (uuid_ r) (zops_ r) (zevr_ r) (zfinr_ r) v (token_ r) (endpDelivery_ r) (endpDispatch_ r)
    (endpSnapshot_ r).
Definition set_token (v : Z) (r : runner) : runner :=
  mkRunner (uuid_ r) (zops_ r) (zevr_ r) (zfinr_ r) (running_ r) v (endpDelivery_ r) (endpDispatch_ r)
    (endpSnapshot_ r).

(** [Runner::setEndpoints] *)
Definition setEndpoints (delivery dispatch snapshot : list bytes) (r : runner) : runner :=
  mkRunner (uuid_ r) (zops_ r) (zevr_ r) (zfinr_ r) (running_ r) (token_ r) delivery dispatch snapshot.

Section WithEnv.
Context {P : Platform}.

(** [Runner::isRunning] *)
Definition isRunning : M runner bool :=
  r ← get;
  match zfinr_ r with
  | Some p =>
    modify (set_zfinr None);;
    if toUint8 p =? token_ r then modify (set_running false) else mret tt
  | None => mret tt
  end;;
  r ← get;
  mret (running_ r).

(** [Runner::sendOperation]: an exception is fatal. *)
Definition sendOperation (oper : Operation.type) (payload : part) : M runner unit := fun r =>
  match
    payload ← noexcept_ (Part_copy payload);
    Operation.operation_toPart (Operation.mkOp oper Operation.Success payload)
  with
  | Ok p => (Ok tt, set_zops (zops_ r ++ [(Part_uint8 (token_ r), p)]) r)
  | Throw _ | Abort => (Abort, r)
  | Undef => (Undef, r)
  end.

(** [Runner::stop] *)
Definition stop : M runner bool :=
  b ← isRunning;
  if negb b then mret false else
  sendOperation Operation.Stop Part_empty;; mret true.

(** [Runner::recvEvent] *)
Definition recvEvent : M runner Event.event :=
  r ← get;
  match zevr_ r with
  | [] => mret (Event.mkEvent Event.Invalid Event.Timeout Part_empty)
  | p :: q =>
    modify (set_zevr q);;
    lift (ASSERT (bool_decide (cstr (group p) = GROUP_EVENTS)));;
    fs ← lift (unpack [TInt 1; TStr] (p_data p));
    match fs with
    | [FInt _ tok; FStr ev] =>
      e ← lift (Event.event_fromString ev);
      mret (Event.withNotification (if tok =? token_ r then Event.Success else Event.Discard) e)
    | _ => lift Undef
    end
  end.

(** [Runner::~Runner] *)
Definition delete_Runner : M runner unit := stop;; mret tt.

(** [Runner::eventFD], from what [zmq_poller_fd] gives *)
Definition eventFD (zmq_poller_fd : option Z) : outcome Z :=
  ASSERT (match zmq_poller_fd with Some _ => true | None => false end);;
  Ok (default 0 zmq_poller_fd).

(** What the poller of [waitForEvent] reports: events, or the cancellation *)
Inductive wready := REvents | RCancel.

(** [Runner::waitForEvent] over the reports of the poller: [None] while it still waits. *)
Fixpoint waitForEvent (match_ : option (Event.type -> bool)) (l : list wready) : M runner (option Event.event) :=
  match l with
  | [] => mret None
  | RCancel :: _ => mret (Some (Event.mkEvent Event.Invalid Event.Timeout Part_empty))
  | REvents :: l =>
    ev ← recvEvent;
    if (bool_decide (Event.notif_ ev = Event.Timeout) ||
        match match_ with Some f => negb (f (Event.type_ ev)) | None => false end)%bool
    then waitForEvent match_ l
    else mret (Some ev)
  end.

End WithEnv.

(** ** The classes derived from [Runner] *)

(** What a derived class implements: its [prepareConfiguration]. *)
Class RunnerKind (S : Type) := {
  runner_of : S -> runner;
  set_runner : runner -> S -> S;
  prepareConfiguration : M S part;
}.

Section Start.
Context {P : Platform} {S : Type} `{RunnerKind S}.

Definition on_runner {A} (m : M runner A) : M S A := zoom runner_of set_runner m.

(** The scope guard of [Runner::start] *)
Definition unless_commit {A} (m : M S A) : M S A := fun s =>
  match m s with
  | (Ok a, s') => (Ok a, s')
  | (o, s') => (o, set_runner (set_running false (runner_of s')) s')
  end.

(** [Runner::start]: the token of the session that is started, if any *)
Definition start : M S (option Z) :=
  b ← on_runner isRunning;
  if (b : bool) then mret None else
  on_runner (modify (fun r => set_running true (set_token (wrap8 (token_ r + 1)) r)));;
  unless_commit (
    p ← prepareConfiguration;
    on_runner (sendOperation Operation.Start p));;
  s ← get;
  mret (Some (token_ (runner_of s))).

End Start.

(** ** Broker *)

(** [Broker::prepareConfiguration] *)
#[export] Instance broker_kind {P : Platform} : RunnerKind runner := {|
  runner_of r := r;
  set_runner r _ := r;
  prepareConfiguration :=
    r ← get;
    lift (BrokerConfig_toPart (mkBrokerConfig (uuid_ r) (endpDelivery_ r) (endpDispatch_ r) (endpSnapshot_ r)));
|}.

(** ** Worker *)

Record worker := mkWorker {
  w_runner : runner;
  zseqr_ : option part;
  seqNum_ : Z;
  subscrAll_ : bool;
  subscrNames_ : list name;
}.

(** [Worker::Worker] *)
Definition Worker (id : uuid) (initSequence : Z) : worker := mkWorker (Runner id) None initSequence true [].

Definition set_w_runner (r : runner) (w : worker) : worker :=
  mkWorker r (zseqr_ w) (seqNum_ w) (subscrAll_ w) (subscrNames_ w).
Definition set_seq (z : option part) (n : Z) (w : worker) : worker :=
  mkWorker (w_runner w) z n (subscrAll_ w) (subscrNames_ w).

(** [Worker::setTopicsAll], [Worker::setTopicsNames] *)
Definition setTopicsAll (w : worker) : worker := mkWorker (w_runner w) (zseqr_ w) (seqNum_ w) true [].
Definition setTopicsNames (names : list name) (w : worker) : worker :=
  mkWorker (w_runner w) (zseqr_ w) (seqNum_ w) false names.

Section Worker.
Context {P : Platform}.

(** [Worker::seqNumber] *)
Definition seqNumber : M worker Z :=
  w ← get;
  match zseqr_ w with
  | Some p => modify (set_seq None (toUint64 p))
  | None => mret tt
  end;;
  w ← get;
  mret (seqNum_ w).

(** [Worker::prepareConfiguration] *)
#[export] Instance worker_kind : RunnerKind worker := {|
  runner_of := w_runner;
  set_runner := set_w_runner;
  prepareConfiguration :=
    n ← seqNumber;
    w ← get;
    let r := w_runner w in
    lift (WorkerConfig_toPart (mkWorkerConfig (uuid_ r) n (subscrAll_ w) (subscrNames_ w)
            (endpDelivery_ r) (endpDispatch_ r) (endpSnapshot_ r)));
|}.

(** [Worker::dispatch] *)
Definition dispatch (n : name) (data : part) (ty : topic_type) : M worker unit :=
  b ← on_runner isRunning;
  if negb b then mret tt else
  w ← get;
  p ← lift (t ← Topic_new nil_uuid (uuid_ (w_runner w)) 0 n data ty; topic_toPart t);
  on_runner (sendOperation Operation.Dispatch p).

(** [Worker::sync] *)
Definition sync : M worker unit :=
  b ← on_runner isRunning;
  if negb b then mret tt else on_runner (sendOperation Operation.Sync Part_empty).

(** [Worker::waitForStarted], [waitForStopped], [waitForOnline], [waitForOffline]: whether
    the event was of the type waited for *)
Definition waitForType (ty : Event.type) (l : list wready) : M worker (option bool) :=
  let f := fun t => bool_decide (t = ty) in
  ev ← on_runner (waitForEvent (Some f) l);
  mret ((fun e => f (Event.type_ e)) <$> ev).

(** [Worker::waitForTopic] *)
Definition waitForTopic (l : list wready) : M worker (option (option topic)) :=
  let f := fun t => (bool_decide (t = Event.Delivery) || bool_decide (t = Event.SyncElement))%bool in
  ev ← on_runner (waitForEvent (Some f) l);
  match ev with
  | None => mret None
  | Some e =>
    if negb (f (Event.type_ e)) then mret (Some None) else
    t ← lift (topic_fromPart (Event.payld_ e)); mret (Some (Some t))
  end.

End Worker.
End Runner.
