(* ===== verification/RunnerEvents.v ===== *)
(** * Waiting for events (src/runner.cpp, src/worker.cpp)

    What [Runner::waitForEvent] and the calls of a worker built on it return, from the events that
    sessions sent: the first event in the queue that matches, whichever session sent it. *)

From S2P Require Import Prelude Part PartMulti Codec Uuid Topic Event Config Session BrokerSession Runner.

Local Open Scope Z_scope.

Module RunnerEvents.
Import Part PartMulti Codec Uuid Topic Config Session Runner.

Section Facts.
Context {P : Platform}.

(** An event that a session sends: its token, its type and its payload *)
Definition sent_event : Type := Z * Event.type * part.
Definition event_good (e : sent_event) : Prop :=
  in_width 1 e.1.1 /\ e.1.2 <> Event.COUNT /\ zlen (p_data e.2) < u32_max - 6 /\ p_rid e.2 = 0 /\
  (length (p_group e.2) <= ZMQ_GROUP_MAX_LENGTH)%nat.
Definition sent (e : sent_event) (m : part) : Prop := event_message e.1.1 e.1.2 e.2 = Ok m.

(** The event as the main thread receives it *)
Definition received (token : Z) (e : sent_event) : Event.event :=
  Event.mkEvent e.1.2 (if e.1.1 =? token then Event.Success else Event.Discard) (Part_bytes (p_data e.2)).
Definition timeout_event : Event.event := Event.mkEvent Event.Invalid Event.Timeout Part_empty.

Lemma recv_sent e m q r : event_good e -> sent e m -> zevr_ r = m :: q ->
  recvEvent r = (Ok (received (token_ r) e), set_zevr q r).
Proof.
  destruct e as [[tok t] pay]. unfold sent, event_good. cbn [fst snd]. intros (H1 & H2 & H3 & H4 & H5) Em Hq.
  destruct (event_message_spec tok t pay) as (d & Em' & e & Hu & He); [done..|]. rewrite Em in Em'. injection Em' as ->.
  unfold recvEvent. rewrite bind_get, Hq, bind_modify. cbn [p_data]. rewrite Hu.
  rewrite (M_bind_eq _ _ _ tt (set_zevr q r)) by done. rewrite bind_lift. rewrite He, bind_lift. by destruct r.
Qed.

Lemma received_notif token e : bool_decide (Event.notif_ (received token e) = Event.Timeout) = false.
Proof. unfold received. by destruct (_ =? _). Qed.

(** Waiting while the queue has events, and then over [rest] *)
Lemma waitForEvent_queue f l : Forall event_good l -> forall r rest, Forall2 sent l (zevr_ r) ->
  waitForEvent (Some f) (replicate (length l) REvents ++ rest) r =
  match list_find (fun e : sent_event => f e.1.2 = true) l with
  | Some (i, e) => (Ok (Some (received (token_ r) e)), set_zevr (drop (S i) (zevr_ r)) r)
  | None => waitForEvent (Some f) rest (set_zevr [] r)
  end.
Proof.
  induction 1 as [|e l He _ IH]; intros r rest Hs.
  { inversion Hs as [Hz|]. cbn. f_equal. by destruct r; cbn in *; subst. }
  apply Forall2_cons_inv_l in Hs as (m & ms & Em & Hs & Hz). cbn [length replicate app waitForEvent].
  rewrite (M_bind_eq _ _ _ _ _ (recv_sent e m ms r He Em Hz)), received_notif. cbn [orb Event.type_ received list_find].
  rewrite Hz. cbn [drop]. destruct (f e.1.2) eqn:Ef; cbn [negb].
  - by rewrite decide_True.
  - rewrite decide_False by congruence. rewrite IH by done. cbn [zevr_ set_zevr token_].
    destruct (list_find _ l) as [[i e']|]; cbn [fmap option_fmap option_map prod_map]; [|by destruct r].
    by destruct r.
Qed.

(** [Worker::dispatch] of a running worker *)
Lemma dispatch_running n data ft w : let r := w_runner w in
  zfinr_ r = None -> running_ r = true -> uuid_ok (Runner.uuid_ r) -> zlen data < u32_max - 1024 ->
  exists dt dp, dispatch (Name n) (Part_bytes data) ft w =
      (Ok tt, set_w_runner (set_zops (zops_ r ++ [(Part_uint8 (token_ r), Part_bytes dp)]) r) w) /\
    Operation.operation_fromPart (Part_bytes dp) = Ok (Operation.mkOp Operation.Dispatch Operation.Success (Part_bytes dt)) /\
    topic_fromPart (Part_bytes dt) = Ok (mkTopic nil_uuid (Runner.uuid_ r) 0 (Name n) (Part_bytes data) ft).
Proof.
  intros r Hz Hrun Hu Hlen. set (t := mkTopic nil_uuid (Runner.uuid_ r) 0 (Name n) (Part_bytes data) ft).
  assert (BrokerSession.small_topic t) as Hsm by (split; [constructor; cbn; try done; apply Name_ok || lia|done]).
  destruct (BrokerSession.small_topic_part t Hsm) as (dt & Hdt & Hzl & Hft').
  destruct (Operation.operation_roundtrip (Operation.mkOp Operation.Dispatch Operation.Success (Part_bytes dt))) as (dp & Hdp & _ & Hop).
  { constructor; try done. cbn. lia. }
  exists dt, dp. split_and!; [|done|done]. unfold dispatch.
  assert (isRunning r = (Ok true, r)) as Er
    by (unfold isRunning, mbind, M_bind, Prelude.get; rewrite Hz; unfold mret, M_ret; by rewrite Hrun).
  assert (on_runner (S := worker) isRunning w = (Ok true, w)) as Eo.
  { unfold on_runner, zoom. cbn [runner_of set_runner worker_kind]. fold r. rewrite Er. by destruct w. }
  rewrite (M_bind_eq _ _ _ _ _ Eo). cbn [negb]. rewrite bind_get. fold r.
  assert ((t ← Topic_new nil_uuid (Runner.uuid_ r) 0 (Name n) (Part_bytes data) ft; topic_toPart t) = Ok (Part_bytes dt)) as Et
    by exact Hdt.
  rewrite Et, bind_lift. unfold on_runner, zoom. cbn [runner_of set_runner worker_kind]. fold r. unfold sendOperation.
  change (noexcept_ (Part_copy (Part_bytes dt))) with (Ok (Part_bytes dt)). cbn [mbind outcome_bind]. by rewrite Hdp.
Qed.

End Facts.

(** The match of the calls that wait for a type *)
Definition is_type (ty t : Event.type) : bool := bool_decide (t = ty).

Lemma find_any f (l : list sent_event) :
  match list_find (fun e : sent_event => f e.1.2 = true) l with Some _ => true | None => false end = existsb (fun e : sent_event => f e.1.2) l.
Proof.
  induction l as [|e l IH]; [done|]. cbn [list_find existsb]. destruct (f e.1.2) eqn:Ef; [by rewrite decide_True|].
  rewrite decide_False by congruence. rewrite <-IH. by destruct (list_find _ l).
Qed.

(** ** Theorems *)

(** [waitForStarted], [waitForStopped], [waitForOnline] and [waitForOffline], when the events in the
    queue are followed by the timeout: they return true exactly when an event of the type is in the
    queue; they take it and all the events before it out of the queue, and leave those after it.
    It does not matter which session sent it: an event of an earlier session, which
    [waitForEvent] reports as discarded, is taken for the answer. *)
Theorem wait_takes_first (P : Platform) (ty : Event.type) (w : worker) (l : list sent_event) :
  Forall event_good l -> Forall2 sent l (zevr_ (w_runner w)) -> ty <> Event.Invalid ->
  waitForType ty (replicate (length l) REvents ++ [RCancel]) w =
  (Ok (Some (existsb (fun e : sent_event => is_type ty e.1.2) l)),
   set_w_runner (set_zevr
     (match list_find (fun e : sent_event => is_type ty e.1.2 = true) l with
      | Some (i, _) => drop (S i) (zevr_ (w_runner w))
      | None => []
      end) (w_runner w)) w).
Proof.
  intros Hg Hs Hty. unfold waitForType. fold (is_type ty).
  rewrite <-(find_any (is_type ty) l).
  pose proof (waitForEvent_queue (is_type ty) l Hg (w_runner w) [RCancel] Hs) as E.
  destruct (list_find _ l) as [[i e]|] eqn:Ef.
  - apply list_find_Some in Ef as (_ & He & _). erewrite M_bind_eq.
    2:{ unfold on_runner, zoom. cbn [runner_of set_runner worker_kind]. by rewrite E. }
    cbn [fmap option_fmap option_map received Event.type_]. unfold is_type in He. by rewrite He.
  - cbn [waitForEvent] in E. erewrite M_bind_eq.
    2:{ unfold on_runner, zoom. cbn [runner_of set_runner worker_kind]. by rewrite E. }
    cbn [fmap option_fmap option_map Event.type_]. by rewrite bool_decide_eq_false_2.
Qed.

(** The worker runs its session 2; an event of session 1 is still in the queue. *)
Definition stale_event : sent_event := (1, Event.Stopped, Part_empty).
Definition stale_worker : worker :=
  mkWorker (set_running true (set_token 2 (set_zevr
    [match @event_message x86_64 1 Event.Stopped Part_empty with Ok m => m | _ => Part_empty end] (Runner nil_uuid)))) None 0 true [].

Lemma wait_takes_first_witness :
  @waitForType x86_64 Event.Stopped [REvents; RCancel] stale_worker =
  (Ok (Some true), set_w_runner (set_zevr [] (w_runner stale_worker)) stale_worker).
Proof.
  apply (wait_takes_first x86_64 Event.Stopped stale_worker [stale_event]).
  - apply Forall_cons_2; [|constructor]. split_and!; try (vm_compute; by intuition). by apply Nat.leb_le.
  - apply Forall2_cons_2; [vm_compute; reflexivity|constructor].
  - discriminate.
Defined.

End RunnerEvents.
