(* ===== verification/RunnerSystem.v ===== *)
(** * The main thread and the session thread of a worker together

    The calls of the user on a [Worker] and the steps of its session thread in any order.
    A call is one step: between its parts the session can only take operations from the queue
    or end, and both commute with the rest of the call. *)

From S2P Require Import Prelude Part PartMulti Codec Uuid Topic Event Config Session Runner.

Local Open Scope Z_scope.

Module RunnerSystem.
Import Part PartMulti Codec Uuid Topic Config Session Runner.

Abbreviation get := Prelude.get.
Abbreviation message := (part * part)%type (only parsing).

(** The worker, the token and the number of the session that is running, how many were started,
    the operations in the queue, all those sent and all those handled, each with the number of
    the session it was sent to or handled by *)
Record sys := mkSys {
  main : worker;
  alive : option (Z * nat);
  gen : nat;
  queue : list (nat * message);
  sent : list (nat * message);
  handled : list (nat * message);
}.

Definition init (id : uuid) (seq0 : Z) : sys := mkSys (Worker id seq0) None 0 [] [] [].

(** The calls that configure the next session *)
Inductive setter :=
  | ConfEndpoints (delivery dispatch snapshot : list bytes) | ConfTopicsAll | ConfTopicsNames (names : list name).
Definition apply_setter (c : setter) (w : worker) : worker :=
  match c with
  | ConfEndpoints d p s => set_w_runner (setEndpoints d p s (w_runner w)) w
  | ConfTopicsAll => setTopicsAll w
  | ConfTopicsNames l => setTopicsNames l w
  end.

Inductive label :=
  | LStart | LStop | LIsRunning
  | LConfigure (c : setter)
  | LDispatch (n : name) (data : part) (ty : topic_type) | LSync
  | LSeqNumber
  | SRecv        (** the session takes the next operation *)
  | SNotify (n : Z)   (** the session reports its sequence number *)
  | SDie.        (** the session throws *)

Section WithEnv.
Context {P : Platform}.

Definition queued (w : worker) : list message := zops_ (w_runner w).

(** A call of the main thread, which may send operations to session [g] *)
Definition call (g : nat) (w' : worker) (s : sys) : sys :=
  let new := (fun m => (g, m)) <$> drop (length (queued (main s))) (queued w') in
  mkSys w' (alive s) g (queue s ++ new) (sent s ++ new) (handled s).

Definition spawn (o : option Z) (s : sys) : sys :=
  match o with
  | Some tok => mkSys (main s) (Some (tok, gen s)) (gen s) (queue s) (sent s) (handled s)
  | None => s
  end.

(** The end of session [k]: the completion message replaces the one on the socket. *)
Definition finish (k : Z) (s : sys) : sys :=
  mkSys (set_w_runner (set_zfinr (Some (Part_uint8 k)) (w_runner (main s))) (main s)) None
    (gen s) (queue s) (sent s) (handled s).

(** The session takes an operation from the queue. *)
Definition take_op (q : list message) (done : list (nat * message)) (s : sys) : sys :=
  mkSys (set_w_runner (set_zops q (w_runner (main s))) (main s)) (alive s) (gen s) (tail (queue s)) (sent s)
    (handled s ++ done).

Definition exec (l : label) (s : sys) : option sys :=
  match l with
  | LStart =>
    match start (main s) with
    | (Ok o, w) => Some (spawn o (call (match o with Some _ => S (gen s) | None => gen s end) w s))
    | _ => None
    end
  | LStop =>
    match on_runner (S := worker) stop (main s) with (Ok _, w) => Some (call (gen s) w s) | _ => None end
  | LIsRunning =>
    match on_runner (S := worker) isRunning (main s) with (Ok _, w) => Some (call (gen s) w s) | _ => None end
  | LConfigure c => Some (call (gen s) (apply_setter c (main s)) s)
  | LDispatch n d ty =>
    match dispatch n d ty (main s) with (Ok _, w) => Some (call (gen s) w s) | _ => None end
  | LSync => match sync (main s) with (Ok _, w) => Some (call (gen s) w s) | _ => None end
  | LSeqNumber => match seqNumber (main s) with (Ok _, w) => Some (call (gen s) w s) | _ => None end
  | SRecv =>
    match alive s, queued (main s) with
    | Some (k, g), m :: q =>
      match recvOperation k m.1 m.2 with
      | Ok op =>
        if decide (Operation.notif_ op = Operation.Discard) then Some (take_op q [] s) else
        let s := take_op q [(g, m)] s in
        Some (if decide (Operation.type_ op = Operation.Stop) then finish k s else s)
      | _ => None
      end
    | _, _ => None
    end
  | SNotify n =>
    match alive s with
    | Some _ => Some (mkSys (set_seq (Some (Part_uint64 n)) (seqNum_ (main s)) (main s)) (alive s) (gen s)
                       (queue s) (sent s) (handled s))
    | None => None
    end
  | SDie => match alive s with Some (k, _) => Some (finish k s) | None => None end
  end.

(** ** The running flag *)

(** The flag is up while the session runs; when the session has ended, its completion message
    is waiting or the flag is down. *)
Definition flag_ok (r : runner) (a : option (Z * nat)) (g : nat) : Prop :=
  token_ r = Z.of_nat g mod 256 /\
  match a with
  | Some (k, g') => running_ r = true /\ zfinr_ r = None /\ k = token_ r /\ g' = g
  | None =>
    running_ r = false /\ zfinr_ r = None \/
    running_ r = true /\ zfinr_ r = Some (Part_uint8 (token_ r))
  end.

Lemma token_width r a g : flag_ok r a g -> in_width 1 (token_ r).
Proof. intros [-> _]. unfold in_width. apply Z.mod_pos_bound. lia. Qed.

Lemma isRunning_spec r a g : flag_ok r a g ->
  exists r', isRunning r = (Ok (bool_decide (a <> None)), r') /\ flag_ok r' a g /\
    zfinr_ r' = None /\ running_ r' = bool_decide (a <> None) /\
    token_ r' = token_ r /\ zops_ r' = zops_ r /\ zevr_ r' = zevr_ r.
Proof.
  intros Hf. pose proof (token_width r a g Hf) as Hw. destruct Hf as [Ht Hf].
  unfold isRunning, mbind, M_bind, Prelude.get, modify, mret, M_ret.
  destruct a as [[k g']|].
  - destruct Hf as (Hr & Hz & Hk). rewrite Hz. exists r. rewrite bool_decide_eq_true_2 by done.
    rewrite Hr. split_and!; done.
  - rewrite bool_decide_eq_false_2 by (intros []; done). destruct Hf as [[Hr Hz]|[Hr Hz]]; rewrite Hz.
    + exists r. rewrite Hr. split_and!; try done. split; [done|]. by left.
    + rewrite toUint8_Part, Z.eqb_refl by done. eexists. split; [done|].
      split_and!; try done. split; [done|]. by left.
Qed.

(** ** Calls of the main thread *)

(** A message for session [g] that decodes to an operation *)
Definition msg_ok (g : nat) (m : message) : Prop :=
  m.1 = Part_uint8 (Z.of_nat g mod 256) /\ exists op, Operation.operation_fromPart m.2 = Ok op.

Lemma sendOperation_result oper payload r r' : oper <> Operation.COUNT ->
  sendOperation oper payload r = (Ok tt, r') ->
  exists p op, r' = set_zops (zops_ r ++ [(Part_uint8 (token_ r), p)]) r /\
    Operation.operation_fromPart p = Ok op /\ Operation.type_ op = oper.
Proof.
  intros Ho. unfold sendOperation. destruct (noexcept_ (Part_copy payload)) as [q| | |]; try discriminate.
  cbn [mbind outcome_bind].
  destruct (Operation.operation_toPart _) as [p| | |] eqn:E; try discriminate. intros [= <-].
  pose proof (Message.pack_checked_fits _ _ _ _ _ _ E) as Hz. cbn [Operation.payld_] in Hz.
  set (op := Operation.mkOp oper Operation.Success (Part_bytes (p_data q))).
  assert (Operation.operation_ok op) as Hok by (by constructor).
  destruct (Operation.operation_roundtrip op Hok) as (d & Hd & _ & Hf).
  change (Operation.operation_toPart op = Ok p) in E. rewrite Hd in E. injection E as <-.
  by exists (Part_bytes d), op.
Qed.

(** What a call leaves: the flag is right and the operations it sent are for this session. *)
Definition called (a : option (Z * nat)) (g : nat) (w w' : worker) : Prop :=
  flag_ok (w_runner w') a g /\
  exists ms, queued w' = queued w ++ ms /\ Forall (msg_ok g) ms /\ (a = None -> ms = []).

Lemma on_isRunning a g w : flag_ok (w_runner w) a g ->
  exists w', on_runner (S := worker) isRunning w = (Ok (bool_decide (a <> None)), w') /\
    flag_ok (w_runner w') a g /\ queued w' = queued w /\ token_ (w_runner w') = token_ (w_runner w) /\
    zfinr_ (w_runner w') = None /\ running_ (w_runner w') = bool_decide (a <> None).
Proof.
  intros Hf. destruct (isRunning_spec _ _ _ Hf) as (r' & E & H1 & H2 & H3 & H4 & H5 & _).
  unfold on_runner, zoom. cbn [runner_of worker_kind]. rewrite E. eexists. split; [done|]. done.
Qed.

Lemma called_send oper payload k g w w' : flag_ok (w_runner w) (Some (k, g)) g -> oper <> Operation.COUNT ->
  on_runner (S := worker) (sendOperation oper payload) w = (Ok tt, w') -> called (Some (k, g)) g w w'.
Proof.
  intros Hf Ho. unfold on_runner, zoom. cbn [runner_of set_runner worker_kind].
  destruct (sendOperation oper payload (w_runner w)) as [o r'] eqn:E. intros [= -> <-].
  apply sendOperation_result in E as (p & op & -> & Hop & _); [|done]. split; [done|].
  eexists. split; [done|]. split; [|done]. apply Forall_singleton. split; [|by exists op].
  cbn. by destruct Hf as [-> _].
Qed.

Lemma called_same a g w w' : flag_ok (w_runner w') a g -> queued w' = queued w -> called a g w w'.
Proof. intros Hf Hq. split; [done|]. exists []. by rewrite app_nil_r. Qed.

Lemma apply_called c a g w : flag_ok (w_runner w) a g -> called a g w (apply_setter c w).
Proof. intros Hf. apply called_same; by destruct c. Qed.

Lemma called_trans a g w1 w2 w3 : queued w2 = queued w1 -> called a g w2 w3 -> called a g w1 w3.
Proof. intros Hq (Hf & ms & Hm & Hok). split; [done|]. exists ms. by rewrite <-Hq. Qed.

(** A guarded call: nothing happens unless the session runs. *)
Lemma called_guarded {A} (m : M worker A) (ret : A) a g w b w' : flag_ok (w_runner w) a g ->
  (forall k w1 x w2, a = Some (k, g) -> flag_ok (w_runner w1) a g -> m w1 = (Ok x, w2) -> called a g w1 w2) ->
  (b0 ← on_runner isRunning; if negb b0 then mret ret else m) w = (Ok b, w') -> called a g w w'.
Proof.
  intros Hf Hm E. destruct (on_isRunning a g w Hf) as (w1 & E1 & Hf1 & Hq & _).
  rewrite (M_bind_eq _ _ _ _ _ E1) in E. destruct a as [[k g']|].
  - rewrite bool_decide_eq_true_2 in E by done. cbn [negb] in E.
    assert (g' = g) as -> by (by destruct Hf as (_ & _ & _ & _ & ?)).
    by eapply called_trans, Hm.
  - rewrite bool_decide_eq_false_2 in E by (intros []; done). cbn [negb] in E.
    injection E as <- <-. by apply called_same.
Qed.

Lemma frames_seqNumber : frames w_runner seqNumber.
Proof. unfold seqNumber. frame. Qed.

Lemma frames_prepare : frames w_runner (prepareConfiguration (S := worker)).
Proof. pose proof frames_seqNumber. cbn. frame. Qed.

(** A start spawns a session exactly when none runs, and sends it the start operation. *)
Lemma start_result a g w o w' : flag_ok (w_runner w) a g -> start w = (Ok o, w') ->
  match a with
  | Some _ => o = None /\ called a g w w'
  | None => exists tok m, o = Some tok /\ flag_ok (w_runner w') (Some (tok, S g)) (S g) /\
      queued w' = queued w ++ [m] /\ msg_ok (S g) m
  end.
Proof.
  intros Hf E. unfold start in E. destruct (on_isRunning a g w Hf) as (w1 & E1 & Hf1 & Hq & Htk & Hz & Hr).
  rewrite (M_bind_eq _ _ _ _ _ E1) in E. destruct a as [[k g']|].
  - rewrite bool_decide_eq_true_2 in E by done. injection E as <- <-. split; [done|]. by apply called_same.
  - rewrite bool_decide_eq_false_2 in E by (intros []; done).
    unfold on_runner, zoom, unless_commit, mbind, M_bind, modify, Prelude.get, mret, M_ret in E.
    cbn [runner_of set_runner worker_kind] in E. set (w2 := set_w_runner _ w1) in E.
    pose proof (frames_prepare w2) as Hp.
    destruct (prepareConfiguration w2) as [[p| | |] w3]; try discriminate E. cbn [snd] in Hp.
    destruct (sendOperation Operation.Start p (w_runner w3)) as [[[]| | |] r4] eqn:E4; try discriminate E.
    apply sendOperation_result in E4 as (q & op & -> & Hop & _); [|done]. rewrite Hp in E.
    injection E as <- <-. cbn [w_runner set_w_runner set_zops token_ w2 set_token set_running].
    assert (wrap8 (token_ (w_runner w1) + 1) = Z.of_nat (S g) mod 256) as Htok.
    { destruct Hf1 as [-> _]. change (wrap8 ?x) with (x mod 256). rewrite Zplus_mod_idemp_l. f_equal. lia. }
    eexists _, _. split; [done|]. split; [|split].
    + split; [done|]. split_and!; done.
    + unfold queued in *. cbn. by rewrite Hq.
    + split; [|by exists op]. cbn. by rewrite ?Hp, <-Htok.
Qed.

Lemma stop_called a g w b w' : flag_ok (w_runner w) a g ->
  on_runner (S := worker) stop w = (Ok b, w') -> called a g w w'.
Proof.
  intros Hf E.
  apply (called_guarded (on_runner (sendOperation Operation.Stop Part_empty);; mret true) false a g w b);
    [done| |].
  - intros k w1 x w2 -> Hf1 E2. apply M_bind_Ok in E2 as ([] & w3 & E2 & [= _ <-]).
    refine (called_send _ _ _ _ _ _ Hf1 _ E2). done.
  - revert E. unfold on_runner, zoom, stop, mbind, M_bind. cbn [runner_of set_runner worker_kind].
    destruct (isRunning (w_runner w)) as [[[]| | |] r1]; cbn [negb]; try done.
    cbn [w_runner set_w_runner]. by destruct (sendOperation _ _ r1) as [[[]| | |] r2].
Qed.

Lemma dispatch_called a g w n d ty w' : flag_ok (w_runner w) a g ->
  dispatch n d ty w = (Ok tt, w') -> called a g w w'.
Proof.
  intros Hf. apply (called_guarded _ tt); [done|].
  intros k w1 [] w2 -> Hf1 E. rewrite bind_get in E. apply M_bind_Ok in E as (p & w3 & [= _ <-] & E).
  refine (called_send _ _ _ _ _ _ Hf1 _ E). done.
Qed.

Lemma sync_called a g w w' : flag_ok (w_runner w) a g -> sync w = (Ok tt, w') -> called a g w w'.
Proof.
  intros Hf. apply (called_guarded _ tt); [done|]. intros k w1 [] w2 -> Hf1 E.
  refine (called_send _ _ _ _ _ _ Hf1 _ E). done.
Qed.

Lemma seqNumber_called a g w n w' : flag_ok (w_runner w) a g -> seqNumber w = (Ok n, w') -> called a g w w'.
Proof.
  intros Hf E. pose proof (frames_seqNumber w) as Hfr. rewrite E in Hfr. cbn [snd] in Hfr.
  apply called_same; unfold queued; by rewrite Hfr.
Qed.

(** ** Steps *)

Definition is_stop (m : message) : bool :=
  match Operation.operation_fromPart m.2 with
  | Ok op => bool_decide (Operation.type_ op = Operation.Stop)
  | _ => false
  end.

(** What each step does, once the flag is right *)
Inductive step_shape (s : sys) : sys -> Prop :=
  | shape_call w' : called (alive s) (gen s) (main s) w' -> step_shape s (call (gen s) w' s)
  | shape_start tok m w' : alive s = None -> flag_ok (w_runner w') (Some (tok, S (gen s))) (S (gen s)) ->
    queued w' = queued (main s) ++ [m] -> msg_ok (S (gen s)) m ->
    step_shape s (spawn (Some tok) (call (S (gen s)) w' s))
  | shape_skip k m q : alive s = Some (k, gen s) -> queued (main s) = m :: q -> toUint8 m.1 <> k ->
    step_shape s (take_op q [] s)
  | shape_take k m q : alive s = Some (k, gen s) -> queued (main s) = m :: q -> toUint8 m.1 = k ->
    is_stop m = false -> step_shape s (take_op q [(gen s, m)] s)
  | shape_stop k m q : alive s = Some (k, gen s) -> queued (main s) = m :: q -> toUint8 m.1 = k ->
    is_stop m = true -> step_shape s (finish k (take_op q [(gen s, m)] s))
  | shape_notify w' : w_runner w' = w_runner (main s) ->
    step_shape s (mkSys w' (alive s) (gen s) (queue s) (sent s) (handled s)).

Lemma exec_shape l s s' : flag_ok (w_runner (main s)) (alive s) (gen s) -> exec l s = Some s' ->
  step_shape s s' \/ l = SDie /\ exists k, alive s = Some (k, gen s) /\ s' = finish k s.
Proof.
  intros Hf E. destruct l as [| | |c|n d ty| | | |n|]; cbn [exec] in E.
  - destruct (start (main s)) as [[o| | |] w'] eqn:E1; try discriminate. injection E as <-. left.
    apply (start_result _ _ _ _ _ Hf) in E1. destruct (alive s) as [a|] eqn:Ea.
    + destruct E1 as [-> E1]. apply shape_call. by rewrite Ea.
    + destruct E1 as (tok & m & -> & H1 & H2 & H3). by eapply shape_start.
  - destruct (on_runner stop (main s)) as [[b| | |] w'] eqn:E1; try discriminate. injection E as <-.
    left. apply shape_call. by eapply stop_called.
  - destruct (on_isRunning _ _ _ Hf) as (w1 & E1 & Hf1 & Hq & _). rewrite E1 in E. injection E as <-.
    left. by apply shape_call, called_same.
  - injection E as <-. left. by apply shape_call, apply_called.
  - destruct (dispatch n d ty (main s)) as [[[]| | |] w'] eqn:E1; try discriminate. injection E as <-.
    left. apply shape_call. by eapply dispatch_called.
  - destruct (sync (main s)) as [[[]| | |] w'] eqn:E1; try discriminate. injection E as <-.
    left. apply shape_call. by eapply sync_called.
  - destruct (seqNumber (main s)) as [[b| | |] w'] eqn:E1; try discriminate. injection E as <-.
    left. apply shape_call. by eapply seqNumber_called.
  - destruct (alive s) as [[k g]|] eqn:Ea; [|discriminate].
    assert (g = gen s) as -> by (by destruct Hf as (_ & _ & _ & _ & ?)).
    destruct (queued (main s)) as [|m q] eqn:Eq; [discriminate|]. left. unfold recvOperation in E.
    destruct (Operation.operation_fromPart m.2) as [op| | |] eqn:Eo; try discriminate.
    destruct (Z.eqb_spec (toUint8 m.1) k) as [Hk|Hk]; cbn in E; injection E as <-.
    + assert (is_stop m = bool_decide (Operation.type_ op = Operation.Stop)) as Hst
        by (unfold is_stop; by rewrite Eo).
      case_decide as Hs.
      * apply (shape_stop s k m q); [done..|]. rewrite Hst. by apply bool_decide_eq_true.
      * apply (shape_take s k m q); [done..|]. rewrite Hst. by apply bool_decide_eq_false.
    + by apply (shape_skip s k m q).
  - destruct (alive s) as [a|] eqn:Ea; [|discriminate]. injection E as <-. left. rewrite <-Ea.
    by apply (shape_notify s).
  - destruct (alive s) as [[k g]|] eqn:Ea; [|discriminate]. injection E as <-. right.
    assert (g = gen s) as -> by (by destruct Hf as (_ & _ & _ & _ & ?)). split; [done|]. by exists k.
Qed.

Lemma finish_flag k s : flag_ok (w_runner (main s)) (Some (k, gen s)) (gen s) ->
  flag_ok (w_runner (main (finish k s))) None (gen s).
Proof. intros (Ht & Hr & _ & -> & _). split; [done|]. by right. Qed.

Lemma shape_flag s s' : flag_ok (w_runner (main s)) (alive s) (gen s) -> step_shape s s' ->
  flag_ok (w_runner (main s')) (alive s') (gen s').
Proof.
  intros Hf Hs. destruct Hs as [w' [Hc _]|tok m w' Ha Hc _ _|k m q Ha _ _|k m q Ha _ _ _|k m q Ha _ _ _|w' Hw];
    try done.
  - rewrite Ha in Hf. exact (finish_flag k (take_op q [(gen s, m)] s) Hf).
  - cbn. by rewrite Hw.
Qed.

(** ** Runs *)

Inductive reachable (no_die : bool) : sys -> Prop :=
  | reach_init id seq0 : reachable no_die (init id seq0)
  | reach_exec l s s' : reachable no_die s -> (no_die = true -> l <> SDie) -> exec l s = Some s' ->
    reachable no_die s'.

Lemma reachable_flag b s : reachable b s -> flag_ok (w_runner (main s)) (alive s) (gen s).
Proof.
  induction 1 as [id seq0|l s s' _ IH _ E].
  - split; [done|]. by left.
  - apply exec_shape in E as [E|(_ & k & Ha & ->)]; [by eapply shape_flag| |done].
    rewrite Ha in IH. exact (finish_flag k s IH).
Qed.

Fixpoint run (ls : list label) (s : sys) : option sys :=
  match ls with
  | [] => Some s
  | l :: ls => exec l s ≫= run ls
  end.

Lemma run_reachable b ls : forall s s', reachable b s -> (b = true -> SDie ∉ ls) -> run ls s = Some s' ->
  reachable b s'.
Proof.
  induction ls as [|l ls IH]; intros s s' Hr Hd; cbn [run]; [by intros [= <-]|].
  destruct (exec l s) as [s1|] eqn:E; [|done]. apply IH.
  - eapply reach_exec; [done| |done]. intros Hb ->. specialize (Hd Hb). set_solver.
  - intros Hb. specialize (Hd Hb). set_solver.
Qed.

(** ** The operations each session handles *)

(** The messages with number [g] *)
Definition msgs_of (g : nat) (l : list (nat * message)) : list message := (filter (fun e => e.1 = g) l).*2.

(** A stop can only be the last one. *)
Definition stops_last (l : list message) : Prop :=
  forall l1 m l2, l = l1 ++ m :: l2 -> is_stop m = true -> l2 = [].

Definition stopped (l : list message) : Prop := exists m, last l = Some m /\ is_stop m = true.

Lemma of_app g l1 l2 : msgs_of g (l1 ++ l2) = msgs_of g l1 ++ msgs_of g l2.
Proof. unfold msgs_of. by rewrite filter_app, fmap_app. Qed.

Lemma of_same g (ms : list message) : msgs_of g ((fun m => (g, m)) <$> ms) = ms.
Proof.
  unfold msgs_of. induction ms as [|m ms IH]; [done|]. rewrite fmap_cons, filter_cons_True by done.
  rewrite fmap_cons. by f_equal.
Qed.

Lemma of_other g l : Forall (fun e => e.1 <> g) l -> msgs_of g l = [].
Proof.
  intros Hl. unfold msgs_of. assert (filter (fun e : nat * message => e.1 = g) l = []) as ->; [|done].
  induction Hl as [|e l He _ IH]; [done|]. by rewrite filter_cons_False.
Qed.

Lemma of_new g g' (ms : list message) : g' <> g -> msgs_of g' ((fun m => (g, m)) <$> ms) = [].
Proof. intros Hg. apply of_other. apply Forall_fmap, Forall_true. intros m. cbn. congruence. Qed.

Lemma stops_last_snoc l m : (forall x, x ∈ l -> is_stop x = false) -> stops_last (l ++ [m]).
Proof.
  intros Hl l1 x l2 E Hx. destruct (decide (l2 = [])) as [|Hn]; [done|]. exfalso.
  apply exists_last in Hn as (l2' & y & ->). rewrite app_comm_cons, app_assoc in E.
  apply app_inj_tail in E as [-> _]. rewrite (Hl x) in Hx; [done|]. set_solver.
Qed.

(** The queue holds what is left of the session before, then what was sent to this one. *)
Record ops_inv (s : sys) : Prop := mkOpsInv {
  oi_queue : (queue s).*2 = queued (main s);
  oi_msgs : Forall (fun e => msg_ok e.1 e.2) (queue s);
  oi_now : exists l1 ms, queue s = l1 ++ ((fun m => (gen s, m)) <$> ms) /\
    Forall (fun e => S e.1 = gen s) l1 /\
    match alive s with
    | Some _ => msgs_of (gen s) (sent s) = msgs_of (gen s) (handled s) ++ ms /\
                (forall m, m ∈ msgs_of (gen s) (handled s) -> is_stop m = false)
    | None => l1 = []
    end;
  oi_future : forall g, (gen s < g)%nat -> msgs_of g (sent s) = [] /\ msgs_of g (handled s) = [];
  oi_prefix : forall g, msgs_of g (handled s) `prefix_of` msgs_of g (sent s);
  oi_stops : forall g, stops_last (msgs_of g (handled s));
  oi_ended : forall g, (0 < g)%nat -> (g < gen s)%nat \/ alive s = None /\ g = gen s -> stopped (msgs_of g (handled s));
}.

Lemma init_ops id seq0 : ops_inv (init id seq0).
Proof.
  constructor; cbn; try done.
  - by exists [], [].
  - intros g l1 m l2 E. by destruct l1.
  - intros g Hg [?|[_ ?]]; lia.
Qed.

(** A call sends messages to the session that runs. *)
Lemma call_new w' ms s : queued w' = queued (main s) ++ ms ->
  drop (length (queued (main s))) (queued w') = ms.
Proof. intros ->. by rewrite drop_app_length. Qed.

Lemma call_ops w' s : ops_inv s -> called (alive s) (gen s) (main s) w' -> ops_inv (call (gen s) w' s).
Proof.
  intros [Hq Hm (l1 & ms & Hl & Hl1 & Hnow) Hfut Hpre Hst Hend] (_ & new & Hnew & Hok & Hnone).
  unfold call. rewrite (call_new _ _ _ Hnew). constructor; cbn [queue main sent handled gen alive].
  - rewrite fmap_app, Hq, Hnew. f_equal. rewrite <-list_fmap_compose. by apply list_fmap_id.
  - apply Forall_app. split; [done|]. by apply Forall_fmap.
  - exists l1, (ms ++ new). split; [by rewrite Hl, fmap_app, app_assoc|]. split; [done|].
    destruct (alive s); [|done]. destruct Hnow as [H1 H2]. split; [|done].
    by rewrite of_app, of_same, H1, app_assoc.
  - intros g Hg. destruct (Hfut g Hg) as [H1 H2]. split; [|done]. rewrite of_app, H1, of_new; [done|lia].
  - intros g. rewrite of_app. apply prefix_app_r, Hpre.
  - done.
  - done.
Qed.

Lemma start_ops tok m w' s : ops_inv s -> alive s = None -> queued w' = queued (main s) ++ [m] ->
  msg_ok (S (gen s)) m -> ops_inv (spawn (Some tok) (call (S (gen s)) w' s)).
Proof.
  intros [Hq Hm (l1 & ms & Hl & Hl1 & Hnow) Hfut Hpre Hst Hend] Ha Hnew Hok. rewrite Ha in Hnow. subst l1.
  unfold call. rewrite (call_new _ _ _ Hnew). unfold spawn.
  constructor; cbn [queue main sent handled gen alive fmap list_fmap].
  - rewrite fmap_app, Hq, Hnew. done.
  - apply Forall_app. split; [done|]. by apply Forall_singleton.
  - exists (queue s), [m]. split; [done|]. split.
    + rewrite Hl, app_nil_l. apply Forall_fmap, Forall_true. done.
    + destruct (Hfut (S (gen s))) as [H1 H2]; [lia|]. rewrite H2, of_app, H1. split; [|set_solver].
      apply (of_same (S (gen s)) [m]).
  - intros g Hg. destruct (Hfut g) as [H1 H2]; [lia|]. split; [|done].
    rewrite of_app, H1. apply (of_new (S (gen s)) g [m]). lia.
  - intros g. rewrite of_app. apply prefix_app_r, Hpre.
  - done.
  - intros g Hg [H1|[? _]]; [|done]. apply Hend; [done|]. destruct (decide (g = gen s)); [by right|left; lia].
Qed.

(** The message at the head of the queue, and whom it was sent to *)
Lemma queue_head m q s : (queue s).*2 = m :: q -> exists g, queue s = (g, m) :: tail (queue s) /\ (tail (queue s)).*2 = q.
Proof.
  destruct (queue s) as [|[g m'] q']; [done|]. rewrite fmap_cons. intros [= -> <-]. by exists g.
Qed.

Lemma token_of_msg g m : msg_ok g m -> toUint8 m.1 = Z.of_nat g mod 256.
Proof. intros [-> _]. apply toUint8_Part. unfold in_width. apply Z.mod_pos_bound. lia. Qed.

Lemma token_differs g g' : S g = g' -> Z.of_nat g mod 256 <> Z.of_nat g' mod 256.
Proof. intros <- E. rewrite Nat2Z.inj_succ in E. pose proof (Z.mod_pos_bound (Z.of_nat g) 256).
  unfold Z.succ in E. rewrite <-Zplus_mod_idemp_l in E.
  destruct (decide (Z.of_nat g mod 256 = 255)) as [H1|H1]; [rewrite H1 in E; done|].
  rewrite (Z.mod_small (_ + 1)) in E; lia.
Qed.

(** A message of this session is the next one sent to it; others are left-overs. *)
Lemma head_cases k m q s : ops_inv s -> flag_ok (w_runner (main s)) (Some (k, gen s)) (gen s) ->
  alive s = Some (k, gen s) -> queued (main s) = m :: q ->
  (toUint8 m.1 <> k /\ exists l1 ms, queue s = l1 ++ ((fun m => (gen s, m)) <$> ms) /\ l1 <> [] /\
     Forall (fun e => S e.1 = gen s) l1 /\ msgs_of (gen s) (sent s) = msgs_of (gen s) (handled s) ++ ms) \/
  (toUint8 m.1 = k /\ exists ms, queue s = (fun m => (gen s, m)) <$> (m :: ms) /\
     msgs_of (gen s) (sent s) = msgs_of (gen s) (handled s) ++ m :: ms).
Proof.
  intros [Hq Hm (l1 & ms & Hl & Hl1 & Hnow) _ _ _ _] (Ht & _ & _ & Hk & _) Ha Hmq. rewrite Ha in Hnow.
  destruct Hnow as [Hnow _]. rewrite Hmq in Hq. destruct l1 as [|[g m'] l1].
  - right. rewrite app_nil_l in Hl. destruct ms as [|m' ms]; rewrite Hl in *; [done|].
    rewrite fmap_cons in *. injection Hq as -> _. split; [|by exists ms].
    apply Forall_cons in Hm as [Hm _]. cbn [fst snd] in Hm. rewrite (token_of_msg _ _ Hm). congruence.
  - left. split; [|by exists ((g, m') :: l1), ms]. rewrite Hl in Hq, Hm. cbn in Hq. injection Hq as -> _.
    apply Forall_cons in Hm as [Hm _]. apply Forall_cons in Hl1 as [Hg _]. cbn [fst snd] in Hg, Hm.
    rewrite (token_of_msg _ _ Hm), Hk, Ht. by apply token_differs.
Qed.

Lemma take_queue m q done s : ops_inv s -> queued (main s) = m :: q ->
  (queue (take_op q done s)).*2 = queued (main (take_op q done s)) /\
  Forall (fun e => msg_ok e.1 e.2) (queue (take_op q done s)).
Proof.
  intros [Hq Hm _ _ _ _ _] Hmq. rewrite Hmq in Hq. destruct (queue_head m q s Hq) as (g & Hg & Ht).
  split; [exact Ht|]. cbn. rewrite Hg in Hm. by apply Forall_cons in Hm as [_ Hm].
Qed.

Lemma skip_ops k m q s : ops_inv s -> flag_ok (w_runner (main s)) (Some (k, gen s)) (gen s) ->
  alive s = Some (k, gen s) -> queued (main s) = m :: q -> toUint8 m.1 <> k -> ops_inv (take_op q [] s).
Proof.
  intros Hi Hf Ha Hmq Hk. destruct (take_queue m q [] s Hi Hmq) as [H1 H2].
  destruct (head_cases k m q s Hi Hf Ha Hmq) as [(_ & l1 & ms & Hl & Hne & Hl1 & Hs)|[? _]]; [|done].
  destruct Hi as [_ _ (l1' & ms' & Hl' & _ & Hnow) Hfut Hpre Hst Hend]. rewrite Ha in Hnow.
  constructor; try done; unfold take_op in *; cbn [queue main sent handled gen alive] in *;
    rewrite ?app_nil_r; try done.
  destruct l1 as [|e l1]; [done|]. exists l1, ms. rewrite Hl. split; [done|].
  apply Forall_cons in Hl1 as [_ Hl1]. split; [done|]. rewrite Ha. split; [done|]. apply Hnow.
Qed.

(** An operation of this session: it is the next one sent to it. *)
Lemma take_ops k m q s : ops_inv s -> flag_ok (w_runner (main s)) (Some (k, gen s)) (gen s) ->
  alive s = Some (k, gen s) -> queued (main s) = m :: q -> toUint8 m.1 = k ->
  let s' := take_op q [(gen s, m)] s in
  (is_stop m = false -> ops_inv s') /\ (is_stop m = true -> ops_inv (finish k s')).
Proof.
  intros Hi Hf Ha Hmq Hk s'. destruct (take_queue m q [(gen s, m)] s Hi Hmq) as [H1 H2]. fold s' in H1, H2.
  destruct (head_cases k m q s Hi Hf Ha Hmq) as [[? _]|(_ & ms & Hl & Hs)]; [done|].
  destruct Hi as [_ _ (l1' & ms' & _ & _ & Hnow) Hfut Hpre Hst Hend]. rewrite Ha in Hnow.
  destruct Hnow as [_ Hns].
  assert (forall g, msgs_of g (handled s') = msgs_of g (handled s) ++ if decide (g = gen s) then [m] else []) as Hh.
  { intros g. unfold s', take_op. cbn [handled]. rewrite of_app. f_equal. case_decide as Hg.
    - subst. apply (of_same (gen s) [m]).
    - by apply (of_new (gen s) g [m]). }
  assert (queue s' = (fun m => (gen s, m)) <$> ms) as Hq' by (unfold s', take_op; cbn [queue]; by rewrite Hl).
  assert (forall g, (gen s < g)%nat -> msgs_of g (sent s') = [] /\ msgs_of g (handled s') = []) as Hfut'.
  { intros g Hg. rewrite Hh, decide_False by lia. rewrite app_nil_r. by apply Hfut. }
  assert (forall g, msgs_of g (handled s') `prefix_of` msgs_of g (sent s')) as Hpre'.
  { intros g. rewrite Hh. change (sent s') with (sent s). case_decide as Hg; [|by rewrite app_nil_r].
    subst g. rewrite Hs. exists ms. by rewrite <-app_assoc. }
  assert (forall g, stops_last (msgs_of g (handled s'))) as Hst'.
  { intros g. rewrite Hh. case_decide as Hg; [|by rewrite app_nil_r]. subst g. by apply stops_last_snoc. }
  assert (forall g, (0 < g)%nat -> (g < gen s)%nat -> stopped (msgs_of g (handled s'))) as Hend'.
  { intros g Hg Hlt. rewrite Hh, decide_False by lia. rewrite app_nil_r. apply Hend; [done|by left]. }
  split; intros Hm.
  - constructor; try done.
    + exists [], ms. split; [done|]. split; [constructor|]. change (alive s') with (alive s). rewrite Ha.
      change (gen s') with (gen s). change (sent s') with (sent s). rewrite Hh, decide_True by done. split.
      * by rewrite Hs, <-app_assoc.
      * intros x [Hx|Hx]%elem_of_app; [by apply Hns|]. apply list_elem_of_singleton in Hx as ->. done.
    + intros g Hg [Hlt|[Hn _]]; [by apply Hend'|]. change (alive s') with (alive s) in Hn. congruence.
  - constructor; try done.
    + exists [], ms. done.
    + intros g Hg [Hlt|[_ Hge]]; [by apply Hend'|]. change (gen (finish k s')) with (gen s) in Hge.
      change (handled (finish k s')) with (handled s'). rewrite Hh, decide_True by done.
      exists m. by rewrite last_snoc.
Qed.

Lemma reachable_ops s : reachable true s -> ops_inv s.
Proof.
  induction 1 as [id seq0|l s s' Hr IH Hd E]; [apply init_ops|].
  pose proof (reachable_flag _ _ Hr) as Hf.
  apply exec_shape in E as [E|(-> & _)]; [|by destruct (Hd eq_refl)|done].
  destruct E as [w' Hc|tok m w' Ha _ Hq Hm|k m q Ha Hq Hk|k m q Ha Hq Hk Hst|k m q Ha Hq Hk Hst|w' Hw].
  - by apply call_ops.
  - by eapply start_ops.
  - rewrite Ha in Hf. by eapply skip_ops.
  - rewrite Ha in Hf. by eapply take_ops.
  - rewrite Ha in Hf. by eapply take_ops.
  - destruct IH as [Hq Hm Hnow Hfut Hpre Hst Hend]. constructor; try done.
    unfold queued in *. cbn. by rewrite Hw.
Qed.

(** ** Sessions that end by exception

    Such a session leaves its operations in the queue, and so may the next ones: the queue can
    hold operations of many sessions.  A session tells its own by their token. *)

(** Two sessions have the same 8-bit token. *)
Definition same_token (g g' : nat) : Prop := Z.of_nat g mod 256 = Z.of_nat g' mod 256.

(** An operation that was sent, and the one that was handled *)
Definition taken_from (e h : nat * message) : Prop :=
  e.2 = h.2 /\ (0 < e.1 <= h.1)%nat /\ same_token e.1 h.1.

Record any_inv (s : sys) : Prop := mkAny {
  ai_queue : (queue s).*2 = queued (main s);
  ai_msgs : Forall (fun e => msg_ok e.1 e.2) (queue s);
  ai_pos : alive s <> None -> (0 < gen s)%nat;
  ai_gen : Forall (fun e => (0 < e.1 <= gen s)%nat) (sent s);
  ai_order : exists l, (l ++ queue s) `sublist_of` sent s /\ Forall2 taken_from l (handled s);
  ai_future : forall g, (gen s < g)%nat -> msgs_of g (handled s) = [];
  ai_nostop : alive s <> None -> forall m, m ∈ msgs_of (gen s) (handled s) -> is_stop m = false;
  ai_stops : forall g, stops_last (msgs_of g (handled s));
  ai_few : (gen s <= 256)%nat -> forall g, exists rest, msgs_of g (sent s) = msgs_of g (handled s) ++ rest /\
    (alive s <> None -> g = gen s -> rest = msgs_of g (queue s));
}.

Lemma init_any id seq0 : any_inv (init id seq0).
Proof.
  constructor; cbn; try done.
  - by exists [].
  - intros g l1 m l2 E. by destruct l1.
  - intros _ g. by exists [].
Qed.

Lemma queue_gen s : any_inv s -> Forall (fun e => (0 < e.1 <= gen s)%nat) (queue s).
Proof.
  intros Hi. destruct (ai_order _ Hi) as (l & Hl & _). pose proof (ai_gen _ Hi) as Hg. rewrite Forall_forall in Hg |- *.
  intros e He. apply Hg. eapply elem_of_sublist; [|exact Hl]. apply elem_of_app. by right.
Qed.

Lemma gen_beyond n l : Forall (fun e : nat * message => (0 < e.1 <= n)%nat) l -> msgs_of (S n) l = [].
Proof. intros Hl. apply of_other. eapply Forall_impl; [exact Hl|]. cbn. lia. Qed.

Lemma call_any w' s : any_inv s -> called (alive s) (gen s) (main s) w' -> any_inv (call (gen s) w' s).
Proof.
  intros [Hq Hm Hpos Hg (l & Hl & Hf) Hfut Hns Hst Hfew] (_ & new & Hnew & Hok & Hnone).
  unfold call. rewrite (call_new _ _ _ Hnew). constructor; cbn [queue main sent handled gen alive]; try done.
  - rewrite fmap_app, Hq, Hnew. f_equal. rewrite <-list_fmap_compose. by apply list_fmap_id.
  - apply Forall_app. split; [done|]. by apply Forall_fmap.
  - apply Forall_app. split; [done|]. apply Forall_fmap. destruct (alive s) as [a|].
    + apply Forall_true. intros m. cbn. specialize (Hpos ltac:(done)). lia.
    + by rewrite (Hnone eq_refl).
  - exists l. split; [|done]. rewrite app_assoc. by apply sublist_app.
  - intros H256 g. destruct (Hfew H256 g) as (rest & Hr & Ha). exists (rest ++ msgs_of g ((fun m => (gen s, m)) <$> new)).
    rewrite !of_app, Hr, <-app_assoc. split; [done|]. intros Hal Hgn. by rewrite (Ha Hal Hgn).
Qed.

Lemma start_any tok m w' s : any_inv s -> queued w' = queued (main s) ++ [m] ->
  msg_ok (S (gen s)) m -> any_inv (spawn (Some tok) (call (S (gen s)) w' s)).
Proof.
  intros Hi Hnew Hok. pose proof (queue_gen s Hi) as Hqg. destruct Hi as [Hq Hm Hpos Hg (l & Hl & Hf) Hfut Hns Hst Hfew].
  unfold call. rewrite (call_new _ _ _ Hnew). unfold spawn.
  assert (msgs_of (S (gen s)) (handled s) = []) as Hh by (apply Hfut; lia).
  constructor; cbn [queue main sent handled gen alive fmap list_fmap].
  - by rewrite fmap_app, Hq, Hnew.
  - apply Forall_app. split; [done|]. by apply Forall_singleton.
  - lia.
  - apply Forall_app. split; [eapply Forall_impl; [exact Hg|]; cbn; lia|]. apply Forall_singleton. cbn. lia.
  - exists l. split; [|done]. rewrite app_assoc. by apply sublist_app.
  - intros g Hlt. apply Hfut. lia.
  - rewrite Hh. intros _ x Hx. by apply not_elem_of_nil in Hx.
  - done.
  - intros H256 g. destruct (Hfew ltac:(lia) g) as (rest & Hr & _).
    exists (rest ++ msgs_of g [(S (gen s), m)]). rewrite !of_app, Hr, <-app_assoc. split; [done|]. intros _ ->.
    rewrite (gen_beyond _ _ Hqg). rewrite (gen_beyond _ _ Hg), Hh in Hr. cbn [app] in Hr. by subst rest.
Qed.

(** The session takes the message at the head of the queue. *)
Lemma head_any k m q s : any_inv s -> flag_ok (w_runner (main s)) (Some (k, gen s)) (gen s) -> queued (main s) = m :: q ->
  exists g, queue s = (g, m) :: tail (queue s) /\ (tail (queue s)).*2 = q /\ (0 < g <= gen s)%nat /\
    (toUint8 m.1 = k <-> same_token g (gen s)).
Proof.
  intros Hi (Ht & _ & _ & Hk & _) Hmq. pose proof (ai_queue _ Hi) as Hq. rewrite Hmq in Hq.
  destruct (queue_head m q s Hq) as (g & Hg & Htl). exists g. split; [done|]. split; [done|]. split.
  - pose proof (queue_gen s Hi) as Hqg. rewrite Hg in Hqg. by apply Forall_cons in Hqg as [? _].
  - pose proof (ai_msgs _ Hi) as Hm. rewrite Hg in Hm. apply Forall_cons in Hm as [Hm _]. cbn [fst snd] in Hm.
    rewrite (token_of_msg _ _ Hm), Hk, Ht. done.
Qed.

Lemma same_token_few g n : (0 < g <= n)%nat -> (n <= 256)%nat -> same_token g n -> g = n.
Proof.
  unfold same_token. intros Hg Hn E. destruct (decide (n = 256)%nat) as [->|].
  - change (Z.of_nat 256 mod 256) with 0 in E. destruct (decide (g = 256)%nat); [done|]. rewrite Z.mod_small in E; lia.
  - rewrite !Z.mod_small in E by lia. lia.
Qed.

Lemma skip_any k m q s : any_inv s -> flag_ok (w_runner (main s)) (Some (k, gen s)) (gen s) ->
  queued (main s) = m :: q -> toUint8 m.1 <> k -> any_inv (take_op q [] s).
Proof.
  intros Hi Hf Hmq Hk. destruct (head_any k m q s Hi Hf Hmq) as (g & Hg & Htl & Hb & Hiff).
  assert (g <> gen s) as Hne by (intros ->; apply Hk, Hiff; done).
  destruct Hi as [Hq Hm Hpos Hgs (l & Hl & Hfl) Hfut Hns Hst Hfew].
  unfold take_op. constructor; cbn [queue main sent handled gen alive]; rewrite ?app_nil_r; try done.
  - rewrite Hg in Hm. by apply Forall_cons in Hm as [_ ?].
  - exists l. split; [|done]. etrans; [|exact Hl]. rewrite Hg at 2. apply sublist_app; [done|]. by apply sublist_cons.
  - intros H256 g0. destruct (Hfew H256 g0) as (rest & Hr & Ha). exists rest. split; [done|]. intros Hal ->.
    rewrite (Ha Hal eq_refl), Hg. unfold msgs_of at 1. by rewrite filter_cons_False.
Qed.

Lemma take_any k m q s : any_inv s -> flag_ok (w_runner (main s)) (Some (k, gen s)) (gen s) ->
  alive s = Some (k, gen s) -> queued (main s) = m :: q -> toUint8 m.1 = k ->
  let s' := take_op q [(gen s, m)] s in
  (is_stop m = false -> any_inv s') /\ (is_stop m = true -> any_inv (finish k s')).
Proof.
  intros Hi Hf Hal Hmq Hk s'. destruct (head_any k m q s Hi Hf Hmq) as (g & Hg & Htl & Hb & Hiff).
  apply Hiff in Hk as Hsame. destruct Hi as [Hq Hm Hpos Hgs (l & Hl & Hfl) Hfut Hns Hst Hfew].
  assert (forall g0, msgs_of g0 (handled s') = msgs_of g0 (handled s) ++ if decide (g0 = gen s) then [m] else []) as Hh.
  { intros g0. unfold s', take_op. cbn [handled]. rewrite of_app. f_equal. case_decide as Hg0.
    - subst. apply (of_same (gen s) [m]).
    - by apply (of_new (gen s) g0 [m]). }
  assert (exists l', (l' ++ queue s') `sublist_of` sent s' /\ Forall2 taken_from l' (handled s')) as Hord.
  { exists (l ++ [(g, m)]). unfold s', take_op. cbn [queue sent handled]. split.
    - rewrite <-app_assoc. cbn [app]. by rewrite <-Hg.
    - apply Forall2_app; [done|]. apply Forall2_cons_2; [by split|constructor]. }
  assert (Forall (fun e => msg_ok e.1 e.2) (queue s')) as Hm' by (rewrite Hg in Hm; by apply Forall_cons in Hm as [_ ?]).
  assert (forall g0, (gen s < g0)%nat -> msgs_of g0 (handled s') = []) as Hfut'.
  { intros g0 Hlt. rewrite Hh, decide_False by lia. rewrite app_nil_r. by apply Hfut. }
  assert (forall g0, stops_last (msgs_of g0 (handled s'))) as Hst'.
  { intros g0. rewrite Hh. case_decide as Hg0; [|by rewrite app_nil_r]. subst g0. apply stops_last_snoc, Hns. congruence. }
  assert (gen s <= 256 -> forall g0, exists rest, msgs_of g0 (sent s') = msgs_of g0 (handled s') ++ rest /\
    (g0 = gen s -> rest = msgs_of g0 (queue s')))%nat as Hfew'.
  { intros H256 g0. destruct (Hfew H256 g0) as (rest & Hr & Ha). rewrite Hh. change (sent s') with (sent s).
    case_decide as Hg0; [|exists rest; by rewrite app_nil_r]. subst g0. specialize (Ha ltac:(congruence) eq_refl).
    assert (g = gen s) as -> by (by apply same_token_few). exists (msgs_of (gen s) (queue s')). split; [|done].
    rewrite Hr, Ha, Hg, <-app_assoc. f_equal. unfold msgs_of at 1. by rewrite filter_cons_True. }
  split; intros Hstop; constructor; try done.
  - intros _ x. change (gen s') with (gen s). rewrite Hh, decide_True by done. intros [Hx|Hx]%elem_of_app.
    + apply Hns; [congruence|done].
    + by apply list_elem_of_singleton in Hx as ->.
  - intros H256 g0. destruct (Hfew' H256 g0) as (rest & Hr & Ha). exists rest. split; [done|]. intros _. exact Ha.
  - intros H256 g0. destruct (Hfew' H256 g0) as (rest & Hr & Ha). exists rest. split; [done|]. intros Hn. by destruct Hn.
Qed.

Lemma finish_any k s : any_inv s -> any_inv (finish k s).
Proof.
  intros [Hq Hm Hpos Hgs Hord Hfut Hns Hst Hfew]. constructor; try done. intros H256 g.
  destruct (Hfew H256 g) as (rest & Hr & _). exists rest. split; [done|]. intros Hn. by destruct Hn.
Qed.

Lemma reachable_any b s : reachable b s -> any_inv s.
Proof.
  induction 1 as [id seq0|l s s' Hr IH Hd E]; [apply init_any|].
  pose proof (reachable_flag _ _ Hr) as Hf.
  apply exec_shape in E as [E|(-> & k & Ha & ->)]; [|by apply finish_any|done].
  destruct E as [w' Hc|tok m w' Ha _ Hq Hm|k m q Ha Hq Hk|k m q Ha Hq Hk Hst|k m q Ha Hq Hk Hst|w' Hw].
  - by apply call_any.
  - by eapply start_any.
  - rewrite Ha in Hf. by eapply skip_any.
  - rewrite Ha in Hf. by eapply take_any.
  - rewrite Ha in Hf. by eapply take_any.
  - destruct IH. constructor; try done. unfold queued in *. cbn. by rewrite Hw.
Qed.

(** The messages a session handles, when no session throws or the tokens have not wrapped *)
Definition few (b : bool) (s : sys) : Prop := b = true \/ (gen s <= 256)%nat.

Lemma few_exact b s : reachable b s -> few b s ->
  (forall g, msgs_of g (handled s) `prefix_of` msgs_of g (sent s)) /\
  (alive s <> None -> msgs_of (gen s) (sent s) = msgs_of (gen s) (handled s) ++ msgs_of (gen s) (queue s)).
Proof.
  intros Hr [->|Hb].
  - destruct (reachable_ops s Hr) as [Hq Hm (l1 & ms & Hl & Hl1 & Hnow) Hfut Hpre Hst Hend]. split; [done|].
    intros Ha. destruct (alive s); [|done]. destruct Hnow as [-> _]. f_equal.
    rewrite Hl, of_app, of_same, of_other; [done|]. eapply Forall_impl; [exact Hl1|]. cbn. lia.
  - pose proof (ai_few _ (reachable_any _ _ Hr) Hb) as Hf. split.
    + intros g. destruct (Hf g) as (rest & -> & _). by eexists.
    + intros Ha. destruct (Hf (gen s)) as (rest & -> & Hrest). by rewrite (Hrest Ha eq_refl).
Qed.

End WithEnv.

(** ** Theorems *)

(** C30: The main thread always knows whether its session runs: in every interleaving of user calls
    and session steps, the ends of sessions by exception included, [isRunning] answers exactly
    whether a session thread is alive, and [start] spawns a session exactly when none is; so
    two sessions never run at once. *)
Theorem running_flag_exact (P : Platform) (b : bool) (s : sys) :
  reachable b s ->
  (exists r', isRunning (w_runner (main s)) = (Ok (bool_decide (alive s <> None)), r')) /\
  (forall o w', start (main s) = (Ok o, w') -> (o = None <-> alive s <> None)).
Proof.
  intros Hf%reachable_flag. split.
  - destruct (isRunning_spec _ _ _ Hf) as (r' & E & _). by exists r'.
  - intros o w' E. apply (start_result _ _ _ _ _ Hf) in E. destruct (alive s) as [a|].
    + destruct E as [-> _]. done.
    + destruct E as (tok & m & -> & _). split; [done|]. by intros [].
Qed.

Definition sample_init : sys := init (replicate 16 Byte.xaa) 7.
Definition sample_labels : list label :=
  [LStart; SRecv; LDispatch (Name (str "a")) (Part_bytes (str "v")) State; LStop; LStop;
   SRecv; SRecv; LStart; LSync; SRecv; SRecv].

Lemma running_flag_exact_witness :
  exists s, @run x86_64 sample_labels sample_init = Some s /\
    exists r', @isRunning x86_64 (w_runner (main s)) = (Ok true, r').
Proof.
  assert (match @run x86_64 sample_labels sample_init with
          | Some s => bool_decide (alive s <> None) = true | None => False end) as K
    by (vm_compute; reflexivity).
  destruct (@run x86_64 sample_labels sample_init) as [s|] eqn:E; [|destruct K].
  exists s. split; [reflexivity|]. destruct (running_flag_exact x86_64 false s) as [(r' & H) _].
  - refine (run_reachable false sample_labels sample_init s (reach_init _ _ _) _ E). intros H. discriminate H.
  - exists r'. rewrite H, K. reflexivity.
Defined.

(** C9: Operations of sessions, over any number of starts and stops and in every interleaving, ends
    of sessions by exception included: operations are handled in the order in which they were
    sent, each at most once, and the session that handles one is the one it was sent to or a later
    one with the same 8-bit token, so never one of the 255 sessions after it; a stop is the last
    operation a session handles.  When no session throws, however often the token wraps around, or
    when at most 256 sessions were started, there is no cross talk at all: each session
    handles exactly a prefix of what was sent to it, and what the one that runs did not handle yet
    is in the queue.  When no session throws, one that has ended handled a stop. *)
Theorem operations_in_order (P : Platform) (b : bool) (s : sys) :
  reachable b s ->
  (exists l, l `sublist_of` sent s /\ Forall2 taken_from l (handled s)) /\
  (forall g, stops_last (msgs_of g (handled s))) /\
  (few b s ->
    (forall g, msgs_of g (handled s) `prefix_of` msgs_of g (sent s)) /\
    (alive s <> None -> msgs_of (gen s) (sent s) = msgs_of (gen s) (handled s) ++ msgs_of (gen s) (queue s))) /\
  (b = true -> forall g, (0 < g <= gen s)%nat -> (g < gen s)%nat \/ alive s = None ->
    stopped (msgs_of g (handled s))).
Proof.
  intros Hr. pose proof (reachable_any _ _ Hr) as Ha. split_and!.
  - destruct (ai_order _ Ha) as (l & Hl & Hf). exists l. split; [|done]. etrans; [|exact Hl]. by apply sublist_inserts_r.
  - apply Ha.
  - by apply few_exact.
  - intros -> g Hg Hc. apply (oi_ended _ (reachable_ops _ Hr)); [lia|]. destruct Hc as [?|?]; [by left|].
    destruct (decide (g = gen s)); [by right|left; lia].
Qed.

(** Two stops: the second one is left over and the next session does not handle it; and a
    session that throws, whose start the next one does not handle. *)
Definition dying_labels : list label := [LStart; SDie; LStart; SRecv; SRecv].
Lemma operations_in_order_witness :
  (exists s, @run x86_64 sample_labels sample_init = Some s /\
    length (msgs_of 1 (sent s)) = 4%nat /\ length (msgs_of 1 (handled s)) = 3%nat /\
    @stopped x86_64 (msgs_of 1 (handled s))) /\
  (exists s, @run x86_64 dying_labels sample_init = Some s /\
    msgs_of 1 (handled s) = [] /\ msgs_of 2 (sent s) = msgs_of 2 (handled s) ++ msgs_of 2 (queue s)).
Proof.
  split.
  - assert (match @run x86_64 sample_labels sample_init with
            | Some s => (length (msgs_of 1 (sent s)), length (msgs_of 1 (handled s)), gen s) = (4%nat, 3%nat, 2%nat)
            | None => False end) as K by (vm_compute; reflexivity).
    destruct (@run x86_64 sample_labels sample_init) as [s|] eqn:E; [|destruct K].
    injection K as K1 K2 K3. exists s. split; [reflexivity|]. split; [exact K1|]. split; [exact K2|].
    destruct (operations_in_order x86_64 true s) as (_ & _ & _ & H).
    + refine (run_reachable true sample_labels sample_init s (reach_init _ _ _) _ E). intros _.
      unfold sample_labels. rewrite !not_elem_of_cons. split_and!; [discriminate..|apply not_elem_of_nil].
    + apply H; [reflexivity|rewrite K3; lia|left; rewrite K3; lia].
  - assert (match @run x86_64 dying_labels sample_init with
            | Some s => (length (msgs_of 1 (handled s)), gen s, bool_decide (alive s <> None)) = (0%nat, 2%nat, true)
            | None => False end) as K by (vm_compute; reflexivity).
    destruct (@run x86_64 dying_labels sample_init) as [s|] eqn:E; [|destruct K].
    injection K as K1 K2 K3. exists s. split; [reflexivity|]. split; [by apply nil_length_inv|].
    destruct (operations_in_order x86_64 false s) as (_ & _ & H & _).
    + refine (run_reachable false dying_labels sample_init s (reach_init _ _ _) _ E). intros H. discriminate H.
    + destruct H as [_ H]; [right; rewrite K2; lia|]. rewrite <-K2. apply H. exact (bool_decide_eq_true_1 _ K3).
Defined.

(** The token has 8 bits: after 256 sessions of which none took its operations, because each
    threw, the next one has the token of the first and takes the first one's stop for its own. *)
Definition wrapping_labels : list label :=
  [LStart; LStop; SDie] ++ mjoin (replicate 255 [LStart; SDie]) ++ [LStart; SRecv; SRecv].
Theorem token_wraps :
  exists s, @run x86_64 wrapping_labels sample_init = Some s /\ gen s = 257%nat /\ alive s = None /\
    msgs_of 257 (handled s) = msgs_of 1 (sent s) /\ length (msgs_of 1 (sent s)) = 2%nat.
Proof.
  assert (match @run x86_64 wrapping_labels sample_init with
          | Some s => bool_decide (gen s = 257%nat /\ alive s = None /\ msgs_of 257 (handled s) = msgs_of 1 (sent s) /\
              length (msgs_of 1 (sent s)) = 2%nat)
          | None => false end = true) as K by (vm_compute; reflexivity).
  destruct (@run x86_64 wrapping_labels sample_init) as [s|]; [|done].
  exists s. split; [done|]. by apply bool_decide_eq_true in K.
Qed.

(** The sequence number the main thread reads, [Worker::seqNumber], is the one the session
    reported exactly when the platform's [char] is unsigned or sign extension of its bytes
    does no harm; on x86-64 a worker that dispatched 128 topics reads another number and
    sends it in the configuration of its next start. *)
Theorem seqNumber_exact (P : Platform) (w : worker) (n : Z) :
  in_width 8 n ->
  let w1 := set_seq (Some (Part_uint64 n)) (seqNum_ w) w in
  exists m w', seqNumber w1 = (Ok m, w') /\
    prepareConfiguration w1 =
      (WorkerConfig_toPart (mkWorkerConfig (uuid_ (w_runner w)) m (subscrAll_ w) (subscrNames_ w)
         (endpDelivery_ (w_runner w)) (endpDispatch_ (w_runner w)) (endpSnapshot_ (w_runner w))), w') /\
    (m = n <-> char_signed = false \/ sext_ok (le_split 8 n) = true) /\
    (char_signed = true -> 128 <= n < 256 -> m = 2 ^ 64 - 256 + n).
Proof.
  intros Hn w1. exists (toUint64 (Part_uint64 n)), (set_seq None (toUint64 (Part_uint64 n)) w1).
  split; [reflexivity|]. split; [reflexivity|]. split.
  - unfold toUint64, Part_uint64. destruct char_signed eqn:E.
    + rewrite toUint_signed by done. intuition congruence.
    + rewrite toUint_unsigned by done. intuition congruence.
  - apply toUint64_sign_extends.
Qed.

Lemma seqNumber_exact_witness :
  exists m w', @seqNumber x86_64 (set_seq (Some (Part_uint64 (P := x86_64) 128)) 0 (Worker nil_uuid 0)) = (Ok m, w') /\
    m = 18446744073709551488.
Proof.
  destruct (seqNumber_exact x86_64 (Worker nil_uuid 0) 128) as (m & w' & H1 & _ & _ & H4).
  - vm_compute. split; [discriminate|reflexivity].
  - exists m, w'. split; [exact H1|]. rewrite H4; [reflexivity|reflexivity|lia].
Defined.

End RunnerSystem.
