(* ===== verification/TokenPool.v ===== *)
(** * TokenPool (src/tokenpool.cpp, include/fuurin/tokenpool.h)

    Tokens are put into and taken from an inproc socket, modelled by the queue of messages
    it holds. *)

From S2P Require Import Prelude Part.

Local Open Scope Z_scope.

Module TokenPool.
Import Part.

(** The messages between [zmqPut_] and [zmqGet_] *)
Definition pool : Type := list part.

Section WithEnv.
Context {P : Platform}.

(** [TokenPool::put] *)
Definition put (id : Z) (p : pool) : pool := p ++ [Part_uint32 id].

(** [TokenPool::get] of a pool that has a token; it waits for one otherwise ([None]). *)
Definition get : M pool (option Z) :=
  p ← Prelude.get;
  match p with
  | [] => mret None
  | id :: p =>
    modify (fun _ => p);;
    lift (ASSERT (size id =? 4));;
    mret (Some (toUint32 id))
  end.

(** [TokenPool::tryGet]: empty when there is no token *)
Definition tryGet : M pool (option Z) :=
  p ← Prelude.get;
  match p with
  | [] => mret None
  | id :: p =>
    modify (fun _ => p);;
    lift (ASSERT (size id =? 4));;
    mret (Some (toUint32 id))
  end.

(** The loop of [TokenPool::TokenPool(id_t, id_t)]; [None] when the fuel is not enough. *)
Fixpoint fill (fuel : nat) (id idMax : Z) (p : pool) : option pool :=
  match fuel with
  | O => None
  | S fuel => if id <=? idMax then fill fuel (wrap32 (id + 1)) idMax (put id p) else Some p
  end.

Definition TokenPool (fuel : nat) (idMin idMax : Z) : option pool := fill fuel idMin idMax [].

(** Takes [n] tokens. *)
Fixpoint get_all (n : nat) : M pool (list Z) :=
  match n with
  | O => mret []
  | S n => o ← get; l ← get_all n; mret (option_list o ++ l)
  end.

Lemma fill_ends n : forall id idMax p fuel, 0 <= id -> idMax < u32_max - 1 ->
  Z.of_nat n = Z.max 0 (idMax + 1 - id) -> (n < fuel)%nat ->
  fill fuel id idMax p = Some (p ++ (Part_uint32 <$> seqZ id (Z.of_nat n))).
Proof.
  induction n as [|n IH]; intros id idMax p fuel Hid Hmax Hn Hf; (destruct fuel as [|fuel]; [lia|]); cbn [fill].
  - rewrite (proj2 (Z.leb_gt _ _)) by lia. cbn. by rewrite app_nil_r.
  - rewrite (proj2 (Z.leb_le _ _)) by lia. change (wrap32 (id + 1)) with ((id + 1) mod 2 ^ 32).
    rewrite Z.mod_small by (unfold u32_max in *; lia). rewrite IH by lia.
    rewrite (seqZ_cons id) by lia. rewrite fmap_cons. unfold put. rewrite <-app_assoc. cbn [app].
    do 5 f_equal; lia.
Qed.

Lemma fill_wraps fuel : forall id p, 0 <= id < u32_max -> fill fuel id (u32_max - 1) p = None.
Proof.
  induction fuel as [|fuel IH]; intros id p Hid; cbn [fill]; [done|].
  rewrite (proj2 (Z.leb_le _ _)) by lia. apply IH. apply (wrapn_in_width 4).
Qed.

Lemma get_put id p : in_width 4 id -> get (Part_uint32 id :: p) = (Ok (Some (toUint32 (Part_uint32 id))), p).
Proof.
  intros Hid. unfold get, mbind, M_bind, Prelude.get, modify, lift, mret, M_ret.
  assert (size (Part_uint32 id) =? 4 = true) as ->; [|done].
  unfold size, Part_uint32. cbn [p_data Part_bytes]. by rewrite length_memcpyWithEndian_to.
Qed.

Lemma get_all_ids ids : Forall (fun id => in_width 4 id /\ toUint32 (Part_uint32 id) = id) ids ->
  forall p, get_all (length ids) ((Part_uint32 <$> ids) ++ p) = (Ok ids, p).
Proof.
  induction 1 as [|id ids [Hid Hrt] _ IH]; intros p; [done|]. cbn [length get_all].
  rewrite fmap_cons. cbn [app]. rewrite (M_bind_eq _ _ _ _ _ (get_put id _ Hid)).
  rewrite (M_bind_eq _ _ _ _ _ (IH p)), Hrt. done.
Qed.

End WithEnv.

(** ** Theorems *)

(** A pool of the tokens [idMin .. idMax] is built within [idMax - idMin + 2] rounds of the loop
    and hands them out in order, once each, when the platform's [char] is unsigned or the
    tokens are below 128; when [idMax] is the largest 32-bit number the loop of the
    constructor never ends. *)
Theorem pool_sequence (P : Platform) (idMin idMax : Z) (fuel : nat) :
  0 <= idMin -> idMin <= idMax < 2 ^ 32 ->
  (idMax < 2 ^ 32 - 1 -> (Z.to_nat (idMax - idMin + 2) <= fuel)%nat -> char_signed = false \/ idMax < 128 ->
   exists p, TokenPool fuel idMin idMax = Some p /\
     get_all (Z.to_nat (idMax - idMin + 1)) p = (Ok (seqZ idMin (idMax - idMin + 1)), [])) /\
  (idMax = 2 ^ 32 - 1 -> TokenPool fuel idMin idMax = None).
Proof.
  intros Hmin Hmax. split.
  - intros Hlt Hf Hc. unfold TokenPool.
    rewrite (fill_ends (Z.to_nat (idMax - idMin + 1))) by (unfold u32_max; lia).
    eexists. split; [done|]. rewrite Z2Nat.id by lia. cbn [app].
    assert (Z.to_nat (idMax - idMin + 1) = length (seqZ idMin (idMax - idMin + 1))) as -> by (by rewrite length_seqZ).
    rewrite <-(app_nil_r (Part_uint32 <$> _)). apply get_all_ids. apply Forall_forall. intros id Hid.
    apply elem_of_seqZ in Hid. assert (in_width 4 id) as Hw by (unfold in_width; lia). split; [done|].
    unfold toUint32, Part_uint32. destruct char_signed eqn:E.
    + destruct Hc as [?|Hc]; [done|]. apply toUint_signed; [done|done|].
      cbn [le_split sext_ok]. rewrite (Z.div_small id) by lia. rewrite byte_Z_byte, Z.mod_small by lia.
      by rewrite (proj2 (Z.ltb_lt id 128)) by lia.
    + by apply toUint_unsigned.
  - intros ->. apply fill_wraps. unfold u32_max. lia.
Qed.

Lemma pool_sequence_witness :
  exists p, @TokenPool x86_64 10 5 9 = Some p /\ @get_all x86_64 5 p = (Ok [5; 6; 7; 8; 9], []).
Proof.
  destruct (pool_sequence x86_64 5 9 10) as [H _]; [lia|lia|].
  destruct H as (p & H1 & H2); [lia|cbn; lia|right; lia|].
  exists p. split; [exact H1|exact H2].
Defined.

End TokenPool.
