(* ===== verification/Arg.v ===== *)
(** * log::Arg (src/arg.cpp, include/fuurin/arg.h)

    The arguments of log messages and exceptions: a variant whose long strings and arrays
    live in shared storage with a reference count.  The heap is explicit: a location holds a
    [Ref], arguments point to locations, and reading or releasing a location that was freed is
    undefined.  Destroying the last argument of an array destroys its elements, which may
    release more storage; the recursion has fuel, and the invariant shows how much is enough. *)

From S2P Require Import Prelude.

Local Open Scope Z_scope.

Module Arg.

(** [Arg::Type], [Arg::Alloc] *)
Inductive type := Invalid | Int | Errno | Double | String | Array.
Inductive alloc := ANone | AStack | AHeap.

#[export] Instance type_eq_dec : EqDecision type.
Proof. solve_decision. Defined.
#[export] Instance alloc_eq_dec : EqDecision alloc.
Proof. solve_decision. Defined.

(** [Arg::Val], the union: the member that was written last.  A double is its bits, a view
    the bytes it shows. *)
Inductive val :=
  | int_ (v : Z) | dbl_ (bits : Z) | chr_ (v : bytes) | buf_ (v : bytes) | str_ (l : nat) | arr_ (l : nat).

Record arg := mkArg { type_ : type; alloc_ : alloc; key_ : bytes; val_ : val }.

(** [Arg::Ref]: the buffer and the count; the size is the length of the buffer. *)
Record ref := mkRef { chars : option bytes; elems : list arg; cnt_ : Z }.
Definition set_cnt (n : Z) (r : ref) : ref := mkRef (chars r) (elems r) n.

(** The heap, and the next location *)
Record store := mkStore { heap_ : gmap nat ref; next_ : nat }.
Definition set_heap (h : gmap nat ref) (s : store) : store := mkStore h (next_ s).

Definition MaxStringStackSize : Z := 15.

(** [Arg::Arg()] and the constructors from values *)
Definition Arg_default : arg := mkArg Invalid ANone [] (int_ 0).
Definition Arg_int (key : bytes) (v : Z) : arg := mkArg Int ANone key (int_ v).
Definition Arg_ec (key : bytes) (v : Z) : arg := mkArg Errno ANone key (int_ v).
Definition Arg_double (key : bytes) (bits : Z) : arg := mkArg Double ANone key (dbl_ bits).
Definition Arg_view (key : bytes) (v : bytes) : arg := mkArg String ANone key (chr_ v).

(** Storage *)
Definition ref_at (l : nat) : M store ref :=
  s ← get; match heap_ s !! l with Some r => mret r | None => lift Undef end.
Definition put_ref (l : nat) (r : ref) : M store unit := modify (fun s => set_heap (<[l := r]> (heap_ s)) s).
Definition free (l : nat) : M store unit := modify (fun s => set_heap (delete l (heap_ s)) s).
Definition new_ref (r : ref) : M store nat :=
  s ← get; modify (fun s => mkStore (<[next_ s := r]> (heap_ s)) (S (next_ s)));; mret (next_ s).

(** [Arg::refAcquire] *)
Definition refAcquire (a : arg) : M store unit :=
  if decide (alloc_ a = AHeap) then
    match type_ a, val_ a with
    | String, str_ l | Array, arr_ l => r ← ref_at l; put_ref l (set_cnt (wrap64 (cnt_ r + 1)) r)
    | String, _ | Array, _ => lift Undef
    | _, _ => mret tt
    end
  else mret tt.

(** [Arg::refRelease], with [Ref::~Ref] and [delete[]], which destroys the last element first *)
Fixpoint refRelease (fuel : nat) (a : arg) : M store unit :=
  match fuel with
  | O => lift Undef
  | S fuel =>
    if decide (alloc_ a = AHeap) then
      match type_ a, val_ a with
      | String, str_ l =>
        r ← ref_at l;
        let n := wrap64 (cnt_ r - 1) in
        put_ref l (set_cnt n r);;
        if n =? 0 then free l else mret tt
      | Array, arr_ l =>
        r ← ref_at l;
        let n := wrap64 (cnt_ r - 1) in
        put_ref l (set_cnt n r);;
        if n =? 0 then mfor (reverse (elems r)) (refRelease fuel);; free l else mret tt
      | String, _ | Array, _ => lift Undef
      | _, _ => mret tt
      end
    else mret tt
  end.

(** Enough fuel: elements point to locations allocated before their array. *)
Definition release (a : arg) : M store unit := s ← get; refRelease (S (next_ s)) a.

(** [Arg::Arg(std::string_view, const std::string&)] *)
Definition Arg_string (key v : bytes) : M store arg :=
  if Z.of_nat (length v) <=? MaxStringStackSize then mret (mkArg String AStack key (buf_ v))
  else l ← new_ref (mkRef (Some v) [] 1); mret (mkArg String AHeap key (str_ l)).

(** [Arg::Arg(const Arg&)], [Arg::Arg(Arg&&)]: the new argument, and the other one after it *)
Definition Arg_copy (other : arg) : M store arg := refAcquire other;; mret other.
Definition Arg_move (other : arg) : arg * arg :=
  (other, mkArg (type_ other) ANone (key_ other) (val_ other)).

(** What an assignment reads: an argument of the program, or an element of an array *)
Inductive place := Local (a : arg) | Elem (l i : nat).
Definition read (p : place) : M store arg :=
  match p with
  | Local a => mret a
  | Elem l i => r ← ref_at l; match elems r !! i with Some a => mret a | None => lift Undef end
  end.

(** [Arg::operator=] on another object: [other] is read after the release. *)
Definition assign (this : arg) (other : place) : M store arg :=
  release this;;
  a ← read other;
  refAcquire a;;
  mret a.

(** The loop [buf_[i] = val[i]] of the constructor from an array *)
Fixpoint fill (l i : nat) (vs : list arg) : M store unit :=
  match vs with
  | [] => mret tt
  | v :: vs =>
    r ← ref_at l;
    match elems r !! i with
    | None => lift Undef
    | Some old =>
      a ← assign old (Local v);
      r ← ref_at l;
      put_ref l (mkRef (chars r) (<[i := a]> (elems r)) (cnt_ r));;
      fill l (S i) vs
    end
  end.

(** [Arg::Arg(std::string_view, const Arg*, size_t)] *)
Definition Arg_array (key : bytes) (vs : list arg) : M store arg :=
  l ← new_ref (mkRef None (replicate (length vs) Arg_default) 0);
  r ← ref_at l;
  put_ref l (set_cnt (wrap64 (cnt_ r + 1)) r);;
  fill l 0 vs;;
  mret (mkArg Array AHeap key (arr_ l)).

(** [Arg::count], [Arg::refCount] *)
Definition count (a : arg) : M store Z :=
  match type_ a with
  | Invalid => mret 0
  | Int | Errno | Double | String => mret 1
  | Array => match val_ a with arr_ l => r ← ref_at l; mret (Z.of_nat (length (elems r))) | _ => lift Undef end
  end.
Definition refCount (a : arg) : M store Z :=
  match type_ a with
  | Invalid | Int | Errno | Double => mret 0
  | String =>
    if decide (alloc_ a <> AHeap) then mret 0
    else match val_ a with str_ l => r ← ref_at l; mret (cnt_ r) | _ => lift Undef end
  | Array => match val_ a with arr_ l => r ← ref_at l; mret (cnt_ r) | _ => lift Undef end
  end.

(** [Arg::toInt], [Arg::toDouble], [Arg::toString] (the text of an errno is the library's),
    [Arg::toArray] *)
Definition toInt (a : arg) : outcome Z :=
  if (bool_decide (type_ a <> Int) && bool_decide (type_ a <> Errno))%bool then Ok 0
  else match val_ a with int_ v => Ok v | _ => Undef end.
Definition toDouble (a : arg) : outcome Z :=
  if decide (type_ a <> Double) then Ok 0 else match val_ a with dbl_ v => Ok v | _ => Undef end.
Definition toString (zmq_strerror : Z -> bytes) (a : arg) : M store bytes :=
  match type_ a with
  | String =>
    match alloc_ a, val_ a with
    | ANone, chr_ v => mret v
    | AStack, buf_ v => mret v
    | AHeap, str_ l => r ← ref_at l; match chars r with Some v => mret v | None => lift Undef end
    | _, _ => lift Undef
    end
  | Errno => match val_ a with int_ v => mret (zmq_strerror v) | _ => lift Undef end
  | _ => mret []
  end.
Definition toArray (a : arg) : M store (option (list arg)) :=
  match type_ a with
  | Array => match val_ a with arr_ l => r ← ref_at l; mret (Some (elems r)) | _ => lift Undef end
  | _ => mret None
  end.

(** ** Programs *)

(** The arguments of a program are named objects. *)
Record prog := mkProg { vars_ : gmap nat arg; store_ : store }.

Inductive aop :=
  | NewValue (x : nat) (a : arg)
  | NewString (x : nat) (key v : bytes)
  | NewArray (x : nat) (key : bytes) (ys : list nat)
  | Copy (x y : nat)
  | CopyElem (x y i : nat)
  | Move (x y : nat)
  | Assign (x y : nat)
  | AssignElem (x y i : nat)
  | Destroy (x : nat).

Definition var (x : nat) : M prog arg :=
  p ← get; match vars_ p !! x with Some a => mret a | None => lift Undef end.
Definition set_var (x : nat) (a : arg) : M prog unit :=
  modify (fun p => mkProg (<[x := a]> (vars_ p)) (store_ p)).
Definition on_store {A} (m : M store A) : M prog A := zoom store_ (fun s p => mkProg (vars_ p) s) m.
Fixpoint vars_of (ys : list nat) : M prog (list arg) :=
  match ys with [] => mret [] | y :: ys => a ← var y; l ← vars_of ys; mret (a :: l) end.
Definition elem_of_var (y i : nat) : M prog place :=
  a ← var y;
  match type_ a, val_ a with Array, arr_ l => mret (Elem l i) | _, _ => lift Undef end.

Definition exec (op : aop) : M prog unit :=
  match op with
  | NewValue x a => set_var x a
  | NewString x key v => a ← on_store (Arg_string key v); set_var x a
  | NewArray x key ys => vs ← vars_of ys; a ← on_store (Arg_array key vs); set_var x a
  | Copy x y => b ← var y; a ← on_store (Arg_copy b); set_var x a
  | CopyElem x y i => e ← elem_of_var y i; b ← on_store (read e); a ← on_store (Arg_copy b); set_var x a
  | Move x y => b ← var y; set_var x (Arg_move b).1;; set_var y (Arg_move b).2
  | Assign x y =>
    if decide (x = y) then mret tt else
    this ← var x; b ← var y; a ← on_store (assign this (Local b)); set_var x a
  | AssignElem x y i =>
    this ← var x; e ← elem_of_var y i; a ← on_store (assign this e); set_var x a
  | Destroy x =>
    a ← var x; on_store (release a);; modify (fun p => mkProg (delete x (vars_ p)) (store_ p))
  end.

(** ** Values *)

(** What an argument shows; a view is not a string of its own.  An argument that was moved
    from shows nothing when it was a string or an array. *)
Inductive tree :=
  | VNothing | VInvalid (key : bytes) | VInt (key : bytes) (v : Z) | VErrno (key : bytes) (v : Z)
  | VDouble (key : bytes) (bits : Z) | VView (key v : bytes) | VString (key v : bytes) | VArray (key : bytes) (l : list tree).

Fixpoint denote (fuel : nat) (h : gmap nat ref) (a : arg) : tree :=
  match fuel with
  | O => VNothing
  | S fuel =>
    match type_ a, alloc_ a, val_ a with
    | Invalid, _, _ => VInvalid (key_ a)
    | Int, _, int_ v => VInt (key_ a) v
    | Errno, _, int_ v => VErrno (key_ a) v
    | Double, _, dbl_ v => VDouble (key_ a) v
    | String, ANone, chr_ v => VView (key_ a) v
    | String, AStack, buf_ v => VString (key_ a) v
    | String, AHeap, str_ l => from_option (VString (key_ a)) VNothing (h !! l ≫= chars)
    | Array, AHeap, arr_ l => from_option (fun r => VArray (key_ a) (denote fuel h <$> elems r)) VNothing (h !! l)
    | _, _, _ => VNothing
    end
  end.

(** The operations on values: every argument has its own. *)
Definition moved (t : tree) : tree := match t with VString _ _ | VArray _ _ => VNothing | t => t end.
Definition nth_elem (t : tree) (i : nat) : tree :=
  match t with VArray _ l => default VNothing (l !! i) | _ => VNothing end.
Definition value_of (m : gmap nat tree) (y : nat) : tree := default VNothing (m !! y).

Definition spec (op : aop) (m : gmap nat tree) : gmap nat tree :=
  match op with
  | NewValue x a => <[x := denote 1 ∅ a]> m
  | NewString x key v => <[x := VString key v]> m
  | NewArray x key ys => <[x := VArray key (value_of m <$> ys)]> m
  | Copy x y | Assign x y => <[x := value_of m y]> m
  | CopyElem x y i | AssignElem x y i => <[x := nth_elem (value_of m y) i]> m
  | Move x y => <[y := moved (value_of m y)]> (<[x := value_of m y]> m)
  | Destroy x => delete x m
  end.

(** ** References *)

(** The location an argument refers to *)
Definition target (a : arg) : option nat :=
  if decide (alloc_ a = AHeap) then
    match type_ a, val_ a with String, str_ l | Array, arr_ l => Some l | _, _ => None end
  else None.
Definition targets (l : list arg) : list nat := omap target l.

(** All the references held by elements of arrays *)
Definition heap_refs (h : gmap nat ref) : list nat := (map_to_list h).*2 ≫= (fun r => targets (elems r)).

Definition occ (l : nat) (xs : list nat) : nat := length (filter (fun x => x = l) xs).

#[export] Instance occ_perm l : Proper ((≡ₚ) ==> (=)) (occ l).
Proof. intros xs ys E. unfold occ. by rewrite E. Qed.
Lemma occ_app l xs ys : occ l (xs ++ ys) = (occ l xs + occ l ys)%nat.
Proof. unfold occ. by rewrite filter_app, length_app. Qed.
Lemma occ_cons l x xs : occ l (x :: xs) = ((if decide (x = l) then 1 else 0) + occ l xs)%nat.
Proof. unfold occ. rewrite filter_cons. by case_decide. Qed.
Lemma occ_0 l xs : occ l xs = 0%nat <-> l ∉ xs.
Proof.
  induction xs as [|x xs IH]; [split; [by intros _ ?%not_elem_of_nil|done]|].
  rewrite occ_cons, not_elem_of_cons, <-IH. case_decide; split; intros; try lia; naive_solver.
Qed.

Lemma targets_app l1 l2 : targets (l1 ++ l2) = targets l1 ++ targets l2.
Proof. apply omap_app. Qed.
Lemma targets_cons a l : targets (a :: l) = (match target a with Some x => [x] | None => [] end) ++ targets l.
Proof. unfold targets. cbn. by destruct (target a). Qed.
#[export] Instance targets_perm : Proper ((≡ₚ) ==> (≡ₚ)) targets.
Proof. intros l1 l2 E. unfold targets. by rewrite E. Qed.

Lemma heap_refs_insert h l r : h !! l = None -> heap_refs (<[l := r]> h) ≡ₚ targets (elems r) ++ heap_refs h.
Proof. intros Hl. unfold heap_refs. by rewrite map_to_list_insert by done. Qed.
Lemma heap_refs_split h l r : h !! l = Some r -> heap_refs h ≡ₚ targets (elems r) ++ heap_refs (delete l h).
Proof.
  intros Hl. rewrite <-(insert_delete_id h l r Hl) at 1. apply heap_refs_insert, lookup_delete_eq.
Qed.
(** The counts are no references. *)
Lemma heap_refs_update h l r r' : h !! l = Some r -> elems r' = elems r ->
  heap_refs (<[l := r']> h) ≡ₚ heap_refs h.
Proof.
  intros Hl He. rewrite (heap_refs_split h l r Hl), <-insert_delete_eq, heap_refs_insert, He; [done|].
  apply lookup_delete_eq.
Qed.

(** ** The invariant *)

(** The member of the union that was written is the one of the type and allocation; an
    argument that was moved from has no allocation any more. *)
Definition kinded (a : arg) : bool :=
  match type_ a, alloc_ a, val_ a with
  | Invalid, ANone, int_ _ | Int, ANone, int_ _ | Errno, ANone, int_ _ | Double, ANone, dbl_ _ => true
  | String, ANone, (chr_ _ | buf_ _ | str_ _) | String, AStack, buf_ _ | String, AHeap, str_ _ => true
  | Array, ANone, arr_ _ | Array, AHeap, arr_ _ => true
  | _, _, _ => false
  end.

(** An argument with shared storage points to storage of its kind. *)
Definition points (h : gmap nat ref) (a : arg) : Prop := kinded a /\ (alloc_ a = AHeap ->
  exists l r, h !! l = Some r /\
    ((type_ a = String /\ val_ a = str_ l /\ chars r <> None) \/
     (type_ a = Array /\ val_ a = arr_ l /\ chars r = None))).

(** The counts are the numbers of arguments, in the program and in arrays, that refer to the
    storage; arrays refer to older storage only. *)
Record hinv (h : gmap nat ref) (roots : list arg) (n : nat) : Prop := mkHinv {
  hi_cnt : forall l r, h !! l = Some r ->
    cnt_ r = Z.of_nat (occ l (heap_refs h ++ targets roots)) /\ 0 < cnt_ r < u64_max;
  hi_roots : Forall (points h) roots;
  hi_elems : forall l r, h !! l = Some r -> Forall (points h) (elems r) /\
    forall k, k ∈ targets (elems r) -> (k < l)%nat;
  hi_chars : forall l r, h !! l = Some r -> chars r <> None -> elems r = [];
  hi_next : forall l r, h !! l = Some r -> (l < n)%nat;
}.

Lemma points_target h a : points h a ->
  target a = None \/ exists l r, target a = Some l /\ h !! l = Some r /\ alloc_ a = AHeap /\
    ((type_ a = String /\ val_ a = str_ l /\ chars r <> None) \/
     (type_ a = Array /\ val_ a = arr_ l /\ chars r = None)).
Proof.
  intros [_ Hp]. unfold target. case_decide as Ha; [|by left]. right.
  destruct (Hp Ha) as (l & r & Hl & Hor). exists l, r.
  assert (match type_ a, val_ a with String, str_ l | Array, arr_ l => Some l | _, _ => None end = Some l) as ->;
    [|done]. by destruct Hor as [(-> & -> & _)|(-> & -> & _)].
Qed.

Lemma points_none h a : points h a -> target a = None -> alloc_ a <> AHeap.
Proof.
  intros [_ Hp] Ht Ha. destruct (Hp Ha) as (l & r & _ & Hor). unfold target in Ht. rewrite decide_True in Ht by done.
  destruct Hor as [(E1 & E2 & _)|(E1 & E2 & _)]; by rewrite E1, E2 in Ht.
Qed.

(** Pointing survives changes elsewhere, and of the count. *)
Lemma points_change h h' a : points h a ->
  (forall l r, target a = Some l -> h !! l = Some r -> exists r', h' !! l = Some r' /\ chars r' = chars r) ->
  points h' a.
Proof.
  intros Hp Hh. split; [apply Hp|]. intros Ha. destruct (points_target h a Hp) as [Hn|(l & r & Ht & Hl & _ & Hor)];
    [by destruct (points_none h a Hp Hn)|].
  destruct (Hh l r Ht Hl) as (r' & Hl' & Hc). exists l, r'. split; [done|]. by rewrite Hc.
Qed.

Lemma Forall_points h h' l : Forall (points h) l ->
  (forall k r, k ∈ targets l -> h !! k = Some r -> exists r', h' !! k = Some r' /\ chars r' = chars r) ->
  Forall (points h') l.
Proof.
  intros Hl Hh. rewrite Forall_forall in *. intros a Ha. apply (points_change h); [auto|].
  intros k r Hk. apply Hh. unfold targets. apply list_elem_of_omap. eauto.
Qed.

(** The order of the arguments does not matter. *)
Lemma hinv_perm h l1 l2 n : l1 ≡ₚ l2 -> hinv h l1 n -> hinv h l2 n.
Proof.
  intros E [H1 H2 H3 H4 H5]. split; try done.
  - intros l r Hl. rewrite <-E. auto.
  - by rewrite <-E.
Qed.

(** An argument without shared storage *)
Lemma hinv_plain h a roots n : target a = None -> hinv h (a :: roots) n <-> points h a /\ hinv h roots n.
Proof.
  intros Ht. assert (targets (a :: roots) = targets roots) as E by (by rewrite targets_cons, Ht).
  split.
  - intros [H1 [H2 H2']%Forall_cons H3 H4 H5]. split; [done|]. split; try done. by rewrite <-E.
  - intros [Hp [H1 H2 H3 H4 H5]]. split; try done; [by rewrite E|by constructor].
Qed.

(** ** Steps of the invariant *)

(** The storage at [l] changes its count only. *)
Lemma points_cnt h l r c a : h !! l = Some r -> points h a -> points (<[l := set_cnt c r]> h) a.
Proof.
  intros Hl Hp. apply (points_change h); [done|]. intros k rk _ Hk. destruct (decide (k = l)) as [->|Hne].
  - rewrite lookup_insert_eq. eexists. split; [done|]. cbn. congruence.
  - rewrite lookup_insert_ne by done. eauto.
Qed.

Lemma hinv_recount h l r c roots roots' n : hinv h roots n -> h !! l = Some r ->
  Forall (points h) roots' -> 0 < c < u64_max ->
  (forall k, occ k (targets roots') = if decide (k = l) then Z.to_nat (Z.of_nat (occ k (targets roots)) + (c - cnt_ r))
                                     else occ k (targets roots)) ->
  0 <= Z.of_nat (occ l (targets roots)) + (c - cnt_ r) ->
  hinv (<[l := set_cnt c r]> h) roots' n.
Proof.
  intros [H1 H2 H3 H4 H5] Hl Hr Hc Hocc Hpos.
  pose proof (heap_refs_update h l r (set_cnt c r) Hl eq_refl) as Hrefs. split.
  - intros k rk Hk. rewrite occ_app, Hrefs, Hocc. destruct (decide (k = l)) as [->|Hne].
    + rewrite lookup_insert_eq in Hk. injection Hk as <-. cbn [cnt_ set_cnt].
      destruct (H1 l r Hl) as [Hcl _]. rewrite occ_app in Hcl. split; [lia|done].
    + rewrite lookup_insert_ne in Hk by done. destruct (H1 k rk Hk) as [Hck ?]. rewrite occ_app in Hck. done.
  - eapply Forall_impl; [exact Hr|]. intros a. by apply points_cnt.
  - intros k rk Hk. assert (exists r0, h !! k = Some r0 /\ elems rk = elems r0) as (r0 & Hk0 & ->).
    { destruct (decide (k = l)) as [->|Hne]; [|rewrite lookup_insert_ne in Hk by done; by exists rk].
      rewrite lookup_insert_eq in Hk. injection Hk as <-. by exists r. }
    destruct (H3 k r0 Hk0) as [Hp Hlt]. split; [|done]. eapply Forall_impl; [exact Hp|]. intros a. by apply points_cnt.
  - intros k rk Hk. destruct (decide (k = l)) as [->|Hne];
      [rewrite lookup_insert_eq in Hk; injection Hk as <-; exact (H4 l r Hl)|rewrite lookup_insert_ne in Hk by done; eauto].
  - intros k rk Hk. destruct (decide (k = l)) as [->|Hne]; [eauto|rewrite lookup_insert_ne in Hk by done; eauto].
Qed.

Lemma hinv_release h a roots n l r : hinv h (a :: roots) n -> target a = Some l -> h !! l = Some r -> cnt_ r <> 1 ->
  hinv (<[l := set_cnt (cnt_ r - 1) r]> h) roots n.
Proof.
  intros Hi Ht Hl Hc. destruct (hi_cnt _ _ _ Hi l r Hl) as [Hcl Hpos].
  pose proof (hi_roots _ _ _ Hi) as [_ Hr]%Forall_cons.
  apply (hinv_recount h l r _ (a :: roots)); [done|done|done|lia| |].
  - intros k. rewrite targets_cons, Ht. cbn [app]. rewrite occ_cons. repeat case_decide; subst; try done; lia.
  - rewrite targets_cons, Ht. cbn [app]. rewrite occ_cons, decide_True by done. lia.
Qed.

Lemma hinv_acquire h a roots n l r : hinv h roots n -> points h a -> target a = Some l -> h !! l = Some r ->
  cnt_ r + 1 < u64_max -> hinv (<[l := set_cnt (cnt_ r + 1) r]> h) (a :: roots) n.
Proof.
  intros Hi Hp Ht Hl Hc. destruct (hi_cnt _ _ _ Hi l r Hl) as [Hcl Hpos].
  apply (hinv_recount h l r _ roots); [done|done| |lia| |lia].
  - constructor; [done|apply Hi].
  - intros k. rewrite targets_cons, Ht. cbn [app]. rewrite occ_cons. repeat case_decide; subst; try done; lia.
Qed.

(** The last reference: the storage goes, what it held is left to be destroyed. *)
Lemma hinv_last h a roots n l r : hinv h (a :: roots) n -> target a = Some l -> h !! l = Some r -> cnt_ r = 1 ->
  hinv (delete l h) (elems r ++ roots) n.
Proof.
  intros Hi Ht Hl Hc. pose proof Hi as [H1 H2 H3 H4 H5]. apply Forall_cons in H2 as [_ H2].
  destruct (H1 l r Hl) as [Hcl _]. rewrite Hc, occ_app, targets_cons, Ht in Hcl. cbn [app] in Hcl.
  rewrite occ_cons, decide_True in Hcl by done.
  assert (l ∉ heap_refs h) as Hno1 by (apply occ_0; lia).
  assert (l ∉ targets roots) as Hno2 by (apply occ_0; lia).
  assert (forall k rk, h !! k = Some rk -> l ∉ targets (elems rk)) as Hno3.
  { intros k rk Hk Hin. apply Hno1. rewrite (heap_refs_split h k rk Hk). by apply elem_of_app; left. }
  assert (forall xs, Forall (points h) xs -> l ∉ targets xs -> Forall (points (delete l h)) xs) as Hpts.
  { intros xs Hxs Hn. eapply Forall_points; [done|]. intros k rk Hk Hrk.
    rewrite lookup_delete_ne by (intros ->; done). eauto. }
  split.
  - intros k rk [Hne Hk]%lookup_delete_Some. destruct (H1 k rk Hk) as [Hck ?]. split; [|done]. rewrite Hck.
    f_equal. rewrite (heap_refs_split h l r Hl), targets_cons, Ht, targets_app. cbn [app].
    rewrite !occ_app, occ_cons, decide_False by done. lia.
  - apply Forall_app. split; apply Hpts; eauto. by apply (H3 l r Hl).
  - intros k rk [Hne Hk]%lookup_delete_Some. destruct (H3 k rk Hk). eauto.
  - intros k rk [Hne Hk]%lookup_delete_Some. eauto.
  - intros k rk [Hne Hk]%lookup_delete_Some. eauto.
Qed.

(** ** Releasing *)

(** All references *)
Definition total (h : gmap nat ref) (roots : list arg) : nat := length (heap_refs h ++ targets roots).

(** Storage that goes away leaves the rest as it was, but for the counts. *)
Definition shrinks (h : gmap nat ref) (roots : list arg) (h' : gmap nat ref) (roots' : list arg) : Prop :=
  (forall k r', h' !! k = Some r' -> exists r, h !! k = Some r /\ chars r' = chars r /\ elems r' = elems r) /\
  (total h' roots' <= total h roots)%nat.

Lemma shrinks_trans h1 r1 h2 r2 h3 r3 : shrinks h1 r1 h2 r2 -> shrinks h2 r2 h3 r3 -> shrinks h1 r1 h3 r3.
Proof.
  intros [H1 T1] [H2 T2]. split; [|lia]. intros k r Hk. destruct (H2 k r Hk) as (x & Hx & -> & ->). auto.
Qed.
Lemma shrinks_none h roots h' roots' k : shrinks h roots h' roots' -> h !! k = None -> h' !! k = None.
Proof. intros [Hs _] Hk. apply eq_None_not_Some. intros [r' Hr']. destruct (Hs k r' Hr') as (r & ? & _). congruence. Qed.
Lemma shrinks_plain h a roots : target a = None -> shrinks h (a :: roots) h roots.
Proof. intros Ht. split; [eauto|]. unfold total. by rewrite targets_cons, Ht. Qed.

Lemma shrinks_release h a roots l r c : h !! l = Some r -> shrinks h (a :: roots) (<[l := set_cnt c r]> h) roots.
Proof.
  intros Hl. split.
  - intros k r' Hk. destruct (decide (k = l)) as [->|Hne];
      [rewrite lookup_insert_eq in Hk; injection Hk as <-; by exists r|rewrite lookup_insert_ne in Hk by done; eauto].
  - unfold total. rewrite !length_app, (heap_refs_update h l r (set_cnt c r) Hl eq_refl), targets_cons, length_app. lia.
Qed.

Lemma shrinks_last h a roots l r : h !! l = Some r -> target a = Some l ->
  shrinks h (a :: roots) (delete l h) (elems r ++ roots).
Proof.
  intros Hl Ht. split; [intros k r' [_ Hk]%lookup_delete_Some; eauto|].
  unfold total. rewrite (heap_refs_split h l r Hl), targets_app, targets_cons, !length_app. lia.
Qed.

Lemma bind_ref {A} l r s (k : ref -> M store A) : heap_ s !! l = Some r -> (ref_at l ≫= k) s = k r s.
Proof. intros Hl. unfold ref_at, mbind, M_bind, get. by rewrite Hl. Qed.

(** The specification of a release: [h] is the storage the invariant speaks of, [ex] the
    arrays whose elements are being destroyed. *)
Definition releases (m : M store unit) (todo : list arg) : Prop := forall h ex roots n,
  hinv h (todo ++ roots) n -> h ##ₘ ex ->
  exists h', m (mkStore (h ∪ ex) n) = (Ok tt, mkStore (h' ∪ ex) n) /\ hinv h' roots n /\ h' ##ₘ ex /\
    shrinks h (todo ++ roots) h' roots.

Lemma releases_list (f : arg -> M store unit) xs : (forall a, a ∈ xs -> releases (f a) [a]) -> releases (mfor xs f) xs.
Proof.
  induction xs as [|a xs IH]; intros Hf h ex roots n Hi Hd; cbn [mfor app] in *; [by exists h; split_and!; [..|split; [eauto|]]|].
  destruct (Hf a ltac:(left) h ex (xs ++ roots) n Hi Hd) as (h1 & E1 & Hi1 & Hd1 & Hn1).
  destruct (IH (fun a Ha => Hf a ltac:(by right)) h1 ex roots n Hi1 Hd1) as (h2 & E2 & Hi2 & Hd2 & Hn2).
  exists h2. rewrite (M_bind_eq _ _ _ _ _ E1). split_and!; [done..|]. exact (shrinks_trans _ _ _ _ _ _ Hn1 Hn2).
Qed.

Lemma lookup_union_here {A} (h ex : gmap nat A) l r : h !! l = Some r -> (h ∪ ex) !! l = Some r.
Proof. intros Hl. by apply lookup_union_Some_l. Qed.

Lemma wrap_cnt z : 0 <= z < u64_max -> wrap64 z = z.
Proof. intros Hz. apply wrapn_id. unfold in_width, u64_max in *. cbn in *. lia. Qed.

(** The storage of the last reference is set aside while it is taken apart. *)
Lemma set_aside (h ex : gmap nat ref) l r r' : h !! l = Some r -> h ##ₘ ex ->
  <[l := r']> (h ∪ ex) = delete l h ∪ <[l := r']> ex /\ delete l h ##ₘ <[l := r']> ex /\
  forall h', h' !! l = None -> h' ##ₘ <[l := r']> ex -> delete l (h' ∪ <[l := r']> ex) = h' ∪ ex /\ h' ##ₘ ex.
Proof.
  intros Hl Hd. assert (ex !! l = None) as Hex by (by eapply map_disjoint_Some_l).
  split_and!.
  - rewrite <-(insert_delete_id h l r Hl) at 1. rewrite insert_union_l, insert_insert_eq.
    rewrite <-insert_union_l, insert_union_r by apply lookup_delete_eq. done.
  - apply map_disjoint_insert_r_2; [apply lookup_delete_eq|]. by apply map_disjoint_delete_l.
  - intros h' Hl' Hd'. apply map_disjoint_insert_r in Hd' as [_ Hd']. split; [|done].
    rewrite <-insert_union_r by done. apply delete_insert_id. by rewrite lookup_union, Hl', Hex.
Qed.

(** The common part of the two kinds of storage *)
Lemma release_step (dead : ref -> M store unit) h ex roots n a l r h' :
  hinv h (a :: roots) n -> h ##ₘ ex -> target a = Some l -> h !! l = Some r ->
  (cnt_ r = 1 -> dead r (mkStore (<[l := set_cnt 0 r]> (h ∪ ex)) n) = (Ok tt, mkStore (h' ∪ ex) n) /\
     hinv h' roots n /\ h' ##ₘ ex /\ shrinks h (a :: roots) h' roots) ->
  exists h'', (r ← ref_at l; put_ref l (set_cnt (wrap64 (cnt_ r - 1)) r);;
      if wrap64 (cnt_ r - 1) =? 0 then dead r else mret tt) (mkStore (h ∪ ex) n) = (Ok tt, mkStore (h'' ∪ ex) n) /\
    hinv h'' roots n /\ h'' ##ₘ ex /\ shrinks h (a :: roots) h'' roots.
Proof.
  intros Hi Hd Ht Hl Hdead. destruct (hi_cnt _ _ _ Hi l r Hl) as [_ Hc].
  rewrite (bind_ref l r) by (by apply lookup_union_here). rewrite wrap_cnt by lia.
  unfold put_ref. rewrite bind_modify. unfold set_heap. cbn [heap_ next_].
  destruct (Z.eqb_spec (cnt_ r - 1) 0) as [E|E].
  - rewrite E. exists h'. apply Hdead. lia.
  - exists (<[l := set_cnt (cnt_ r - 1) r]> h). split_and!.
    + by rewrite insert_union_l.
    + apply (hinv_release h a); [done..|lia].
    + apply map_disjoint_insert_l_2; [by eapply map_disjoint_Some_l|done].
    + by apply shrinks_release.
Qed.

Lemma free_aside (h' ex : gmap nat ref) l r n : delete l (h' ∪ <[l := r]> ex) = h' ∪ ex ->
  free l (mkStore (h' ∪ <[l := r]> ex) n) = (Ok tt, mkStore (h' ∪ ex) n).
Proof. intros E. unfold free, modify, set_heap. cbn [heap_ next_]. by rewrite E. Qed.

Lemma releases_arg fuel : forall a, (forall l, target a = Some l -> (l < fuel)%nat) -> releases (refRelease (S fuel) a) [a].
Proof.
  induction fuel as [fuel IH] using lt_wf_ind. intros a Hf h ex roots n Hi Hd. cbn [app] in Hi.
  pose proof (hi_roots _ _ _ Hi) as [Hp _]%Forall_cons.
  destruct (points_target h a Hp) as [Ht|(l & r & Ht & Hl & Ha & Hor)].
  { exists h. cbn [refRelease]. rewrite decide_False by (by eapply points_none).
    apply hinv_plain in Hi as [_ Hi]; [|done]. split_and!; [done..|by apply shrinks_plain]. }
  destruct (set_aside h ex l r (set_cnt 0 r) Hl Hd) as (Hs1 & Hs2 & Hs3). pose proof (Hf l Ht) as Hlt.
  pose proof (shrinks_last h a roots l r Hl Ht) as Hshr.
  cbn [refRelease]. rewrite decide_True by done. destruct Hor as [(-> & -> & Hch)|(-> & -> & Hch)].
  - apply (release_step (fun _ => free l) _ _ _ _ a l r (delete l h)); [done..|]. intros Hone.
    pose proof (hinv_last h a roots n l r Hi Ht Hl Hone) as Hi'.
    rewrite (hi_chars _ _ _ Hi l r Hl Hch) in Hi', Hshr. rewrite Hs1.
    destruct (Hs3 (delete l h)) as [Hs4 Hs5]; [apply lookup_delete_eq|done|].
    split_and!; [by apply free_aside|done..].
  - destruct (decide (cnt_ r = 1)) as [Hone|Hmany].
    2: { by apply (release_step (fun r => mfor (reverse (elems r)) (refRelease fuel);; free l) _ _ _ _ a l r h). }
    pose proof (hinv_last h a roots n l r Hi Ht Hl Hone) as Hi'. destruct (hi_elems _ _ _ Hi l r Hl) as [_ Hold].
    destruct (releases_list (refRelease fuel) (reverse (elems r))) with (h := delete l h) (ex := <[l := set_cnt 0 r]> ex)
      (roots := roots) (n := n) as (h' & E & Hi2 & Hd2 & Hn2).
    + intros e He. rewrite elem_of_reverse in He. destruct fuel as [|f]; [lia|]. apply (IH f); [lia|].
      intros k Hk. assert (k < l)%nat; [|lia]. apply Hold. apply list_elem_of_omap. by exists e.
    + eapply hinv_perm; [|exact Hi']. by rewrite reverse_Permutation.
    + done.
    + apply (release_step (fun r => mfor (reverse (elems r)) (refRelease fuel);; free l) _ _ _ _ a l r h'); [done..|].
      intros _. rewrite Hs1, (M_bind_eq _ _ _ _ _ E).
      destruct (Hs3 h') as [Hs4 Hs5]; [eapply shrinks_none, lookup_delete_eq; exact Hn2|done|].
      split_and!; [by apply free_aside|done|done|]. refine (shrinks_trans _ _ _ _ _ _ Hshr _).
      destruct Hn2 as [Hn2 Hn3]. split; [done|]. etrans; [exact Hn3|]. unfold total. by rewrite reverse_Permutation.
Qed.

Lemma release_spec h roots n a : hinv h (a :: roots) n ->
  exists h', release a (mkStore h n) = (Ok tt, mkStore h' n) /\ hinv h' roots n /\ shrinks h (a :: roots) h' roots.
Proof.
  intros Hi. pose proof (hi_roots _ _ _ Hi) as [Hp _]%Forall_cons.
  destruct (releases_arg n a) with (h := h) (ex := ∅ : gmap nat ref) (roots := roots) (n := n)
    as (h' & E & Hi' & _ & Hs); [|done|apply map_disjoint_empty_r|].
  - intros l Ht. destruct (points_target h a Hp) as [?|(l' & r & Ht' & Hl & _)]; [congruence|]. simplify_eq.
    by eapply hi_next.
  - exists h'. rewrite !(right_id_L ∅ (∪)) in E. split; [|done]. unfold release. by rewrite bind_get.
Qed.

(** Two stores show the same contents where both have storage. *)
Definition agree (h h' : gmap nat ref) : Prop := forall k r r', h !! k = Some r -> h' !! k = Some r' ->
  chars r' = chars r /\ elems r' = elems r.

Lemma shrinks_agree h roots h' roots' : shrinks h roots h' roots' -> agree h h'.
Proof. intros [Hs _] k r r' Hk Hk'. destruct (Hs k r' Hk') as (r0 & ? & ? & ?). by simplify_eq. Qed.
Lemma agree_refl h : agree h h.
Proof. intros k r r' H H'. by simplify_eq. Qed.

Definition contents (r : ref) : option bytes * list arg := (chars r, elems r).

(** Storage that differs in the counts only *)
Definition same_shape (h h' : gmap nat ref) : Prop := heap_refs h' ≡ₚ heap_refs h /\
  forall l, contents <$> h' !! l = contents <$> h !! l.

Lemma shape_lookup h h' l r : same_shape h h' -> h !! l = Some r ->
  exists r', h' !! l = Some r' /\ chars r' = chars r /\ elems r' = elems r.
Proof.
  intros [_ Hs] Hl. specialize (Hs l). rewrite Hl in Hs. apply fmap_Some in Hs as (r' & Hl' & [= H1 H2]). eauto.
Qed.

Lemma cnt_total h roots n l r : hinv h roots n -> h !! l = Some r -> cnt_ r <= Z.of_nat (total h roots).
Proof.
  intros Hi Hl. destruct (hi_cnt _ _ _ Hi l r Hl) as [-> _]. unfold total, occ.
  pose proof (length_filter (fun x => x = l) (heap_refs h ++ targets roots)). lia.
Qed.

Lemma acquire_spec h roots n a : hinv h roots n -> points h a -> Z.of_nat (total h roots) + 1 < u64_max ->
  exists h', refAcquire a (mkStore h n) = (Ok tt, mkStore h' n) /\ hinv h' (a :: roots) n /\ same_shape h h'.
Proof.
  intros Hi Hp Hb. unfold refAcquire. destruct (points_target h a Hp) as [Ht|(l & r & Ht & Hl & Ha & Hor)].
  - exists h. rewrite decide_False by (by eapply points_none). split_and!; [done|by apply hinv_plain|done].
  - pose proof (cnt_total h roots n l r Hi Hl). destruct (hi_cnt _ _ _ Hi l r Hl) as [_ Hc].
    exists (<[l := set_cnt (cnt_ r + 1) r]> h). split_and!; [|apply hinv_acquire; done || lia|].
    + rewrite decide_True by done.
      assert ((r ← ref_at l; put_ref l (set_cnt (wrap64 (cnt_ r + 1)) r)) (mkStore h n) =
        (Ok tt, mkStore (<[l := set_cnt (cnt_ r + 1) r]> h) n)) as E.
      { rewrite (bind_ref l r) by done. by rewrite wrap_cnt by lia. }
      by destruct Hor as [(-> & -> & _)|(-> & -> & _)].
    + split; [by eapply heap_refs_update|]. intros k. destruct (decide (k = l)) as [->|];
        [by rewrite lookup_insert_eq, Hl|by rewrite lookup_insert_ne].
Qed.

Lemma total_cons h h' a roots : same_shape h h' -> (total h' (a :: roots) <= S (total h roots))%nat.
Proof.
  intros [Hs _]. unfold total. rewrite !length_app, Hs, targets_cons. rewrite length_app. destruct (target a); cbn; lia.
Qed.

Lemma agree_shape h h' h'' : agree h h' -> same_shape h' h'' -> agree h h''.
Proof.
  intros Ha [_ Hs] k r r'' Hk Hk''. specialize (Hs k). rewrite Hk'' in Hs. symmetry in Hs.
  apply fmap_Some in Hs as (r' & Hk' & [= H1 H2]). rewrite H1, H2. by apply (Ha k).
Qed.

(** [assign] from an argument that still points after the release *)
Lemma assign_spec h roots n a (other : place) b : hinv h (a :: roots) n -> Z.of_nat (total h (a :: roots)) + 1 < u64_max ->
  (forall h', hinv h' roots n -> shrinks h (a :: roots) h' roots -> release a (mkStore h n) = (Ok tt, mkStore h' n) ->
     read other (mkStore h' n) = (Ok b, mkStore h' n) /\ points h' b) ->
  exists h', assign a other (mkStore h n) = (Ok b, mkStore h' n) /\ hinv h' (b :: roots) n /\ agree h h'.
Proof.
  intros Hi Hroom Hb. destruct (release_spec h roots n a Hi) as (h1 & E1 & Hi1 & Hs1).
  destruct (Hb h1 Hi1 Hs1 E1) as [Hrd Hp]. destruct (acquire_spec h1 roots n b Hi1 Hp) as (h2 & E2 & Hi2 & Hs2).
  { destruct Hs1. lia. }
  exists h2. unfold assign. rewrite (M_bind_eq _ _ _ _ _ E1), (M_bind_eq _ _ _ _ _ Hrd), (M_bind_eq _ _ _ _ _ E2).
  split_and!; [done..|]. apply (agree_shape h h1); [by eapply shrinks_agree|done].
Qed.

(** ** Allocating *)

Lemma points_new h n r a : h !! n = None -> points h a -> points (<[n := r]> h) a.
Proof.
  intros Hn Hp. apply (points_change h); [done|]. intros k rk _ Hk. exists rk.
  rewrite lookup_insert_ne by congruence. done.
Qed.

(** New storage without references inside, and the argument that holds it *)
Lemma hinv_new h roots n r a : hinv h roots n -> targets (elems r) = [] -> Forall (points h) (elems r) ->
  (chars r <> None -> elems r = []) -> cnt_ r = 1 -> target a = Some n -> points (<[n := r]> h) a ->
  hinv (<[n := r]> h) (a :: roots) (S n).
Proof.
  intros Hi Hel Hpel Hch Hc Ht Hp. pose proof Hi as [H1 H2 H3 H4 H5].
  assert (h !! n = None) as Hn by (destruct (h !! n) eqn:E; [apply H5 in E; lia|done]).
  assert (forall xs, Forall (points h) xs -> n ∉ targets xs) as Hno.
  { intros xs Hxs Hin. apply list_elem_of_omap in Hin as (x & Hx & Hxt). rewrite Forall_forall in Hxs.
    destruct (points_target h x (Hxs x Hx)) as [?|(l & r' & Hl' & Hl & _)]; congruence. }
  assert (n ∉ heap_refs h) as Hnh.
  { unfold heap_refs. intros (r' & Hin & ([k r0] & -> & Hr0)%list_elem_of_fmap)%list_elem_of_bind.
    apply elem_of_map_to_list in Hr0. cbn in Hin. by apply (Hno (elems r0)); [apply (H3 k)|]. }
  split.
  - intros l rl Hl. rewrite heap_refs_insert, Hel, targets_cons, Ht by done. cbn [app]. rewrite occ_app, occ_cons.
    destruct (decide (l = n)) as [->|Hne].
    + rewrite lookup_insert_eq in Hl. injection Hl as <-. rewrite decide_True by done.
      rewrite (proj2 (occ_0 n _) Hnh), (proj2 (occ_0 n _) (Hno roots H2)), Hc. split; [done|]. unfold u64_max. lia.
    + rewrite lookup_insert_ne in Hl by done. rewrite decide_False by done. destruct (H1 l rl Hl) as [Hcl ?].
      rewrite occ_app in Hcl. split; [lia|done].
  - constructor; [done|]. eapply Forall_impl; [exact H2|]. intros x. by apply points_new.
  - intros l rl Hl. destruct (decide (l = n)) as [->|Hne].
    + rewrite lookup_insert_eq in Hl. injection Hl as <-. rewrite Hel. split; [|by intros ? ?%not_elem_of_nil].
      eapply Forall_impl; [exact Hpel|]. intros x. by apply points_new.
    + rewrite lookup_insert_ne in Hl by done. destruct (H3 l rl Hl) as [Hpl ?]. split; [|done].
      eapply Forall_impl; [exact Hpl|]. intros x. by apply points_new.
  - intros l rl Hl. destruct (decide (l = n)) as [->|Hne];
      [rewrite lookup_insert_eq in Hl; by injection Hl as <-|rewrite lookup_insert_ne in Hl by done; eauto].
  - intros l rl Hl. destruct (decide (l = n)) as [->|Hne]; [lia|]. rewrite lookup_insert_ne in Hl by done.
    apply H5 in Hl. lia.
Qed.

Lemma targets_insert els i old v : els !! i = Some old -> target old = None ->
  targets (<[i := v]> els) ≡ₚ (match target v with Some x => [x] | None => [] end) ++ targets els.
Proof.
  intros Hi Ho. rewrite insert_take_drop by (by eapply lookup_lt_Some).
  rewrite <-(take_drop_middle els i old Hi) at 3. rewrite !targets_app, !targets_cons, Ho. cbn [app].
  by rewrite Permutation_app_swap_app.
Qed.

(** An argument of the program becomes an element. *)
Lemma hinv_store h v roots n l r i old : hinv h (v :: roots) n -> h !! l = Some r -> chars r = None ->
  elems r !! i = Some old -> target old = None -> (forall k, target v = Some k -> (k < l)%nat) ->
  hinv (<[l := mkRef (chars r) (<[i := v]> (elems r)) (cnt_ r)]> h) roots n /\
  total (<[l := mkRef (chars r) (<[i := v]> (elems r)) (cnt_ r)]> h) roots = total h (v :: roots).
Proof.
  intros Hi Hl Hch Hold Ho Hlt. pose proof Hi as [H1 H2 H3 H4 H5]. apply Forall_cons in H2 as [Hv H2].
  set (r' := mkRef (chars r) (<[i := v]> (elems r)) (cnt_ r)).
  assert (heap_refs (<[l := r']> h) ++ targets roots ≡ₚ heap_refs h ++ targets (v :: roots)) as Hrefs.
  { rewrite <-insert_delete_eq, heap_refs_insert by apply lookup_delete_eq.
    rewrite (heap_refs_split h l r Hl), targets_cons. cbn [elems r']. rewrite (targets_insert _ _ _ _ Hold Ho).
    rewrite <-!app_assoc. rewrite Permutation_app_swap_app. f_equiv. by rewrite Permutation_app_swap_app. }
  assert (forall x, points h x -> points (<[l := r']> h) x) as Hpt.
  { intros x Hx. apply (points_change h); [done|]. intros k rk _ Hk. destruct (decide (k = l)) as [->|];
      [rewrite lookup_insert_eq; eexists; split; [done|cbn; congruence]|rewrite lookup_insert_ne by done; eauto]. }
  assert (forall k rk, <[l := r']> h !! k = Some rk -> k = l /\ rk = r' \/ h !! k = Some rk) as Hcase.
  { intros k rk Hk. destruct (decide (k = l)) as [->|]; [rewrite lookup_insert_eq in Hk; left; by injection Hk|
      rewrite lookup_insert_ne in Hk by done; by right]. }
  split; [|unfold total; by rewrite Hrefs]. split.
  - intros k rk Hk. rewrite Hrefs. destruct (Hcase k rk Hk) as [[-> ->]|Hk']; [|auto]. exact (H1 l r Hl).
  - eapply Forall_impl; [exact H2|]. done.
  - intros k rk Hk. destruct (Hcase k rk Hk) as [[-> ->]|Hk'].
    + destruct (H3 l r Hl) as [Hp Hk']. cbn [elems r']. split.
      * apply Forall_insert; [|auto]. eapply Forall_impl; [exact Hp|]. done.
      * intros k. rewrite (targets_insert _ _ _ _ Hold Ho), elem_of_app. intros [Hin|?]; [|auto].
        destruct (target v) as [x|]; [apply list_elem_of_singleton in Hin as ->; auto|by apply not_elem_of_nil in Hin].
    + destruct (H3 k rk Hk') as [Hp ?]. split; [|done]. eapply Forall_impl; [exact Hp|]. done.
  - intros k rk Hk Hn. destruct (Hcase k rk Hk) as [[-> ->]|Hk']; [by cbn in Hn|eauto].
  - intros k rk Hk. destruct (Hcase k rk Hk) as [[-> ->]|Hk']; eauto.
Qed.

Lemma assign_default v s : assign Arg_default (Local v) s = (refAcquire v;; mret v) s.
Proof. done. Qed.

Lemma fill_elems (els : list arg) i v vs old : els !! i = Some old ->
  take (S i) (<[i := v]> els) ++ vs ++ drop (S i + length vs) (<[i := v]> els) =
  take i els ++ (v :: vs) ++ drop (i + S (length vs)) els.
Proof.
  intros Ho%lookup_lt_Some. rewrite (take_S_r _ i v) by (by apply list_lookup_insert_eq).
  rewrite take_insert_ge, drop_insert_lt by lia. rewrite <-app_assoc. cbn [app].
  by replace (i + S (length vs))%nat with (S i + length vs)%nat by lia.
Qed.

Lemma fill_spec l vs : forall i h roots n r,
  hinv h roots n -> h !! l = Some r -> chars r = None ->
  (forall j, (i <= j < i + length vs)%nat -> elems r !! j = Some Arg_default) ->
  (forall v, v ∈ vs -> v ∈ roots /\ forall k, target v = Some k -> (k < l)%nat) ->
  Z.of_nat (total h roots) + Z.of_nat (length vs) < u64_max ->
  exists h', fill l i vs (mkStore h n) = (Ok tt, mkStore h' n) /\ hinv h' roots n /\
    (forall k, k <> l -> contents <$> h' !! k = contents <$> h !! k) /\
    (contents <$> h' !! l) = Some (None, take i (elems r) ++ vs ++ drop (i + length vs) (elems r)).
Proof.
  induction vs as [|v vs IH]; intros i h roots n r Hi Hl Hch Hdef Hvs Htot; cbn [fill].
  { exists h. split_and!; [done..|]. cbn. unfold contents. by rewrite Hl, Nat.add_0_r, take_drop, <-Hch. }
  cbn [length] in *. pose proof (Hdef i ltac:(lia)) as Hold.
  destruct (Hvs v ltac:(left)) as [Hin Hlt].
  assert (points h v) as Hp by (pose proof (hi_roots _ _ _ Hi) as Hr; rewrite Forall_forall in Hr; auto).
  destruct (acquire_spec h roots n v Hi Hp) as (h1 & E1 & Hi1 & Hs1); [lia|].
  destruct (shape_lookup h h1 l r Hs1 Hl) as (r1 & Hl1 & Hc1 & He1).
  rewrite (bind_ref l r) by done. rewrite Hold.
  assert (assign Arg_default (Local v) (mkStore h n) = (Ok v, mkStore h1 n)) as Ea
    by (rewrite assign_default, (M_bind_eq _ _ _ _ _ E1); done).
  rewrite (M_bind_eq _ _ _ _ _ Ea), (bind_ref l r1) by done.
  destruct (hinv_store h1 v roots n l r1 i Arg_default) as [Hi2 Ht2]; [done|done|congruence|congruence|done|done|].
  pose proof (total_cons h h1 v roots Hs1) as Ht1.
  unfold put_ref. rewrite bind_modify. unfold set_heap. cbn [heap_ next_].
  set (r2 := mkRef (chars r1) (<[i := v]> (elems r1)) (cnt_ r1)) in *.
  destruct (IH (S i) (<[l := r2]> h1) roots n r2) as (h3 & E3 & Hi3 & Hk3 & Hl3);
    [exact Hi2|apply lookup_insert_eq|cbn; congruence| | |rewrite Ht2; lia|].
  - intros j Hj. cbn [elems r2]. rewrite list_lookup_insert_ne by lia. rewrite He1. apply Hdef. lia.
  - intros w Hw. apply Hvs. by right.
  - exists h3. split_and!; [done|done| |].
    + intros k Hk. rewrite Hk3, lookup_insert_ne by done. apply Hs1.
    + rewrite Hl3. cbn [elems r2]. do 2 f_equal. rewrite He1. by eapply fill_elems.
Qed.

Lemma hinv_fresh h roots n : hinv h roots n -> h !! n = None.
Proof. intros Hi. destruct (h !! n) eqn:E; [apply (hi_next _ _ _ Hi) in E; lia|done]. Qed.

Lemma root_target h roots n v k : hinv h roots n -> v ∈ roots -> target v = Some k -> (k < n)%nat.
Proof.
  intros Hi Hv Ht. pose proof (hi_roots _ _ _ Hi) as Hr. rewrite Forall_forall in Hr.
  destruct (points_target h v (Hr v Hv)) as [?|(l & r & Ht' & Hl & _)]; [congruence|]. simplify_eq. by eapply hi_next.
Qed.

Lemma targets_default n : targets (replicate n Arg_default) = [].
Proof. induction n as [|n IH]; [done|]. cbn [replicate]. by rewrite targets_cons, IH. Qed.

Lemma Arg_array_spec key vs h roots n : hinv h roots n -> (forall v, v ∈ vs -> v ∈ roots) ->
  Z.of_nat (total h roots) + Z.of_nat (length vs) + 1 < u64_max ->
  exists h', Arg_array key vs (mkStore h n) = (Ok (mkArg Array AHeap key (arr_ n)), mkStore h' (S n)) /\
    hinv h' (mkArg Array AHeap key (arr_ n) :: roots) (S n) /\ agree h h' /\
    exists r, h' !! n = Some r /\ elems r = vs.
Proof.
  intros Hi Hvs Htot. unfold Arg_array, new_ref. pose proof (hinv_fresh _ _ _ Hi) as Hfresh.
  set (a := mkArg Array AHeap key (arr_ n)). set (r := mkRef None (replicate (length vs) Arg_default) 1).
  assert (hinv (<[n := r]> h) (a :: roots) (S n)) as Hi1.
  { apply hinv_new; try done; cbn; [apply targets_default| |].
    - rewrite Forall_forall. intros x Hx%elem_of_replicate. by destruct Hx as [-> _].
    - split; [done|]. intros _. exists n, r. rewrite lookup_insert_eq. split; [done|]. by right. }
  destruct (fill_spec n vs 0 (<[n := r]> h) (a :: roots) (S n) r) as (h' & E & Hi' & Hk & Hn); [done|apply lookup_insert_eq|done| | | |].
  - intros j Hj. cbn. apply lookup_replicate. split; [done|lia].
  - intros v Hv. split; [right; auto|]. intros k Hk. by apply (root_target h roots n v k Hi); [apply Hvs|].
  - unfold total in *. rewrite heap_refs_insert, targets_cons, !length_app by done. cbn [r elems].
    rewrite targets_default. rewrite !length_app in Htot. change (target a) with (Some n). cbn [length app]. lia.
  - exists h'. split_and!; [|done| |].
    2: { intros k rk rk' Hrk Hrk'. specialize (Hk k). rewrite lookup_insert_ne, Hrk, Hrk' in Hk by congruence.
      cbn in Hk. unfold contents in Hk. split; apply Some_inj in Hk; congruence. }
    2: { apply fmap_Some in Hn as (r' & Hr' & [= _ He]). exists r'. split; [done|]. rewrite <-He. cbn [take r elems].
      rewrite drop_ge by (rewrite length_replicate; lia). apply app_nil_r. }
    assert (forall k : unit -> M store arg, (r ← ref_at n; put_ref n (set_cnt (wrap64 (cnt_ r + 1)) r) ≫= k)
      (mkStore (<[n := mkRef None (replicate (length vs) Arg_default) 0]> h) (S n)) = k tt (mkStore (<[n := r]> h) (S n))) as Ek.
    { intros k. rewrite (bind_ref n (mkRef None (replicate (length vs) Arg_default) 0)) by (cbn; by rewrite lookup_insert_eq).
      unfold put_ref. rewrite bind_modify. unfold set_heap. cbn [heap_ next_ cnt_ set_cnt chars elems].
      by rewrite insert_insert_eq. }
    etrans; [apply Ek|]. by rewrite (M_bind_eq _ _ _ _ _ E).
Qed.

Lemma Arg_string_spec key v h roots n : hinv h roots n ->
  exists h' a n', Arg_string key v (mkStore h n) = (Ok a, mkStore h' n') /\ hinv h' (a :: roots) n' /\ agree h h' /\
    forall f, denote (S f) h' a = VString key v.
Proof.
  intros Hi. unfold Arg_string. destruct (_ <=? _).
  - do 3 eexists. split; [done|]. split_and!; [by apply hinv_plain|apply agree_refl|done].
  - pose proof (hinv_fresh _ _ _ Hi) as Hfresh. do 3 eexists. split; [done|]. split_and!.
    + apply hinv_new; try done. split; [done|]. intros _. cbn. exists n. eexists. split; [apply lookup_insert_eq|]. by left.
    + intros k r r' Hk. cbn [heap_ next_]. rewrite lookup_insert_ne by congruence. intros ?. by simplify_eq.
    + intros f. cbn [denote type_ alloc_ val_ heap_ next_]. by rewrite lookup_insert_eq.
Qed.

(** ** Programs keep the invariant *)

Definition values {A} (m : gmap nat A) : list A := (map_to_list m).*2.
Definition pinv (p : prog) : Prop := hinv (heap_ (store_ p)) (values (vars_ p)) (next_ (store_ p)).
Definition init : prog := mkProg ∅ (mkStore ∅ 0).

(** An argument that holds an array, not moved from *)
Definition is_array (a : arg) : bool := bool_decide (type_ a = Array) && bool_decide (alloc_ a = AHeap).
(** The constructors from values *)
Definition is_value (a : arg) : bool :=
  match type_ a, alloc_ a, val_ a with
  | Invalid, ANone, int_ _ | Int, ANone, int_ _ | Errno, ANone, int_ _ | Double, ANone, dbl_ _ | String, ANone, chr_ _ => true
  | _, _, _ => false
  end.
(** Array [y] has an element [i]. *)
Definition has_elem (p : prog) (y i : nat) : Prop := exists a l r, vars_ p !! y = Some a /\ is_array a /\
  val_ a = arr_ l /\ heap_ (store_ p) !! l = Some r /\ (i < length (elems r))%nat.
Definition shared (p : prog) (x : nat) : Prop := forall a l r, vars_ p !! x = Some a -> val_ a = arr_ l ->
  heap_ (store_ p) !! l = Some r -> cnt_ r <> 1.

(** What the language asks of a program: objects are constructed once and used while they
    live, elements exist; and the counts have room for one more reference per argument. *)
Definition lang_ok (p : prog) (op : aop) : Prop :=
  Z.of_nat (total (heap_ (store_ p)) (values (vars_ p))) +
    (match op with NewArray _ _ ys => Z.of_nat (length ys) | _ => 0 end) + 1 < u64_max /\
  let live x := is_Some (vars_ p !! x) in
  let fresh x := vars_ p !! x = None in
  match op with
  | NewValue x a => fresh x /\ is_value a
  | NewString x key v => fresh x
  | NewArray x key ys => fresh x /\ Forall live ys
  | Copy x y | Move x y => fresh x /\ live y
  | CopyElem x y i => fresh x /\ has_elem p y i
  | Assign x y => live x /\ live y
  | AssignElem x y i => live x /\ has_elem p y i
  | Destroy x => live x
  end.

(** An element of an array is assigned to the only argument that holds the array:
    [x = x.toArray()[i]]. *)
Definition own_element (p : prog) (op : aop) : bool :=
  match op with
  | AssignElem x y _ =>
    bool_decide (x = y) &&
    match vars_ p !! x with
    | Some a => match val_ a with
                | arr_ l => match heap_ (store_ p) !! l with Some r => cnt_ r =? 1 | None => false end
                | _ => false
                end
    | None => false
    end
  | _ => false
  end.

(** The programs that do not do that *)
Definition aop_ok (p : prog) (op : aop) : Prop :=
  Z.of_nat (total (heap_ (store_ p)) (values (vars_ p))) +
    (match op with NewArray _ _ ys => Z.of_nat (length ys) | _ => 0 end) + 1 < u64_max /\
  let live x := is_Some (vars_ p !! x) in
  let fresh x := vars_ p !! x = None in
  match op with
  | NewValue x a => fresh x /\ is_value a
  | NewString x key v => fresh x
  | NewArray x key ys => fresh x /\ Forall live ys
  | Copy x y | Move x y => fresh x /\ live y
  | CopyElem x y i => fresh x /\ has_elem p y i
  | Assign x y => live x /\ live y
  | AssignElem x y i => live x /\ has_elem p y i /\ (x = y -> shared p x)
  | Destroy x => live x
  end.

Inductive reachable : prog -> Prop :=
  | reach_init : reachable init
  | reach_step p op p' : reachable p -> aop_ok p op -> exec op p = (Ok tt, p') -> reachable p'.

(** The value of every argument *)
Definition shows (p : prog) : gmap nat tree := denote (S (next_ (store_ p))) (heap_ (store_ p)) <$> vars_ p.

Lemma values_insert {A} (m : gmap nat A) x a : m !! x = None -> values (<[x := a]> m) ≡ₚ a :: values m.
Proof. intros Hx. unfold values. by rewrite map_to_list_insert by done. Qed.
Lemma values_split {A} (m : gmap nat A) x a : m !! x = Some a -> values m ≡ₚ a :: values (delete x m).
Proof. intros Hx. rewrite <-(insert_delete_id m x a Hx) at 1. apply values_insert, lookup_delete_eq. Qed.
Lemma values_elem {A} (m : gmap nat A) x a : m !! x = Some a -> a ∈ values m.
Proof. intros Hx. rewrite (values_split m x a Hx). left. Qed.

(** ** Programs implement values *)

Lemma denote_plain f h a : alloc_ a <> AHeap -> denote (S f) h a = denote 1 ∅ a.
Proof. cbn. by destruct (type_ a), (alloc_ a), (val_ a). Qed.

(** The value of an argument depends on the contents of storage only. *)
Lemma denote_agree h roots n h' roots' n' : hinv h roots n -> hinv h' roots' n' -> agree h h' ->
  forall f f' a, points h a -> points h' a -> (forall l, target a = Some l -> (l < f /\ l < f')%nat) ->
  denote (S f) h a = denote (S f') h' a.
Proof.
  intros Hi Hi' Hag f. induction f as [f IH] using lt_wf_ind. intros f' a Hp Hp' Hf.
  destruct (points_target h a Hp) as [Ht|(l & r & Ht & Hl & Ha & Hor)].
  { pose proof (points_none h a Hp Ht). by rewrite (denote_plain f), (denote_plain f') by done. }
  destruct (points_target h' a Hp') as [Ht'|(l' & r' & Ht' & Hl' & _)]; [congruence|].
  assert (l' = l) as -> by congruence. destruct (Hag l r r' Hl Hl') as [Hc He]. destruct (Hf l Ht) as [Hf1 Hf2].
  cbn [denote]. rewrite Ha. destruct Hor as [(-> & -> & _)|(-> & -> & _)]; rewrite Hl, Hl'; cbn [from_option mbind option_bind].
  { by rewrite Hc. }
  destruct f as [|f]; [lia|]. destruct f' as [|f']; [lia|]. f_equal. rewrite He. apply list_fmap_ext.
  intros i e Hie%list_elem_of_lookup_2. destruct (hi_elems _ _ _ Hi l r Hl) as [Hpe Hlt].
  destruct (hi_elems _ _ _ Hi' l r' Hl') as [Hpe' _]. rewrite He in Hpe'. rewrite Forall_forall in Hpe, Hpe'.
  apply IH; [lia|auto..]. intros k Hk. assert (k < l)%nat; [|lia]. apply Hlt, list_elem_of_omap. eauto.
Qed.

Lemma root_points h roots n a : hinv h roots n -> a ∈ roots -> points h a.
Proof. intros Hi Ha. pose proof (hi_roots _ _ _ Hi) as Hr. rewrite Forall_forall in Hr. auto. Qed.

(** Arguments of both programs keep their value. *)
Lemma denote_kept h roots n h' roots' n' a : hinv h roots n -> hinv h' roots' n' -> agree h h' ->
  points h a -> points h' a -> denote (S n) h a = denote (S n') h' a.
Proof.
  intros Hi Hi' Hag Hp Hp'. eapply denote_agree; [exact Hi|exact Hi'|done..|]. intros l Ht. split.
  - destruct (points_target h a Hp) as [?|(? & ? & Ht' & Hl & _)]; [congruence|]. simplify_eq. by eapply hi_next.
  - destruct (points_target h' a Hp') as [?|(? & ? & Ht' & Hl & _)]; [congruence|]. simplify_eq. by eapply hi_next.
Qed.

(** One argument of the program is set: [h'], [n'] is the store after it. *)
Lemma shows_set p h' n' x a t : pinv p -> hinv h' (a :: values (delete x (vars_ p))) n' ->
  agree (heap_ (store_ p)) h' -> denote (S n') h' a = t ->
  pinv (mkProg (<[x := a]> (vars_ p)) (mkStore h' n')) /\
  shows (mkProg (<[x := a]> (vars_ p)) (mkStore h' n')) = <[x := t]> (shows p).
Proof.
  intros Hi Hi' Hag Ht.
  assert (pinv (mkProg (<[x := a]> (vars_ p)) (mkStore h' n'))) as Hinv.
  { eapply hinv_perm; [|exact Hi']. cbn [vars_]. rewrite <-insert_delete_eq, values_insert; [done|apply lookup_delete_eq]. }
  split; [done|]. unfold shows. cbn [vars_ store_ heap_ next_]. rewrite fmap_insert, Ht. apply map_eq. intros y.
  destruct (decide (y = x)) as [->|Hne]; [by rewrite !lookup_insert_eq|].
  rewrite !lookup_insert_ne, !lookup_fmap by done. destruct (vars_ p !! y) as [b|] eqn:Hy; [|done]. cbn. f_equal.
  symmetry. eapply denote_kept; [exact Hi|exact Hi'|done|by eapply root_points, values_elem|].
  eapply root_points; [exact Hi'|]. right. apply (values_elem _ y). by rewrite lookup_delete_ne.
Qed.

Lemma bind_var {A} p x a (k : arg -> M prog A) : vars_ p !! x = Some a -> (var x ≫= k) p = k a p.
Proof. intros Hx. unfold var, mbind, M_bind, get. by rewrite Hx. Qed.
Lemma bind_on_store {A B} (m : M store A) v s a s' (k : A -> M prog B) : m s = (Ok a, s') ->
  (on_store m ≫= k) (mkProg v s) = k a (mkProg v s').
Proof. intros E. unfold on_store, zoom, mbind, M_bind. cbn [store_]. by rewrite E. Qed.
Lemma value_shows v s y a : v !! y = Some a -> value_of (shows (mkProg v s)) y = denote (S (next_ s)) (heap_ s) a.
Proof. intros Hy. unfold value_of, shows. cbn [vars_]. by rewrite lookup_fmap, Hy. Qed.

(** What an operation does: it returns, and every argument shows its value. *)
Definition does (op : aop) (p : prog) : Prop :=
  exists p', exec op p = (Ok tt, p') /\ pinv p' /\ shows p' = spec op (shows p).

Lemma value_kinded a : is_value a -> kinded a.
Proof. unfold is_value, kinded. by destruct (type_ a), (alloc_ a), (val_ a). Qed.
Lemma moved_kinded b : kinded b -> kinded (Arg_move b).2.
Proof. unfold kinded. cbn. by destruct (type_ b), (alloc_ b), (val_ b). Qed.

Lemma does_NewValue v h n x a : pinv (mkProg v (mkStore h n)) -> v !! x = None -> is_value a ->
  does (NewValue x a) (mkProg v (mkStore h n)).
Proof.
  intros Hi Hx Ha. assert (alloc_ a <> AHeap) as Hal by (unfold is_value in Ha; by destruct (type_ a), (alloc_ a)).
  eexists. split; [done|]. eapply (shows_set (mkProg v (mkStore h n)) h n); [done| |apply agree_refl|by apply denote_plain].
  rewrite delete_id by done. apply hinv_plain; [|by split; [split; [by apply value_kinded|intros ?]|]]. unfold target. by rewrite decide_False.
Qed.

Lemma does_NewString v h n x key w : pinv (mkProg v (mkStore h n)) -> v !! x = None ->
  does (NewString x key w) (mkProg v (mkStore h n)).
Proof.
  intros Hi Hx. destruct (Arg_string_spec key w h _ n Hi) as (h' & a & n' & E & Hi' & Hag & Hd). unfold does. cbn [exec].
  rewrite (bind_on_store _ _ _ _ _ _ E). eexists. split; [done|].
  apply (shows_set (mkProg v (mkStore h n)) h' n'); [done| |done|apply Hd]. by rewrite delete_id.
Qed.

Lemma vars_of_spec v s ys : Forall (fun y => is_Some (v !! y)) ys ->
  exists vs, vars_of ys (mkProg v s) = (Ok vs, mkProg v s) /\ (forall a, a ∈ vs -> a ∈ values v) /\
    length vs = length ys /\ denote (S (next_ s)) (heap_ s) <$> vs = value_of (shows (mkProg v s)) <$> ys.
Proof.
  induction 1 as [|y ys [a Hy] _ (vs & E & Hin & Hlen & Hd)]; 
    [exists []; split_and!; try done; by intros ? ?%not_elem_of_nil|].
  exists (a :: vs). cbn [vars_of]. rewrite (bind_var _ _ a) by done. rewrite (M_bind_eq _ _ _ _ _ E). split_and!.
  - done.
  - intros b [->|Hb]%elem_of_cons; [by eapply values_elem|auto].
  - by cbn; rewrite Hlen.
  - rewrite !fmap_cons, Hd. f_equal. symmetry. by apply value_shows.
Qed.

Lemma does_NewArray v h n x key ys : pinv (mkProg v (mkStore h n)) -> v !! x = None ->
  Forall (fun y => is_Some (v !! y)) ys ->
  Z.of_nat (total h (values v)) + Z.of_nat (length ys) + 1 < u64_max ->
  does (NewArray x key ys) (mkProg v (mkStore h n)).
Proof.
  intros Hi Hx Hys Hroom. destruct (vars_of_spec v (mkStore h n) ys Hys) as (vs & Ev & Hin & Hlen & Hd).
  destruct (Arg_array_spec key vs h _ n Hi Hin) as (h' & E & Hi' & Hag & r & Hr & He); [cbn [vars_]; lia|].
  unfold does. cbn [exec]. rewrite (M_bind_eq _ _ _ _ _ Ev), (bind_on_store _ _ _ _ _ _ E). eexists. split; [done|].
  apply (shows_set (mkProg v (mkStore h n)) h' (S n)); [done|by rewrite delete_id|done|].
  cbn [denote type_ alloc_ val_ key_]. rewrite Hr. cbn [from_option]. f_equal. rewrite He, <-Hd. apply list_fmap_ext.
  intros i a Ha%list_elem_of_lookup_2. symmetry. cbn [next_ heap_].
  eapply denote_agree; [exact Hi|exact Hi'|done|by eapply root_points, Hin|eapply root_points; [exact Hi'|right; auto]|].
  intros l Ht. assert (l < n)%nat; [|lia]. eapply root_target; [exact Hi|by apply Hin|done].
Qed.

Lemma does_Copy v h n x y : pinv (mkProg v (mkStore h n)) -> v !! x = None -> is_Some (v !! y) ->
  Z.of_nat (total h (values v)) + 1 < u64_max -> does (Copy x y) (mkProg v (mkStore h n)).
Proof.
  intros Hi Hx [b Hy] Hroom. pose proof (root_points _ _ _ _ Hi (values_elem _ _ _ Hy)) as Hp.
  destruct (acquire_spec h _ n b Hi Hp) as (h' & E & Hi' & Hs); [done|].
  assert (Arg_copy b (mkStore h n) = (Ok b, mkStore h' n)) as Ec by (unfold Arg_copy; by rewrite (M_bind_eq _ _ _ _ _ E)).
  assert (agree h h') as Hag by (eapply agree_shape; [apply agree_refl|done]).
  unfold does. cbn [exec]. rewrite (bind_var _ _ b), (bind_on_store _ _ _ _ _ _ Ec) by done. eexists. split; [done|].
  apply (shows_set (mkProg v (mkStore h n)) h' n); [done|by rewrite delete_id|done|]. rewrite (value_shows _ _ y b) by done.
  symmetry. eapply denote_kept; [exact Hi|exact Hi'|done|done|]. eapply root_points; [exact Hi'|left].
Qed.

(** An element: where it is, and its value *)
Lemma has_elem_spec v h n y i : pinv (mkProg v (mkStore h n)) -> has_elem (mkProg v (mkStore h n)) y i ->
  exists a l r e, v !! y = Some a /\ target a = Some l /\ h !! l = Some r /\ elems r !! i = Some e /\
    elem_of_var y i (mkProg v (mkStore h n)) = (Ok (Elem l i), mkProg v (mkStore h n)) /\ points h e /\
    nth_elem (value_of (shows (mkProg v (mkStore h n))) y) i = denote (S n) h e.
Proof.
  intros Hi (a & l & r & Hy & [Ht Ha]%andb_True & Hv & Hl & [e He]%lookup_lt_is_Some_2).
  apply bool_decide_unpack in Ht, Ha. cbn [vars_ store_ heap_] in *. exists a, l, r, e. destruct (hi_elems _ _ _ Hi l r Hl) as [Hp Hlt].
  pose proof (hi_next _ _ _ Hi l r Hl : (l < n)%nat) as Hn. rewrite Forall_forall in Hp.
  assert (points h e) as Hpe by (by eapply Hp, list_elem_of_lookup_2). split_and!; try done.
  - unfold target. by rewrite decide_True, Ht, Hv.
  - unfold elem_of_var. rewrite (bind_var _ _ a) by done. by rewrite Ht, Hv.
  - rewrite (value_shows _ _ y a) by done. cbn [denote next_ heap_]. rewrite Ht, Ha, Hv, Hl. cbn [from_option nth_elem].
    rewrite list_lookup_fmap, He. cbn [from_option fmap option_fmap option_map default id]. destruct n as [|n']; [lia|].
    eapply denote_agree; [exact Hi|exact Hi|apply agree_refl|done|done|]. intros k Hk.
    assert (k < l)%nat; [|lia]. apply Hlt, list_elem_of_omap. exists e. split; [by eapply list_elem_of_lookup_2|done].
Qed.

Lemma read_elem l i h n r e : h !! l = Some r -> elems r !! i = Some e ->
  read (Elem l i) (mkStore h n) = (Ok e, mkStore h n).
Proof. intros Hl He. cbn [read]. rewrite (bind_ref l r) by done. by rewrite He. Qed.

Lemma does_CopyElem v h n x y i : pinv (mkProg v (mkStore h n)) -> v !! x = None -> has_elem (mkProg v (mkStore h n)) y i ->
  Z.of_nat (total h (values v)) + 1 < u64_max -> does (CopyElem x y i) (mkProg v (mkStore h n)).
Proof.
  intros Hi Hx Hel Hroom. destruct (has_elem_spec v h n y i Hi Hel) as (a & l & r & e & Hy & Ht & Hl & He & Eo & Hp & Hval).
  destruct (acquire_spec h _ n e Hi Hp) as (h' & E & Hi' & Hs); [done|].
  assert (Arg_copy e (mkStore h n) = (Ok e, mkStore h' n)) as Ec by (unfold Arg_copy; by rewrite (M_bind_eq _ _ _ _ _ E)).
  assert (agree h h') as Hag by (eapply agree_shape; [apply agree_refl|done]).
  unfold does. cbn [exec]. rewrite (M_bind_eq _ _ _ _ _ Eo), (bind_on_store _ _ _ _ _ _ (read_elem l i h n r e Hl He)).
  rewrite (bind_on_store _ _ _ _ _ _ Ec). eexists. split; [done|].
  apply (shows_set (mkProg v (mkStore h n)) h' n); [done|by rewrite delete_id|done|]. rewrite Hval.
  symmetry. eapply denote_kept; [exact Hi|exact Hi'|done|done|]. eapply root_points; [exact Hi'|left].
Qed.

Lemma denote_moved f h b : kinded b -> denote (S f) h (Arg_move b).2 = moved (denote (S f) h b).
Proof.
  unfold Arg_move, kinded. cbn [denote snd type_ alloc_ val_ key_].
  destruct (type_ b), (alloc_ b), (val_ b) as [| | | |l|l]; try done; intros _; by destruct (h !! l) as [[[]]|].
Qed.

Lemma does_Move v h n x y : pinv (mkProg v (mkStore h n)) -> v !! x = None -> is_Some (v !! y) ->
  does (Move x y) (mkProg v (mkStore h n)).
Proof.
  intros Hi Hx [b Hy]. assert (x <> y) as Hne by congruence.
  pose proof (root_points _ _ _ _ Hi (values_elem _ _ _ Hy)) as [Hk _].
  unfold does. cbn [exec]. rewrite (bind_var _ _ b) by done. eexists. split; [done|]. cbn [vars_ store_]. split.
  - assert (values (<[y := (Arg_move b).2]> (<[x := b]> v)) ≡ₚ (Arg_move b).2 :: values v) as E.
    { rewrite <-insert_delete_eq, values_insert by apply lookup_delete_eq. rewrite delete_insert_ne by done.
      rewrite values_insert by (by rewrite lookup_delete_ne). by rewrite (values_split v y b Hy). }
    eapply hinv_perm; [symmetry; exact E|]. apply hinv_plain; [done|]. split; [split; [by apply moved_kinded|by intros ?]|exact Hi].
  - cbn [spec]. rewrite !(value_shows _ _ y b) by done. unfold shows. cbn [vars_ store_ heap_ next_].
    by rewrite !fmap_insert, denote_moved by done.
Qed.

Lemma does_Assign v h n x y : pinv (mkProg v (mkStore h n)) -> is_Some (v !! x) -> is_Some (v !! y) ->
  Z.of_nat (total h (values v)) + 1 < u64_max -> does (Assign x y) (mkProg v (mkStore h n)).
Proof.
  intros Hi [a Hx] [b Hy] Hroom. unfold does. cbn [exec spec]. rewrite (value_shows _ _ y b) by done.
  destruct (decide (x = y)) as [->|Hne].
  { eexists. split; [done|]. split; [done|]. symmetry. apply insert_id. unfold shows. cbn [vars_]. by rewrite lookup_fmap, Hy. }
  pose proof (hinv_perm _ _ _ _ (values_split v x a Hx) Hi) as Hi0.
  assert (b ∈ values (delete x v)) as Hb by (apply (values_elem _ y); by rewrite lookup_delete_ne).
  destruct (assign_spec h _ n a (Local b) b Hi0) as (h' & E & Hi' & Hag).
  { unfold total in *. by rewrite <-(values_split v x a Hx). }
  { intros h1 Hi1 _ _. split; [done|]. by eapply root_points. }
  rewrite (bind_var _ _ a), (bind_var _ _ b), (bind_on_store _ _ _ _ _ _ E) by done. eexists. split; [done|].
  apply (shows_set (mkProg v (mkStore h n)) h' n); [done..|].
  symmetry. eapply denote_kept; [exact Hi|exact Hi'|done|by eapply root_points, values_elem|].
  eapply root_points; [exact Hi'|left].
Qed.

(** A release that is not the last one *)
Lemma release_shared h roots n a l r : hinv h (a :: roots) n -> target a = Some l -> h !! l = Some r -> cnt_ r <> 1 ->
  release a (mkStore h n) = (Ok tt, mkStore (<[l := set_cnt (cnt_ r - 1) r]> h) n).
Proof.
  intros Hi Ht Hl Hc. destruct (hi_cnt _ _ _ Hi l r Hl) as [_ Hr]. unfold release. rewrite bind_get. cbn [refRelease next_].
  pose proof (hi_roots _ _ _ Hi) as [Hp _]%Forall_cons.
  destruct (points_target h a Hp) as [?|(l' & r' & Ht' & Hl' & Ha & Hor)]; [congruence|].
  assert (l' = l) as -> by congruence. rewrite decide_True by done. assert ((cnt_ r - 1 =? 0) = false) as Hz by lia.
  destruct Hor as [(-> & -> & _)|(-> & -> & _)]; rewrite (bind_ref l r) by done; rewrite wrap_cnt by lia;
    unfold put_ref; rewrite bind_modify; by rewrite Hz.
Qed.

(** Reading an element after the release of the argument that is assigned *)
Lemma read_after v h n x y i a b l r e h' : pinv (mkProg v (mkStore h n)) -> v !! x = Some a -> v !! y = Some b ->
  target b = Some l -> h !! l = Some r -> elems r !! i = Some e ->
  (x = y -> shared (mkProg v (mkStore h n)) x) -> val_ b = arr_ l ->
  hinv h (a :: values (delete x v)) n -> hinv h' (values (delete x v)) n ->
  shrinks h (a :: values (delete x v)) h' (values (delete x v)) -> release a (mkStore h n) = (Ok tt, mkStore h' n) ->
  read (Elem l i) (mkStore h' n) = (Ok e, mkStore h' n) /\ points h' e.
Proof.
  intros Hi Hx Hy Ht Hl He Hsh Hv Hi0 Hi1 Hs Er.
  assert (exists r', h' !! l = Some r') as [r' Hl'].
  { destruct (decide (x = y)) as [->|Hne].
    - assert (a = b) as -> by congruence. specialize (Hsh eq_refl b l r Hy Hv Hl). rewrite (release_shared h _ n b l r) in Er by done.
      injection Er as <-. rewrite lookup_insert_eq. eauto.
    - assert (points h' b) as Hp by (eapply root_points; [exact Hi1|]; apply (values_elem _ y); by rewrite lookup_delete_ne).
      destruct (points_target h' b Hp) as [?|(l' & r' & ? & ? & _)]; [congruence|]. simplify_eq. eauto. }
  destruct (shrinks_agree _ _ _ _ Hs l r r' Hl Hl') as [_ He']. rewrite <-He' in He.
  split; [by eapply read_elem|]. destruct (hi_elems _ _ _ Hi1 l r' Hl') as [Hp _]. rewrite Forall_forall in Hp.
  by eapply Hp, list_elem_of_lookup_2.
Qed.

Lemma does_AssignElem v h n x y i : pinv (mkProg v (mkStore h n)) -> is_Some (v !! x) ->
  has_elem (mkProg v (mkStore h n)) y i -> (x = y -> shared (mkProg v (mkStore h n)) x) ->
  Z.of_nat (total h (values v)) + 1 < u64_max -> does (AssignElem x y i) (mkProg v (mkStore h n)).
Proof.
  intros Hi [a Hx] Hel Hsh Hroom. destruct (has_elem_spec v h n y i Hi Hel) as (b & l & r & e & Hy & Ht & Hl & He & Eo & Hp & Hval).
  assert (val_ b = arr_ l) as Hv.
  { destruct Hel as (b' & l' & r' & ? & [Hty Hal]%andb_True & Hv' & _). cbn in *. simplify_eq.
    apply bool_decide_unpack in Hty, Hal. unfold target in Ht. rewrite decide_True, Hty, Hv' in Ht by done. by simplify_eq. }
  pose proof (hinv_perm _ _ _ _ (values_split v x a Hx) Hi) as Hi0.
  destruct (assign_spec h _ n a (Elem l i) e Hi0) as (h' & E & Hi' & Hag).
  { unfold total in *. by rewrite <-(values_split v x a Hx). }
  { intros h1 Hi1 Hs1 Er. exact (read_after v h n x y i a b l r e h1 Hi Hx Hy Ht Hl He Hsh Hv Hi0 Hi1 Hs1 Er). }
  unfold does. cbn [exec spec]. rewrite Hval, (bind_var _ _ a), (M_bind_eq _ _ _ _ _ Eo), (bind_on_store _ _ _ _ _ _ E) by done.
  eexists. split; [done|]. apply (shows_set (mkProg v (mkStore h n)) h' n); [done..|].
  symmetry. eapply denote_kept; [exact Hi|exact Hi'|done|done|]. eapply root_points; [exact Hi'|left].
Qed.

Lemma does_Destroy v h n x : pinv (mkProg v (mkStore h n)) -> is_Some (v !! x) -> does (Destroy x) (mkProg v (mkStore h n)).
Proof.
  intros Hi [a Hx]. pose proof (hinv_perm _ _ _ _ (values_split v x a Hx) Hi) as Hi0.
  destruct (release_spec h _ n a Hi0) as (h' & E & Hi' & Hs). unfold does. cbn [exec spec].
  rewrite (bind_var _ _ a), (bind_on_store _ _ _ _ _ _ E) by done. eexists. split; [done|]. split; [done|].
  unfold shows. cbn [vars_ store_ heap_ next_]. rewrite <-fmap_delete. apply map_fmap_ext. intros y b Hb. symmetry.
  eapply denote_kept; [exact Hi|exact Hi'|by eapply shrinks_agree| |by eapply root_points, values_elem].
  apply lookup_delete_Some in Hb as [_ Hb]. by eapply root_points, values_elem.
Qed.

Lemma step_does p op : pinv p -> aop_ok p op -> does op p.
Proof.
  destruct p as [v [h n]]. intros Hi [Hroom Hop]. cbn [vars_ store_ heap_] in *.
  destruct op; try (replace (_ + 0 + 1) with (Z.of_nat (total h (values v)) + 1) in Hroom by lia);
    [destruct Hop; by apply does_NewValue|by apply does_NewString|destruct Hop; by apply does_NewArray|
     destruct Hop; by apply does_Copy|destruct Hop; by apply does_CopyElem|destruct Hop; by apply does_Move|
     destruct Hop; by apply does_Assign|destruct Hop as (? & ? & ?); by apply does_AssignElem|by apply does_Destroy].
Qed.

Lemma refCount_spec a l r s : target a = Some l -> heap_ s !! l = Some r -> refCount a s = (Ok (cnt_ r), s).
Proof.
  unfold target, refCount. case_decide as Ha; [|done]. intros Ht Hl.
  destruct (type_ a), (val_ a); try done; injection Ht as ->; [rewrite decide_False by (by intros [])|];
    by rewrite (bind_ref l r).
Qed.

(** The newest storage is held by the program. *)
Lemma no_roots_empty h n : hinv h [] n -> h = ∅.
Proof.
  intros Hi. apply map_eq. intros l. rewrite lookup_empty.
  assert (forall d l, (n - l <= d)%nat -> h !! l = None) as Hall; [|by apply (Hall (n - l)%nat)].
  clear l. induction d as [|d IH]; intros l Hd; apply eq_None_not_Some; intros [r Hl];
    pose proof (hi_next _ _ _ Hi l r Hl); [lia|].
  destruct (hi_cnt _ _ _ Hi l r Hl) as [Hc Hpos]. rewrite app_nil_r in Hc.
  assert (l ∈ heap_refs h) as Hin by (apply dec_stable; intros Hn%occ_0; lia).
  apply list_elem_of_bind in Hin as (r' & Hin & ([k r0] & -> & Hk)%list_elem_of_fmap).
  apply elem_of_map_to_list in Hk. cbn in Hin. pose proof (hi_elems _ _ _ Hi k r0 Hk) as [_ Hlt].
  specialize (Hlt l Hin). pose proof (hi_next _ _ _ Hi k r0 Hk). rewrite IH in Hk by lia. done.
Qed.

(** What the readers show of a value *)
Definition v_int (t : tree) : Z := match t with VInt _ z | VErrno _ z => z | _ => 0 end.
Definition v_double (t : tree) : Z := match t with VDouble _ z => z | _ => 0 end.
Definition v_text (zmq_strerror : Z -> bytes) (t : tree) : bytes :=
  match t with VView _ v | VString _ v => v | VErrno _ z => zmq_strerror z | _ => [] end.
Definition v_count (t : tree) : Z :=
  match t with VNothing | VInvalid _ => 0 | VArray _ l => Z.of_nat (length l) | _ => 1 end.
Definition v_array (t : tree) : option (list tree) := match t with VArray _ l => Some l | _ => None end.

Lemma reads_spec zmq_strerror a f s t : points (heap_ s) a -> denote (S f) (heap_ s) a = t -> t <> VNothing ->
  toInt a = Ok (v_int t) /\ toDouble a = Ok (v_double t) /\ toString zmq_strerror a s = (Ok (v_text zmq_strerror t), s) /\
  count a s = (Ok (v_count t), s) /\
  exists es, toArray a s = (Ok es, s) /\ option_map (map (denote f (heap_ s))) es = v_array t.
Proof.
  intros [Hk Hp] Ht Hn. subst t. unfold toInt, toDouble, toString, count, toArray. cbn [denote] in *.
  unfold kinded in Hk. destruct (type_ a) eqn:Ety, (alloc_ a) eqn:Eal, (val_ a) as [| | | |l|l] eqn:Ev; try done;
    try (by split_and!; [..|by eexists]).
  - destruct (Hp eq_refl) as (l' & r & Hl & [(_ & [= <-] & Hc)|(? & _)]); [|done]. rewrite (bind_ref l r) by done.
    rewrite Hl. cbn. destruct (chars r) as [v|]; [|done]. split_and!; try done. by eexists.
  - destruct (Hp eq_refl) as (l' & r & Hl & [(? & _)|(_ & [= <-] & Hc)]); [done|]. rewrite !(bind_ref l r) by done.
    rewrite Hl. cbn. rewrite length_fmap. split_and!; try done. by eexists.
Qed.

Lemma last_freed h roots n a l r h' : hinv h (a :: roots) n -> target a = Some l -> h !! l = Some r -> cnt_ r = 1 ->
  hinv h' roots n -> shrinks h (a :: roots) h' roots -> h' !! l = None.
Proof.
  intros Hi Ht Hl Hone Hi' [Hs _]. apply eq_None_not_Some. intros [r' Hl'].
  destruct (hi_cnt _ _ _ Hi l r Hl) as [Hc _]. destruct (hi_cnt _ _ _ Hi' l r' Hl') as [Hc' Hpos].
  rewrite Hone, occ_app, targets_cons, Ht in Hc. cbn [app] in Hc. rewrite occ_cons, decide_True in Hc by done.
  assert (l ∉ heap_refs h) as Hno by (apply occ_0; lia). rewrite occ_app in Hc'.
  assert (l ∉ heap_refs h') as Hno'; [|apply occ_0 in Hno'; lia].
  intros (rk & Hin & ([k r0] & -> & Hk)%list_elem_of_fmap)%list_elem_of_bind. apply elem_of_map_to_list in Hk. cbn in Hin.
  destruct (Hs k r0 Hk) as (rk & Hkh & _ & He). apply Hno. rewrite (heap_refs_split h k rk Hkh), <-He.
  apply elem_of_app. by left.
Qed.

(** ** Theorems *)

Lemma init_pinv : pinv init.
Proof. by split. Qed.

Lemma reachable_pinv p : reachable p -> pinv p.
Proof.
  induction 1 as [|p op p' _ IH Hok E]; [apply init_pinv|].
  destruct (step_does p op IH Hok) as (p'' & E' & Hi & _). congruence.
Qed.

(** Assigning an element of an array to the only argument that holds the array reads freed
    storage: [operator=] releases the array before it reads its source. *)
Lemma assign_own_element_dangles p x i a l r : reachable p -> has_elem p x i ->
  vars_ p !! x = Some a -> val_ a = arr_ l -> heap_ (store_ p) !! l = Some r -> cnt_ r = 1 ->
  (exec (AssignElem x x i) p).1 = Undef.
Proof.
  destruct p as [v [h n]]. intros Hi%reachable_pinv Hel Hx Hv Hl Hone. cbn [vars_ store_ heap_] in *.
  destruct (has_elem_spec v h n x i Hi Hel) as (b & l' & r' & e & Hy & Ht & Hl' & He & Eo & Hp & _).
  assert (b = a) as -> by congruence.
  pose proof (hinv_perm _ _ _ _ (values_split v x a Hx) Hi) as Hi0.
  destruct (release_spec h _ n a Hi0) as (h' & E & Hi' & Hs).
  assert (l' = l) as ->.
  { unfold target in Ht. case_decide; [|done]. rewrite Hv in Ht. destruct (type_ a); congruence. }
  assert (h' !! l = None) as Hnone by exact (last_freed h _ n a l r h' Hi0 Ht Hl Hone Hi' Hs).
  cbn [exec]. rewrite (bind_var _ _ a), (M_bind_eq _ _ _ _ _ Eo) by done.
  assert (assign a (Elem l i) (mkStore h n) = (Undef, mkStore h' n)) as Ea.
  { unfold assign. rewrite (M_bind_eq _ _ _ _ _ E). cbn [read]. unfold ref_at, mbind, M_bind, get. cbn [heap_].
    by rewrite Hnone. }
  unfold on_store, zoom, mbind, M_bind. cbn [store_]. by rewrite Ea.
Qed.

Lemma own_element_dangles p op : reachable p -> lang_ok p op -> own_element p op = true -> (exec op p).1 = Undef.
Proof.
  intros Hr [_ Hok] Ho. destruct op as [| | | | | | |x y i|]; try done. cbn [own_element] in Ho. cbn in Hok.
  apply andb_true_iff in Ho as [<-%bool_decide_eq_true Ho]. destruct (vars_ p !! x) as [a|] eqn:Hx; [|done].
  destruct (val_ a) as [| | | | |l] eqn:Hv; try done. destruct (heap_ (store_ p) !! l) as [r|] eqn:Hl; [|done].
  apply Z.eqb_eq in Ho. by eapply assign_own_element_dangles; [|apply Hok|..].
Qed.

Lemma lang_aop p op : lang_ok p op -> own_element p op = false -> aop_ok p op.
Proof.
  intros [Hroom Hok] Ho. split; [done|]. destruct op as [| | | | | | |x y i|]; try done. destruct Hok as [H1 H2].
  split_and!; [done|done|]. intros <- a l r Hx Hv Hl. cbn [own_element] in Ho.
  rewrite bool_decide_eq_true_2, Hx, Hv, Hl in Ho by done. cbn [andb] in Ho. by apply Z.eqb_neq.
Qed.

(** C11: Arguments behave as values, although long strings and arrays are shared: from any state
    a program of constructions, copies, moves, assignments and destructions can reach, every
    operation the language allows but one returns, never touching storage that was freed, and
    leaves every argument with the value it has when each argument owns its own copy; in
    particular no operation on one argument changes what another one shows.  The one exception is
    the assignment of an element of an array to the only argument that holds the array
    ([x = x.toArray()[i]]), which reads storage it has just freed.  The counts are assumed to have
    room for the references of one more operation. *)
Theorem arg_values p op : reachable p -> lang_ok p op ->
  if own_element p op then (exec op p).1 = Undef
  else exists p', exec op p = (Ok tt, p') /\ reachable p' /\ shows p' = spec op (shows p).
Proof.
  intros Hr Hok. destruct (own_element p op) eqn:Ho; [by apply own_element_dangles|].
  pose proof (lang_aop p op Hok Ho) as Ha. destruct (step_does p op (reachable_pinv p Hr) Ha) as (p' & E & _ & Hs).
  exists p'. split_and!; [done|by eapply reach_step|done].
Qed.

(** C12: The reference counts are exact and nothing leaks: in every reachable state the count
    of a piece of storage is the number of arguments, of the program and in arrays, that hold
    it, it is positive, and [refCount] reports it; when no argument is left, all the storage
    has been freed. *)
Theorem arg_counts p : reachable p ->
  (forall l r, heap_ (store_ p) !! l = Some r ->
     cnt_ r = Z.of_nat (occ l (heap_refs (heap_ (store_ p)) ++ targets (values (vars_ p)))) /\ 0 < cnt_ r) /\
  (forall x a l r, vars_ p !! x = Some a -> target a = Some l -> heap_ (store_ p) !! l = Some r ->
     refCount a (store_ p) = (Ok (cnt_ r), store_ p)) /\
  (vars_ p = ∅ -> heap_ (store_ p) = ∅).
Proof.
  intros Hi%reachable_pinv. split_and!.
  - intros l r Hl. destruct (hi_cnt _ _ _ Hi l r Hl) as [? []]. done.
  - intros x a l r _ Ht Hl. by eapply refCount_spec.
  - intros Hv. unfold pinv in Hi. rewrite Hv in Hi. by eapply no_roots_empty.
Qed.

(** The readers return the value of an argument: in every reachable state, an argument that
    shows a value is read without touching freed storage, and [toInt], [toDouble],
    [toString], [count] and [toArray] return what the value has, or their defaults on the
    wrong type. *)
Theorem arg_reads p zmq_strerror x a : reachable p -> vars_ p !! x = Some a -> value_of (shows p) x <> VNothing ->
  let t := value_of (shows p) x in
  toInt a = Ok (v_int t) /\ toDouble a = Ok (v_double t) /\
  toString zmq_strerror a (store_ p) = (Ok (v_text zmq_strerror t), store_ p) /\
  count a (store_ p) = (Ok (v_count t), store_ p) /\
  exists es, toArray a (store_ p) = (Ok es, store_ p) /\
    option_map (map (denote (next_ (store_ p)) (heap_ (store_ p)))) es = v_array t.
Proof.
  intros Hi%reachable_pinv Hx Hn t. apply reads_spec; [by eapply root_points, values_elem| |done].
  unfold t, value_of, shows. by rewrite lookup_fmap, Hx.
Qed.

(** ** A program *)

Definition long_text : bytes := replicate 16 Byte.x61.
Definition sample_ops : list aop :=
  [NewString 0 [Byte.x01] long_text; NewValue 1 (Arg_int [Byte.x02] 7); NewArray 2 [Byte.x03] [0; 1]%nat; Copy 3 2; CopyElem 4 3 0].
Definition run_ops (ops : list aop) : prog := foldl (fun p op => (exec op p).2) init ops.

Lemma sample_ops_reachable : reachable (run_ops sample_ops).
Proof.
  unfold run_ops, sample_ops. cbn [foldl].
  repeat (eapply reach_step; [| |apply step_Ok; vm_compute; reflexivity]); [apply reach_init|..];
    (split; [vm_compute; reflexivity|]); cbn [aop_ok].
  all: try (split; [reflexivity|]).
  - reflexivity.
  - reflexivity.
  - repeat constructor; eexists; reflexivity.
  - eexists; reflexivity.
  - do 3 eexists. split_and!; [reflexivity|reflexivity|reflexivity|vm_compute; reflexivity|cbn; lia].
Qed.

Lemma sample_elem : has_elem (run_ops sample_ops) 3 0.
Proof. do 3 eexists. split_and!; [reflexivity|reflexivity|reflexivity|vm_compute; reflexivity|cbn; lia]. Qed.

Lemma arg_counts_witness : refCount (mkArg Array AHeap [Byte.x03] (arr_ 1)) (store_ (run_ops sample_ops)) =
  (Ok 2, store_ (run_ops sample_ops)).
Proof.
  destruct (arg_counts (run_ops sample_ops) sample_ops_reachable) as (_ & Hc & _).
  refine (eq_trans (Hc 3%nat _ 1%nat _ _ _ _) _); [vm_compute; reflexivity|vm_compute; reflexivity|vm_compute; reflexivity|reflexivity].
Defined.

Lemma arg_reads_witness : toString (fun _ => []) (mkArg String AHeap [Byte.x01] (str_ 0)) (store_ (run_ops sample_ops)) =
  (Ok long_text, store_ (run_ops sample_ops)).
Proof.
  destruct (arg_reads (run_ops sample_ops) (fun _ => []) 4 (mkArg String AHeap [Byte.x01] (str_ 0)) sample_ops_reachable)
    as (_ & _ & H & _); [vm_compute; reflexivity|vm_compute; discriminate|]. rewrite H. vm_compute. reflexivity.
Defined.

(** [Arg x{Arg{7}}; x = x.toArray()[0];] *)
Definition own_ops : list aop := [NewValue 1 (Arg_int [] 7); NewArray 2 [] [1]%nat].
Lemma own_reachable : reachable (run_ops own_ops).
Proof.
  unfold run_ops, own_ops. cbn [foldl].
  repeat (eapply reach_step; [| |apply step_Ok; vm_compute; reflexivity]); [apply reach_init|..];
    (split; [vm_compute; reflexivity|]); cbn [aop_ok]; (split; [reflexivity|]); [reflexivity|].
  repeat constructor; eexists; reflexivity.
Qed.

(** An element of a shared array is assigned to one of the arguments that hold it, and one of an
    array to the only argument that holds it. *)
Lemma arg_values_witness :
  (exists p', exec (AssignElem 3 3 0) (run_ops sample_ops) = (Ok tt, p') /\ reachable p' /\
    shows p' !! 3%nat = Some (VString [Byte.x01] long_text) /\ shows p' !! 2%nat = shows (run_ops sample_ops) !! 2%nat) /\
  (exec (AssignElem 2 2 0) (run_ops own_ops)).1 = Undef.
Proof.
  split.
  - pose proof (arg_values (run_ops sample_ops) (AssignElem 3 3 0) sample_ops_reachable) as H.
    change (own_element (run_ops sample_ops) (AssignElem 3 3 0)) with false in H.
    destruct H as (p' & E & Hr & Hs).
    + split; [vm_compute; reflexivity|]. split; [vm_compute; eexists; reflexivity|exact sample_elem].
    + exists p'. rewrite Hs. split_and!; [exact E|exact Hr|vm_compute; reflexivity|vm_compute; reflexivity].
  - pose proof (arg_values (run_ops own_ops) (AssignElem 2 2 0) own_reachable) as H.
    change (own_element (run_ops own_ops) (AssignElem 2 2 0)) with true in H. apply H.
    split; [vm_compute; reflexivity|]. split; [vm_compute; eexists; reflexivity|].
    do 3 eexists. split_and!; [reflexivity|reflexivity|reflexivity|vm_compute; reflexivity|cbn; lia].
Defined.

End Arg.
