(* ===== verification/Log.v ===== *)
(** * Logging (src/logger.cpp, src/failure.cpp, operator<< of zmq::Part and log::Arg)

    The text of parts and of log arguments, the lines that several threads write under one
    mutex, and the logger with its handlers: what a failed assertion and a call of the logger
    do when the handler returns, stops the process or throws.  The texts of doubles and of
    error numbers come from the C++ and ZMQ libraries and are parameters. *)

From S2P Require Import Prelude Part Arg.
From stdpp Require Import pretty.

Local Open Scope Z_scope.

Module Log.

(** ** Streams *)

(** What a stream remembers: the text, and the flags and settings that number output uses *)
Record ostream := mkOs { text_ : bytes; hex_ : bool; upper_ : bool; fill_ : byte; width_ : nat }.

Definition with_text (t : bytes) (os : ostream) : ostream := mkOs t (hex_ os) (upper_ os) (fill_ os) (width_ os).
Definition with_flags (h u : bool) (os : ostream) : ostream := mkOs (text_ os) h u (fill_ os) (width_ os).
Definition setfill (c : byte) (os : ostream) : ostream := mkOs (text_ os) (hex_ os) (upper_ os) c (width_ os).
Definition setw (n : nat) (os : ostream) : ostream := mkOs (text_ os) (hex_ os) (upper_ os) (fill_ os) n.
Definition std_stream (t : bytes) : ostream := mkOs t false false Byte.x20 0.

(** Output pads to the width, which it resets. *)
Definition put (s : bytes) (os : ostream) : ostream :=
  setw 0 (with_text (text_ os ++ replicate (width_ os - length s) (fill_ os) ++ s) os).

Definition hex_digit (upper : bool) (n : Z) : byte :=
  default Byte.x00 (str (if upper then "0123456789ABCDEF" else "0123456789abcdef") !! Z.to_nat n).
(** The digits of a 32-bit number, the most significant first, without leading zeros *)
Fixpoint nibbles (n : nat) (z : Z) : list Z :=
  match n with O => [] | S n => (z / 16 ^ Z.of_nat n) mod 16 :: nibbles n z end.
Fixpoint significant (l : list Z) : list Z :=
  match l with x :: ((_ :: _) as t) => if x =? 0 then significant t else l | _ => l end.
Definition hex_text (upper : bool) (z : Z) : bytes := hex_digit upper <$> significant (nibbles 8 (wrap32 z)).
Definition dec_text (z : Z) : bytes := str (pretty z).

(** [operator<<(int)] *)
Definition put_int (z : Z) (os : ostream) : ostream :=
  put (if hex_ os then hex_text (upper_ os) z else dec_text z) os.

(** ** Parts *)

Section Parts.
Context {P : Platform}.

(** [operator<<(std::ostream&, const Part&)]: the settings of the stream are changed for every byte,
    and the flags are put back at the end. *)
Definition print_byte (os : ostream) (b : byte) : ostream :=
  put_int (Part.char_value b) (setw 2 (setfill Byte.x30 (with_flags true true os))).
Definition Part_print (msg : Part.part) (os : ostream) : ostream :=
  with_flags (hex_ os) (upper_ os) (foldl print_byte os (Part.p_data msg)).

Definition hex2 (b : byte) : bytes := [hex_digit true (byte_Z b / 16); hex_digit true (byte_Z b mod 16)].
(** What is printed of a byte *)
Definition shown_byte (b : byte) : bytes :=
  (if (char_signed && (128 <=? byte_Z b))%bool then str "FFFFFF" else []) ++ hex2 b.

Lemma print_byte_text b os : print_byte os b = setw 0 (setfill Byte.x30 (with_flags true true (with_text (text_ os ++ shown_byte b) os))).
Proof.
  assert (replicate (2 - length (hex_text true (Part.char_value b))) Byte.x30 ++ hex_text true (Part.char_value b) = shown_byte b) as E.
  { unfold Part.char_value, shown_byte. destruct char_signed; by destruct b. }
  unfold print_byte, put_int, put. cbn [hex_ upper_ setw setfill with_flags with_text text_ width_ fill_]. by rewrite E.
Qed.

Lemma print_bytes l : forall os, l <> [] -> foldl print_byte os l =
  setw 0 (setfill Byte.x30 (with_flags true true (with_text (text_ os ++ (l ≫= shown_byte)) os))).
Proof.
  induction l as [|b l IH]; [done|]. intros os _. cbn [foldl]. rewrite bind_cons, print_byte_text.
  destruct l as [|c l]; [cbn; by rewrite app_nil_r|]. rewrite IH by done.
  unfold setw, setfill, with_flags, with_text. cbn [text_ hex_ upper_ fill_ width_]. by rewrite <-app_assoc.
Qed.

Lemma length_shown b : length (shown_byte b) = if (char_signed && (128 <=? byte_Z b))%bool then 8%nat else 2%nat.
Proof. unfold shown_byte. by destruct (char_signed && _)%bool. Qed.

Lemma shown_plain b : char_signed = false \/ byte_Z b < 128 -> shown_byte b = hex2 b.
Proof.
  unfold shown_byte. intros [-> | Hb]; [done|]. by rewrite (proj2 (Z.leb_gt 128 (byte_Z b))), andb_false_r.
Qed.

Lemma plain_bytes l : (l ≫= shown_byte) = (l ≫= hex2) <-> char_signed = false \/ Forall (fun b => byte_Z b < 128) l.
Proof.
  split.
  - intros E. destruct char_signed eqn:Ec; [right|by left]. revert E.
    assert (forall l, length (l ≫= hex2) <= length (l ≫= shown_byte))%nat as Hle.
    { clear. intros l. induction l as [|b l IH]; [done|]. rewrite !bind_cons, !length_app, length_shown.
      case_goal; cbn [length hex2]; lia. }
    induction l as [|b l IH]; [constructor|]. rewrite !bind_cons. intros E.
    pose proof (f_equal length E) as El. rewrite !length_app, length_shown, Ec in El. specialize (Hle l).
    cbn [length hex2 andb] in El. destruct (Z.leb_spec 128 (byte_Z b)); [lia|]. constructor; [done|]. apply IH.
    rewrite shown_plain in E by auto. by apply app_inv_head in E.
  - intros H. induction l as [|b l IH]; [done|]. rewrite !bind_cons, IH.
    + f_equal. apply shown_plain. destruct H as [?|[? _]%Forall_cons]; auto.
    + destruct H as [?|[_ ?]%Forall_cons]; auto.
Qed.

End Parts.

(** Reading back what is printed *)
Definition hex_value (b : byte) : option Z :=
  let z := byte_Z b in
  if (48 <=? z) && (z <=? 57) then Some (z - 48) else if (65 <=? z) && (z <=? 70) then Some (z - 55) else None.
Fixpoint unhex (l : bytes) : option bytes :=
  match l with
  | [] => Some []
  | a :: b :: l => x ← hex_value a; y ← hex_value b; r ← unhex l; Some (Z_byte (16 * x + y) :: r)
  | _ => None
  end.
Lemma unhex_hex2 l : unhex (l ≫= hex2) = Some l.
Proof.
  induction l as [|b l IH]; [done|]. rewrite bind_cons. cbn [hex2 app unhex].
  assert (hex_value (hex_digit true (byte_Z b / 16)) = Some (byte_Z b / 16) /\
          hex_value (hex_digit true (byte_Z b mod 16)) = Some (byte_Z b mod 16)) as [-> ->] by (by destruct b).
  cbn [mbind option_bind]. rewrite IH. cbn [option_bind]. by rewrite <-Z.div_mod, Z_byte_Z.
Qed.

(** ** Arguments *)

Section Args.
Context (double_text : Z -> bytes) (zmq_strerror : Z -> bytes).

(** [printkey], [printarg] *)
Definition printkey (key : bytes) : bytes := if decide (key = []) then [] else key ++ str ": ".
Definition printarg (key val : bytes) : bytes := printkey key ++ val.

(** [printargs]: the texts with the separator in front of all but the first *)
Definition sep : bytes := str ", ".
Fixpoint join (l : list bytes) : bytes :=
  match l with [] => [] | s :: l => s ++ (l ≫= (fun s => sep ++ s)) end.

Fixpoint collect {S A B} (f : A -> M S B) (l : list A) : M S (list B) :=
  match l with [] => mret [] | a :: l => b ← f a; bs ← collect f l; mret (b :: bs) end.

(** [operator<<(std::ostream&, const Arg&)]: the recursion into arrays has fuel. *)
Fixpoint print_arg (fuel : nat) (a : Arg.arg) : M Arg.store bytes :=
  match fuel with
  | O => lift Undef
  | S fuel =>
    match Arg.type_ a with
    | Arg.Invalid => mret (str "<>")
    | Arg.Int => v ← lift (Arg.toInt a); mret (printarg (Arg.key_ a) (dec_text v))
    | Arg.Double => v ← lift (Arg.toDouble a); mret (printarg (Arg.key_ a) (double_text v))
    | Arg.Errno | Arg.String => v ← Arg.toString zmq_strerror a; mret (printarg (Arg.key_ a) v)
    | Arg.Array =>
      es ← Arg.toArray a;
      n ← Arg.count a;
      ts ← collect (print_arg fuel) (take (Z.to_nat n) (default [] es));
      mret (printkey (Arg.key_ a) ++ join ts)
    end
  end.

(** The text of a value *)
Fixpoint print_tree (t : Arg.tree) : bytes :=
  match t with
  | Arg.VNothing => []
  | Arg.VInvalid _ => str "<>"
  | Arg.VInt k v => printarg k (dec_text v)
  | Arg.VErrno k v => printarg k (zmq_strerror v)
  | Arg.VDouble k v => printarg k (double_text v)
  | Arg.VView k v | Arg.VString k v => printarg k v
  | Arg.VArray k l => printkey k ++ join (print_tree <$> l)
  end.

(** Nothing in the value was moved from. *)
Fixpoint whole (t : Arg.tree) : bool :=
  match t with Arg.VNothing => false | Arg.VArray _ l => forallb whole l | _ => true end.

Lemma collect_all {S A B} (f : A -> M S B) (g : A -> B) l s : Forall (fun a => f a s = (Ok (g a), s)) l ->
  collect f l s = (Ok (g <$> l), s).
Proof.
  induction 1 as [|a l Ha _ IH]; [done|]. cbn [collect]. by rewrite (M_bind_eq _ _ _ _ _ Ha), (M_bind_eq _ _ _ _ _ IH).
Qed.

Lemma elems_point h roots n a l : Arg.hinv h roots n -> Arg.points h a -> Arg.type_ a = Arg.Array -> Arg.val_ a = Arg.arr_ l ->
  Arg.alloc_ a = Arg.AHeap -> exists r, h !! l = Some r /\ Forall (Arg.points h) (Arg.elems r).
Proof.
  intros Hi [_ Hp] Ht Hv Ha. destruct (Hp Ha) as (l' & r & Hl & [(E & _)|(_ & E & _)]); [congruence|].
  assert (l' = l) as -> by congruence. exists r. split; [done|]. by apply (Arg.hi_elems _ _ _ Hi l r Hl).
Qed.

Lemma print_denote h n roots : Arg.hinv h roots n -> forall f a, Arg.points h a -> whole (Arg.denote f h a) ->
  print_arg f a (Arg.mkStore h n) = (Ok (print_tree (Arg.denote f h a)), Arg.mkStore h n).
Proof.
  intros Hi f. induction f as [|f IH]; intros a Hp Hw; [done|].
  destruct (Arg.reads_spec zmq_strerror a f (Arg.mkStore h n) (Arg.denote (S f) h a) Hp eq_refl) as (H1 & H2 & H3 & _);
    [intros E; by rewrite E in Hw|]. cbn [print_arg].
  destruct (Arg.type_ a) eqn:Et; cbn [Arg.denote] in *; rewrite Et in *.
  - done.
  - rewrite H1, bind_lift. by destruct (Arg.alloc_ a), (Arg.val_ a).
  - rewrite (M_bind_eq _ _ _ _ _ H3). by destruct (Arg.alloc_ a), (Arg.val_ a).
  - rewrite H2, bind_lift. by destruct (Arg.alloc_ a), (Arg.val_ a).
  - rewrite (M_bind_eq _ _ _ _ _ H3). destruct (Arg.alloc_ a), (Arg.val_ a); try done. by destruct (h !! l ≫= Arg.chars).
  - destruct (Arg.alloc_ a) eqn:Ea; try done. destruct (Arg.val_ a) as [| | | | |l] eqn:Ev; try done.
    destruct (elems_point h roots n a l) as (r & Hl & Hpe); [done..|]. rewrite Hl in *. cbn [from_option print_tree whole] in *.
    unfold Arg.toArray, Arg.count. rewrite Et, Ev.
    rewrite (M_bind_eq _ _ _ (Some (Arg.elems r)) (Arg.mkStore h n)) by (by rewrite (Arg.bind_ref l r)).
    rewrite (M_bind_eq _ _ _ (Z.of_nat (length (Arg.elems r))) (Arg.mkStore h n)) by (by rewrite (Arg.bind_ref l r)).
    cbn [default]. rewrite Nat2Z.id, firstn_all.
    rewrite (M_bind_eq _ _ _ (print_tree <$> (Arg.denote f h <$> Arg.elems r)) (Arg.mkStore h n)); [done|].
    rewrite <-list_fmap_compose. apply collect_all. rewrite Forall_forall in Hpe |- *. intros e He. apply IH; [auto|].
    apply Is_true_true, (proj1 (forallb_forall _ _) (Is_true_true_1 _ Hw)). apply list_elem_of_In, list_elem_of_fmap. eauto.
Qed.

End Args.

(** ** Lines of several threads *)

Inductive sink := Cout | Cerr.

(** What was written, the thread that holds [print_mutex] and what it still has to write; [begun] are
    the lines whose printing was begun, in their order. *)
Record printing := mkPrinting {
  written : list (sink * bytes);
  holder : option nat;
  todo : list (sink * bytes);
  begun : list (list (sink * bytes));
}.

(** [println] in thread [t]: it takes the mutex, writes the parts of its line and lets it go. *)
Inductive plabel := PLock (t : nat) (line : list (sink * bytes)) | PWrite (t : nat) | PUnlock (t : nat).
Definition pexec (l : plabel) (p : printing) : option printing :=
  match l with
  | PLock t line => match holder p with None => Some (mkPrinting (written p) (Some t) line (begun p ++ [line])) | Some _ => None end
  | PWrite t =>
    if decide (holder p = Some t) then
      match todo p with [] => None | c :: q => Some (mkPrinting (written p ++ [c]) (holder p) q (begun p)) end
    else None
  | PUnlock t =>
    if decide (holder p = Some t /\ todo p = []) then Some (mkPrinting (written p) None [] (begun p)) else None
  end.
Inductive preachable : printing -> Prop :=
  | preach_init : preachable (mkPrinting [] None [] [])
  | preach_step l p p' : preachable p -> pexec l p = Some p' -> preachable p'.

(** Lines do not mix: what is written is the lines in the order they were begun, the last one up
    to what its thread has yet to write. *)
Lemma lines_whole p : preachable p -> written p ++ todo p = mjoin (begun p) /\ (holder p = None -> todo p = []).
Proof.
  induction 1 as [|l p p' _ [IH1 IH2] E]; [done|]. destruct l as [t line|t|t]; cbn in E.
  - destruct (holder p) eqn:Eh; [done|]. injection E as <-. cbn [written todo begun holder]. split; [|done].
    rewrite IH2, app_nil_r in IH1 by done. rewrite join_app, <-IH1. cbn. by rewrite app_nil_r.
  - case_decide as Eh; [|done]. destruct (todo p) as [|c q]; [done|]. injection E as <-. cbn [written todo begun holder].
    split; [|congruence]. by rewrite <-app_assoc.
  - case_decide as Eh; [|done]. injection E as <-. cbn [written todo begun holder]. destruct Eh as [_ Eh].
    split; [|done]. by rewrite Eh in IH1.
Qed.

(** ** The logger *)

Inductive level := Debug | Info | Warn | Error | Fatal.

(** [log::Handler]: what it does with a message, on what was written *)
Definition handler : Type := level -> list Arg.tree -> M (list (sink * bytes)) unit.

Section Logger.
Context (double_text : Z -> bytes) (zmq_strerror : Z -> bytes).

Definition println (os : sink) (args : list Arg.tree) : M (list (sink * bytes)) unit :=
  modify (fun w => w ++ [(os, join (print_tree double_text zmq_strerror <$> args) ++ [Byte.x0a])]).

(** [StandardHandler], [SilentHandler] *)
Definition StandardHandler : handler := fun lv args =>
  match lv with
  | Debug | Info => println Cout args
  | Warn | Error => println Cerr args
  | Fatal => println Cerr args;; lift Abort
  end.
Definition SilentHandler : handler := fun lv args =>
  match lv with Fatal => println Cerr args;; lift Abort | _ => mret tt end.

(** [Logger]: the installed handler, and what was written *)
Record logger := mkLogger { handler_ : handler; output_ : list (sink * bytes) }.

(** The message of [failure] *)
Definition failure_args (expr what : bytes) : list Arg.tree :=
  [Arg.VView (str "ASSERT") expr; Arg.VView (str "FAILURE") what].
Definition level_name (lv : level) : bytes :=
  match lv with Debug => str "debug" | Info => str "info" | Warn => str "warn" | Error => str "error" | Fatal => str "fatal" end.
Definition caught (lv : level) : list Arg.tree :=
  failure_args (str "false") (str "Logger::" ++ level_name lv ++ str ", unexpected exception caught!").

(** [Logger::debug] .. [Logger::fatal]: an exception of the handler is a failed assertion, which calls
    [Logger::fatal] and aborts.  [None] is a call that has not returned when the fuel is over. *)
Fixpoint Logger_log (fuel : nat) (lv : level) (args : list Arg.tree) : M logger (option unit) :=
  match fuel with
  | O => mret None
  | S fuel => fun s =>
    match handler_ s lv args (output_ s) with
    | (Throw _, w) =>
      (r ← Logger_log fuel Fatal (caught lv);
       match r with None => mret None | Some _ => lift Abort end) (mkLogger (handler_ s) w)
    | (Ok _, w) => (Ok (Some tt), mkLogger (handler_ s) w)
    | (Abort, w) => (Abort, mkLogger (handler_ s) w)
    | (Undef, w) => (Undef, mkLogger (handler_ s) w)
    end
  end.

(** [failure], and the macro [ASSERT] *)
Definition failure (fuel : nat) (expr what : bytes) : M logger (option unit) :=
  r ← Logger_log fuel Fatal (failure_args expr what);
  match r with None => mret None | Some _ => lift Abort end.
Definition ASSERT_that (fuel : nat) (b : bool) (expr what : bytes) : M logger (option unit) :=
  if b then mret (Some tt) else failure fuel expr what.

(** [Logger::installContentHandler]; [None] is the null pointer *)
Definition installContentHandler (fuel : nat) (h : option handler) : M logger (option unit) :=
  r ← ASSERT_that fuel (match h with Some _ => true | None => false end) (str "handler != nullptr") (str "log message handler is null");
  match r, h with
  | Some _, Some h => modify (fun s => mkLogger h (output_ s));; mret (Some tt)
  | _, _ => mret None
  end.

(** A handler whose [fatal] returns or stops the process, and one whose [fatal] throws *)
Definition fatal_passes (h : handler) : Prop := forall args w, (h Fatal args w).1 = Ok tt \/ (h Fatal args w).1 = Abort.
Definition fatal_throws (h : handler) : Prop := forall args w, exists e, (h Fatal args w).1 = Throw e.

Lemma failure_aborts h fuel expr what w : fatal_passes h -> (failure (S fuel) expr what (mkLogger h w)).1 = Abort.
Proof.
  intros Hf. unfold failure. unfold mbind, M_bind. cbn [Logger_log handler_ output_].
  specialize (Hf (failure_args expr what) w). destruct (h Fatal _ w) as [[[]| | |] w']; cbn in Hf; by destruct Hf.
Qed.

Lemma log_noexcept fuel : forall lv args s e, (Logger_log fuel lv args s).1 <> Throw e.
Proof.
  induction fuel as [|fuel IH]; intros lv args s e; [done|]. cbn [Logger_log].
  destruct (handler_ s lv args (output_ s)) as [[|e1| |] w]; try done. unfold mbind, M_bind.
  destruct (Logger_log fuel Fatal (caught lv) (mkLogger (handler_ s) w)) as [[[[]|]|e2| |] s'] eqn:E; try done.
  intros _. apply (IH Fatal (caught lv) (mkLogger (handler_ s) w) e2). by rewrite E.
Qed.

Lemma fatal_loops h : fatal_throws h -> forall fuel args w, exists w', Logger_log fuel Fatal args (mkLogger h w) = (Ok None, mkLogger h w').
Proof.
  intros Hf fuel. induction fuel as [|fuel IH]; intros args w; [by exists w|]. cbn [Logger_log handler_ output_].
  destruct (Hf args w) as [e He]. destruct (h Fatal args w) as [o w1]. cbn in He. subst o.
  destruct (IH (caught Fatal) w1) as [w' E]. exists w'. by rewrite (M_bind_eq _ _ _ _ _ E).
Qed.

End Logger.

(** ** Theorems *)

(** Printing a part: the bytes come out as two hexadecimal digits each exactly when no byte of
    0x80 or more is read as a negative [char]; such a byte comes out as eight digits, its sign
    extended.  Digits that come out right read back to the bytes of the part.  The flags of the
    stream are put back, its fill character is not. *)
Theorem part_print_exact (P : Platform) (msg : Part.part) (os : ostream) :
  (text_ (Part_print msg os) = text_ os ++ (Part.p_data msg ≫= hex2) <->
   char_signed = false \/ Forall (fun b => byte_Z b < 128) (Part.p_data msg)) /\
  text_ (Part_print msg os) = text_ os ++ (Part.p_data msg ≫= shown_byte) /\
  unhex (Part.p_data msg ≫= hex2) = Some (Part.p_data msg) /\
  hex_ (Part_print msg os) = hex_ os /\ upper_ (Part_print msg os) = upper_ os /\
  (Part.p_data msg <> [] -> fill_ (Part_print msg os) = Byte.x30).
Proof.
  assert (text_ (Part_print msg os) = text_ os ++ (Part.p_data msg ≫= shown_byte) /\
    (Part.p_data msg <> [] -> fill_ (Part_print msg os) = Byte.x30)) as [Et Ef].
  { unfold Part_print. destruct (Part.p_data msg) as [|b l] eqn:E; [split; [by rewrite app_nil_r|done]|].
    by rewrite print_bytes. }
  split; [|split_and!; try done; apply unhex_hex2]. rewrite Et, <-plain_bytes. split; [by apply app_inv_head|by intros ->].
Qed.

(** Printing a log argument: in every state that a program of constructions, copies, moves,
    assignments and destructions can reach, an argument that was not moved from, nor any element
    of it, is printed without touching freed storage and without changing any, and its text is
    the one of its value, however its strings and arrays are shared. *)
Theorem arg_prints (double_text zmq_strerror : Z -> bytes) (p : Arg.prog) (x : nat) (a : Arg.arg) :
  Arg.reachable p -> Arg.vars_ p !! x = Some a -> whole (Arg.value_of (Arg.shows p) x) = true ->
  print_arg double_text zmq_strerror (S (Arg.next_ (Arg.store_ p))) a (Arg.store_ p) =
  (Ok (print_tree double_text zmq_strerror (Arg.value_of (Arg.shows p) x)), Arg.store_ p).
Proof.
  destruct p as [v [h n]]. intros Hi%Arg.reachable_pinv Hx Hw. cbn [Arg.vars_ Arg.store_ Arg.next_] in *.
  rewrite (Arg.value_shows v (Arg.mkStore h n) x a Hx) in Hw |- *. cbn [Arg.next_ Arg.heap_] in *.
  eapply print_denote; [exact Hi| |by apply Is_true_true]. by eapply Arg.root_points, Arg.values_elem.
Qed.

Lemma arg_prints_witness : print_arg (fun _ => []) (fun _ => []) 3 (Arg.mkArg Arg.Array Arg.AHeap [Byte.x03] (Arg.arr_ 1))
    (Arg.store_ (Arg.run_ops Arg.sample_ops)) =
  (Ok (Byte.x03 :: str ": " ++ Byte.x01 :: str ": aaaaaaaaaaaaaaaa, " ++ Byte.x02 :: str ": 7"), Arg.store_ (Arg.run_ops Arg.sample_ops)).
Proof.
  refine (eq_trans (arg_prints (fun _ => []) (fun _ => []) (Arg.run_ops Arg.sample_ops) 3 _ Arg.sample_ops_reachable _ _) _);
    vm_compute; reflexivity.
Defined.

(** C37: Assertions stop the process, and log calls do not throw, whatever handler is installed: a log
    call never throws, and is the call of the handler when that returns; when the handler's [fatal]
    returns or aborts, then a failed assertion aborts, and so does a log call whose handler
    throws; installing no handler aborts.  When the handler's [fatal] throws, a failed assertion
    calls [Logger::fatal] without end: no number of calls is enough for it to return, and the
    process is not aborted by it. *)
Theorem assertions_stop (h : handler) (w : list (sink * bytes)) :
  (forall fuel lv args e, (Logger_log fuel lv args (mkLogger h w)).1 <> Throw e) /\
  (forall fuel lv args w', h lv args w = (Ok tt, w') -> Logger_log (S fuel) lv args (mkLogger h w) = (Ok (Some tt), mkLogger h w')) /\
  (fatal_passes h -> forall fuel expr what,
     (ASSERT_that (S fuel) false expr what (mkLogger h w)).1 = Abort /\
     (installContentHandler (S fuel) None (mkLogger h w)).1 = Abort /\
     forall lv args e w', h lv args w = (Throw e, w') -> (Logger_log (S (S fuel)) lv args (mkLogger h w)).1 = Abort) /\
  (fatal_throws h -> forall fuel expr what, (ASSERT_that fuel false expr what (mkLogger h w)).1 = Ok None).
Proof.
  split_and!.
  - intros. apply log_noexcept.
  - intros fuel lv args w' E. cbn [Logger_log handler_ output_]. by rewrite E.
  - intros Hf fuel expr what. split_and!; [by apply failure_aborts| |].
    + unfold installContentHandler, ASSERT_that. pose proof (failure_aborts h fuel (str "handler != nullptr") (str "log message handler is null") w Hf) as Ha.
      unfold mbind, M_bind. destruct (failure _ _ _ _) as [o s']. cbn in Ha. by subst o.
    + intros lv args e w' E. pose proof (failure_aborts h fuel (str "false") (str "Logger::" ++ level_name lv ++ str ", unexpected exception caught!") w' Hf) as Ha.
      cbn [Logger_log handler_ output_]. by rewrite E.
  - intros Hf fuel expr what. unfold ASSERT_that, failure.
    destruct (fatal_loops h Hf fuel (failure_args expr what) w) as [w' E]. by rewrite (M_bind_eq _ _ _ _ _ E).
Qed.

Definition bad_handler : handler := fun _ _ => lift (Throw (mkError ZMQSocketSendFailed 0)).
Lemma assertions_stop_witness :
  (ASSERT_that 1 false [] [] (mkLogger (StandardHandler (fun _ => []) (fun _ => [])) [])).1 = Abort /\
  (ASSERT_that 1000 false [] [] (mkLogger bad_handler [])).1 = Ok None.
Proof.
  split.
  - apply (assertions_stop (StandardHandler (fun _ => []) (fun _ => [])) []). intros args w. by right.
  - apply (assertions_stop bad_handler []). intros args w. by eexists.
Defined.

End Log.
