(* ===== verification/Texts.v ===== *)
(** * The texts of messages, configurations, states and errors

    The stream operators of topics, events, operations, configurations, errors and of the
    states of the two machines (src/topic.cpp, src/event.cpp, src/operation.cpp,
    src/workerconfig.cpp, src/brokerconfig.cpp, src/errors.cpp, src/connmachine.cpp,
    src/syncmachine.cpp, src/arg.cpp), and [log::format] (src/log.cpp).  Output goes to the
    streams of [Log]; the file shows what of a value its text tells. *)

From S2P Require Import Prelude Part PartMulti Codec Uuid Topic Event Config ConnMachine SyncMachine Arg Log.
From stdpp Require Import pretty.

Local Open Scope Z_scope.

Module Texts.
Import PartMulti Uuid Topic Config Log.

(** ** Output *)

(** [os << a << b << ...] *)
Definition prints (l : list (ostream -> ostream)) (os : ostream) : ostream := foldl (fun os f => f os) os l.
Definition lit (s : string) : ostream -> ostream := put (str s).

(** [operator<<(unsigned long)] *)
Definition put_u64 (z : Z) (os : ostream) : ostream :=
  put (if hex_ os then hex_digit (upper_ os) <$> significant (nibbles 16 (wrap64 z)) else dec_text z) os.

(** [operator<<(std::ostream&, const Uuid&)] *)
Definition Uuid_print (u : uuid) : ostream -> ostream := put (to_string u).

(** [operator<<(std::ostream&, Topic::Type)], [const Topic::Name&], [const Topic&] *)
Definition Type_print (v : topic_type) : ostream -> ostream :=
  match v with State => lit "state" | Topic.Event => lit "event" end.
Definition Name_print (n : name) : ostream -> ostream := put (name_str n).
Definition Topic_print (t : topic) : ostream -> ostream :=
  prints [lit "["; Uuid_print (broker_ t); lit ", "; Uuid_print (worker_ t); lit ", "; put_u64 (seqn_ t); lit ", ";
          Name_print (name_ t); lit ", "; put_u64 (Part.size (data_ t)); lit ", "; Type_print (type_ t); lit "]"].

(** [putList] of the two configurations *)
Definition putElems {A} (el : A -> ostream -> ostream) : string -> list A -> ostream -> ostream :=
  fix go sep l :=
    match l with
    | [] => prints []
    | x :: l => prints [lit sep; el x; go ", " l]
    end.
Definition putList {A} (el : A -> ostream -> ostream) (l : list A) : ostream -> ostream :=
  prints [lit "["; putElems el EmptyString l; lit "]"].

(** [operator<<(std::ostream&, const WorkerConfig&)], [const BrokerConfig&] *)
Definition WorkerConfig_print (wc : WorkerConfig) : ostream -> ostream :=
  prints [lit "["; Uuid_print (uuid_ wc); lit ", "; put_u64 (seqNum wc); lit ", ";
          lit (if topicsAll wc then "*" else "+"); lit ", ";
          putList Name_print (topicsNames wc); lit ", "; putList put (endpDelivery wc); lit ", ";
          putList put (endpDispatch wc); lit ", "; putList put (endpSnapshot wc); lit "]"].
Definition BrokerConfig_print (cc : BrokerConfig) : ostream -> ostream :=
  prints [lit "["; Uuid_print (b_uuid cc); lit ", "; putList put (b_endpDelivery cc); lit ", ";
          putList put (b_endpDispatch cc); lit ", "; putList put (b_endpSnapshot cc); lit "]"].

(** [operator<<] of the states and replies of the machines and of [Arg::Type] *)
Definition ConnState_print (st : ConnMachine.state) : ostream -> ostream :=
  match st with
  | ConnMachine.Halted => lit "halted" | ConnMachine.Trying => lit "trying" | ConnMachine.Stable => lit "stable"
  end.
Definition SyncState_print (en : SyncMachine.state) : ostream -> ostream :=
  match en with
  | SyncMachine.Halted => lit "halted" | SyncMachine.Download => lit "download"
  | SyncMachine.Failed => lit "failed" | SyncMachine.Synced => lit "synced"
  end.
Definition ReplyType_print (en : SyncMachine.ReplyType) : ostream -> ostream :=
  match en with SyncMachine.Snapshot => lit "snapshot" | SyncMachine.Complete => lit "complete" end.
Definition ReplyResult_print (en : SyncMachine.ReplyResult) : ostream -> ostream :=
  match en with
  | SyncMachine.Unexpected => lit "unexpected" | SyncMachine.Discarded => lit "discarded"
  | SyncMachine.Accepted => lit "accepted"
  end.
Definition ArgType_print (type : Arg.type) : ostream -> ostream :=
  match type with
  | Arg.Invalid => lit "invalid" | Arg.Int => lit "int" | Arg.Errno => lit "errno"
  | Arg.Double => lit "double" | Arg.String => lit "string" | Arg.Array => lit "array"
  end.

(** [Event::toArgs], [Operation::toArgs]: the size is converted to [int]. *)
Definition to_int (z : Z) : Z := let w := wrap32 z in if w <? 2 ^ 31 then w else w - 2 ^ 32.
Definition Event_toArgs (e : Event.event) : list Arg.tree :=
  [Arg.VView [] (Event.toString (Event.type_ e)); Arg.VView [] (Event.notif_toString (Event.notif_ e));
   Arg.VInt [] (to_int (Part.size (Event.payld_ e)))].
Definition Operation_toArgs (o : Operation.operation) : list Arg.tree :=
  [Arg.VView [] (Operation.toString (Operation.type_ o)); Arg.VView [] (Operation.notif_toString (Operation.notif_ o));
   Arg.VInt [] (to_int (Part.size (Operation.payld_ o)))].

(** [operator<<] of the types and the notifications of events, and of the types of operations *)
Definition EventNotification_print (v : Event.notification) : ostream -> ostream := put (Event.notif_toString v).
Definition EventType_print (v : Event.type) : ostream -> ostream := put (Event.toString v).
Definition OperationType_print (v : Operation.type) : ostream -> ostream := put (Operation.toString v).

Section Args.
Context (double_text zmq_strerror : Z -> bytes).

(** [operator<<(std::ostream&, const Arg&)] on the value of an argument, with [printkey],
    [printarg] and [printargs] *)
Definition key_print (key : bytes) : ostream -> ostream :=
  if decide (key = []) then prints [] else prints [put key; lit ": "].
Fixpoint Arg_print (a : Arg.tree) : ostream -> ostream :=
  match a with
  | Arg.VNothing => prints []
  | Arg.VInvalid _ => lit "<>"
  | Arg.VInt k v => prints [key_print k; put_int v]
  | Arg.VDouble k v => prints [key_print k; put (double_text v)]
  | Arg.VErrno k v => prints [key_print k; put (zmq_strerror v)]
  | Arg.VView k v | Arg.VString k v => prints [key_print k; put v]
  | Arg.VArray k l => prints [key_print k; putElems Arg_print EmptyString l]
  end.

(** [printArgs]: a line *)
Definition printArgs (args : list Arg.tree) : ostream -> ostream :=
  prints [putElems Arg_print EmptyString args; put [Byte.x0a]].
Definition Event_print (v : Event.event) : ostream -> ostream := printArgs (Event_toArgs v).
Definition Operation_print (v : Operation.operation) : ostream -> ostream := printArgs (Operation_toArgs v).

(** [err::Error]; the strings [what_] and the file of [loc_] are literals. *)
Record Error := mkErr { empty_ : bool; what_ : bytes; loc_ : bytes * Z; arg_ : Arg.tree }.
Definition Error_default : Error := mkErr true [] ([], 0) (Arg.VInvalid []).
Definition Error_new (loc : bytes * Z) (what : bytes) (arg : Arg.tree) : Error := mkErr false what loc arg.
Definition Error_print (e : Error) : ostream -> ostream :=
  if negb (empty_ e) then prints [put (what_ e); Arg_print (arg_ e)] else prints [].

End Args.

(** [c::logError]: what a C function that catches an exception logs *)
Inductive thrown := TError (e : Error) | TStd (what : bytes) | TOther.
Definition logError_text (fuel : nat) (err : bytes) : M logger (option unit) :=
  Logger_log fuel Log.Error [Arg.VView (str "error") err].
Definition logError_err (fuel : nat) (e : Error) : M logger (option unit) :=
  Logger_log fuel Log.Error [Arg.VView (str "error") (what_ e); arg_ e].
Definition logError (fuel : nat) (x : thrown) : M logger (option unit) :=
  match x with
  | TError e => logError_err fuel e
  | TStd what => logError_text fuel what
  | TOther => logError_text fuel (str "unknown")
  end.

(** [utils::printArgsEndpoints], [utils::printArgsServerAddress] *)
Definition newline : ostream -> ostream := put [Byte.x0a].
Definition printEach (l : list bytes) : ostream -> ostream := prints (l ≫= fun el => [put el; lit " "]).
Definition printArgsEndpoints (delivery dispatch snapshot : list bytes) : ostream -> ostream :=
  prints [lit "Endpoints:"; newline; lit "delivery: "; printEach delivery; newline;
          lit "dispatch: "; printEach dispatch; newline; lit "snapshot: "; printEach snapshot; newline].
Definition printArgsServerAddress (addr : bytes) : ostream -> ostream := prints [lit "Server address: "; put addr; newline].

(** [log::format]: [made] is the text that the C library makes of the format and the arguments,
    [None] when it fails; [vsnprintf] writes at most [n] characters of it with the terminator. *)
Definition vsnprintf (made : option bytes) (n : nat) : Z * bytes :=
  match made with
  | Some t => if zlen t <? 2 ^ 31 then (zlen t, match n with O => [] | S m => take m t ++ [Byte.x00] end) else (-1, [])
  | None => (-1, [])
  end.
Definition format (made : option bytes) : bytes :=
  let sz := (vsnprintf made 0).1 in
  if sz <? 0 then [] else
  let n := Z.to_nat sz in
  let w := (vsnprintf made (n + 1)).2 in
  take n (w ++ drop (length w) (replicate n Byte.x00)).

(** [c::logError] lets no exception out of the C function. *)
Lemma logError_noexcept fuel x s e : (logError fuel x s).1 <> Throw e.
Proof. destruct x; apply log_noexcept. Qed.

(** ** What reaches a stream *)

(** A stream with no width and with decimal numbers, as they are made *)
Definition plain (os : ostream) : Prop := hex_ os = false /\ width_ os = 0%nat.

(** [f] appends [t] to such a stream and leaves its settings. *)
Definition puts (t : bytes) (f : ostream -> ostream) : Prop :=
  forall os, plain os -> f os = with_text (text_ os ++ t) os.

Lemma puts_put s : puts s (put s).
Proof. intros os [_ Hw]. unfold put, setw, with_text. cbn. by rewrite Hw. Qed.
Lemma puts_u64 z : puts (dec_text z) (put_u64 z).
Proof. intros os H. unfold put_u64. destruct H as [Hx Hw] eqn:E. rewrite Hx. by apply puts_put. Qed.
Lemma puts_int z : puts (dec_text z) (put_int z).
Proof. intros os H. unfold put_int. destruct H as [Hx Hw] eqn:E. rewrite Hx. by apply puts_put. Qed.
Lemma puts_nil : puts [] (prints []).
Proof. intros os _. cbn. rewrite app_nil_r. by destruct os. Qed.
Lemma puts_cons t f ts fs : puts t f -> puts ts (prints fs) -> puts (t ++ ts) (prints (f :: fs)).
Proof.
  intros Hf Hfs os H. unfold prints. cbn [foldl]. rewrite Hf by done. unfold prints in Hfs. rewrite Hfs by done.
  unfold with_text. cbn. by rewrite app_assoc.
Qed.
Lemma puts_eq t t' f : puts t f -> t = t' -> puts t' f.
Proof. by intros H <-. Qed.

Lemma puts_elems {A} (el : A -> ostream -> ostream) (tx : A -> bytes) l s : Forall (fun x => puts (tx x) (el x)) l ->
  puts (match l with [] => [] | _ => str s ++ join (tx <$> l) end) (putElems el s l).
Proof.
  intros Hl. revert s. induction Hl as [|x l Hx Hl IH]; intros s; cbn [putElems]; [apply puts_nil|].
  eapply puts_eq; [apply puts_cons; [apply puts_put|apply puts_cons; [exact Hx|apply puts_cons; [apply IH|apply puts_nil]]]|].
  f_equal. cbn [fmap list_fmap join]. f_equal. rewrite app_nil_r. destruct l as [|y l]; [done|].
  cbn [fmap list_fmap]. by rewrite bind_cons, <-app_assoc.
Qed.

Definition list_text (l : list bytes) : bytes := str "[" ++ join l ++ str "]".
Lemma puts_list {A} (el : A -> ostream -> ostream) (tx : A -> bytes) l : (forall x, puts (tx x) (el x)) ->
  puts (list_text (tx <$> l)) (putList el l).
Proof.
  intros Hl. eapply puts_eq; [apply puts_cons; [apply puts_put|]; apply puts_cons;
    [apply (puts_elems el tx), Forall_true; exact Hl|]; apply puts_cons; [apply puts_put|apply puts_nil]|].
  unfold list_text. f_equal. rewrite app_nil_r. by destruct l.
Qed.

Lemma puts_list_id l : puts (list_text l) (putList put l).
Proof. rewrite <-(list_fmap_id l) at 1. apply (puts_list put id), puts_put. Qed.
Lemma puts_names l : puts (list_text (name_str <$> l)) (putList Name_print l).
Proof. apply puts_list. intros n. apply puts_put. Qed.

(** One item after the other *)
Ltac print_item :=
  lazymatch goal with
  | H : puts _ ?f |- puts _ ?f => exact H
  | |- puts _ (put_u64 _) => apply puts_u64
  | |- puts _ (put_int _) => apply puts_int
  | |- puts _ (putList Name_print _) => apply puts_names
  | |- puts _ (putList put _) => apply puts_list_id
  | |- puts _ _ => apply puts_put
  end.
Ltac print_items :=
  lazymatch goal with
  | |- puts _ (prints []) => apply puts_nil
  | |- puts _ (prints (_ :: _)) => eapply puts_cons; [print_item|print_items]
  end.

Definition topic_text (t : topic) : bytes :=
  str "[" ++ to_string (broker_ t) ++ sep ++ to_string (worker_ t) ++ sep ++ dec_text (seqn_ t) ++ sep ++
  name_str (name_ t) ++ sep ++ dec_text (Part.size (data_ t)) ++ sep ++ type_str (type_ t) ++ str "]".
Lemma Topic_puts t : puts (topic_text t) (Topic_print t).
Proof.
  assert (puts (type_str (type_ t)) (Type_print (type_ t))) as Hty by (destruct (type_ t); apply puts_put).
  eapply puts_eq; [unfold Topic_print; print_items|]. unfold topic_text. by rewrite app_nil_r.
Qed.

Definition wconfig_text (wc : WorkerConfig) : bytes :=
  str "[" ++ to_string (uuid_ wc) ++ sep ++ dec_text (seqNum wc) ++ sep ++ str (if topicsAll wc then "*" else "+") ++ sep ++
  list_text (name_str <$> topicsNames wc) ++ sep ++ list_text (endpDelivery wc) ++ sep ++ list_text (endpDispatch wc) ++ sep ++
  list_text (endpSnapshot wc) ++ str "]".
Lemma WorkerConfig_puts wc : puts (wconfig_text wc) (WorkerConfig_print wc).
Proof. eapply puts_eq; [unfold WorkerConfig_print; print_items|]. unfold wconfig_text. by rewrite app_nil_r. Qed.

Definition bconfig_text (cc : BrokerConfig) : bytes :=
  str "[" ++ to_string (b_uuid cc) ++ sep ++ list_text (b_endpDelivery cc) ++ sep ++ list_text (b_endpDispatch cc) ++ sep ++
  list_text (b_endpSnapshot cc) ++ str "]".
Lemma BrokerConfig_puts cc : puts (bconfig_text cc) (BrokerConfig_print cc).
Proof. eapply puts_eq; [unfold BrokerConfig_print; print_items|]. unfold bconfig_text. by rewrite app_nil_r. Qed.

Section ArgTexts.
Context (double_text zmq_strerror : Z -> bytes).

Lemma puts_key k : puts (printkey k) (key_print k).
Proof.
  unfold printkey, key_print. destruct (decide (k = [])); [apply puts_nil|].
  eapply puts_eq; [print_items|]. by rewrite app_nil_r.
Qed.

(** On such a stream the text is that of the value. *)
Fixpoint Arg_puts (a : Arg.tree) : puts (print_tree double_text zmq_strerror a) (Arg_print double_text zmq_strerror a).
Proof.
  destruct a as [|k|k v|k v|k v|k v|k v|k l]; cbn [print_tree Arg_print]; [apply puts_nil|apply puts_put|..].
  1-5: pose proof (puts_key k); eapply puts_eq; [print_items|]; by rewrite app_nil_r.
  assert (Forall (fun x => puts (print_tree double_text zmq_strerror x) (Arg_print double_text zmq_strerror x)) l) as Hl.
  { induction l as [|x l IH]; [constructor|]. constructor; [apply Arg_puts|exact IH]. }
  pose proof (puts_key k). pose proof (puts_elems (Arg_print double_text zmq_strerror) _ l EmptyString Hl) as He.
  eapply puts_eq; [print_items|]. rewrite app_nil_r. f_equal. by destruct l.
Qed.

Definition args_text (l : list Arg.tree) : bytes := join (print_tree double_text zmq_strerror <$> l) ++ [Byte.x0a].
Lemma printArgs_puts l : puts (args_text l) (printArgs double_text zmq_strerror l).
Proof.
  assert (Forall (fun x => puts (print_tree double_text zmq_strerror x) (Arg_print double_text zmq_strerror x)) l) as Hl
    by (apply Forall_true, Arg_puts).
  pose proof (puts_elems (Arg_print double_text zmq_strerror) _ l EmptyString Hl) as He.
  eapply puts_eq; [unfold printArgs; print_items|]. unfold args_text. rewrite app_nil_r. f_equal. by destruct l.
Qed.

End ArgTexts.

(** ** What a text tells *)

Definition comma : byte := Byte.x2c.
Definition space : byte := Byte.x20.
Definition closing : byte := Byte.x5d.

(** The first and the last separator *)
Lemma split_first (c : byte) (s1 s2 r1 r2 : bytes) : c ∉ s1 -> c ∉ s2 -> s1 ++ c :: r1 = s2 ++ c :: r2 -> s1 = s2 /\ r1 = r2.
Proof.
  revert s2. induction s1 as [|x s1 IH]; intros [|y s2] H1 H2 E; cbn in E; injection E.
  - by intros ->.
  - intros _ ->. destruct H2. left.
  - intros _ <-. destruct H1. left.
  - intros E' ->. apply not_elem_of_cons in H1 as [_ H1], H2 as [_ H2]. by destruct (IH s2 H1 H2 E') as [-> ->].
Qed.
Lemma split_last (c : byte) (s1 s2 r1 r2 : bytes) : c ∉ s1 -> c ∉ s2 -> r1 ++ c :: s1 = r2 ++ c :: s2 -> s1 = s2 /\ r1 = r2.
Proof.
  intros H1 H2 E%(f_equal reverse). rewrite !reverse_app, !reverse_cons, <-!app_assoc in E.
  apply split_first in E as [E1 E2]; [|by rewrite elem_of_reverse..].
  split; [by apply (inj reverse) in E1|]. by apply (inj reverse) in E2.
Qed.

(** Numbers are written with digits and a sign. *)
Definition digit (b : byte) : Prop := b ∈ str "0123456789-".
Lemma digits_go x : forall s, Forall digit (str s) -> Forall digit (str (pretty_N_go x s)).
Proof.
  induction (N.lt_wf_0 x) as [x _ IH]; intros s Hs. destruct (decide (x = 0)%N) as [->|Hx]; [by rewrite pretty_N_go_0|].
  rewrite pretty_N_go_step by lia. apply IH; [apply N.div_lt; lia|].
  change (str (String ?c s)) with (Ascii.byte_of_ascii c :: str s). constructor; [|done].
  unfold pretty_N_char, digit. repeat case_match; apply list_elem_of_In; vm_compute; tauto.
Qed.
Lemma dec_digits z : Forall digit (dec_text z).
Proof.
  assert (forall n : N, Forall digit (str (pretty n))) as Hn.
  { intros n. unfold pretty, pretty_N. case_decide; [|apply digits_go; constructor].
    constructor; [|constructor]. apply list_elem_of_In. vm_compute. tauto. }
  unfold dec_text. destruct z as [|p|p].
  - exact (Hn 0%N).
  - exact (Hn (Npos p)).
  - change (str (pretty (Z.neg p))) with (Byte.x2d :: str (pretty (Npos p))). constructor; [|apply Hn].
    apply list_elem_of_In. vm_compute. tauto.
Qed.
Lemma dec_no z (c : byte) : ~ digit c -> c ∉ dec_text z.
Proof. intros Hc H. pose proof (dec_digits z) as Hd. rewrite Forall_forall in Hd. auto. Qed.
Lemma dec_inj z1 z2 : dec_text z1 = dec_text z2 -> z1 = z2.
Proof.
  unfold dec_text, str. intros E%(f_equal String.string_of_list_byte).
  rewrite !String.string_of_list_byte_of_string in E. by apply (inj pretty).
Qed.

Lemma no_comma z : comma ∉ dec_text z.
Proof. apply dec_no. intros H%list_elem_of_In. vm_compute in H. naive_solver. Qed.
Lemma no_space z : space ∉ dec_text z.
Proof. apply dec_no. intros H%list_elem_of_In. vm_compute in H. naive_solver. Qed.

(** A uuid and the text that follows it, a number and the one that follows it *)
Lemma uuid_then u1 u2 r1 r2 : uuid_ok u1 -> uuid_ok u2 -> to_string u1 ++ r1 = to_string u2 ++ r2 -> u1 = u2 /\ r1 = r2.
Proof.
  intros H1 H2 E. destruct (uuid_text_roundtrip u1 H1) as (L1 & R1 & _), (uuid_text_roundtrip u2 H2) as (L2 & R2 & _).
  apply app_inj_1 in E as [E ->]; [|congruence]. split; [|done]. rewrite E in R1. congruence.
Qed.
Lemma dec_then z1 z2 r1 r2 : dec_text z1 ++ sep ++ r1 = dec_text z2 ++ sep ++ r2 -> z1 = z2 /\ r1 = r2.
Proof.
  change (sep ++ ?r) with (comma :: space :: r). intros E. apply split_first in E as [E1 E2]; [|apply no_comma..].
  apply dec_inj in E1. by injection E2.
Qed.
Lemma sep_then (r1 r2 : bytes) : sep ++ r1 = sep ++ r2 -> r1 = r2.
Proof. apply app_inv_head. Qed.

(** The end of the text is read from the right: a name may hold any character. *)
Lemma name_then n1 n2 z1 z2 y1 y2 :
  n1 ++ sep ++ dec_text z1 ++ sep ++ type_str y1 ++ str "]" = n2 ++ sep ++ dec_text z2 ++ sep ++ type_str y2 ++ str "]" ->
  n1 = n2 /\ z1 = z2 /\ y1 = y2.
Proof.
  assert (forall n z (r : bytes), n ++ sep ++ dec_text z ++ r = ((n ++ [comma]) ++ space :: dec_text z) ++ r) as Heq
    by (intros n z r; rewrite <-!app_assoc; done).
  rewrite !Heq. intros E. apply app_inj_2 in E as [E Et]; [|by destruct y1, y2].
  apply split_last in E as [Ez En]; [|apply no_space..]. apply app_inj_2 in En as [-> _]; [|done].
  split_and!; [done|by apply dec_inj|by destruct y1, y2].
Qed.

Lemma topic_text_inj t1 t2 : uuid_ok (broker_ t1) -> uuid_ok (broker_ t2) -> uuid_ok (worker_ t1) -> uuid_ok (worker_ t2) ->
  topic_text t1 = topic_text t2 ->
  broker_ t1 = broker_ t2 /\ worker_ t1 = worker_ t2 /\ seqn_ t1 = seqn_ t2 /\ name_str (name_ t1) = name_str (name_ t2) /\
  Part.size (data_ t1) = Part.size (data_ t2) /\ type_ t1 = type_ t2.
Proof.
  intros B1 B2 W1 W2 E. unfold topic_text in E. apply app_inv_head in E. apply uuid_then in E as [-> E%sep_then]; [|done..].
  apply uuid_then in E as [-> E%sep_then]; [|done..]. apply dec_then in E as [-> E]. by apply name_then in E.
Qed.

(** A string that a list can be told from: not empty, without the separators *)
Definition clear_text (s : bytes) : Prop := s <> [] /\ comma ∉ s /\ closing ∉ s.

Lemma split_until (c : byte) (s1 s2 r1 r2 : bytes) : c ∉ s1 -> c ∉ s2 -> (r1 = [] \/ head r1 = Some c) -> (r2 = [] \/ head r2 = Some c) ->
  s1 ++ r1 = s2 ++ r2 -> s1 = s2 /\ r1 = r2.
Proof.
  assert (forall s r : bytes, r = [] -> c ∉ s -> forall s' r', head r' = Some c -> s ++ r = s' ++ r' -> False) as Hno.
  { intros s r -> Hs s' [|x r'] Hr E; [done|]. injection Hr as ->. rewrite app_nil_r in E. subst s. apply Hs.
    apply elem_of_app. right. left. }
  intros H1 H2 [R1|R1] [R2|R2] E.
  - subst. by rewrite !app_nil_r in E.
  - destruct (Hno s1 r1 R1 H1 s2 r2 R2 E).
  - destruct (Hno s2 r2 R2 H2 s1 r1 R1 (eq_sym E)).
  - destruct r1 as [|x r1], r2 as [|y r2]; try done. injection R1 as ->. injection R2 as ->.
    by apply split_first in E as [-> ->].
Qed.

Lemma join_inj l1 : forall l2, Forall clear_text l1 -> Forall clear_text l2 -> join l1 = join l2 -> l1 = l2.
Proof.
  assert (forall l : list bytes, (l ≫= (fun s => sep ++ s)) = match l with [] => [] | _ => sep ++ join l end) as Hb
    by (intros [|s l]; [done|]; by rewrite bind_cons, <-app_assoc).
  assert (forall l : list bytes, (l ≫= (fun s => sep ++ s)) = [] \/ head (l ≫= (fun s => sep ++ s)) = Some comma) as Hh
    by (intros [|s l]; [by left|by right]).
  induction l1 as [|s1 l1 IH]; intros [|s2 l2] H1 H2 E; try done.
  - apply Forall_cons in H2 as [[Hs _] _]. cbn [join] in E. by destruct s2.
  - apply Forall_cons in H1 as [[Hs _] _]. cbn [join] in E. by destruct s1.
  - apply Forall_cons in H1 as [(_ & C1 & _) H1], H2 as [(_ & C2 & _) H2]. cbn [join] in E.
    apply (split_until comma) in E as [-> E]; [|done..|apply Hh|apply Hh]. f_equal. rewrite !Hb in E. apply IH; [done..|].
    destruct l1, l2; try done. by apply app_inv_head in E.
Qed.

Lemma join_no_closing l : Forall clear_text l -> closing ∉ join l.
Proof.
  assert (forall s, Forall clear_text s -> closing ∉ (s ≫= (fun s => sep ++ s))) as Hb.
  { induction 1 as [|s l0 (_ & _ & Hs) _ IH]; [apply not_elem_of_nil|]. rewrite bind_cons, !elem_of_app. intros [[H|H]|H]; try done.
    apply list_elem_of_In in H. vm_compute in H. naive_solver. }
  intros Hj. destruct Hj as [|s l' (_ & _ & Hs) Hl]; [apply not_elem_of_nil|]. cbn [join]. rewrite elem_of_app. intros [H|H]; [done|by apply (Hb l')].
Qed.

Lemma list_then l1 l2 (r1 r2 : bytes) : Forall clear_text l1 -> Forall clear_text l2 -> list_text l1 ++ r1 = list_text l2 ++ r2 ->
  l1 = l2 /\ r1 = r2.
Proof.
  intros H1 H2 E. unfold list_text in E. rewrite <-!app_assoc in E. apply app_inv_head in E.
  change (str "]" ++ ?r) with (closing :: r) in E. apply split_first in E as [E ->]; [|by apply join_no_closing..].
  split; [|done]. by apply join_inj.
Qed.

(** The strings of a configuration *)
Definition wconfig_clear (wc : WorkerConfig) : Prop :=
  uuid_ok (uuid_ wc) /\ Forall name_ok (topicsNames wc) /\
  Forall clear_text ((name_str <$> topicsNames wc) ++ endpDelivery wc ++ endpDispatch wc ++ endpSnapshot wc).
Definition bconfig_clear (cc : BrokerConfig) : Prop :=
  uuid_ok (b_uuid cc) /\ Forall clear_text (b_endpDelivery cc ++ b_endpDispatch cc ++ b_endpSnapshot cc).

Lemma wconfig_text_inj c1 c2 : wconfig_clear c1 -> wconfig_clear c2 -> wconfig_text c1 = wconfig_text c2 -> c1 = c2.
Proof.
  intros (U1 & N1 & C1) (U2 & N2 & C2) E. rewrite !Forall_app in C1, C2. destruct C1 as (? & ? & ? & ?), C2 as (? & ? & ? & ?).
  unfold wconfig_text in E. apply app_inv_head in E. apply uuid_then in E as [Eu E%sep_then]; [|done..].
  apply dec_then in E as [En E]. apply app_inj_1 in E as [Ea E%sep_then]; [|by destruct (topicsAll c1), (topicsAll c2)].
  apply list_then in E as [Em E%sep_then]; [|done..]. apply list_then in E as [E1 E%sep_then]; [|done..].
  apply list_then in E as [E2 E%sep_then]; [|done..]. apply list_then in E as [E3 _]; [|done..].
  assert (topicsNames c1 = topicsNames c2) by (rewrite <-(Name_names _ N1), <-(Name_names _ N2); by rewrite Em).
  assert (topicsAll c1 = topicsAll c2) by (by destruct (topicsAll c1), (topicsAll c2)).
  destruct c1, c2; cbn in *; congruence.
Qed.

Lemma bconfig_text_inj c1 c2 : bconfig_clear c1 -> bconfig_clear c2 -> bconfig_text c1 = bconfig_text c2 -> c1 = c2.
Proof.
  intros (U1 & C1) (U2 & C2) E. rewrite !Forall_app in C1, C2. destruct C1 as (? & ? & ?), C2 as (? & ? & ?).
  unfold bconfig_text in E. apply app_inv_head in E. apply uuid_then in E as [Eu E%sep_then]; [|done..].
  apply list_then in E as [E1 E%sep_then]; [|done..].
  apply list_then in E as [E2 E%sep_then]; [|done..]. apply list_then in E as [E3 _]; [|done..].
  destruct c1, c2; cbn in *; congruence.
Qed.

(** The text of an event or of an operation *)
Definition msg_text (type notif : bytes) (n : Z) : bytes := type ++ sep ++ notif ++ sep ++ dec_text (to_int n) ++ [Byte.x0a].
Lemma event_args_text f g e : args_text f g (Event_toArgs e) =
  msg_text (Event.toString (Event.type_ e)) (Event.notif_toString (Event.notif_ e)) (Part.size (Event.payld_ e)).
Proof.
  unfold args_text, Event_toArgs, msg_text. cbn [fmap list_fmap print_tree join]. rewrite !bind_cons. cbn [mbind list_bind].
  rewrite app_nil_r, <-!app_assoc. done.
Qed.
Lemma operation_args_text f g o : args_text f g (Operation_toArgs o) =
  msg_text (Operation.toString (Operation.type_ o)) (Operation.notif_toString (Operation.notif_ o)) (Part.size (Operation.payld_ o)).
Proof.
  unfold args_text, Operation_toArgs, msg_text. cbn [fmap list_fmap print_tree join]. rewrite !bind_cons. cbn [mbind list_bind].
  rewrite app_nil_r, <-!app_assoc. done.
Qed.

Lemma msg_text_inj t1 t2 n1 n2 z1 z2 : comma ∉ t1 -> comma ∉ t2 -> comma ∉ n1 -> comma ∉ n2 ->
  msg_text t1 n1 z1 = msg_text t2 n2 z2 -> t1 = t2 /\ n1 = n2 /\ to_int z1 = to_int z2.
Proof.
  intros T1 T2 N1 N2 E. unfold msg_text in E. change (sep ++ ?r) with (comma :: space :: r) in E.
  apply split_first in E as [-> E]; [|done..]. injection E as E. apply split_first in E as [-> E]; [|done..].
  injection E as E. apply app_inj_2 in E as [E _]; [|done]. by apply dec_inj in E.
Qed.

Lemma to_int_eq z1 z2 : to_int z1 = to_int z2 <-> z1 mod 2 ^ 32 = z2 mod 2 ^ 32.
Proof.
  unfold to_int. change (wrap32 ?z) with (z mod 2 ^ 32). pose proof (Z.mod_pos_bound z1 (2 ^ 32)). pose proof (Z.mod_pos_bound z2 (2 ^ 32)).
  destruct (Z.ltb_spec (z1 mod 2 ^ 32) (2 ^ 31)), (Z.ltb_spec (z2 mod 2 ^ 32) (2 ^ 31)); lia.
Qed.

Lemma format_exact made : format made = match made with Some t => if zlen t <? 2 ^ 31 then t else [] | None => [] end.
Proof.
  unfold format, vsnprintf. destruct made as [t|]; [|done]. destruct (zlen t <? 2 ^ 31) eqn:El; [|done].
  cbn [fst snd]. unfold zlen. rewrite (proj2 (Z.ltb_ge (Z.of_nat (length t)) 0)) by lia. rewrite Nat2Z.id, Nat.add_1_r.
  rewrite (take_ge t) by lia. rewrite <-app_assoc. apply take_app_length.
Qed.

(** Equal output comes from equal texts. *)
Lemma puts_inj t1 t2 f1 f2 os : plain os -> puts t1 f1 -> puts t2 f2 -> f1 os = f2 os -> t1 = t2.
Proof. intros H H1 H2 E. rewrite H1, H2 in E by done. apply (f_equal text_) in E. cbn in E. by apply app_inv_head in E. Qed.

Lemma event_text_inj f g e1 e2 : args_text f g (Event_toArgs e1) = args_text f g (Event_toArgs e2) ->
  Event.type_ e1 = Event.type_ e2 /\ Event.notif_ e1 = Event.notif_ e2 /\
  to_int (Part.size (Event.payld_ e1)) = to_int (Part.size (Event.payld_ e2)).
Proof.
  assert (forall v, comma ∉ Event.toString v) as Ht by (intros [] H%list_elem_of_In; vm_compute in H; naive_solver).
  assert (forall v, comma ∉ Event.notif_toString v) as Hn by (intros [] H%list_elem_of_In; vm_compute in H; naive_solver).
  rewrite !event_args_text. intros E. apply msg_text_inj in E as (E1 & E2 & E3); [|apply Ht|apply Ht|apply Hn|apply Hn].
  split_and!; [by destruct (Event.type_ e1), (Event.type_ e2)|by destruct (Event.notif_ e1), (Event.notif_ e2)|done].
Qed.

Lemma operation_text_inj f g o1 o2 : args_text f g (Operation_toArgs o1) = args_text f g (Operation_toArgs o2) ->
  Operation.type_ o1 = Operation.type_ o2 /\ Operation.notif_ o1 = Operation.notif_ o2 /\
  to_int (Part.size (Operation.payld_ o1)) = to_int (Part.size (Operation.payld_ o2)).
Proof.
  assert (forall v, comma ∉ Operation.toString v) as Ht by (intros [] H%list_elem_of_In; vm_compute in H; naive_solver).
  assert (forall v, comma ∉ Operation.notif_toString v) as Hn by (intros [] H%list_elem_of_In; vm_compute in H; naive_solver).
  rewrite !operation_args_text. intros E. apply msg_text_inj in E as (E1 & E2 & E3); [|apply Ht|apply Ht|apply Hn|apply Hn].
  split_and!; [by destruct (Operation.type_ o1), (Operation.type_ o2)|by destruct (Operation.notif_ o1), (Operation.notif_ o2)|done].
Qed.

(** ** Theorems *)

(** C19: What the log shows identifies a message: on a stream with no width and decimal numbers, the text
    of a topic tells its broker, worker, sequence number, name, type and the size of its
    data, although a name may hold the separator itself; the text of an event or an operation
    tells its type, notification and the size of its payload modulo 2^32; and printing changes
    no setting of the stream. *)
Theorem printed_messages (double_text zmq_strerror : Z -> bytes) (os : ostream) : plain os ->
  (forall t1 t2, topic_ok t1 -> topic_ok t2 -> Topic_print t1 os = Topic_print t2 os ->
     broker_ t1 = broker_ t2 /\ worker_ t1 = worker_ t2 /\ seqn_ t1 = seqn_ t2 /\ name_ t1 = name_ t2 /\
     Part.size (data_ t1) = Part.size (data_ t2) /\ type_ t1 = type_ t2) /\
  (forall e1 e2, Event_print double_text zmq_strerror e1 os = Event_print double_text zmq_strerror e2 os <->
     Event.type_ e1 = Event.type_ e2 /\ Event.notif_ e1 = Event.notif_ e2 /\
     Part.size (Event.payld_ e1) mod 2 ^ 32 = Part.size (Event.payld_ e2) mod 2 ^ 32) /\
  (forall o1 o2, Operation_print double_text zmq_strerror o1 os = Operation_print double_text zmq_strerror o2 os <->
     Operation.type_ o1 = Operation.type_ o2 /\ Operation.notif_ o1 = Operation.notif_ o2 /\
     Part.size (Operation.payld_ o1) mod 2 ^ 32 = Part.size (Operation.payld_ o2) mod 2 ^ 32) /\
  (forall t e o, exists s1 s2 s3, Topic_print t os = with_text s1 os /\
     Event_print double_text zmq_strerror e os = with_text s2 os /\
     Operation_print double_text zmq_strerror o os = with_text s3 os).
Proof.
  intros H. split_and!.
  - intros t1 t2 [] [] E. apply (puts_inj _ _ _ _ _ H (Topic_puts t1) (Topic_puts t2)) in E.
    apply topic_text_inj in E as (? & ? & ? & Hn & ?); [|done..]. split_and!; try done; [by apply name_ok_ext|tauto|tauto].
  - intros e1 e2. rewrite <-to_int_eq. split.
    + intros E. by apply (puts_inj _ _ _ _ _ H (printArgs_puts _ _ _) (printArgs_puts _ _ _)), event_text_inj in E.
    + intros (E1 & E2 & E3). unfold Event_print. rewrite !printArgs_puts by done. rewrite !event_args_text, E1, E2. unfold msg_text. by rewrite E3.
  - intros o1 o2. rewrite <-to_int_eq. split.
    + intros E. by apply (puts_inj _ _ _ _ _ H (printArgs_puts _ _ _) (printArgs_puts _ _ _)), operation_text_inj in E.
    + intros (E1 & E2 & E3). unfold Operation_print. rewrite !printArgs_puts by done. rewrite !operation_args_text, E1, E2. unfold msg_text. by rewrite E3.
  - intros t e o. unfold Event_print, Operation_print. rewrite (Topic_puts t), !printArgs_puts by done. by do 3 eexists.
Qed.

(** The name of the first topic is what follows in the text of the second. *)
Definition sample_t (n : bytes) (d : bytes) : topic := mkTopic nil_uuid nil_uuid 7 (Name n) (Part.Part_bytes d) State.
Lemma sample_t_ok n d : zlen d < u32_max -> topic_ok (sample_t n d).
Proof. intros Hd. constructor; try done. apply Name_ok. Qed.

Lemma printed_messages_witness : let os := std_stream (str "log: ") in
  Topic_print (sample_t (str "a, 1, state]") []) os <> Topic_print (sample_t (str "a") (str "v")) os /\
  Event_print (fun _ => []) (fun _ => []) (Event.mkEvent Event.Online Event.Success Part.Part_empty) os =
    std_stream (str "log: online, success, 0" ++ [Byte.x0a]).
Proof.
  intros os. destruct (printed_messages (fun _ => []) (fun _ => []) os) as (H1 & H2 & _); [split; reflexivity|]. split.
  - intros E. apply H1 in E as (_ & _ & _ & E & _); [|apply sample_t_ok; reflexivity|apply sample_t_ok; reflexivity].
    vm_compute in E. discriminate E.
  - vm_compute. reflexivity.
Defined.

(** The text of a configuration tells all of it, when its names and end points are not empty and
    have no comma and no closing bracket in them; without that condition an end point [a, b]
    and two end points [a] and [b] print alike. *)
Theorem printed_configs (os : ostream) : plain os ->
  (forall c1 c2, wconfig_clear c1 -> wconfig_clear c2 -> WorkerConfig_print c1 os = WorkerConfig_print c2 os -> c1 = c2) /\
  (forall c1 c2, bconfig_clear c1 -> bconfig_clear c2 -> BrokerConfig_print c1 os = BrokerConfig_print c2 os -> c1 = c2) /\
  (exists c1 c2, c1 <> c2 /\ uuid_ok (b_uuid c1) /\ uuid_ok (b_uuid c2) /\ BrokerConfig_print c1 os = BrokerConfig_print c2 os).
Proof.
  intros H. split_and!.
  - intros c1 c2 H1 H2 E. apply (puts_inj _ _ _ _ _ H (WorkerConfig_puts c1) (WorkerConfig_puts c2)) in E.
    by apply wconfig_text_inj.
  - intros c1 c2 H1 H2 E. apply (puts_inj _ _ _ _ _ H (BrokerConfig_puts c1) (BrokerConfig_puts c2)) in E.
    by apply bconfig_text_inj.
  - exists (mkBrokerConfig nil_uuid [str "a, b"] [] []), (mkBrokerConfig nil_uuid [str "a"; str "b"] [] []).
    split_and!; [done|done|done|]. by rewrite !BrokerConfig_puts by done.
Qed.

Lemma clear_words l : forallb (fun s => negb (bool_decide (s = [] \/ comma ∈ s \/ closing ∈ s))) l = true -> Forall clear_text l.
Proof.
  intros H. rewrite Forall_forall. intros s Hs. rewrite forallb_forall in H. apply list_elem_of_In in Hs. specialize (H s Hs).
  apply negb_true_iff, bool_decide_eq_false in H. unfold clear_text. tauto.
Qed.

Lemma printed_configs_witness : let c1 := mkBrokerConfig nil_uuid [str "ipc:///tmp/a"] [] [] in
  let c2 := mkBrokerConfig nil_uuid [] [str "ipc:///tmp/a"] [] in
  BrokerConfig_print c1 (std_stream []) <> BrokerConfig_print c2 (std_stream []).
Proof.
  intros c1 c2 E. destruct (printed_configs (std_stream [])) as (_ & H & _); [split; reflexivity|].
  apply H in E; [discriminate E|split; [reflexivity|apply clear_words; vm_compute; reflexivity]..].
Defined.

End Texts.
