(* ===== verification/Context.v ===== *)
(** * zmq::Context (src/zmqcontext.cpp, include/fuurin/zmqcontext.h)

    The ZMQ context and the thread that runs the handlers of timers.  The calls of the ZMQ
    library, the start of the thread and the interruptions by signals are parameters; the
    thread runs the handlers until its I/O context is stopped, and uses it until then. *)

From S2P Require Import Prelude.

Local Open Scope Z_scope.

Module Context.

Definition EINTR : Z := 4.

(** The results of the library: [zmq_ctx_new] and [std::async] fail with an error, [zmq_ctx_term] at
    its attempt number [k] with an error number *)
Class ContextLib := {
  zmq_ctx_new : option Z;
  std_async : option error;
  zmq_ctx_term : nat -> option Z;
}.

(** What exists outside of the object: the ZMQ context, the I/O context and whether it is stopped,
    and the thread that runs it *)
Record world := mkWorld { ctx_ : bool; io_ : bool; io_stopped_ : bool; thread_ : bool }.
Definition nothing : world := mkWorld false false false false.

Section WithLib.
Context {L : ContextLib}.

(** [Context::terminate]: the loop over the attempts; [None] while it goes on *)
Fixpoint term_loop (fuel k : nat) : M world (option (option Z)) :=
  match fuel with
  | O => mret None
  | S fuel =>
    match zmq_ctx_term k with
    | None => modify (fun w => mkWorld false (io_ w) (io_stopped_ w) (thread_ w));; mret (Some None)
    | Some e => if e =? EINTR then term_loop fuel (S k) else mret (Some (Some e))
    end
  end.
Definition terminate (fuel : nat) : M world (option unit) :=
  r ← term_loop fuel 0;
  match r with
  | None => mret None
  | Some o => lift (ASSERT (match o with None => true | Some _ => false end));; mret (Some tt)
  end.

(** [Context::Context]: when the thread cannot be started, the scope guard terminates the ZMQ context,
    and the members made so far are destroyed. *)
Definition destroy_io : M world unit := modify (fun w => mkWorld (ctx_ w) false (io_stopped_ w) (thread_ w)).
Definition new_Context (fuel : nat) : M world (option unit) :=
  match zmq_ctx_new with
  | Some e => modify (fun w => mkWorld (ctx_ w) true (io_stopped_ w) (thread_ w));; destroy_io;;
    throw (mkError ZMQContextCreateFailed e)
  | None =>
    modify (fun w => mkWorld true true false (thread_ w));;
    match std_async with
    | Some e => r ← terminate fuel; match r with None => mret None | Some _ => destroy_io;; throw e end
    | None => modify (fun w => mkWorld (ctx_ w) (io_ w) (io_stopped_ w) true);; mret (Some tt)
    end
  end.

(** [Context::~Context], and its members in reverse order: the future waits for the thread, which ends
    when its I/O context is stopped; a thread that outlives the I/O context is undefined. *)
Definition join_thread : M world (option unit) :=
  w ← get;
  if (thread_ w && negb (io_stopped_ w))%bool then mret None
  else if (thread_ w && negb (io_ w))%bool then lift Undef
  else modify (fun w => mkWorld (ctx_ w) (io_ w) (io_stopped_ w) false);; mret (Some tt).
Definition delete_Context (fuel : nat) : M world (option unit) :=
  modify (fun w => mkWorld (ctx_ w) (io_ w) true (thread_ w));;
  r ← terminate fuel;
  match r with
  | None => mret None
  | Some _ =>
    r ← join_thread;
    match r with
    | None => mret None
    | Some _ => (w ← get; lift (if thread_ w then Undef else Ok tt));; destroy_io;; mret (Some tt)
    end
  end.

(** The attempts that a signal interrupts are [n]; the one after them has the result [o]. *)
Definition interrupted (n : nat) (o : option Z) : Prop :=
  (forall k, (k < n)%nat -> zmq_ctx_term k = Some EINTR) /\ zmq_ctx_term n = o /\ o <> Some EINTR.

Lemma term_loop_ends n o : interrupted n o -> forall fuel k w, (k <= n)%nat -> (n < k + fuel)%nat ->
  term_loop fuel k w = (Ok (Some o), if o then w else mkWorld false (io_ w) (io_stopped_ w) (thread_ w)).
Proof.
  intros (Hk & Hn & Ho) fuel. induction fuel as [|fuel IH]; intros k w H1 H2; [lia|]. cbn [term_loop].
  destruct (decide (k = n)) as [->|Hne].
  - rewrite Hn. destruct o as [e|]; [|done]. destruct (Z.eqb_spec e EINTR); [congruence|done].
  - rewrite Hk by lia. cbn. apply IH; lia.
Qed.

Lemma terminate_ends n o fuel w : interrupted n o -> (n < fuel)%nat ->
  terminate fuel w = match o with
    | None => (Ok (Some tt), mkWorld false (io_ w) (io_stopped_ w) (thread_ w))
    | Some _ => (Abort, w)
    end.
Proof.
  intros Hi Hf. unfold terminate. rewrite (M_bind_eq _ _ _ _ _ (term_loop_ends n o Hi fuel 0 w ltac:(lia) ltac:(lia))).
  by destruct o.
Qed.

End WithLib.

(** ** Theorems *)

(** The life of a context leaves nothing behind: when signals interrupt [zmq_ctx_term] any finite
    number of times before it succeeds, the constructor either returns with the ZMQ context open and
    its thread running, or throws with nothing left of either; and the destructor then returns,
    after it stopped and joined the thread, with nothing left.  When [zmq_ctx_term] fails, the
    destructor aborts. *)
Theorem context_life (L : ContextLib) (n fuel : nat) (o : option Z) : interrupted n o -> (n < fuel)%nat ->
  match o with
  | None =>
    (exists e, new_Context fuel nothing = (Throw e, nothing)) \/
    new_Context fuel nothing = (Ok (Some tt), mkWorld true true false true) /\
    delete_Context fuel (mkWorld true true false true) = (Ok (Some tt), mkWorld false false true false)
  | Some _ => (delete_Context fuel (mkWorld true true false true)).1 = Abort
  end.
Proof.
  intros Hi Hf. pose proof (fun w => terminate_ends n o fuel w Hi Hf) as Ht. destruct o as [e|].
  - unfold delete_Context. rewrite bind_modify. unfold mbind, M_bind. by rewrite Ht.
  - unfold new_Context, delete_Context. rewrite bind_modify, (M_bind_eq _ _ _ _ _ (Ht _)).
    destruct zmq_ctx_new as [e|]; [left; by eexists|]. rewrite bind_modify.
    destruct std_async as [e|]; [left|by right]. rewrite (M_bind_eq _ _ _ _ _ (Ht _)). by exists e.
Qed.

(** Two interruptions, and a thread that cannot be started *)
Definition sample_lib : ContextLib := {|
  zmq_ctx_new := None; std_async := Some (mkError Error 11);
  zmq_ctx_term := fun k => if decide (k < 2)%nat then Some EINTR else None |}.
Lemma context_life_witness : exists e, @new_Context sample_lib 3 nothing = (Throw e, nothing).
Proof.
  destruct (context_life sample_lib 2 3 None) as [H|[H _]]; [|lia|exact H|discriminate H].
  split_and!; [|reflexivity|discriminate]. intros k Hk. cbn. by rewrite decide_True.
Defined.

End Context.
