(* ===== verification/CBindings.v ===== *)
(** * The C interface (src/c/, include/fuurin/c/)

    The functions that C programs call on workers, brokers, events, topics and uuids.  The C
    objects own a worker or a broker and the future of its last session; a C string is the
    bytes up to its terminator.  A call that waits for a session is given what is known of
    the sessions at that moment, and answers [None] when it does not return yet. *)

From S2P Require Import Prelude Part PartMulti Codec Uuid UuidGen Topic Event Config Session BrokerSession Runner RunnerEvents RunnerSystem.

Local Open Scope Z_scope.

Module CBindings.
Import Part PartMulti Codec Uuid Topic Config Session Runner.
Import UuidGen(createRandomUuid, createNamespaceUuid).
Import RunnerSystem.

Abbreviation get := Prelude.get.

(** ** Uuids *)

(** [CUuid], and the two [c::uuidConvert] *)
Record CUuid := mkCUuid { bytes16 : bytes }.
Definition uuidConvert_to (id : uuid) : CUuid := mkCUuid (take uuid_size id).
Definition uuidConvert (id : CUuid) : uuid := fromBytes (take uuid_size (bytes16 id)).

(** [CUuid_createNullUuid] *)
Definition CUuid_createNullUuid : CUuid := uuidConvert_to nil_uuid.

(** The generators: [random] is what the system gives, [junk] what the hash block holds at first. *)
Definition CUuid_createRandomUuid (random : bytes) : CUuid := uuidConvert_to (createRandomUuid random).
Definition namespace_CUuid (junk : bytes) (ns : uuid) (name : bytes) : option CUuid :=
  uuidConvert_to <$> createNamespaceUuid junk ns (cstr name).
Definition CUuid_createDnsUuid (junk name : bytes) : option CUuid := namespace_CUuid junk Ns_Dns name.
Definition CUuid_createUrlUuid (junk name : bytes) : option CUuid := namespace_CUuid junk Ns_Url name.
Definition CUuid_createOidUuid (junk name : bytes) : option CUuid := namespace_CUuid junk Ns_Oid name.
Definition CUuid_createX500dnUuid (junk name : bytes) : option CUuid := namespace_CUuid junk Ns_X500dn name.

(** ** Errors *)

(** [c::withCatch]: a failed call is logged and answers [c]. *)
Definition withCatch {S A} (f c : M S A) : M S A := try_catch f (fun _ => c).

(** ** Topics *)

(** [TopicType_t] *)
Definition TopicState : Z := 0.
Definition TopicEvent : Z := 1.

Definition CTopic_brokerUuid (t : topic) : CUuid := uuidConvert_to (broker_ t).
Definition CTopic_workerUuid (t : topic) : CUuid := uuidConvert_to (worker_ t).
Definition CTopic_seqNum (t : topic) : Z := seqn_ t.
Definition CTopic_type (t : topic) : Z := match type_ t with Topic.Event => TopicEvent | State => TopicState end.
(** What is read through the pointer, up to the terminator *)
Definition CTopic_name (t : topic) : bytes := cstr (dd_ (name_ t)).
Definition CTopic_data (t : topic) : bytes := p_data (data_ t).
Definition CTopic_size (t : topic) : Z := size (data_ t).

(** ** Events *)

(** [CEventD] *)
Record CEventD := mkCEventD { ev : Event.event; tp : topic }.

(** The enumerators of [EventType_t] and [EventNotif_t] in their order *)
Definition CEvent_type (e : CEventD) : Z :=
  match Event.type_ (ev e) with
  | Event.Started => 1
  | Event.Stopped => 2
  | Event.Offline => 3
  | Event.Online => 4
  | Event.Delivery => 5
  | Event.SyncRequest => 6
  | Event.SyncBegin => 7
  | Event.SyncElement => 8
  | Event.SyncSuccess => 9
  | Event.SyncError => 10
  | Event.SyncDownloadOn => 11
  | Event.SyncDownloadOff => 12
  | Event.Invalid | Event.COUNT => 0
  end.
Definition CEvent_notif (e : CEventD) : Z :=
  match Event.notif_ (ev e) with
  | Event.Timeout => 1
  | Event.Success => 2
  | Event.Discard | Event.COUNT_notif => 0
  end.

Section WithEnv.
Context {P : Platform}.

(** [CEvent_topic]: [None] is the null pointer. *)
Definition CEvent_topic : M CEventD (option topic) :=
  try_catch
    (e ← get;
     t ← lift (topic_fromPart (Event.payld_ (ev e)));
     modify (fun e => mkCEventD (ev e) t);;
     mret (Some t))
    (fun _ => mret None).

(** ** What [CWorker] and [CBroker] have in common *)

Section Handle.
Context {S : Type} `{RunnerKind S}.

(** [CWorkerD] and [CBrokerD]: the object, its name, and the future of its last session, by the
    number of the session *)
Record handle := mkHandle { obj_ : S; cname_ : bytes; f_ : option nat }.

Definition on_obj {A} (m : M S A) : M handle A := zoom obj_ (fun s h => mkHandle s (cname_ h) (f_ h)) m.
Definition on_run {A} (m : M runner A) : M handle A := on_obj (on_runner m).
Definition set_f (f : option nat) (h : handle) : handle := mkHandle (obj_ h) (cname_ h) f.

(** The constructors [make_unique<Worker>] and [make_unique<Broker>] may throw, [made] is their
    result: the null pointer is returned then. *)
Definition C_new (made : outcome S) (name : bytes) : outcome (option handle) :=
  match made with
  | Ok s => Ok (Some (mkHandle s (cstr name) None))
  | Throw _ => Ok None
  | Abort => Abort
  | Undef => Undef
  end.

Definition C_name (h : handle) : bytes := cstr (cname_ h).
Definition C_uuid (h : handle) : CUuid := uuidConvert_to (uuid_ (runner_of (obj_ h))).

Definition C_addEndpoints (delivery dispatch snapshot : bytes) : M handle unit :=
  on_run (modify (fun r => setEndpoints (endpDelivery_ r ++ [cstr delivery]) (endpDispatch_ r ++ [cstr dispatch])
                             (endpSnapshot_ r ++ [cstr snapshot]) r)).
Definition C_clearEndpoints : M handle unit := on_run (modify (setEndpoints [] [] [])).
Definition C_endpointDelivery (h : handle) : option bytes := cstr <$> head (endpDelivery_ (runner_of (obj_ h))).
Definition C_endpointDispatch (h : handle) : option bytes := cstr <$> head (endpDispatch_ (runner_of (obj_ h))).
Definition C_endpointSnapshot (h : handle) : option bytes := cstr <$> head (endpSnapshot_ (runner_of (obj_ h))).

Definition C_stop : M handle unit := on_run stop;; mret tt.
Definition C_isRunning : M handle bool := on_run isRunning.

(** [over k] is how session [k] ended, [None] while it runs.  [f.get()] waits for it, releases
    the future and throws what the session threw. *)
Definition C_wait (over : nat -> option (outcome unit)) : M handle (option unit) :=
  h ← get;
  match f_ h with
  | None => mret (Some tt)
  | Some k =>
    match over k with
    | None => mret None
    | Some r => withCatch (modify (set_f None);; lift r) (mret tt);; mret (Some tt)
    end
  end.

(** [CWorker_start], [CBroker_start]; the session that is started is number [k]. *)
Definition C_start (over : nat -> option (outcome unit)) (k : nat) : M handle (option unit) :=
  o ← on_obj start;
  match o with
  | None => mret (Some tt)
  | Some _ =>
    r ← C_wait over;
    match r with
    | None => mret None
    | Some _ => modify (set_f (Some k));; mret (Some tt)
    end
  end.

(** [CWorker_delete], [CBroker_delete]: the members are destroyed in reverse order, so the future
    of the session, whose destructor waits for it, goes before the object, whose destructor
    sends it the stop. *)
Definition C_delete (over : nat -> option (outcome unit)) : M handle (option unit) :=
  h ← get;
  match f_ h ≫= (fun k => match over k with Some _ => None | None => Some k end) with
  | Some _ => mret None
  | None => modify (set_f None);; on_run stop;; mret (Some tt)
  end.

End Handle.
Arguments handle : clear implicits.

(** ** CBroker *)

Definition CBrokerD : Type := handle runner.
Definition CBroker_new (ctor : option error) (id : CUuid) (name : bytes) : outcome (option CBrokerD) :=
  C_new (match ctor with Some e => Throw e | None => Ok (Runner (uuidConvert id)) end) name.
Definition CBroker_name : CBrokerD -> bytes := C_name.
Definition CBroker_uuid : CBrokerD -> CUuid := C_uuid.
Definition CBroker_addEndpoints : bytes -> bytes -> bytes -> M CBrokerD unit := C_addEndpoints.
Definition CBroker_clearEndpoints : M CBrokerD unit := C_clearEndpoints.
Definition CBroker_endpointDelivery : CBrokerD -> option bytes := C_endpointDelivery.
Definition CBroker_endpointDispatch : CBrokerD -> option bytes := C_endpointDispatch.
Definition CBroker_endpointSnapshot : CBrokerD -> option bytes := C_endpointSnapshot.
Definition CBroker_start : (nat -> option (outcome unit)) -> nat -> M CBrokerD (option unit) := C_start.
Definition CBroker_stop : M CBrokerD unit := C_stop.
Definition CBroker_wait : (nat -> option (outcome unit)) -> M CBrokerD (option unit) := C_wait.
Definition CBroker_isRunning : M CBrokerD bool := C_isRunning.
Definition CBroker_delete : (nat -> option (outcome unit)) -> M CBrokerD (option unit) := C_delete.

(** ** CWorker *)

(** [CWorkerD] *)
Record CWorkerD := mkCWorkerD { wh_ : handle worker; evd_ : CEventD }.
Definition on_handle {A} (m : M (handle worker) A) : M CWorkerD A := zoom wh_ (fun h d => mkCWorkerD h (evd_ d)) m.
Definition on_w {A} (m : M worker A) : M CWorkerD A := on_handle (on_obj m).
Definition on_evd {A} (m : M CEventD A) : M CWorkerD A := zoom evd_ (fun e d => mkCWorkerD (wh_ d) e) m.
Definition worker_of (d : CWorkerD) : worker := obj_ (wh_ d).

Definition CWorker_new (ctor : option error) (id : CUuid) (seqn : Z) (name : bytes) : outcome (option CWorkerD) :=
  match C_new (match ctor with Some e => Throw e | None => Ok (Worker (uuidConvert id) seqn) end) name with
  | Ok o => Ok ((fun h => mkCWorkerD h (mkCEventD Event.Event_empty Topic_empty)) <$> o)
  | Throw e => Throw e
  | Abort => Abort
  | Undef => Undef
  end.
Definition CWorker_name (d : CWorkerD) : bytes := C_name (wh_ d).
Definition CWorker_uuid (d : CWorkerD) : CUuid := C_uuid (wh_ d).
Definition CWorker_seqNum : M CWorkerD Z := on_w seqNumber.
Definition CWorker_addEndpoints (delivery dispatch snapshot : bytes) : M CWorkerD unit :=
  on_handle (C_addEndpoints delivery dispatch snapshot).
Definition CWorker_clearEndpoints : M CWorkerD unit := on_handle C_clearEndpoints.
Definition CWorker_endpointDelivery (d : CWorkerD) : option bytes := C_endpointDelivery (wh_ d).
Definition CWorker_endpointDispatch (d : CWorkerD) : option bytes := C_endpointDispatch (wh_ d).
Definition CWorker_endpointSnapshot (d : CWorkerD) : option bytes := C_endpointSnapshot (wh_ d).
Definition CWorker_start (over : nat -> option (outcome unit)) (k : nat) : M CWorkerD (option unit) :=
  on_handle (C_start over k).
Definition CWorker_stop : M CWorkerD unit := on_handle C_stop.
Definition CWorker_wait (over : nat -> option (outcome unit)) : M CWorkerD (option unit) := on_handle (C_wait over).
Definition CWorker_isRunning : M CWorkerD bool := on_handle C_isRunning.
Definition CWorker_delete (over : nat -> option (outcome unit)) : M CWorkerD (option unit) := on_handle (C_delete over).

Definition CWorker_setTopicsAll : M CWorkerD unit := on_w (modify setTopicsAll).
Definition CWorker_addTopicsNames (name : bytes) : M CWorkerD unit :=
  on_w (modify (fun w => setTopicsNames (subscrNames_ w ++ [Name (cstr name)]) w)).
Definition CWorker_clearTopicsNames : M CWorkerD unit := on_w (modify (setTopicsNames [])).
Definition CWorker_topicsAll (d : CWorkerD) : bool := subscrAll_ (worker_of d).
Definition CWorker_topicsNames (d : CWorkerD) : option bytes :=
  (fun n => cstr (dd_ n)) <$> head (subscrNames_ (worker_of d)).

(** [CWorker_dispatch]: a type that is no enumerator leaves [ftype] without a value. *)
Definition CWorker_dispatch (name data : bytes) (type : Z) : M CWorkerD unit :=
  ftype ← lift (if type =? TopicState then Ok State else if type =? TopicEvent then Ok Topic.Event else Undef);
  withCatch (on_w (dispatch (Name (cstr name)) (Part_bytes data) ftype)) (mret tt).

Definition CWorker_sync : M CWorkerD unit := on_w sync.

(** The calls that wait for events, over the reports of the poller: [None] while they wait.
    [CWorker_waitForEvent] returns a pointer to [evd_]. *)
Definition CWorker_waitForEvent (l : list wready) : M CWorkerD (option CEventD) :=
  withCatch
    (o ← on_w (on_runner (waitForEvent None l));
     match o with
     | None => mret None
     | Some e => on_evd (modify (fun d => mkCEventD e (tp d)));; d ← get; mret (Some (evd_ d))
     end)
    (on_evd (modify (fun d => mkCEventD Event.Event_empty (tp d)));; d ← get; mret (Some (evd_ d))).

Definition waitFor (ty : Event.type) (l : list wready) : M CWorkerD (option bool) :=
  withCatch (on_w (waitForType ty l)) (mret (Some false)).
Definition CWorker_waitForStarted : list wready -> M CWorkerD (option bool) := waitFor Event.Started.
Definition CWorker_waitForStopped : list wready -> M CWorkerD (option bool) := waitFor Event.Stopped.
Definition CWorker_waitForOnline : list wready -> M CWorkerD (option bool) := waitFor Event.Online.
Definition CWorker_waitForOffline : list wready -> M CWorkerD (option bool) := waitFor Event.Offline.

Definition CWorker_waitForTopic (l : list wready) : M CWorkerD (option (option topic)) :=
  withCatch
    (o ← on_w (waitForTopic l);
     match o with
     | None => mret None
     | Some None => mret (Some None)
     | Some (Some t) => on_evd (modify (fun d => mkCEventD (ev d) t));; mret (Some (Some t))
     end)
    (mret (Some None)).

(** [CWorker_eventFD]: an exception is a failed assertion. *)
Definition CWorker_eventFD (zmq_poller_fd : option Z) : M CWorkerD Z :=
  withCatch (lift (eventFD zmq_poller_fd)) (lift (ASSERT false);; mret 0).

End WithEnv.
Arguments handle : clear implicits.

(** ** A C program and the session thread together *)

#[export] Instance setter_eq_dec : EqDecision setter.
Proof. solve_decision. Defined.
#[export] Instance label_eq_dec : EqDecision label.
Proof. solve_decision. Defined.

Section System.
Context {P : Platform}.

(** The worker with its session ([RunnerSystem]), the future the C object holds, and how the
    sessions that are over ended *)
Record csys := mkCsys { cs_ : sys; fut_ : option nat; res_ : gmap nat (outcome unit) }.

Definition over (c : csys) (k : nat) : option (outcome unit) := res_ c !! k.
Definition handle_of (c : csys) : handle worker := mkHandle (main (cs_ c)) [] (fut_ c).
Definition cinit (id : uuid) (seq0 : Z) : csys := mkCsys (init id seq0) None ∅.

(** [CWorker_start], [CWorker_wait], and the other calls of the program and steps of the session *)
Inductive clabel := CStart | CWait | CStep (l : label).

(** The result of the session that a step ended *)
Definition record_end (l : label) (s s' : sys) (res : gmap nat (outcome unit)) : gmap nat (outcome unit) :=
  match alive s, alive s' with
  | Some (_, g), None =>
    <[g := match l with SDie => Throw (mkError ZMQSocketSendFailed 0) | _ => Ok tt end]> res
  | _, _ => res
  end.

(** A call that waits is taken when it returns. *)
Definition exec_c (l : clabel) (c : csys) : option csys :=
  match l with
  | CStart =>
    match C_start (over c) (S (gen (cs_ c))) (handle_of c), exec LStart (cs_ c) with
    | (Ok (Some _), h), Some s' => Some (mkCsys s' (f_ h) (res_ c))
    | _, _ => None
    end
  | CWait =>
    match C_wait (over c) (handle_of c) with
    | (Ok (Some _), h) => Some (mkCsys (cs_ c) (f_ h) (res_ c))
    | _ => None
    end
  | CStep LStart => None
  | CStep l =>
    match exec l (cs_ c) with
    | Some s' => Some (mkCsys s' (fut_ c) (record_end l (cs_ c) s' (res_ c)))
    | None => None
    end
  end.

Inductive creachable (no_die : bool) : csys -> Prop :=
  | creach_init id seq0 : creachable no_die (cinit id seq0)
  | creach_exec l c c' : creachable no_die c -> (no_die = true -> l <> CStep SDie) -> exec_c l c = Some c' ->
    creachable no_die c'.

(** The future of a session that runs is held; the results are those of the others. *)
Record cinv (no_die : bool) (c : csys) : Prop := mkCinv {
  ci_reach : RunnerSystem.reachable no_die (cs_ c);
  ci_held : forall k g, alive (cs_ c) = Some (k, g) -> fut_ c = Some g /\ g = gen (cs_ c);
  ci_fut : forall g, fut_ c = Some g -> (0 < g <= gen (cs_ c))%nat;
  ci_res : forall g, (0 < g <= gen (cs_ c))%nat -> res_ c !! g = None <-> exists k, alive (cs_ c) = Some (k, g);
  ci_old : forall g, (gen (cs_ c) < g)%nat -> res_ c !! g = None;
  ci_pass : forall g r, res_ c !! g = Some r -> r = Ok tt \/ exists e, r = Throw e;
}.

(** A wait answers whether the session runs. *)
Lemma wait_result b c (h : handle worker) : cinv b c -> f_ h = fut_ c ->
  match alive (cs_ c) with
  | Some _ => C_wait (over c) h = (Ok None, h)
  | None => C_wait (over c) h = (Ok (Some tt), set_f None h)
  end.
Proof.
  intros [_ Hheld Hfut Hres _ Hpass] Hh. unfold C_wait. rewrite bind_get, Hh.
  destruct (alive (cs_ c)) as [[k g]|] eqn:Ea.
  - destruct (Hheld k g eq_refl) as [Hf Hg]. rewrite Hf. specialize (Hfut g Hf).
    assert (res_ c !! g = None) as Hn by (apply Hres; eauto). unfold over. by rewrite Hn.
  - destruct (fut_ c) as [g|] eqn:Ef; [|by destruct h; cbn in *; subst].
    destruct (res_ c !! g) as [r|] eqn:Er.
    2: { apply Hres in Er as [k Hk]; [done|auto]. }
    unfold over. rewrite Er. by destruct (Hpass g r Er) as [->|[e ->]].
Qed.

Lemma on_obj_eq {A} (m : M worker A) (h : handle worker) : on_obj m h =
  ((m (obj_ h)).1, mkHandle (m (obj_ h)).2 (cname_ h) (f_ h)).
Proof. unfold on_obj, zoom. by destruct (m (obj_ h)). Qed.

(** A start returns: the session before the one it starts is over. *)
Lemma start_returns b c o w' : cinv b c -> start (main (cs_ c)) = (Ok o, w') ->
  C_start (over c) (S (gen (cs_ c))) (handle_of c) =
  (Ok (Some tt), mkHandle w' [] (match o with Some _ => Some (S (gen (cs_ c))) | None => fut_ c end)) /\
  (o = None <-> alive (cs_ c) <> None).
Proof.
  intros Hi E. pose proof (reachable_flag _ _ (ci_reach _ _ Hi)) as Hf.
  pose proof (start_result _ _ _ _ _ Hf E) as Hs. pose proof (wait_result b c (mkHandle w' [] (fut_ c)) Hi eq_refl) as Hw.
  unfold C_start, mbind at 1, M_bind at 1. rewrite on_obj_eq. cbn [obj_ handle_of cname_ f_]. rewrite E. cbn [fst snd].
  destruct (alive (cs_ c)) as [a|].
  { destruct Hs as [-> _]. split; [done|]. split; [by intros _ ?|done]. }
  destruct Hs as (tok & m & -> & _). split; [|split; [done|by intros []]].
  by rewrite (M_bind_eq _ _ _ _ _ Hw).
Qed.

(** The other steps start no session. *)
Lemma exec_other l s s' : l <> LStart -> exec l s = Some s' ->
  gen s' = gen s /\ (alive s' = alive s \/ alive s' = None).
Proof.
  intros Hl E. destruct (decide (l = SRecv)) as [->|Hr].
  - cbn [exec] in E. destruct (alive s) as [[k g]|] eqn:Ea; [|done]. destruct (queued (main s)) as [|m q]; [done|].
    destruct (recvOperation k m.1 m.2) as [op| | |]; try done. destruct (decide _); [injection E as <-; cbn; auto|].
    destruct (decide (Operation.type_ op = Operation.Stop)); injection E as <-; cbn; auto.
  - destruct l as [| | |s0|n d ty| | | |n|]; try done; cbn [exec] in E;
      repeat match type of E with
      | (match ?x with _ => _ end) = _ => destruct x; try discriminate E
      end; injection E as <-; cbn; auto.
Qed.

Lemma step_alive_some l s s' k g : l <> LStart -> exec l s = Some s' -> alive s' = Some (k, g) -> alive s = Some (k, g).
Proof. intros Hl E Ha. destruct (exec_other l s s' Hl E) as [_ [He|He]]; congruence. Qed.

Lemma step_cinv b l c s' : cinv b c -> l <> LStart -> (b = true -> l <> SDie) -> exec l (cs_ c) = Some s' ->
  cinv b (mkCsys s' (fut_ c) (record_end l (cs_ c) s' (res_ c))).
Proof.
  intros [Hr Hheld Hfut Hres Hold Hpass] Hl Hd E. destruct (exec_other l _ s' Hl E) as [Hg Ha].
  constructor; cbn [cs_ fut_ res_].
  - by eapply reach_exec.
  - intros k g Hk. rewrite Hg. eapply Hheld, step_alive_some; eauto.
  - intros g Hf. rewrite Hg. auto.
  - intros g. rewrite Hg. intros Hb. unfold record_end. destruct (alive (cs_ c)) as [[k0 g0]|] eqn:Ea.
    + destruct Ha as [->| ->]; [by apply Hres|]. destruct (decide (g = g0)) as [->|Hne].
      * rewrite lookup_insert_eq. split; [done|by intros [? ?]].
      * rewrite lookup_insert_ne by done. rewrite Hres by done. split; [intros [k Hk]; congruence|by intros [? ?]].
    + assert (alive s' = None) as -> by (by destruct Ha). by apply Hres.
  - intros g. rewrite Hg. intros Hlt. unfold record_end. destruct (alive (cs_ c)) as [[k0 g0]|] eqn:Ea; [|auto].
    destruct Ha as [->| ->]; [auto|]. destruct (Hheld k0 g0 eq_refl) as [_ ->]. rewrite lookup_insert_ne by lia. auto.
  - intros g r. unfold record_end. destruct (alive (cs_ c)) as [[k0 g0]|], (alive s'); try apply Hpass.
    intros [[_ <-]|[_ Hr']]%lookup_insert_Some; [|by eapply Hpass]. destruct l; eauto.
Qed.

Lemma exec_c_cinv b l c c' : cinv b c -> (b = true -> l <> CStep SDie) -> exec_c l c = Some c' -> cinv b c'.
Proof.
  intros Hi Hd E. destruct l as [| |l].
  - cbn [exec_c exec] in E. destruct (start (main (cs_ c))) as [[o| | |] w'] eqn:Es;
      try (destruct (C_start _ _ _) as [[[]| | |] ?]; discriminate E).
    destruct (start_returns b c o w' Hi Es) as [Ec Ho]. rewrite Ec in E. injection E as <-. cbn [f_].
    pose proof (start_result _ _ _ _ _ (reachable_flag _ _ (ci_reach _ _ Hi)) Es) as Hs.
    assert (RunnerSystem.reachable b (spawn o (call (match o with Some _ => S (gen (cs_ c)) | None => gen (cs_ c) end) w' (cs_ c)))) as Hr.
    { eapply (reach_exec b LStart); [apply Hi|done|]. cbn [exec]. by rewrite Es. }
    destruct Hi as [_ Hheld Hfut Hres Hold Hpass]. destruct (alive (cs_ c)) as [a|] eqn:Ea.
    + destruct Hs as [-> _]. constructor; try done; cbn; rewrite Ea; eauto.
    + destruct Hs as (tok & m & -> & _). constructor; try done; cbn [cs_ fut_ res_ spawn alive gen call].
      * by intros k g [= <- <-].
      * intros g [= <-]. lia.
      * intros g Hg. destruct (decide (g = S (gen (cs_ c)))) as [->|Hne].
        -- rewrite Hold by lia. split; [by eexists|done].
        -- rewrite Hres by lia. split; [by intros [? ?]|intros [? [= _ ?]]; lia].
      * intros g Hg. apply Hold. lia.
  - cbn [exec_c] in E. pose proof (wait_result b c (handle_of c) Hi eq_refl) as Hw. destruct Hi as [Hr Hheld Hfut Hres Hold Hpass].
    destruct (alive (cs_ c)) as [a|] eqn:Ea; rewrite Hw in E; [done|]. injection E as <-.
    constructor; try done; cbn; by rewrite Ea.
  - cbn [exec_c] in E. destruct (decide (l = LStart)) as [->|Hl]; [done|].
    assert (match exec l (cs_ c) with
            | Some s' => Some (mkCsys s' (fut_ c) (record_end l (cs_ c) s' (res_ c))) | None => None end = Some c') as E'
      by (by destruct l). clear E. destruct (exec l (cs_ c)) as [s'|] eqn:Ex; [|done]. injection E' as <-.
    apply step_cinv; [done|done| |done]. intros Hb ->. by apply (Hd Hb).
Qed.

Lemma creachable_inv b c : creachable b c -> cinv b c.
Proof.
  induction 1 as [id seq0|l c c' _ IH Hd E]; [|by eapply exec_c_cinv].
  constructor; cbn; try done; [apply reach_init|intros; lia].
Qed.

(** ** Waiting for the end of a session *)

Fixpoint crun (ls : list clabel) (c : csys) : option csys :=
  match ls with
  | [] => Some c
  | l :: ls => match exec_c l c with Some c' => crun ls c' | None => None end
  end.

Lemma crun_reachable b ls : forall c c', creachable b c -> (b = true -> CStep SDie ∉ ls) -> crun ls c = Some c' ->
  creachable b c'.
Proof.
  induction ls as [|l ls IH]; intros c c' Hr Hd; cbn [crun]; [by intros [= <-]|].
  destruct (exec_c l c) as [c1|] eqn:E; [|done]. apply IH.
  - eapply creach_exec; [done| |done]. intros Hb ->. apply (Hd Hb). left.
  - intros Hb Hin. apply (Hd Hb). by right.
Qed.

(** A stop is waiting for the session that runs. *)
Definition stop_queued (s : sys) : Prop := exists m, (gen s, m) ∈ queue s /\ is_stop m = true.

(** The session takes the next operation: a stop with its token ends it. *)
Lemma recv_step b s k e q : RunnerSystem.reachable b s -> alive s = Some (k, gen s) -> queue s = e :: q ->
  exists s', exec SRecv s = Some s' /\ queue s' = q /\ gen s' = gen s /\
    (alive s' = Some (k, gen s) \/ alive s' = None) /\
    (alive s' = None <-> same_token e.1 (gen s) /\ is_stop e.2 = true).
Proof.
  intros Hr Ha Hq. pose proof (reachable_any _ _ Hr) as Hi. pose proof (reachable_flag _ _ Hr) as Hf. rewrite Ha in Hf.
  assert (queued (main s) = e.2 :: q.*2) as Hm by (rewrite <-(ai_queue _ Hi), Hq; done).
  pose proof (ai_msgs _ Hi) as Hok. rewrite Hq in Hok. apply Forall_cons in Hok as [[_ [op Hop]] _].
  destruct (head_any k e.2 (q.*2) s Hi Hf Hm) as (g & Hg & _ & _ & Htok).
  assert (g = e.1) as -> by (rewrite Hq in Hg; by injection Hg as ->).
  cbn [exec]. rewrite Ha, Hm. unfold recvOperation. rewrite Hop.
  assert (is_stop e.2 = bool_decide (Operation.type_ op = Operation.Stop)) as Hst by (unfold is_stop; by rewrite Hop).
  destruct (Z.eqb_spec (toUint8 e.2.1) k) as [Hk|Hk]; cbn [Operation.notif_ Operation.withNotification].
  - rewrite decide_False by done. apply Htok in Hk. rewrite Hst.
    eexists. split; [done|]. cbn [Operation.type_ Operation.withNotification].
    destruct (decide (Operation.type_ op = Operation.Stop)) as [Hs|Hs]; cbn [queue gen alive take_op finish]; rewrite Hq, ?Ha;
      first [rewrite bool_decide_eq_true_2 by done|rewrite bool_decide_eq_false_2 by done]; split_and!; try done; auto.
    split; [done|by intros []].
  - rewrite decide_True by done. eexists. split; [done|]. cbn [queue gen alive take_op]. rewrite Ha, Hq.
    split_and!; try done; [by left|]. split; [done|]. intros [Hs _]. by apply Htok in Hs.
Qed.

Lemma cinv_alive b c k g : creachable b c -> alive (cs_ c) = Some (k, g) -> alive (cs_ c) = Some (k, gen (cs_ c)).
Proof. intros Hc Ha. by destruct (ci_held _ _ (creachable_inv _ _ Hc) k g Ha) as [_ <-]. Qed.

(** With a stop in the queue the session ends after as many steps as there are operations. *)
Lemma drain b n : forall c, creachable b c -> alive (cs_ c) <> None -> length (queue (cs_ c)) = n -> stop_queued (cs_ c) ->
  exists j c', (j <= n)%nat /\ crun (replicate j (CStep SRecv)) c = Some c' /\ creachable b c' /\ alive (cs_ c') = None.
Proof.
  induction n as [|n IH]; intros c Hc Ha Hn (m & Hm & Hst).
  { destruct (queue (cs_ c)); [by apply not_elem_of_nil in Hm|done]. }
  destruct (alive (cs_ c)) as [[k g]|] eqn:Ea; [|done]. pose proof (cinv_alive _ _ _ _ Hc Ea) as Ea'.
  destruct (queue (cs_ c)) as [|e q] eqn:Eq; [done|]. cbn in Hn.
  destruct (recv_step b (cs_ c) k e q (ci_reach _ _ (creachable_inv _ _ Hc)) Ea' Eq) as (s' & E & Hq' & Hg' & Hor & Hiff).
  assert (exec_c (CStep SRecv) c = Some (mkCsys s' (fut_ c) (record_end SRecv (cs_ c) s' (res_ c)))) as Ec
    by (cbn [exec_c]; by rewrite E).
  assert (creachable b (mkCsys s' (fut_ c) (record_end SRecv (cs_ c) s' (res_ c)))) as Hc'
    by (eapply creach_exec; [exact Hc| |exact Ec]; intros _; discriminate).
  destruct Hor as [Hs|Hs].
  - assert (stop_queued s') as Hst'.
    { exists m. rewrite Hg', Hq'. split; [|done]. apply elem_of_cons in Hm as [Hm|?]; [|done].
      subst e. destruct (proj2 Hiff) as []; [done|]. congruence. }
    destruct (IH _ Hc') as (j & c' & Hj & E' & ? & ?); [cbn; congruence|cbn; rewrite Hq'; lia|done|].
    exists (S j), c'. split_and!; [lia| |done|done]. cbn [replicate crun]. by rewrite Ec.
  - exists 1%nat, (mkCsys s' (fut_ c) (record_end SRecv (cs_ c) s' (res_ c))). split_and!; [lia| |done|done].
    cbn [replicate crun]. by rewrite Ec.
Qed.

(** A stop reaches the queue. *)
Lemma stop_step b c : creachable b c -> alive (cs_ c) <> None ->
  exists c', exec_c (CStep LStop) c = Some c' /\ creachable b c' /\ alive (cs_ c') = alive (cs_ c) /\
    length (queue (cs_ c')) = S (length (queue (cs_ c))) /\ stop_queued (cs_ c').
Proof.
  intros Hc Ha. pose proof (reachable_flag _ _ (ci_reach _ _ (creachable_inv _ _ Hc))) as Hf.
  destruct (isRunning_spec _ _ _ Hf) as (r' & Er & Hf' & _ & _ & Ht & Hz & _). rewrite bool_decide_eq_true_2 in Er by done.
  destruct (Operation.operation_roundtrip (Operation.mkOp Operation.Stop Operation.Success Part_empty)) as (d & Hd & _ & Hop).
  { by constructor. }
  assert (sendOperation Operation.Stop Part_empty r' = (Ok tt, set_zops (zops_ r' ++ [(Part_uint8 (token_ r'), Part_bytes d)]) r')) as Es
    by (unfold sendOperation; change (noexcept_ (Part_copy Part_empty)) with (Ok Part_empty); cbn [mbind outcome_bind]; by rewrite Hd).
  assert (on_runner (S := worker) stop (main (cs_ c)) =
    (Ok true, set_w_runner (set_zops (zops_ r' ++ [(Part_uint8 (token_ r'), Part_bytes d)]) r') (main (cs_ c)))) as Eo.
  { unfold on_runner, zoom. cbn [runner_of set_runner worker_kind]. unfold stop. rewrite (M_bind_eq _ _ _ _ _ Er).
    cbn [negb]. by rewrite (M_bind_eq _ _ _ _ _ Es). }
  assert (exec_c (CStep LStop) c = Some (mkCsys (call (gen (cs_ c)) (set_w_runner
    (set_zops (zops_ r' ++ [(Part_uint8 (token_ r'), Part_bytes d)]) r') (main (cs_ c))) (cs_ c)) (fut_ c) (res_ c))) as Ec.
  { cbn [exec_c exec]. rewrite Eo. do 2 f_equal. unfold record_end. cbn [alive call]. by destruct (alive (cs_ c)) as [[]|]. }
  eexists. split; [exact Ec|]. split; [eapply creach_exec; [exact Hc| |exact Ec]; intros _; discriminate|]. cbn [cs_ alive call queue gen].
  unfold queued. cbn [w_runner set_w_runner zops_ set_zops]. rewrite Hz, drop_app_length. cbn [fmap list_fmap].
  split_and!; [done|rewrite length_app; cbn; lia|]. exists (Part_uint8 (token_ r'), Part_bytes d). cbn [queue gen call].
  split; [|unfold is_stop; cbn [snd]; by rewrite Hop]. unfold queued. cbn [w_runner set_w_runner zops_ set_zops].
  rewrite drop_app_length. apply elem_of_app. right. left.
Qed.

(** Without one, the session ends only by throwing. *)
Definition session_step (l : clabel) : Prop := match l with CStep SRecv | CStep (SNotify _) | CStep SDie => True | _ => False end.

Definition throws (l : clabel) : bool := match l with CStep SDie => true | _ => false end.

(** No operation the session would take for its own is a stop. *)
Definition no_stop_queued (s : sys) : Prop := forall e, e ∈ queue s -> same_token e.1 (gen s) -> is_stop e.2 = false.

Lemma session_over b ls : forall c c', creachable b c -> alive (cs_ c) = None -> Forall session_step ls -> crun ls c = Some c' -> ls = [].
Proof.
  destruct ls as [|l ls]; [done|]. intros c c' Hc Ha [Hl _]%Forall_cons E. cbn [crun] in E.
  destruct l as [| |[| | |?|? ? ?| | | |n|]]; try done; cbn [exec_c exec] in E; by rewrite Ha in E.
Qed.

Lemma ends_by_throwing b ls : forall c c', creachable b c -> alive (cs_ c) <> None -> no_stop_queued (cs_ c) ->
  Forall session_step ls -> (b = true -> existsb throws ls = false) -> crun ls c = Some c' ->
  creachable b c' /\ bool_decide (alive (cs_ c') = None) = existsb throws ls.
Proof.
  induction ls as [|l ls IH]; intros c c' Hc Ha Hno Hls Hd; cbn [crun existsb] in *.
  { intros [= <-]. split; [done|]. by apply bool_decide_eq_false_2. }
  apply Forall_cons in Hls as [Hl Hls]. destruct (exec_c l c) as [c1|] eqn:E; [|done].
  assert (creachable b c1) as Hc1 by (eapply creach_exec; [done| |done]; intros Hb ->; by specialize (Hd Hb)).
  assert (b = true -> existsb throws ls = false) as Hd' by (intros Hb; by apply Hd, orb_false_iff in Hb as [_ ?]).
  destruct (alive (cs_ c)) as [[k g]|] eqn:Ea; [|done]. pose proof (cinv_alive _ _ _ _ Hc Ea) as Ea'.
  destruct l as [| |[| | |?|? ? ?| | | |n|]]; try done; cbn [exec_c throws orb] in *.
  - destruct (queue (cs_ c)) as [|e q] eqn:Eq.
    { cbn [exec] in E. pose proof (ai_queue _ (reachable_any _ _ (ci_reach _ _ (creachable_inv _ _ Hc)))) as Hq.
      rewrite Eq in Hq. cbn in Hq. by rewrite Ea', <-Hq in E. }
    destruct (recv_step b (cs_ c) k e q (ci_reach _ _ (creachable_inv _ _ Hc)) Ea' Eq) as (s' & Es & Hq' & Hg' & Hor & Hiff).
    rewrite Es in E. injection E as <-. apply IH; try done; cbn [cs_].
    + intros Hs. destruct (proj1 Hiff Hs) as [He Hst]. rewrite (Hno e) in Hst; [done| |done]. rewrite Eq. left.
    + intros m. rewrite Hg', Hq'. intros Hm. apply Hno. rewrite Eq. by right.
  - cbn [exec] in E. rewrite Ea' in E. injection E as <-. by apply IH.
  - cbn [exec] in E. rewrite Ea' in E. injection E as <-. intros E'.
    apply (session_over b) in E' as Hnil; [|done..]. subst ls. by injection E' as <-.
Qed.

End System.

(** Deleting the object waits for the session that runs, and returns when there is none. *)
Lemma delete_result {P : Platform} b c e : creachable b c ->
  (CWorker_delete (over c) (mkCWorkerD (handle_of c) e)).1 = Ok (if bool_decide (alive (cs_ c) = None) then Some tt else None).
Proof.
  intros Hi%creachable_inv. pose proof (reachable_flag _ _ (ci_reach _ _ Hi)) as Hfl. destruct Hi as [_ Hheld Hfut Hres _ _].
  unfold CWorker_delete, on_handle, zoom, C_delete. rewrite bind_get. cbn [wh_ handle_of f_].
  destruct (alive (cs_ c)) as [[k g]|] eqn:Ea.
  - destruct (Hheld k g eq_refl) as [Hf Hg]. rewrite Hf. cbn [mbind option_bind]. unfold over.
    rewrite (proj2 (Hres g (Hfut g Hf))) by eauto. by rewrite bool_decide_eq_false_2.
  - assert (fut_ c ≫= (fun k => match over c k with Some _ => None | None => Some k end) = None) as ->.
    { destruct (fut_ c) as [g|] eqn:Ef; [|done]. cbn [mbind option_bind]. unfold over.
      destruct (res_ c !! g) eqn:Er; [done|]. apply Hres in Er as [k ?]; [done|auto]. }
    rewrite bind_modify, bool_decide_eq_true_2 by done.
    destruct (isRunning_spec _ _ _ Hfl) as (r' & Er & _). rewrite bool_decide_eq_false_2 in Er by (intros []; done).
    assert (on_runner (S := worker) stop (main (cs_ c)) = (Ok false, set_w_runner r' (main (cs_ c)))) as Es
      by (unfold on_runner, zoom; cbn [runner_of set_runner worker_kind]; unfold stop; by rewrite (M_bind_eq _ _ _ _ _ Er)).
    assert (on_obj (on_runner (S := worker) stop) (set_f None (handle_of c)) =
      (Ok false, mkHandle (set_w_runner r' (main (cs_ c))) (cname_ (handle_of c)) None)) as Eo
      by (rewrite on_obj_eq; cbn [obj_ set_f handle_of cname_ f_]; by rewrite Es).
    unfold on_run. by rewrite (M_bind_eq _ _ _ _ _ Eo).
Qed.

(** ** Topics through the C interface *)

Lemma cstr_replicate n : cstr (replicate n Byte.x00) = [].
Proof. by destruct n. Qed.
Lemma cstr_zero l n : Byte.x00 ∉ l -> cstr (l ++ replicate n Byte.x00) = l.
Proof.
  induction l as [|b l IH]; cbn [app cstr]; [by rewrite cstr_replicate|].
  rewrite not_elem_of_cons. intros [Hb Hl]. rewrite decide_False by congruence. by rewrite IH.
Qed.

(** The name of a topic, read by C, is the C string it was made of, up to the capacity. *)
Lemma CTopic_name_Name s : cstr (dd_ (Name (cstr s))) = take name_capacity (cstr s).
Proof.
  unfold Name, zero_fill. cbn [dd_]. rewrite cstr_zero.
  - destruct (decide (length (cstr s) <= name_capacity)%nat); [by rewrite !take_ge by lia|f_equal; lia].
  - intros (i & Hi & _)%elem_of_take. by eapply cstr_no_nul, list_elem_of_lookup_2.
Qed.

Lemma uuid_C_roundtrip u : uuid_ok u -> uuidConvert (uuidConvert_to u) = u.
Proof. intros Hu. unfold uuidConvert, uuidConvert_to, fromBytes. cbn [bytes16]. rewrite take_take. apply take_ge. unfold uuid_ok in Hu. lia. Qed.

(** The enumerators of the two languages have the same values. *)
Lemma event_codes e : Event.type_ (ev e) <> Event.COUNT -> Event.notif_ (ev e) <> Event.COUNT_notif ->
  CEvent_type e = Event.toIntegral (Event.type_ (ev e)) /\ CEvent_notif e = Event.notif_toIntegral (Event.notif_ (ev e)).
Proof. intros Ht Hn. unfold CEvent_type, CEvent_notif. by destruct (Event.type_ (ev e)), (Event.notif_ (ev e)). Qed.

Section Containment.
Context {P : Platform}.

(** No exception passes the calls that catch them. *)
Definition contained {S A} (m : M S A) : Prop := forall s e, (m s).1 <> Throw e.

Lemma contained_withCatch {S A} (f c : M S A) : contained c -> contained (withCatch f c).
Proof. intros Hc s e. unfold withCatch, try_catch. destruct (f s) as [[a| e' | |] s']; done. Qed.

Lemma calls_contained l name data ty :
  contained (CWorker_waitForEvent l) /\ contained (CWorker_waitForTopic l) /\ contained (CWorker_waitForStarted l) /\
  contained (CWorker_waitForStopped l) /\ contained (CWorker_waitForOnline l) /\ contained (CWorker_waitForOffline l) /\
  contained (CWorker_dispatch name data ty) /\ contained CEvent_topic.
Proof.
  split_and!; try (by apply contained_withCatch).
  intros d e. unfold CWorker_dispatch, mbind, M_bind, lift. destruct (_ =? _); [by apply contained_withCatch|].
  destruct (_ =? _); [by apply contained_withCatch|done].
Qed.

End Containment.

(** ** Theorems *)

Definition cworker_of (c : csys) (e : CEventD) : CWorkerD := mkCWorkerD (handle_of c) e.

(** C23: Starting and waiting from C: in every interleaving of a C program with the sessions of
    its worker, [CWorker_start] never blocks, although it waits for the session before the one
    it starts; the object always holds the future of the session that runs, so
    [CWorker_wait] blocks exactly while one runs, and returns also when the session threw. *)
Theorem c_wait_exact (P : Platform) (b : bool) (c : csys) (e : CEventD) : creachable b c ->
  (CWorker_wait (over c) (cworker_of c e)).1 = Ok (match alive (cs_ c) with Some _ => None | None => Some tt end) /\
  (forall o, (CWorker_start (over c) (S (gen (cs_ c))) (cworker_of c e)).1 = Ok o -> o = Some tt) /\
  (alive (cs_ c) <> None -> fut_ c = Some (gen (cs_ c))).
Proof.
  intros Hi%creachable_inv. split_and!.
  - pose proof (wait_result b c (handle_of c) Hi eq_refl) as Hw. unfold CWorker_wait, on_handle, zoom. cbn [wh_ cworker_of].
    destruct (alive (cs_ c)); by rewrite Hw.
  - intros o. unfold CWorker_start, on_handle, zoom. cbn [wh_ cworker_of].
    destruct (start (main (cs_ c))) as [[o'| | |] w'] eqn:Es;
      [destruct (start_returns b c o' w' Hi Es) as [-> _]; by intros [= <-]|..];
      unfold C_start, mbind at 1, M_bind at 1; rewrite on_obj_eq; cbn [obj_ handle_of]; by rewrite Es.
  - intros Ha. destruct (alive (cs_ c)) as [[k g]|] eqn:Ea; [|done].
    by destruct (ci_held _ _ Hi k g Ea) as [-> ->].
Qed.

(** C24: Stopping from C ends the session: after [CWorker_stop] the session needs at most one step
    per operation it still has to take, left-overs of earlier sessions included, and then
    [CWorker_wait] returns; earlier sessions may have ended by exception. *)
Theorem c_stop_then_wait (P : Platform) (b : bool) (c : csys) (e : CEventD) : creachable b c -> alive (cs_ c) <> None ->
  exists c1 n c2, exec_c (CStep LStop) c = Some c1 /\ (n <= S (length (queue (cs_ c))))%nat /\
    crun (replicate n (CStep SRecv)) c1 = Some c2 /\
    (CWorker_wait (over c2) (cworker_of c2 e)).1 = Ok (Some tt).
Proof.
  intros Hc Ha. destruct (stop_step b c Hc Ha) as (c1 & E1 & Hc1 & Ha1 & Hlen & Hst). rewrite <-Ha1 in Ha.
  destruct (drain b _ c1 Hc1 Ha Hlen Hst) as (n & c2 & Hn & E2 & Hc2 & Ha2). exists c1, n, c2. split_and!; try done.
  pose proof (wait_result b c2 (handle_of c2) (creachable_inv _ _ Hc2) eq_refl) as Hw. rewrite Ha2 in Hw.
  unfold CWorker_wait, on_handle, zoom. cbn [wh_ cworker_of]. by rewrite Hw.
Qed.

(** C39: Deleting a running worker from C hangs unless the session throws: when no stop waits for the
    session, [CWorker_delete] waits for it in the destructor of the future, because the stop is
    sent by the destructor of the worker, which comes after; so after any steps of the session,
    the deletion returns if the session has ended by an exception, and blocks otherwise. *)
Theorem c_delete_running_hangs (P : Platform) (b : bool) (c c' : csys) (e : CEventD) (ls : list clabel) :
  creachable b c -> alive (cs_ c) <> None -> no_stop_queued (cs_ c) ->
  Forall session_step ls -> (b = true -> existsb throws ls = false) -> crun ls c = Some c' ->
  (CWorker_delete (over c') (cworker_of c' e)).1 = Ok (if existsb throws ls then Some tt else None).
Proof.
  intros Hc Ha Hno Hls Hd E. destruct (ends_by_throwing b ls c c' Hc Ha Hno Hls Hd E) as [Hc' Ha'].
  rewrite <-Ha'. by apply (delete_result b).
Qed.

(** What C dispatches is what C reads: on a running worker [CWorker_dispatch] sends one operation
    with a topic whose C view has the name (cut at the capacity), the data and its size, the
    type, and the uuid of the worker as given. *)
Theorem c_dispatch_roundtrip (P : Platform) (d : CWorkerD) (name data : bytes) (ty : Z) :
  let r := w_runner (worker_of d) in
  zfinr_ r = None -> running_ r = true -> uuid_ok (uuid_ r) -> zlen data < u32_max - 1024 ->
  ty = TopicState \/ ty = TopicEvent ->
  exists d' p op t, CWorker_dispatch name data ty d = (Ok tt, d') /\
    zops_ (w_runner (worker_of d')) = zops_ r ++ [(Part_uint8 (token_ r), p)] /\
    Operation.operation_fromPart p = Ok op /\ Operation.type_ op = Operation.Dispatch /\
    topic_fromPart (Operation.payld_ op) = Ok t /\
    CTopic_name t = take name_capacity (cstr name) /\ CTopic_data t = data /\ CTopic_size t = zlen data /\
    CTopic_type t = ty /\ CTopic_workerUuid t = CWorker_uuid d.
Proof.
  intros r Hz Hrun Hu Hlen Hty.
  assert (exists ft, (if ty =? TopicState then Ok State else if ty =? TopicEvent then Ok Topic.Event else Undef) = Ok ft /\
    ty = match ft with Topic.Event => TopicEvent | State => TopicState end) as (ft & Eft & Hft)
    by (destruct Hty as [->| ->]; eauto).
  destruct (RunnerEvents.dispatch_running (cstr name) data ft (worker_of d)) as (dt & dp & Ed & Hop & Htp); [done..|].
  exists (mkCWorkerD (mkHandle (set_w_runner (set_zops (zops_ r ++ [(Part_uint8 (token_ r), Part_bytes dp)]) r) (worker_of d))
    (cname_ (wh_ d)) (f_ (wh_ d))) (evd_ d)), (Part_bytes dp), (Operation.mkOp Operation.Dispatch Operation.Success (Part_bytes dt)),
    (mkTopic nil_uuid (uuid_ r) 0 (Name (cstr name)) (Part_bytes data) ft).
  split_and!; try done.
  - unfold CWorker_dispatch. rewrite Eft, bind_lift. unfold withCatch, try_catch, on_w, on_handle, on_obj, zoom.
    fold (worker_of d). by rewrite Ed.
  - apply CTopic_name_Name.
Qed.

(** ** A program *)

Definition sample_cinit : csys := cinit (replicate 16 Byte.xaa) 7.
Definition sample_evd : CEventD := mkCEventD Event.Event_empty Topic_empty.
(** Started, stopped twice, ended, and started again: a left-over and a start are in the queue. *)
Definition sample_again : list clabel :=
  [CStart; CStep SRecv; CStep LStop; CStep LStop; CStep SRecv; CStart].

Lemma sample_crun ls (Q : csys -> bool) : CStep SDie ∉ ls ->
  match @crun x86_64 ls sample_cinit with Some c => Q c | None => false end = true ->
  exists c, @crun x86_64 ls sample_cinit = Some c /\ @creachable x86_64 true c /\ Q c = true.
Proof.
  intros Hd H. destruct (@crun x86_64 ls sample_cinit) as [c|] eqn:E; [|done]. exists c. split_and!; [done| |done].
  eapply (@crun_reachable x86_64 true ls sample_cinit); [apply creach_init|done|done].
Qed.

Definition is_alive (c : csys) : bool := match alive (cs_ c) with Some _ => true | None => false end.

Lemma sample_again_no_die : CStep SDie ∉ sample_again.
Proof. unfold sample_again. rewrite !not_elem_of_cons. split_and!; try discriminate. apply not_elem_of_nil. Qed.

Lemma c_wait_exact_witness : exists c, @crun x86_64 sample_again sample_cinit = Some c /\
  (CWorker_wait (over c) (cworker_of c sample_evd)).1 = Ok None /\ fut_ c = Some (gen (cs_ c)).
Proof.
  destruct (sample_crun sample_again is_alive sample_again_no_die) as (c & E & Hc & Ha); [vm_compute; reflexivity|].
  exists c. destruct (c_wait_exact x86_64 true c sample_evd Hc) as (H1 & _ & H3). unfold is_alive in Ha.
  destruct (alive (cs_ c)); [|discriminate Ha]. split; [exact E|]. split; [exact H1|]. apply H3. discriminate.
Defined.

Lemma c_stop_then_wait_witness : exists c c1 n c2, @crun x86_64 sample_again sample_cinit = Some c /\
  @exec_c x86_64 (CStep LStop) c = Some c1 /\ @crun x86_64 (replicate n (CStep SRecv)) c1 = Some c2 /\
  (CWorker_wait (over c2) (cworker_of c2 sample_evd)).1 = Ok (Some tt).
Proof.
  destruct (sample_crun sample_again is_alive sample_again_no_die) as (c & E & Hc & Ha); [vm_compute; reflexivity|].
  destruct (c_stop_then_wait x86_64 true c sample_evd Hc) as (c1 & n & c2 & H1 & _ & H3 & H4).
  - unfold is_alive in Ha. destruct (alive (cs_ c)); discriminate.
  - exists c, c1, n, c2. split; [exact E|]. split; [exact H1|]. split; [exact H3|exact H4].
Defined.

Definition no_stop (c : csys) : bool :=
  forallb (fun e => negb (Z.eqb (Z.of_nat e.1 mod 256) (Z.of_nat (gen (cs_ c)) mod 256) && @is_stop x86_64 e.2)) (queue (cs_ c)).

(** The session that runs takes its operations, and then throws or does not. *)
Lemma c_delete_running_hangs_witness : exists c c1 c2, @crun x86_64 sample_again sample_cinit = Some c /\
  @crun x86_64 [CStep SRecv; CStep SRecv] c = Some c1 /\ @crun x86_64 [CStep SRecv; CStep SDie] c = Some c2 /\
  (@CWorker_delete x86_64 (over c1) (cworker_of c1 sample_evd)).1 = Ok None /\
  (@CWorker_delete x86_64 (over c2) (cworker_of c2 sample_evd)).1 = Ok (Some tt).
Proof.
  assert (match @crun x86_64 sample_again sample_cinit with
          | Some c => is_alive c && no_stop c && match @crun x86_64 [CStep SRecv; CStep SRecv] c, @crun x86_64 [CStep SRecv; CStep SDie] c with
                      | Some _, Some _ => true | _, _ => false end
          | None => false end = true)%bool as K by (vm_compute; reflexivity).
  destruct (@crun x86_64 sample_again sample_cinit) as [c|] eqn:E; [|discriminate K].
  apply andb_true_iff in K as [[Ha Hs]%andb_true_iff Hr].
  destruct (@crun x86_64 [CStep SRecv; CStep SRecv] c) as [c1|] eqn:Ec1; [|discriminate Hr].
  destruct (@crun x86_64 [CStep SRecv; CStep SDie] c) as [c2|] eqn:Ec2; [|discriminate Hr].
  assert (@creachable x86_64 false c) as Hc
    by (eapply (@crun_reachable x86_64 false sample_again sample_cinit); [apply creach_init|discriminate|exact E]).
  assert (alive (cs_ c) <> None) as Hal by (unfold is_alive in Ha; destruct (alive (cs_ c)); discriminate).
  assert (@no_stop_queued x86_64 (cs_ c)) as Hno.
  { intros e He Htok. unfold no_stop in Hs. rewrite forallb_forall in Hs. apply list_elem_of_In in He.
    specialize (Hs _ He). unfold same_token in Htok. rewrite Htok, Z.eqb_refl in Hs. by apply negb_true_iff in Hs. }
  exists c, c1, c2. split; [reflexivity|]. split; [exact Ec1|]. split; [exact Ec2|]. split.
  - refine (c_delete_running_hangs x86_64 false c c1 sample_evd [CStep SRecv; CStep SRecv] Hc Hal Hno _ _ Ec1);
      [repeat constructor|discriminate].
  - refine (c_delete_running_hangs x86_64 false c c2 sample_evd [CStep SRecv; CStep SDie] Hc Hal Hno _ _ Ec2);
      [repeat constructor|discriminate].
Defined.

Definition sample_cworker : CWorkerD :=
  mkCWorkerD (mkHandle (set_w_runner (set_running true (Runner (replicate 16 Byte.xaa))) (Worker (replicate 16 Byte.xaa) 0)) [] None)
    sample_evd.

Lemma c_dispatch_roundtrip_witness : exists d' p op t,
  @CWorker_dispatch x86_64 (str "a") (str "v") TopicEvent sample_cworker = (Ok tt, d') /\
  @Operation.operation_fromPart x86_64 p = Ok op /\ @topic_fromPart x86_64 (Operation.payld_ op) = Ok t /\
  CTopic_name t = str "a" /\ CTopic_type t = TopicEvent.
Proof.
  destruct (c_dispatch_roundtrip x86_64 sample_cworker (str "a") (str "v") TopicEvent)
    as (d' & p & op & t & H1 & _ & H3 & _ & H5 & H6 & _ & _ & H9 & _).
  - reflexivity.
  - reflexivity.
  - reflexivity.
  - vm_compute. reflexivity.
  - right. reflexivity.
  - exists d', p, op, t. split; [exact H1|]. split; [exact H3|]. split; [exact H5|]. split; [exact H6|exact H9].
Defined.

End CBindings.
