(* ===== verification/Grpc.v ===== *)
(** * The gRPC service of a worker (grpc/fuurin_worker_impl.cpp, grpc/utils.cpp, grpc/worker.proto)

    A server makes a worker available to remote programs.  The handlers of the calls run in
    threads of the gRPC library and share one ZMQ client socket, over which they send requests
    to the thread that owns the worker ([runClient]); another thread publishes the worker's
    events ([runEvents]), which the handlers of [WaitForEvent] write to their streams.  The
    generated protobuf code is a parameter. *)

From S2P Require Import Prelude Part PartMulti Codec Uuid Topic Event Config Session BrokerSession Runner RunnerEvents.

Local Open Scope Z_scope.

Module Grpc.
Import Part PartMulti Codec Uuid Topic Config Session.
Import Runner RunnerEvents.

Abbreviation get := Prelude.get.

(** ** The messages of worker.proto *)

Record Endpoints := mkEndpoints { e_delivery : list bytes; e_dispatch : list bytes; e_snapshot : list bytes }.
Record Subscriptions := mkSubscriptions { s_wildcard : bool; s_name : list bytes }.
(** Enumerations of proto3 are open: a field holds any number. *)
Definition Topic_Type_State : Z := 0.
Definition Topic_Type_Event : Z := 1.
Record PTopic := mkPTopic { t_name : bytes; t_data : bytes; t_type : Z }.
Record TopicEvent := mkTopicEvent { te_seqn : Z; te_broker : bytes; te_worker : bytes; te_topic : PTopic }.
Record ConfigEvent := mkConfigEvent {
  ce_uuid : bytes; ce_seqn : Z; ce_endpoints : Endpoints; ce_subscriptions : Subscriptions
}.
Inductive Event_Type :=
  | RCPSetup | RCPTeardown | Started | Stopped | Offline | Online | Delivery | SyncRequest | SyncBegin
  | SyncElement | SyncSuccess | SyncError | SyncDownloadOn | SyncDownloadOff.
Inductive payload := no_payload | topicEvent (t : TopicEvent) | configEvent (c : ConfigEvent).
Record PEvent := mkPEvent { pe_type : Event_Type; pe_payload : payload }.

#[export] Instance Endpoints_eq_dec : EqDecision Endpoints.
Proof. solve_decision. Defined.
#[export] Instance Subscriptions_eq_dec : EqDecision Subscriptions.
Proof. solve_decision. Defined.
#[export] Instance PTopic_eq_dec : EqDecision PTopic.
Proof. solve_decision. Defined.

(** The generated code: what is serialized is parsed to the same message, when the message is one
    the format can carry (proto3 strings are text). *)
Class Proto (T : Type) := {
  serialize : T -> bytes;
  parse : bytes -> option T;
  proto_ok : T -> Prop;
  parse_serialize x : proto_ok x -> parse (serialize x) = Some x;
}.

(** [protoSerialize], [protoParse]: a failure is fatal. *)
Definition protoSerialize {T} `{Proto T} (val : T) : part := Part_bytes (serialize val).
Definition protoParse {T} `{Proto T} (val : part) : outcome T :=
  match parse (p_data val) with Some x => Ok x | None => Abort end.

(** ** The service *)

(** [WorkerServiceImpl::RPC] *)
Inductive RPC :=
  | Cancel | GetUuid | GetSeqNum | SetEndpoints | SetSubscriptions | SetStart | SetStop | SetSync | SetDispatch.

#[export] Instance RPC_eq_dec : EqDecision RPC.
Proof. solve_decision. Defined.

Definition RPCType (t : RPC) : Z :=
  match t with
  | Cancel => 0 | GetUuid => 1 | GetSeqNum => 2 | SetEndpoints => 3 | SetSubscriptions => 4 | SetStart => 5
  | SetStop => 6 | SetSync => 7 | SetDispatch => 8
  end.
(** [RPC{rpc}]; a number that is no enumerator matches no case. *)
Definition RPC_of (z : Z) : option RPC :=
  [Cancel; GetUuid; GetSeqNum; SetEndpoints; SetSubscriptions; SetStart; SetStop; SetSync; SetDispatch] !! Z.to_nat z.

(** [WorkerServiceImpl]: the worker, the future of its session by the number of the session, the
    two cancellations, and what the sockets between the handlers and [runClient] hold *)
Record service := mkService {
  worker_ : worker;
  active_ : option nat;
  zcanc1_ : bool;
  zcanc2_ : bool;
  requests_ : list part;
  replies_ : list part;
}.

Definition set_worker (w : worker) (s : service) : service :=
  mkService w (active_ s) (zcanc1_ s) (zcanc2_ s) (requests_ s) (replies_ s).
Definition set_active (f : option nat) (s : service) : service :=
  mkService (worker_ s) f (zcanc1_ s) (zcanc2_ s) (requests_ s) (replies_ s).
Definition set_canc1 (s : service) : service :=
  mkService (worker_ s) (active_ s) true (zcanc2_ s) (requests_ s) (replies_ s).
Definition set_canc2 (s : service) : service :=
  mkService (worker_ s) (active_ s) (zcanc1_ s) true (requests_ s) (replies_ s).
Definition set_requests (l : list part) (s : service) : service :=
  mkService (worker_ s) (active_ s) (zcanc1_ s) (zcanc2_ s) l (replies_ s).
Definition set_replies (l : list part) (s : service) : service :=
  mkService (worker_ s) (active_ s) (zcanc1_ s) (zcanc2_ s) (requests_ s) l.

Definition on_worker {A} (m : M worker A) : M service A := zoom worker_ set_worker m.

(** [WorkerServiceImpl::WorkerServiceImpl] *)
Definition WorkerServiceImpl (id : uuid) : service := mkService (Worker id 0) None false false [] [].

Section WithEnv.
Context {P : Platform} {PE : Proto Endpoints} {PS : Proto Subscriptions} {PT : Proto PTopic}.

(** [WorkerServiceImpl::sendRPC] *)
Definition sendRPC (t : RPC) (pay : part) : M service unit :=
  p ← lift (pack [FInt 1 (RPCType t); FStr (p_data pay)]);
  modify (fun s => set_requests (requests_ s ++ [p]) s).

(** [WorkerServiceImpl::recvRPC]: [None] while there is no reply *)
Definition recvRPC : M service (option part) :=
  s ← get;
  match replies_ s with
  | [] => mret None
  | p :: q => modify (set_replies q);; mret (Some p)
  end.

(** ** The handlers *)

Definition do_SetEndpoints (endp : Endpoints) : M service unit := sendRPC SetEndpoints (protoSerialize endp).
Definition do_SetSubscriptions (subscr : Subscriptions) : M service unit :=
  sendRPC SetSubscriptions (protoSerialize subscr).
Definition do_Start : M service unit := sendRPC SetStart Part_empty.
Definition do_Stop : M service unit := sendRPC SetStop Part_empty.
Definition do_Sync : M service unit := sendRPC SetSync Part_empty.
(** [Dispatch] over the topics it reads from the stream *)
Definition do_Dispatch (stream : list PTopic) : M service unit :=
  mfor stream (fun t => sendRPC SetDispatch (protoSerialize t)).
(** [GetUuid] and [GetSeqNum]: a request, and the response they make of the reply they receive *)
Definition ask_GetUuid : M service unit := sendRPC GetUuid Part_empty.
Definition reply_GetUuid (p : part) : outcome bytes := uuid_fromPart p.
Definition ask_GetSeqNum : M service unit := sendRPC GetSeqNum Part_empty.
Definition reply_GetSeqNum (p : part) : outcome Z := Ok (toUint64 p).

(** [WorkerServiceImpl::shutdown], after the server itself *)
Definition shutdown : M service unit := modify set_canc2;; sendRPC SetStop Part_empty.

(** ** The thread of the worker *)

(** [WorkerServiceImpl::applySubscriptions], [applyEndpoints], [setDispatch] *)
Definition applySubscriptions (subscr : Subscriptions) : M service unit :=
  if s_wildcard subscr then on_worker (modify setTopicsAll)
  else on_worker (modify (setTopicsNames (Name <$> s_name subscr))).
Definition applyEndpoints (endp : Endpoints) : M service unit :=
  on_worker (on_runner (modify (setEndpoints (e_delivery endp) (e_dispatch endp) (e_snapshot endp)))).
Definition setDispatch (t : PTopic) : M service unit :=
  on_worker (dispatch (Name (t_name t)) (Part_bytes (t_data t))
    (if t_type t =? Topic_Type_State then State else Topic.Event)).

(** [utils::waitForResult] on [active_]: [over k] is how session [k] ended, [None] while it runs;
    the answer is [None] while the call waits. *)
Definition waitForResult (over : nat -> option (outcome unit)) (timeout : Z) : M service (option unit) :=
  s ← get;
  match active_ s with
  | None => mret (Some tt)
  | Some k =>
    match over k with
    | None => if 0 <=? timeout then mret (Some tt) else mret None
    | Some r => modify (set_active None);; try_catch (lift r) (fun _ => mret tt);; mret (Some tt)
    end
  end.

(** [active_ = worker_->start()]: releasing the future held before waits for its session. *)
Definition set_start (over : nat -> option (outcome unit)) (k : nat) : M service (option unit) :=
  o ← on_worker start;
  s ← get;
  match active_ s ≫= (fun j => match over j with Some _ => None | None => Some j end) with
  | Some _ => mret None
  | None => modify (set_active (match o with Some _ => Some k | None => None end));; mret (Some tt)
  end.

Definition done_with (m : M service unit) (p : part) : M service (option part) := m;; mret (Some p).

(** [WorkerServiceImpl::serveRPC]: the reply, [None] while it waits; a session that is started is
    number [k]. *)
Definition serveRPC (over : nat -> option (outcome unit)) (k : nat) (t : option RPC) (pay : part) : M service (option part) :=
  match t with
  | None => mret (Some Part_empty)
  | Some Cancel => done_with (modify set_canc1) Part_empty
  | Some GetUuid =>
    s ← get;
    p ← lift (uuid_toPart (Runner.uuid_ (w_runner (worker_ s))));
    mret (Some p)
  | Some GetSeqNum => n ← on_worker seqNumber; mret (Some (Part_uint64 n))
  | Some SetEndpoints => e ← lift (protoParse pay); done_with (applyEndpoints e) Part_empty
  | Some SetSubscriptions => e ← lift (protoParse pay); done_with (applySubscriptions e) Part_empty
  | Some SetStart =>
    b ← on_worker (on_runner isRunning);
    r ← (if (b : bool) then mret (Some tt) else set_start over k);
    mret ((fun _ => Part_empty) <$> r)
  | Some SetStop =>
    b ← on_worker (on_runner isRunning);
    (if (b : bool) then on_worker (on_runner stop);; mret tt else mret tt);;
    r ← waitForResult over (-1);
    mret ((fun _ => Part_empty) <$> r)
  | Some SetSync => done_with (on_worker sync) Part_empty
  | Some SetDispatch => e ← lift (protoParse pay); done_with (setDispatch e) Part_empty
  end.

(** [WorkerServiceImpl::runClient] when its socket has a message: the call it made is over unless
    the answer is false. *)
Definition client_request (over : nat -> option (outcome unit)) (k : nat) : M service bool :=
  s ← get;
  match requests_ s with
  | [] => lift Undef
  | r :: q =>
    modify (set_requests q);;
    fs ← lift (unpack [TInt 1; TStr] (p_data r));
    match fs with
    | [FInt _ rpc; FStr pay] =>
      o ← serveRPC over k (RPC_of rpc) (Part_bytes pay);
      match o with
      | None => mret false
      | Some reply =>
        (if empty reply then mret tt else modify (fun s => set_replies (replies_ s ++ [reply]) s));;
        mret true
      end
    | _ => lift Undef
    end
  end.
(** and when the monitoring timer fires *)
Definition client_monitor (over : nat -> option (outcome unit)) : M service (option unit) := waitForResult over 0.

(** ** Requests *)

(** What the handlers ask for, and what it does to the worker *)
Inductive request :=
  | QCancel | QUuid | QSeqNum | QEndpoints (e : Endpoints) | QSubscriptions (s : Subscriptions)
  | QStart | QStop | QSync | QDispatch (t : PTopic).

Definition ask (r : request) : M service unit :=
  match r with
  | QCancel => sendRPC Cancel Part_empty
  | QUuid => ask_GetUuid
  | QSeqNum => ask_GetSeqNum
  | QEndpoints e => do_SetEndpoints e
  | QSubscriptions s => do_SetSubscriptions s
  | QStart => do_Start
  | QStop => do_Stop
  | QSync => do_Sync
  | QDispatch t => do_Dispatch [t]
  end.

Definition perform (over : nat -> option (outcome unit)) (k : nat) (r : request) : M service (option part) :=
  match r with
  | QCancel => serveRPC over k (Some Cancel) Part_empty
  | QUuid => serveRPC over k (Some GetUuid) Part_empty
  | QSeqNum => serveRPC over k (Some GetSeqNum) Part_empty
  | QEndpoints e => done_with (applyEndpoints e) Part_empty
  | QSubscriptions s => done_with (applySubscriptions s) Part_empty
  | QStart => serveRPC over k (Some SetStart) Part_empty
  | QStop => serveRPC over k (Some SetStop) Part_empty
  | QSync => serveRPC over k (Some SetSync) Part_empty
  | QDispatch t => done_with (setDispatch t) Part_empty
  end.

Definition push_reply (reply : part) : M service unit :=
  if empty reply then mret tt else modify (fun s => set_replies (replies_ s ++ [reply]) s).

(** The requests in their order, until one waits *)
Fixpoint serve_all (over : nat -> option (outcome unit)) (ks : list nat) : M service bool :=
  match ks with
  | [] => mret true
  | k :: ks => b ← client_request over k; if (b : bool) then serve_all over ks else mret false
  end.
Fixpoint perform_all (over : nat -> option (outcome unit)) (l : list (nat * request)) : M service bool :=
  match l with
  | [] => mret true
  | (k, r) :: l =>
    o ← perform over k r;
    match o with
    | None => mret false
    | Some reply => push_reply reply;; perform_all over l
    end
  end.

(** A request that fits a message *)
Definition request_ok (r : request) : Prop :=
  match r with
  | QEndpoints e => proto_ok e /\ zlen (serialize e) < u32_max
  | QSubscriptions s => proto_ok s /\ zlen (serialize s) < u32_max
  | QDispatch t => proto_ok t /\ zlen (serialize t) < u32_max
  | _ => True
  end.

Definition rpc_of (r : request) : RPC :=
  match r with
  | QCancel => Cancel | QUuid => GetUuid | QSeqNum => GetSeqNum | QEndpoints _ => SetEndpoints
  | QSubscriptions _ => SetSubscriptions | QStart => SetStart | QStop => SetStop | QSync => SetSync
  | QDispatch _ => SetDispatch
  end.
Definition pay_of (r : request) : bytes :=
  match r with
  | QEndpoints e => serialize e | QSubscriptions s => serialize s | QDispatch t => serialize t | _ => []
  end.
Definition message_of (r : request) : part := Part_bytes (encs [FInt 1 (RPCType (rpc_of r)); FStr (pay_of r)]).

Lemma RPC_of_RPCType t : RPC_of (RPCType t) = Some t.
Proof. by destruct t. Qed.

Lemma pay_small r : request_ok r -> zlen (pay_of r) < u32_max.
Proof. destruct r; cbn; try (by intros _); by intros []. Qed.

Lemma message_fields r : request_ok r ->
  pack [FInt 1 (RPCType (rpc_of r)); FStr (pay_of r)] = Ok (message_of r) /\
  unpack [TInt 1; TStr] (p_data (message_of r)) = Ok [FInt 1 (RPCType (rpc_of r)); FStr (pay_of r)].
Proof.
  intros Hr. pose proof (pay_small r Hr). destruct (pack_fields [FInt 1 (RPCType (rpc_of r)); FStr (pay_of r)]) as (Hpk & _ & Hun).
  - cbn. lia.
  - apply Forall_cons_2; [split; [lia|unfold in_width; destruct r; cbn; lia]|]. apply Forall_cons_2; [done|constructor].
  - split; [exact Hpk|exact Hun].
Qed.

Lemma ask_sends r s : request_ok r -> ask r s = (Ok tt, set_requests (requests_ s ++ [message_of r]) s).
Proof.
  intros Hr. destruct (message_fields r Hr) as [Hp _].
  assert (sendRPC (rpc_of r) (Part_bytes (pay_of r)) s = (Ok tt, set_requests (requests_ s ++ [message_of r]) s)) as E
    by (unfold sendRPC; cbn [p_data Part_bytes]; by rewrite Hp).
  destruct r; try exact E. unfold ask, do_Dispatch. cbn [mfor]. by rewrite (M_bind_eq _ _ _ _ _ E).
Qed.

Lemma asks_send rs : Forall request_ok rs -> forall s,
  mfor rs ask s = (Ok tt, set_requests (requests_ s ++ (message_of <$> rs)) s).
Proof.
  induction 1 as [|r rs Hr _ IH]; intros s; cbn [mfor]; [by rewrite app_nil_r; destruct s|].
  rewrite (M_bind_eq _ _ _ _ _ (ask_sends r s Hr)), IH. cbn [requests_ set_requests fmap list_fmap]. by rewrite <-app_assoc.
Qed.

(** Serving a message is performing the request it came from. *)
Lemma serve_message over k r : request_ok r ->
  forall s, serveRPC over k (RPC_of (RPCType (rpc_of r))) (Part_bytes (pay_of r)) s = perform over k r s.
Proof.
  intros Hr s. rewrite RPC_of_RPCType. destruct r; try done; destruct Hr as [Hr _];
    cbn [serveRPC rpc_of pay_of perform]; unfold protoParse; cbn [p_data Part_bytes]; by rewrite (parse_serialize _ Hr).
Qed.

(** The queue of requests is nobody's business but its own. *)
Definition indep {A} (m : M service A) : Prop :=
  forall q s, m (set_requests q s) = ((m s).1, set_requests q (m s).2).

Lemma indep_ret {A} (a : A) : indep (mret a).
Proof. done. Qed.
Lemma indep_lift {A} (o : outcome A) : indep (lift o).
Proof. done. Qed.
Lemma indep_bind {A B} (m : M service A) (k : A -> M service B) : indep m -> (forall a, indep (k a)) -> indep (m ≫= k).
Proof.
  intros Hm Hk q s. unfold mbind, M_bind. rewrite Hm. destruct (m s) as [[a| | |] s']; cbn [fst snd]; [apply Hk|done..].
Qed.
Lemma indep_on_worker {A} (m : M worker A) : indep (on_worker m).
Proof. intros q s. unfold on_worker, zoom. cbn [worker_ set_requests]. by destruct (m (worker_ s)). Qed.
Lemma indep_modify f : (forall q s, f (set_requests q s) = set_requests q (f s)) -> indep (modify f).
Proof. intros Hf q s. unfold modify. by rewrite Hf. Qed.
Lemma indep_get {A B} (f : service -> A) (k : A -> M service B) : (forall q s, f (set_requests q s) = f s) ->
  (forall a, indep (k a)) -> indep (s ← get; k (f s)).
Proof. intros Hf Hk q s. rewrite !bind_get, Hf. apply Hk. Qed.
Lemma indep_done m p : indep m -> indep (done_with m p).
Proof. intros Hm. apply indep_bind; [done|]. intros. apply indep_ret. Qed.

Lemma indep_wait over t : indep (waitForResult over t).
Proof.
  apply (indep_get active_ (fun a => match a with None => mret (Some tt) | Some k => _ end)); [done|].
  intros [k|]; [|apply indep_ret]. destruct (over k) as [r|].
  - apply indep_bind; [by apply indep_modify|intros _]. apply indep_bind; [|intros; apply indep_ret].
    intros q s. by destruct r.
  - destruct (0 <=? t); apply indep_ret.
Qed.

Lemma indep_start over k : indep (set_start over k).
Proof.
  apply indep_bind; [apply indep_on_worker|intros o].
  apply (indep_get (fun s => active_ s ≫= (fun j => match over j with Some _ => None | None => Some j end)) (fun a => match a with
    Some _ => _ | None => _ end)); [done|].
  intros [j|]; [apply indep_ret|]. apply indep_bind; [by apply indep_modify|intros; apply indep_ret].
Qed.

Lemma indep_perform over k r : indep (perform over k r).
Proof.
  destruct r; cbn [perform serveRPC].
  - by apply indep_done, indep_modify.
  - apply (indep_get (fun s => uuid_toPart (Runner.uuid_ (w_runner (worker_ s)))) (fun o => p ← lift o; mret (Some p))); [done|].
    intros o. apply indep_bind; [apply indep_lift|intros; apply indep_ret].
  - apply indep_bind; [apply indep_on_worker|intros; apply indep_ret].
  - apply indep_done, indep_on_worker.
  - apply indep_done. unfold applySubscriptions. destruct (s_wildcard s); apply indep_on_worker.
  - apply indep_bind; [apply indep_on_worker|intros b]. apply indep_bind; [|intros; apply indep_ret].
    destruct b; [apply indep_ret|apply indep_start].
  - apply indep_bind; [apply indep_on_worker|intros b]. apply indep_bind.
    + destruct b; [|apply indep_ret]. apply indep_bind; [apply indep_on_worker|intros; apply indep_ret].
    + intros _. apply indep_bind; [apply indep_wait|intros; apply indep_ret].
  - apply indep_done, indep_on_worker.
  - apply indep_done, indep_on_worker.
Qed.

Lemma indep_push reply : indep (push_reply reply).
Proof. unfold push_reply. destruct (empty reply); [apply indep_ret|by apply indep_modify]. Qed.
Lemma indep_perform_all over l : indep (perform_all over l).
Proof.
  induction l as [|[k r] l IH]; cbn [perform_all]; [apply indep_ret|]. apply indep_bind; [apply indep_perform|].
  intros [reply|]; [|apply indep_ret]. apply indep_bind; [apply indep_push|done].
Qed.

Lemma client_performs over k r q s : request_ok r -> requests_ s = message_of r :: q ->
  client_request over k s =
  (o ← perform over k r; match o with None => mret false | Some reply => push_reply reply;; mret true end) (set_requests q s).
Proof.
  intros Hr Hq. destruct (message_fields r Hr) as [_ Hu]. unfold client_request. rewrite bind_get, Hq, bind_modify, Hu, bind_lift.
  apply M_bind_ext; [by apply serve_message|]. by intros [reply|] s'.
Qed.

Lemma serve_performs over rs : Forall request_ok rs -> forall ks s, length ks = length rs -> requests_ s = message_of <$> rs ->
  exists rest, serve_all over ks s =
    ((perform_all over (zip ks rs) s).1, set_requests rest (perform_all over (zip ks rs) s).2) /\
    ((perform_all over (zip ks rs) s).1 = Ok true -> rest = []).
Proof.
  induction 1 as [|r rs Hr Hrs IH]; intros [|k ks] s Hlen Hq; try done.
  { exists []. cbn. split; [|done]. cbn in Hq. by rewrite <-Hq; destruct s. }
  cbn [zip serve_all perform_all zip_with]. cbn [fmap list_fmap] in Hq.
  pose proof (indep_perform over k r (message_of <$> rs) s) as Hind.
  destruct (perform over k r s) as [o s1] eqn:Ep. cbn [fst snd] in Hind.
  pose proof (client_performs over k r _ s Hr Hq) as Ec. destruct o as [[reply|]| | |].
  2-5: unfold mbind, M_bind in Ec; rewrite Hind in Ec; unfold mbind, M_bind; rewrite Ec, Ep; by eexists.
  assert (exists s2, push_reply reply s1 = (Ok tt, s2) /\
    push_reply reply (set_requests (message_of <$> rs) s1) = (Ok tt, set_requests (message_of <$> rs) s2)) as (s2 & E1 & E2)
    by (unfold push_reply; destruct (empty reply); by eexists).
  rewrite (M_bind_eq _ _ _ _ _ Hind), (M_bind_eq _ _ _ _ _ E2) in Ec.
  rewrite (M_bind_eq _ _ _ _ _ Ec), (M_bind_eq _ _ _ _ _ Ep), (M_bind_eq _ _ _ _ _ E1).
  destruct (IH ks (set_requests (message_of <$> rs) s2)) as (rest & E & Hrest); [by injection Hlen|done|].
  exists rest. rewrite E. rewrite (indep_perform_all over (zip ks rs)) in Hrest |- *. cbn [fst snd] in *.
  split; [|done]. by destruct (perform_all over (zip ks rs) s2).2.
Qed.

(** ** Handlers at the same time *)

(** The steps of the handlers and of the serving thread, from any state of the service; whole runs,
    with the steps of the sessions, are those of [GrpcSystem] and [GrpcClients]. *)

Inductive getter := UuidGetter | SeqGetter.
Inductive answer := AUuid (o : outcome bytes) | ASeq (o : outcome Z).

#[export] Instance getter_eq_dec : EqDecision getter.
Proof. solve_decision. Defined.

Definition getter_of (r : request) : option getter :=
  match r with QUuid => Some UuidGetter | QSeqNum => Some SeqGetter | _ => None end.
Definition request_of (g : getter) : request := match g with UuidGetter => QUuid | SeqGetter => QSeqNum end.
Definition reply_to (g : getter) (p : part) : answer :=
  match g with UuidGetter => AUuid (reply_GetUuid p) | SeqGetter => ASeq (reply_GetSeqNum p) end.

(** The service, the threads that wait for a reply, the answers they made of the replies, and the
    numbers that the worker gave *)
Record gsys := mkGsys {
  svc : service;
  waiting : gmap nat getter;
  answers : list (nat * answer);
  seqs : list Z;
}.

(** Thread [t] calls, the thread of the worker serves the next request, a waiting thread receives
    the next reply. *)
Inductive glabel := GCall (t : nat) (g : getter) | GAsk (r : request) | GServe (k : nat) | GRecv (t : nat).

Definition numbers (s : service) : list Z :=
  match requests_ s with
  | r :: _ => if decide (r = message_of QSeqNum) then
                match seqNumber (worker_ s) with (Ok n, _) => [n] | _ => [] end else []
  | [] => []
  end.

Definition gexec (over : nat -> option (outcome unit)) (l : glabel) (g : gsys) : option gsys :=
  match l with
  | GCall t c =>
    match waiting g !! t, ask (request_of c) (svc g) with
    | None, (Ok _, s) => Some (mkGsys s (<[t := c]> (waiting g)) (answers g) (seqs g))
    | _, _ => None
    end
  | GAsk r =>
    match getter_of r, ask r (svc g) with
    | None, (Ok _, s) => Some (mkGsys s (waiting g) (answers g) (seqs g))
    | _, _ => None
    end
  | GServe k =>
    match requests_ (svc g), client_request over k (svc g) with
    | _ :: _, (Ok true, s) => Some (mkGsys s (waiting g) (answers g) (seqs g ++ numbers (svc g)))
    | _, _ => None
    end
  | GRecv t =>
    match waiting g !! t, recvRPC (svc g) with
    | Some c, (Ok (Some p), s) =>
      Some (mkGsys s (delete t (waiting g)) (answers g ++ [(t, reply_to c p)]) (seqs g))
    | _, _ => None
    end
  end.

Fixpoint grun (over : nat -> option (outcome unit)) (ls : list glabel) (g : gsys) : option gsys :=
  match ls with
  | [] => Some g
  | l :: ls => match gexec over l g with Some g' => grun over ls g' | None => None end
  end.

Definition w_uuid (s : service) : uuid := Runner.uuid_ (w_runner (worker_ s)).
(** *** Frames *)

Lemma frames_isRunning : frames Runner.uuid_ isRunning.
Proof. unfold isRunning. frame. Qed.
Lemma frames_sendOperation o p : frames Runner.uuid_ (sendOperation o p).
Proof.
  intros r. unfold sendOperation.
  by destruct (payload ← noexcept_ (Part_copy p); Operation.operation_toPart (Operation.mkOp o Operation.Success payload)).
Qed.
Lemma frames_stop : frames Runner.uuid_ stop.
Proof. pose proof frames_isRunning. pose proof (frames_sendOperation Operation.Stop Part_empty). unfold stop. frame. Qed.

Definition w_id (w : worker) : uuid := Runner.uuid_ (w_runner w).
Lemma frames_on_runner {A} (m : M runner A) : frames Runner.uuid_ m -> frames w_id (on_runner (S := worker) m).
Proof. intros Hm. by apply (frames_zoom_in w_id Runner.uuid_). Qed.
Lemma frames_seqNumber_id : frames w_id seqNumber.
Proof. unfold seqNumber. frame. Qed.
Lemma frames_commit {A} (m : M worker A) : frames w_id m -> frames w_id (unless_commit m).
Proof. intros Hm w. specialize (Hm w). unfold unless_commit. by destruct (m w) as [[] w']. Qed.
Lemma frames_start : frames w_id (start (S := worker)).
Proof.
  pose proof (frames_on_runner _ frames_isRunning). pose proof frames_seqNumber_id.
  unfold start. apply frames_bind; [done|]. intros []; [apply frames_ret|].
  apply frames_bind; [apply frames_on_runner; by apply frames_modify|intros _]. apply frames_bind; [|intros; frame].
  apply frames_commit. apply frames_bind.
  - cbn. frame.
  - intros p. apply frames_on_runner, frames_sendOperation.
Qed.
Lemma frames_dispatch n d ty : frames w_id (dispatch n d ty).
Proof.
  pose proof (frames_on_runner _ frames_isRunning). unfold dispatch. apply frames_bind; [done|]. intros b.
  destruct (negb b); [apply frames_ret|]. apply frames_bind; [apply frames_get|intros w].
  apply frames_bind; [apply frames_lift|intros p]. apply frames_on_runner, frames_sendOperation.
Qed.
Lemma frames_sync_id : frames w_id sync.
Proof.
  pose proof (frames_on_runner _ frames_isRunning). unfold sync. apply frames_bind; [done|]. intros b.
  destruct (negb b); [apply frames_ret|]. apply frames_on_runner, frames_sendOperation.
Qed.

Lemma frames_worker_in {A} (m : M worker A) : frames w_id m -> frames w_uuid (on_worker m).
Proof. intros Hm. by apply (frames_zoom_in w_uuid w_id). Qed.

Lemma frames_wait over t : frames w_uuid (waitForResult over t) /\ frames replies_ (waitForResult over t).
Proof. unfold waitForResult. split; frame. Qed.

(** Performing a request leaves the identity of the worker and the replies alone. *)
Lemma perform_frames over k r : frames w_uuid (perform over k r) /\ frames replies_ (perform over k r).
Proof.
  pose proof (frames_wait over (-1)) as [Hw1 Hw2].
  assert (frames w_uuid (on_worker (on_runner isRunning))) as Hi by apply frames_worker_in, frames_on_runner, frames_isRunning.
  assert (frames w_uuid (on_worker (on_runner stop))) as Hs by apply frames_worker_in, frames_on_runner, frames_stop.
  assert (frames w_uuid (on_worker start)) as Hst by apply frames_worker_in, frames_start.
  assert (frames w_uuid (on_worker seqNumber)) as Hn by apply frames_worker_in, frames_seqNumber_id.
  assert (frames w_uuid (on_worker sync)) as Hy by apply frames_worker_in, frames_sync_id.
  split; destruct r; cbn [perform serveRPC]; unfold done_with, applyEndpoints, applySubscriptions, setDispatch, set_start, on_worker in *; frame.
  apply frames_worker_in, frames_dispatch.
Qed.

(** The replies of the requests *)
Lemma perform_reply over k r s p s' : perform over k r s = (Ok (Some p), s') ->
  match getter_of r with
  | None => p = Part_empty
  | Some UuidGetter => uuid_toPart (w_uuid s) = Ok p
  | Some SeqGetter => exists n w, seqNumber (worker_ s) = (Ok n, w) /\ p = Part_uint64 n
  end.
Proof.
  destruct r; cbn [perform serveRPC getter_of]; unfold done_with; intros E;
    repeat match type of E with
    | (get ≫= _) _ = _ => rewrite bind_get in E
    | (_ ≫= _) _ = (Ok _, _) => let a := fresh "a" in let s1 := fresh "s1" in let E1 := fresh "E1" in
        apply M_bind_Ok in E as (a & s1 & E1 & E)
    | mret _ _ = _ => injection E; clear E; intros; subst
    end; try done.
  - by injection E1.
  - unfold on_worker, zoom in E1. destruct (seqNumber (worker_ s)) as [o w]. injection E1 as -> _. by eexists _, _.
  - by apply fmap_Some in H0 as (? & _ & ->).
  - by apply fmap_Some in H0 as (? & _ & ->).
Qed.

(** *** One at a time *)

Lemma uuid_part u : uuid_ok u -> uuid_toPart u = Ok (Part_bytes u) /\ uuid_fromPart (Part_bytes u) = Ok u.
Proof.
  intros Hu. destruct (uuid_roundtrip u Hu) as (d & E & _ & F). unfold uuid_toPart in E.
  destruct (pack_fields [FArr u]) as (E' & _); [cbn; lia|repeat constructor; cbn; unfold zlen; by rewrite Hu|].
  assert (d = u) as ->; [|done]. rewrite E' in E. injection E as <-. cbn. by rewrite app_nil_r.
Qed.

Lemma message_kind r r' : request_ok r -> request_ok r' -> message_of r = message_of r' -> rpc_of r = rpc_of r'.
Proof.
  intros Hr Hr' E. destruct (message_fields r Hr) as [_ H1], (message_fields r' Hr') as [_ H2].
  rewrite E, H2 in H1. injection H1 as H1 _. assert (RPC_of (RPCType (rpc_of r')) = RPC_of (RPCType (rpc_of r))) as H3 by congruence.
  rewrite !RPC_of_RPCType in H3. by injection H3.
Qed.

Lemma length_uint64 n : length (p_data (Part_uint64 n)) = 8%nat.
Proof. apply length_memcpyWithEndian_to. Qed.
Lemma empty_length p : (0 < length (p_data p))%nat -> empty p = false.
Proof. unfold empty, size. destruct (p_data p); [cbn; lia|done]. Qed.

Lemma client_served over k r q s p s1 : request_ok r -> requests_ s = message_of r :: q ->
  perform over k r (set_requests q s) = (Ok (Some p), s1) -> empty p = false ->
  client_request over k s = (Ok true, set_replies (replies_ s1 ++ [p]) s1).
Proof.
  intros Hr Hq Ep He. rewrite (client_performs over k r q s Hr Hq), (M_bind_eq _ _ _ _ _ Ep). cbn beta match.
  unfold push_reply. by rewrite He.
Qed.
Lemma recv_some s p q : replies_ s = p :: q -> recvRPC s = (Ok (Some p), set_replies q s).
Proof. intros E. unfold recvRPC. by rewrite bind_get, E. Qed.
Lemma uuid_short p : (length (p_data p) < 16)%nat -> uuid_fromPart p = throwAccessError.
Proof.
  intros Hl. unfold uuid_fromPart, unpack, unpack1, psize. unfold accessOutOfBoundary.
  change (wrap64 (0 + Z.of_nat uuid_size)) with 16. rewrite (proj2 (Z.leb_gt 16 (zlen (p_data p)))) by (unfold zlen; lia).
  by rewrite andb_false_r.
Qed.
Lemma perform_uuid over k s : uuid_ok (w_uuid s) -> perform over k QUuid s = (Ok (Some (Part_bytes (w_uuid s))), s).
Proof.
  intros Hu. cbn [perform serveRPC]. rewrite bind_get. change (Runner.uuid_ (w_runner (worker_ s))) with (w_uuid s).
  destruct (uuid_part _ Hu) as [-> _]. by rewrite bind_lift.
Qed.

Lemma perform_number over k n w s : seqNumber (worker_ s) = (Ok n, w) ->
  perform over k QSeqNum s = (Ok (Some (Part_uint64 n)), set_worker w s).
Proof.
  intros E. cbn [perform serveRPC]. erewrite M_bind_eq; [reflexivity|]. unfold on_worker, zoom. by rewrite E.
Qed.

(** ** What the requests do *)

Lemma asks_served over rs ks s : requests_ s = [] -> Forall request_ok rs -> length ks = length rs ->
  exists rest, (mfor rs ask;; serve_all over ks) s =
    ((perform_all over (zip ks rs) s).1, set_requests rest (perform_all over (zip ks rs) s).2) /\
    ((perform_all over (zip ks rs) s).1 = Ok true -> rest = []).
Proof.
  intros Hq Hrs Hks. rewrite (M_bind_eq _ _ _ _ _ (asks_send rs Hrs s)), Hq, app_nil_l.
  destruct (serve_performs over rs Hrs ks (set_requests (message_of <$> rs) s)) as (rest & E & Hrest); [done..|].
  rewrite (indep_perform_all over (zip ks rs) (message_of <$> rs) s) in E, Hrest. cbn [fst snd] in *. exists rest.
  split; [|done]. rewrite E. by destruct (perform_all over (zip ks rs) s).2.
Qed.

(** *** Topics *)

Lemma Dispatch_sends ts : Forall request_ok (QDispatch <$> ts) -> forall s,
  do_Dispatch ts s = (Ok tt, set_requests (requests_ s ++ (message_of <$> (QDispatch <$> ts))) s).
Proof.
  induction ts as [|t ts IH]; intros Hok s; [cbn; rewrite app_nil_r; by destruct s|].
  apply Forall_cons in Hok as [Ht Hts]. pose proof (ask_sends (QDispatch t) s Ht) as E. unfold ask, do_Dispatch in E. cbn [mfor] in E.
  apply M_bind_Ok in E as ([] & s1 & E & [= ->]). unfold do_Dispatch. cbn [mfor]. rewrite (M_bind_eq _ _ _ _ _ E).
  etrans; [apply (IH Hts)|]. cbn [requests_ set_requests fmap list_fmap]. by rewrite <-app_assoc.
Qed.

(** The operation that a topic becomes *)
Definition dispatched (r : runner) (t : PTopic) (o : part * part) : Prop :=
  o.1 = Part_uint8 (token_ r) /\ exists pay, Operation.operation_fromPart o.2 = Ok (Operation.mkOp Operation.Dispatch Operation.Success pay) /\
  topic_fromPart pay = Ok (mkTopic nil_uuid (Runner.uuid_ r) 0 (Name (t_name t)) (Part_bytes (t_data t))
    (if t_type t =? Topic_Type_State then State else Topic.Event)).

Lemma perform_topics over ks ts : length ks = length ts -> Forall (fun t => zlen (t_data t) < u32_max - 1024) ts -> forall s,
  let r := w_runner (worker_ s) in zfinr_ r = None -> running_ r = true -> uuid_ok (Runner.uuid_ r) ->
  exists ops, perform_all over (zip ks (QDispatch <$> ts)) s =
      (Ok true, set_worker (set_w_runner (set_zops (zops_ r ++ ops) r) (worker_ s)) s) /\ Forall2 (dispatched r) ts ops.
Proof.
  intros Hl Hts. revert ks Hl. induction Hts as [|t ts Ht _ IH]; intros [|k ks] Hl s r Hz Hrun Hu; try done.
  { exists []. cbn. rewrite app_nil_r. split; [|done]. subst r. by destruct s as [[[]]]. }
  cbn [fmap list_fmap zip zip_with perform_all perform].
  destruct (dispatch_running (t_name t) (t_data t) (if t_type t =? Topic_Type_State then State else Topic.Event) (worker_ s))
    as (dt & dp & Ed & Hop & Htp); [done..|]. fold r in Ed.
  set (s2 := set_worker (set_w_runner (set_zops (zops_ r ++ [(Part_uint8 (token_ r), Part_bytes dp)]) r) (worker_ s)) s).
  rewrite (M_bind_eq _ _ s (Some Part_empty) s2).
  2:{ unfold done_with, setDispatch. erewrite M_bind_eq; [reflexivity|]. unfold on_worker, zoom. by rewrite Ed. }
  cbn beta match. rewrite (M_bind_eq _ _ _ tt s2) by done.
  destruct (IH ks ltac:(by injection Hl) s2 Hz Hrun Hu) as (ops & E & Hf). exists ((Part_uint8 (token_ r), Part_bytes dp) :: ops).
  split; [|constructor; [by split; [|eexists]|exact Hf]]. etrans; [exact E|]. subst s2. cbn [worker_ set_worker w_runner set_w_runner zops_ set_zops].
  by rewrite <-app_assoc.
Qed.

End WithEnv.

(** ** A concrete serialization *)

Fixpoint pos_bytes (p : positive) : bytes :=
  match p with xH => [] | xO p => Byte.x00 :: pos_bytes p | xI p => Byte.x01 :: pos_bytes p end.
Fixpoint bytes_pos (l : bytes) : positive :=
  match l with [] => xH | Byte.x00 :: l => xO (bytes_pos l) | _ :: l => xI (bytes_pos l) end.
Lemma bytes_pos_bytes p : bytes_pos (pos_bytes p) = p.
Proof. induction p as [p IH|p IH|]; cbn; by rewrite ?IH. Qed.

#[export] Instance Endpoints_countable : Countable Endpoints.
Proof.
  apply (inj_countable' (fun e => (e_delivery e, e_dispatch e, e_snapshot e)) (fun '(a, b, c) => mkEndpoints a b c)).
  by intros [].
Defined.
#[export] Instance Subscriptions_countable : Countable Subscriptions.
Proof. apply (inj_countable' (fun s => (s_wildcard s, s_name s)) (fun '(a, b) => mkSubscriptions a b)). by intros []. Defined.
#[export] Instance PTopic_countable : Countable PTopic.
Proof. apply (inj_countable' (fun t => (t_name t, t_data t, t_type t)) (fun '(a, b, c) => mkPTopic a b c)). by intros []. Defined.

Definition countable_proto (T : Type) `{Countable T} : Proto T.
Proof.
  refine {| serialize x := pos_bytes (encode x); parse l := decode (bytes_pos l); proto_ok _ := True |}.
  intros x _. by rewrite bytes_pos_bytes, decode_encode.
Defined.
Definition PE0 : Proto Endpoints := countable_proto Endpoints.
Definition PS0 : Proto Subscriptions := countable_proto Subscriptions.
Definition PT0 : Proto PTopic := countable_proto PTopic.

(** ** Theorems *)

(** C21: What the handlers ask for is done on the worker, in the order of the calls and nothing
    else: sending any requests and letting the thread of the worker serve them is performing them
    one after the other on the worker, with the same result, the same replies and the same
    failures, as if no message and no serialization were in between (what the calls do then is
    the subject of other theorems); when none of them waits, no
    request is left behind. *)
Theorem grpc_serves (P : Platform) (PE : Proto Endpoints) (PS : Proto Subscriptions) (PT : Proto PTopic)
    (over : nat -> option (outcome unit)) (rs : list request) (ks : list nat) (s : service) :
  requests_ s = [] -> Forall request_ok rs -> length ks = length rs ->
  exists rest, (mfor rs ask;; serve_all over ks) s =
    ((perform_all over (zip ks rs) s).1, set_requests rest (perform_all over (zip ks rs) s).2) /\
    ((perform_all over (zip ks rs) s).1 = Ok true -> rest = []).
Proof. apply asks_served. Qed.

Definition sample_id : uuid := replicate 16 Byte.x07.
Definition never (k : nat) : option (outcome unit) := None.

Lemma grpc_serves_witness :
  exists rest, (mfor [QUuid; QSubscriptions (mkSubscriptions false [str "t"]); QStop] (@ask x86_64 PE0 PS0 PT0);;
                @serve_all x86_64 PE0 PS0 PT0 never [0; 0; 0]%nat) (WorkerServiceImpl sample_id) =
    (Ok true, set_requests rest (mkService (mkWorker (Runner sample_id) None 0 false [Name (str "t")]) None false false [] [Part_bytes sample_id])) /\
    (Ok true = Ok true -> rest = []).
Proof.
  apply (grpc_serves x86_64 PE0 PS0 PT0 never [QUuid; QSubscriptions (mkSubscriptions false [str "t"]); QStop] [0; 0; 0]%nat).
  - reflexivity.
  - apply Forall_cons_2; [exact I|]. apply Forall_cons_2; [split; [exact I|vm_compute; reflexivity]|].
    apply Forall_cons_2; [exact I|constructor].
  - reflexivity.
Defined.

(** Remote topics are dispatched: while the worker runs, every topic that a client writes to the
    stream of [Dispatch] becomes one dispatch operation for the session, in the order of the
    stream, with the current token and with a topic that has the name (cut at the capacity), the
    data, the type and the identity of the worker; nothing else is sent and no request is left. *)
Theorem grpc_dispatches (P : Platform) (PE : Proto Endpoints) (PS : Proto Subscriptions) (PT : Proto PTopic)
    (over : nat -> option (outcome unit)) (ks : list nat) (ts : list PTopic) (s : service) :
  let r := w_runner (worker_ s) in
  requests_ s = [] -> zfinr_ r = None -> running_ r = true -> uuid_ok (Runner.uuid_ r) -> length ks = length ts ->
  Forall request_ok (QDispatch <$> ts) -> Forall (fun t => zlen (t_data t) < u32_max - 1024) ts ->
  exists s' ops, (do_Dispatch ts;; serve_all over ks) s = (Ok true, s') /\ requests_ s' = [] /\
    zops_ (w_runner (worker_ s')) = zops_ r ++ ops /\ Forall2 (dispatched r) ts ops.
Proof.
  intros r Hq Hz Hrun Hu Hks Hok Hsz. destruct (perform_topics over ks ts Hks Hsz s Hz Hrun Hu) as (ops & E & Hf).
  destruct (asks_served over (QDispatch <$> ts) ks s Hq Hok) as (rest & Ea & Hr); [by rewrite length_fmap|].
  rewrite (M_bind_eq _ _ _ _ _ (asks_send _ Hok s)) in Ea. rewrite (M_bind_eq _ _ _ _ _ (Dispatch_sends ts Hok s)).
  rewrite E in Ea, Hr. rewrite (Hr eq_refl) in Ea. eexists _, ops. by split_and!.
Qed.

Definition sample_running : service :=
  mkService (mkWorker (set_running true (set_token 4 (Runner sample_id))) None 0 true []) (Some 0%nat) false false [] [].
Lemma grpc_dispatches_witness : let r := w_runner (worker_ sample_running) in
  exists s' ops, (@do_Dispatch x86_64 PT0 [mkPTopic (str "a") (str "1") 0; mkPTopic (str "b") [] 1];;
      @serve_all x86_64 PE0 PS0 PT0 never [0; 0]%nat) sample_running = (Ok true, s') /\ requests_ s' = [] /\
    zops_ (w_runner (worker_ s')) = [] ++ ops /\
    Forall2 (@dispatched x86_64 r) [mkPTopic (str "a") (str "1") 0; mkPTopic (str "b") [] 1] ops.
Proof.
  apply (grpc_dispatches x86_64 PE0 PS0 PT0 never [0; 0]%nat); try reflexivity.
  - apply Forall_cons_2; [split; [exact I|vm_compute; reflexivity]|].
    apply Forall_cons_2; [split; [exact I|vm_compute; reflexivity]|constructor].
  - apply Forall_cons_2; [vm_compute; reflexivity|]. apply Forall_cons_2; [vm_compute; reflexivity|constructor].
Defined.

(** C40: The getters at the same time: the handlers share one client socket, and nothing ties a
    reply to the call that asked for it.  When [GetUuid] and [GetSeqNum] are served together, each
    may receive the reply of the other: the 16 bytes of an identity are read as the number 0, and
    reading an identity from the 8 bytes of a number throws, whatever number [n] the worker gave. *)
Theorem getters_race (P : Platform) (PE : Proto Endpoints) (PS : Proto Subscriptions) (PT : Proto PTopic)
    (over : nat -> option (outcome unit)) (s : service) (n : Z) (w : worker) :
  uuid_ok (w_uuid s) -> requests_ s = [] -> replies_ s = [] -> seqNumber (worker_ s) = (Ok n, w) ->
  exists g, grun over [GCall 0 UuidGetter; GCall 1 SeqGetter; GServe 0; GServe 0; GRecv 1; GRecv 0] (mkGsys s ∅ [] []) = Some g /\
    answers g = [(1%nat, ASeq (Ok 0)); (0%nat, AUuid throwAccessError)] /\ seqs g = [n].
Proof.
  intros Hid Hq Hre Hn. cbn [grun gexec waiting svc answers seqs]. rewrite lookup_empty, ask_sends by done.
  cbn [grun gexec waiting svc answers seqs]. rewrite lookup_insert_ne, lookup_empty, ask_sends by done.
  cbn [grun gexec waiting svc answers seqs requests_ set_requests]. rewrite Hq. cbn [app].
  erewrite (client_served over 0 QUuid);
    [|done|reflexivity|by apply perform_uuid|apply empty_length; change (0 < length (w_uuid s))%nat; rewrite Hid; unfold uuid_size; lia].
  cbn [grun gexec waiting svc answers seqs requests_ set_requests set_replies app].
  erewrite (client_served over 0 QSeqNum);
    [|done|reflexivity|by apply (perform_number over 0 n w)|apply empty_length; rewrite length_uint64; lia].
  cbn [waiting svc answers seqs]. rewrite lookup_insert_eq. cbn [replies_ set_worker set_replies set_requests]. rewrite Hre.
  erewrite recv_some by reflexivity. cbn [grun gexec waiting svc answers seqs].
  rewrite lookup_delete_ne, lookup_insert_ne, lookup_insert_eq by done. erewrite recv_some by reflexivity.
  eexists. split; [reflexivity|]. cbn [answers seqs reply_to app]. split.
  - unfold reply_GetUuid, reply_GetSeqNum. rewrite uuid_short by (rewrite length_uint64; lia).
    unfold toUint64, toUint. rewrite decide_False; [done|]. cbn [p_data Part_bytes]. change (length (w_uuid s) <> 8%nat). by rewrite Hid.
  - unfold numbers. cbn [requests_ set_requests set_replies request_of]. rewrite decide_False by (by intros ?%message_kind).
    rewrite decide_True by done. cbn [worker_ set_replies set_requests app].
    change (match seqNumber (worker_ s) with (Ok n, _) => [n] | _ => [] end = [n]). by rewrite Hn.
Qed.

Lemma getters_race_witness : let s := mkService (Worker sample_id 5) None false false [] [] in
  exists g, @grun x86_64 PE0 PS0 PT0 never [GCall 0 UuidGetter; GCall 1 SeqGetter; GServe 0; GServe 0; GRecv 1; GRecv 0] (mkGsys s ∅ [] []) = Some g /\
    answers g = [(1%nat, ASeq (Ok 0)); (0%nat, AUuid throwAccessError)] /\ seqs g = [5].
Proof.
  apply (getters_race x86_64 PE0 PS0 PT0 never (mkService (Worker sample_id 5) None false false [] []) 5 (Worker sample_id 5)); reflexivity.
Defined.

End Grpc.
