(* ===== verification/GrpcEvents.v ===== *)
(** * Events over gRPC, the client and the command line (grpc/fuurin_worker_impl.cpp,
      grpc/fuurin_cli_impl.cpp, grpc/utils.cpp)

    The thread that publishes the events of the worker, their conversion to the messages of
    worker.proto, the handler of [WaitForEvent] that writes them to a stream and the client that
    reads it; and how endpoints are read from a command line. *)

From S2P Require Import Prelude Part PartMulti Codec Uuid Topic Event Config Session BrokerSession Runner RunnerEvents Grpc.

Local Open Scope Z_scope.

Module GrpcEvents.
Import Part PartMulti Codec Uuid Topic Config Session Runner.
Import RunnerEvents Grpc.

Abbreviation get := Prelude.get.

Section WithEnv.
Context {P : Platform}.

(** ** Conversion of an event *)

(** The lambdas [fillConfig] and [fillTopic] of [WorkerServiceImpl::getEvent] *)
Definition config_message (wc : WorkerConfig) : ConfigEvent :=
  mkConfigEvent (Config.uuid_ wc) (seqNum wc)
    (mkEndpoints (endpDelivery wc) (endpDispatch wc) (endpSnapshot wc))
    (mkSubscriptions (topicsAll wc) (name_str <$> topicsNames wc)).
Definition fillConfig (ev : Event.event) : outcome ConfigEvent :=
  wc ← WorkerConfig_fromPart (Event.payld_ ev); Ok (config_message wc).

Definition topic_message (t : topic) : TopicEvent :=
  mkTopicEvent (seqn_ t) (broker_ t) (Topic.worker_ t)
    (mkPTopic (name_str (name_ t)) (Part.toString (data_ t))
       (match Topic.type_ t with State => Topic_Type_State | Topic.Event => Topic_Type_Event end)).
Definition fillTopic (ev : Event.event) : outcome TopicEvent :=
  t ← topic_fromPart (Event.payld_ ev); Ok (topic_message t).

(** [WorkerServiceImpl::getEvent] *)
Definition getEvent (pay : part) : outcome (option PEvent) :=
  ev ← Event.event_fromPart pay;
  if bool_decide (Event.notif_ ev = Event.Timeout) || bool_decide (Event.notif_ ev = Event.Discard) ||
     bool_decide (Event.type_ ev = Event.Invalid)
  then Ok None else
  match Event.type_ ev with
  | Event.Started => c ← fillConfig ev; Ok (Some (mkPEvent Started (configEvent c)))
  | Event.Stopped => Ok (Some (mkPEvent Stopped no_payload))
  | Event.Offline => Ok (Some (mkPEvent Offline no_payload))
  | Event.Online => Ok (Some (mkPEvent Online no_payload))
  | Event.Delivery => t ← fillTopic ev; Ok (Some (mkPEvent Delivery (topicEvent t)))
  | Event.SyncRequest => c ← fillConfig ev; Ok (Some (mkPEvent SyncRequest (configEvent c)))
  | Event.SyncBegin => Ok (Some (mkPEvent SyncBegin no_payload))
  | Event.SyncElement => t ← fillTopic ev; Ok (Some (mkPEvent SyncElement (topicEvent t)))
  | Event.SyncSuccess => Ok (Some (mkPEvent SyncSuccess no_payload))
  | Event.SyncError => Ok (Some (mkPEvent SyncError no_payload))
  | Event.SyncDownloadOn => Ok (Some (mkPEvent SyncDownloadOn no_payload))
  | Event.SyncDownloadOff => Ok (Some (mkPEvent SyncDownloadOff no_payload))
  | Event.Invalid | Event.COUNT => Abort
  end.

(** ** Publishing *)

Definition GROUP_EVNT : bytes := str "EVNT".

(** The message that [WorkerServiceImpl::runEvents] sends for an event *)
Definition publish (ev : Event.event) : outcome part :=
  p ← Event.event_toPart ev; withGroup (Some GROUP_EVNT) p.

(** [WorkerServiceImpl::runEvents]: the messages it sends, over what the poller of every
    [waitForEvent] reports and whether the cancellation is set after it *)
Fixpoint runEvents (rounds : list (list wready * bool)) : M runner (list part) :=
  match rounds with
  | [] => mret []
  | (l, canc) :: rounds =>
    o ← waitForEvent None l;
    match o with
    | None => mret []
    | Some ev =>
      p ← lift (publish ev);
      if (canc : bool) then mret [p] else ps ← runEvents rounds; mret (p :: ps)
    end
  end.

(** ** The handler of [WaitForEvent] *)

Inductive Status := Status_OK | Status_CANCELLED.
(** What the poller reports: the global cancellation, the timeout, a message *)
Inductive ready := Canc2 | Tmeo | Msg (pay : part).

(** [rcpSetupSent] and what was written to the stream *)
Definition stream : Type := bool * list PEvent.
Definition Write (e : PEvent) : M stream unit := modify (fun s => (s.1, s.2 ++ [e])).
Definition createEvent (t : Event_Type) : PEvent := mkPEvent t no_payload.

Fixpoint wait_items (sock : list ready) : M stream (option Status) :=
  match sock with
  | [] => mret None
  | Canc2 :: _ => Write (createEvent RCPTeardown);; mret (Some Status_CANCELLED)
  | Tmeo :: _ => Write (createEvent RCPTeardown);; mret (Some Status_OK)
  | Msg pay :: sock =>
    ev ← lift (getEvent pay);
    s ← get;
    (if fst (s : stream) then mret tt else modify (fun s : stream => (true, s.2));; Write (createEvent RCPSetup));;
    match ev with Some e => Write e | None => mret tt end;;
    wait_items sock
  end.

(** [WorkerServiceImpl::WaitForEvent]: every round of the poller comes with whether the client
    has cancelled the call; [None] while the call waits. *)
Fixpoint WaitForEvent (rounds : list (bool * list ready)) : M stream (option Status) :=
  match rounds with
  | [] => mret None
  | (cancelled, sock) :: rounds =>
    if (cancelled : bool) then mret (Some Status_CANCELLED) else
    o ← wait_items sock;
    match o with Some st => mret (Some st) | None => WaitForEvent rounds end
  end.

End WithEnv.

(** ** The client *)

(** [WorkerCli::GetUuid], [GetSeqNum], [Start], [Stop], [Sync]: [call] is what the library makes of a
    request, whether its status is good and the response. *)
Definition cli_GetUuid (call : request -> bool * bytes) : option bytes :=
  let '(ok, ret) := call QUuid in if negb ok then None else Some ret.
Definition cli_GetSeqNum (call : request -> bool * Z) : option Z :=
  let '(ok, ret) := call QSeqNum in if negb ok then None else Some ret.
Definition cli_Start (call : request -> bool) : bool := call QStart.
Definition cli_Stop (call : request -> bool) : bool := call QStop.
Definition cli_Sync (call : request -> bool) : bool := call QSync.

(** [WorkerCli::SetEndpoints], [SetSubscriptions] and [Dispatch]: the messages they send *)
Definition cli_SetEndpoints (delivery dispatch snapshot : list bytes) : Endpoints :=
  mkEndpoints delivery dispatch snapshot.
Definition cli_SetSubscriptions (wildcard : bool) (names : list bytes) : Subscriptions :=
  mkSubscriptions wildcard names.
(** [accepts i] is whether the library takes the message number [i] *)
Fixpoint cli_Dispatch (accepts : nat -> bool) (i : nat) (l : list (bytes * bytes)) (type : Z) : list PTopic :=
  match l with
  | [] => []
  | (n, d) :: l => if accepts i then mkPTopic n d type :: cli_Dispatch accepts (S i) l type else []
  end.

(** [WorkerCli::WaitForEvent] over the events it reads: those given to the callback, and whether
    it cancels the call; the result also depends on the status of the call. *)
Fixpoint cli_events (callback : PEvent -> bool) (l : list PEvent) : list PEvent * bool :=
  match l with
  | [] => ([], false)
  | e :: l => if callback e then let '(seen, c) := cli_events callback l in (e :: seen, c) else ([e], true)
  end.
Definition cli_WaitForEvent (callback : PEvent -> bool) (l : list PEvent) (status_ok : bool) : list PEvent * bool :=
  let '(seen, cancelled) := cli_events callback l in (seen, status_ok || cancelled).

(** ** The command line *)

(** The loop of [utils::parseArgsEndpoints], over the arguments that are left *)
Fixpoint parse_loop (l : list bytes) (k : nat) (endp : list (list bytes)) : list (list bytes) :=
  match l with
  | [] => endp
  | a :: l => parse_loop l (if decide (length endp <= k + 1)%nat then 0 else k + 1)%nat (alter (fun e => e ++ [a]) k endp)
  end.
Definition parseArgsEndpoints (argv : list bytes) (startIdx : nat) : Endpoints :=
  let endp := parse_loop (drop startIdx argv) 0 [[]; []; []] in
  mkEndpoints (endp !!! 0%nat) (endp !!! 1%nat) (endp !!! 2%nat).
(** [utils::parseArgsServerAddress] *)
Definition parseArgsServerAddress (argv : list bytes) (startIdx : nat) : bytes :=
  default (str "localhost:50051") (argv !! startIdx).
(** [utils::applyArgsEndpoints], [utils::parseAndApplyArgsEndpoints] *)
Definition applyArgsEndpoints (e : Endpoints) : M runner Endpoints :=
  (if bool_decide (e_delivery e <> [] \/ e_dispatch e <> [] \/ e_snapshot e <> [])
   then modify (setEndpoints (e_delivery e) (e_dispatch e) (e_snapshot e)) else mret tt);;
  r ← get;
  mret (mkEndpoints (endpDelivery_ r) (endpDispatch_ r) (endpSnapshot_ r)).
Definition parseAndApplyArgsEndpoints (argv : list bytes) (startIdx : nat) : M runner Endpoints :=
  applyArgsEndpoints (parseArgsEndpoints argv startIdx).

(** [WorkerServiceImpl::Run], but for the server of the library *)
Definition Run (id : uuid) (e : Endpoints) : outcome Endpoints * service :=
  on_worker (zoom w_runner set_w_runner (applyArgsEndpoints e)) (WorkerServiceImpl id).

(** ** From the session to the stream *)

Section Facts.
Context {P : Platform}.

Definition type_code (t : Event.type) : option Event_Type :=
  match t with
  | Event.Started => Some Started | Event.Stopped => Some Stopped | Event.Offline => Some Offline
  | Event.Online => Some Online | Event.Delivery => Some Delivery | Event.SyncRequest => Some SyncRequest
  | Event.SyncBegin => Some SyncBegin | Event.SyncElement => Some SyncElement
  | Event.SyncSuccess => Some SyncSuccess | Event.SyncError => Some SyncError
  | Event.SyncDownloadOn => Some SyncDownloadOn | Event.SyncDownloadOff => Some SyncDownloadOff
  | Event.Invalid | Event.COUNT => None
  end.

(** The message of a topic and the message of a configuration, field by field *)
Record topic_shown (x : topic) (m : TopicEvent) : Prop := mkTopicShown {
  shown_seqn : te_seqn m = seqn_ x;
  shown_broker : te_broker m = broker_ x;
  shown_worker : te_worker m = Topic.worker_ x;
  shown_name : t_name (te_topic m) = name_str (name_ x);
  shown_data : t_data (te_topic m) = p_data (data_ x);
  shown_state : Topic.type_ x = State -> t_type (te_topic m) = 0;
  shown_event : Topic.type_ x = Topic.Event -> t_type (te_topic m) = 1;
}.
Record config_shown (wc : WorkerConfig) (m : ConfigEvent) : Prop := mkConfigShown {
  shown_uuid : ce_uuid m = Config.uuid_ wc;
  shown_count : ce_seqn m = seqNum wc;
  shown_delivery : e_delivery (ce_endpoints m) = endpDelivery wc;
  shown_dispatch : e_dispatch (ce_endpoints m) = endpDispatch wc;
  shown_snapshot : e_snapshot (ce_endpoints m) = endpSnapshot wc;
  shown_all : s_wildcard (ce_subscriptions m) = topicsAll wc;
  shown_names : s_name (ce_subscriptions m) = name_str <$> topicsNames wc;
}.

(** The fields fix the message. *)
Lemma topic_shown_message x m : topic_shown x m -> m = topic_message x.
Proof.
  destruct m as [n b w [nm d ty]], x as [xb xw xn xnm xd xt]. intros [H1 H2 H3 H4 H5 H6 H7]. cbn in *.
  unfold topic_message. cbn. subst. destruct xt; [by rewrite H6|by rewrite H7].
Qed.
Lemma config_shown_message wc m : config_shown wc m -> m = config_message wc.
Proof.
  destruct m as [u n [d1 d2 d3] [a ns]]. intros [H1 H2 H3 H4 H5 H6 H7]. cbn in *. by subst.
Qed.

(** The fields of the message follow what the payload holds. *)
Definition payload_shows (t : Event.type) (pay : part) (p : payload) : Prop :=
  match t with
  | Event.Started | Event.SyncRequest =>
    exists wc m, WorkerConfig_ok wc /\ WorkerConfig_toPart wc = Ok pay /\ config_shown wc m /\ p = configEvent m
  | Event.Delivery | Event.SyncElement => exists x m, topic_fromPart pay = Ok x /\ topic_shown x m /\ p = topicEvent m
  | _ => p = no_payload
  end.
Definition shows (token : Z) (e : sent_event) (o : option PEvent) : Prop :=
  event_good e /\
  let '(tok, t, pay) := e in
  match type_code t with
  | Some c => if tok =? token then exists p, o = Some (mkPEvent c p) /\ payload_shows t pay p else o = None
  | None => o = None
  end.
Lemma publish_ok ev : Event.event_ok ev ->
  exists p, publish ev = Ok p /\ Event.event_fromPart p = Ok ev.
Proof.
  intros He. destruct (Event.event_roundtrip ev He) as (d & E & _ & F). unfold publish. rewrite E. cbn [mbind outcome_bind].
  exists (mkPart d 0 GROUP_EVNT false). by split.
Qed.

Lemma publish_timeout : exists p, publish timeout_event = Ok p /\ getEvent p = Ok None.
Proof.
  destruct (publish_ok timeout_event) as (p & E & F); [by constructor|]. exists p. split; [done|].
  unfold getEvent. by rewrite F.
Qed.

Lemma fillConfig_ok t n wc pay : WorkerConfig_ok wc -> WorkerConfig_toPart wc = Ok pay ->
  fillConfig (Event.mkEvent t n (Part_bytes (p_data pay))) = Ok (config_message wc).
Proof.
  intros Hwc Ep. destruct (WorkerConfig_roundtrip wc Hwc) as (d & E & _ & F). rewrite Ep in E. injection E as ->.
  unfold fillConfig. cbn [Event.payld_]. change (p_data (Part_bytes d)) with d. by rewrite F.
Qed.
Lemma fillTopic_ok t n x pay : topic_fromPart pay = Ok x ->
  fillTopic (Event.mkEvent t n (Part_bytes (p_data pay))) = Ok (topic_message x).
Proof.
  intros Ex. unfold fillTopic. cbn [Event.payld_].
  assert (topic_fromPart (Part_bytes (p_data pay)) = Ok x) as -> by done. done.
Qed.
#[local] Arguments fillConfig : simpl never.
#[local] Arguments fillTopic : simpl never.

Lemma publish_received token e o : shows token e o ->
  exists p, publish (received token e) = Ok p /\ getEvent p = Ok o.
Proof.
  destruct e as [[tok t] pay]. intros ((H1 & H2 & H3 & H4 & H5) & Ho). cbn [fst snd] in *.
  destruct (publish_ok (received token (tok, t, pay))) as (p & E & F).
  { constructor; cbn; try done; [by destruct (tok =? token)|lia]. }
  exists p. split; [done|]. unfold getEvent. rewrite F. unfold received. cbn [mbind outcome_bind Event.notif_ Event.type_ fst snd].
  destruct (Z.eqb_spec tok token); cbn.
  - destruct t; cbn in Ho; try done; try (by subst o); destruct Ho as (p' & -> & Hp); cbn in Hp; try (by subst p').
    1,3: by destruct Hp as (wc & m & Hwc & Ep & ->%config_shown_message & ->); rewrite (fillConfig_ok _ _ _ _ Hwc Ep).
    all: by destruct Hp as (x & m & Ex & ->%topic_shown_message & ->); rewrite (fillTopic_ok _ _ _ _ Ex).
  - destruct t; cbn in Ho; by subst o.
Qed.

(** The rounds of [runEvents]: an event is there, or the time is over *)
Definition round (b : bool) : list wready * bool := ([if b then REvents else RCancel], false).

Lemma runEvents_sends (bs : list bool) : forall r l os, Forall2 (shows (token_ r)) l os -> Forall2 sent l (zevr_ r) ->
  length (List.filter id bs) = length l ->
  exists ps ws, runEvents (round <$> bs) r = (Ok ps, set_zevr [] r) /\ Forall2 (fun p o => getEvent p = Ok o) ps ws /\
    omap id ws = omap id os /\ length ps = length bs.
Proof.
  induction bs as [|b bs IH]; intros r l os Hs Hm Hl.
  { destruct l; [|done]. inversion Hs; subst. inversion Hm as [Hz|]; subst. exists [], []. split_and!; try done. by destruct r; cbn in *; subst. }
  cbn [fmap list_fmap runEvents round]. destruct b.
  - destruct l as [|e l]; [done|]. apply Forall2_cons_inv_l in Hs as (o & os' & Ho & Hs & ->).
    apply Forall2_cons_inv_l in Hm as (m & ms & Em & Hm & Hz). pose proof (recv_sent e m ms r (proj1 Ho) Em Hz) as Er.
    destruct (publish_received _ _ _ Ho) as (p & Ep & Eg).
    destruct (IH (set_zevr ms r) l os') as (ps & ws & E & Hg & Hos & Hlen); [done..|by injection Hl|].
    exists (p :: ps), (o :: ws). cbn [waitForEvent].
    rewrite (M_bind_eq _ _ r (Some (received (token_ r) e)) (set_zevr ms r)).
    2:{ rewrite (M_bind_eq _ _ _ _ _ Er). unfold received. by destruct (_ =? _). }
    rewrite Ep, bind_lift, (M_bind_eq _ _ _ _ _ E). split_and!; [by destruct r|by constructor|cbn; by rewrite Hos|cbn; by rewrite Hlen].
  - destruct (IH r l os) as (ps & ws & E & Hg & Hos & Hlen); [done..|]. destruct publish_timeout as (p & Ep & Eg).
    exists (p :: ps), (None :: ws). cbn [waitForEvent]. rewrite (M_bind_eq _ _ r (Some timeout_event) r) by done.
    rewrite Ep, bind_lift, (M_bind_eq _ _ _ _ _ E). split_and!; [done|by constructor|done|cbn; by rewrite Hlen].
Qed.

(** What a stream holds once some message came *)
Definition after (setup : bool) (out : list PEvent) (ws : list (option PEvent)) : stream :=
  match ws with
  | [] => (setup, out)
  | _ => (true, (if setup then out else out ++ [createEvent RCPSetup]) ++ omap id ws)
  end.
Lemma after_app setup out ws1 ws2 :
  after setup out (ws1 ++ ws2) = after (after setup out ws1).1 (after setup out ws1).2 ws2.
Proof.
  destruct ws1 as [|w ws1]; [done|]. destruct ws2 as [|w2 ws2]; [by rewrite app_nil_r|]. unfold after. cbn [app fst snd].
  change (w :: ws1 ++ w2 :: ws2) with ((w :: ws1) ++ w2 :: ws2). by rewrite omap_app, app_assoc.
Qed.

Lemma wait_items_msgs ps ws rest : Forall2 (fun p o => getEvent p = Ok o) ps ws -> forall setup out,
  wait_items ((Msg <$> ps) ++ rest) (setup, out) = wait_items rest (after setup out ws).
Proof.
  induction 1 as [|p o ps ws Ep _ IH]; intros setup out; [done|]. change (o :: ws) with ([o] ++ ws). rewrite after_app.
  cbn [fmap list_fmap app wait_items]. rewrite Ep, bind_lift, bind_get. cbn [fst].
  erewrite (M_bind_eq _ _ _ tt (true, if setup then out else out ++ [createEvent RCPSetup])) by (by destruct setup).
  erewrite (M_bind_eq _ _ _ tt (after setup out [o])); [|by destruct o; cbn; rewrite ?app_nil_r].
  change (list_fmap part ready Msg ps) with (Msg <$> ps). rewrite (surjective_pairing (after setup out [o])). apply IH.
Qed.

Lemma wait_rounds rounds last : forall ws setup out, Forall2 (fun p o => getEvent p = Ok o) (mjoin rounds) ws ->
  WaitForEvent (((fun ms => (false, Msg <$> ms)) <$> rounds) ++ last) (setup, out) = WaitForEvent last (after setup out ws).
Proof.
  induction rounds as [|ms rounds IH]; intros ws setup out Hw; [by inversion Hw|].
  change (mjoin (ms :: rounds)) with (ms ++ mjoin rounds) in Hw. apply Forall2_app_inv_l in Hw as (w1 & w2 & H1 & H2 & ->).
  cbn [fmap list_fmap app WaitForEvent]. rewrite (M_bind_eq _ _ _ None (after setup out w1)).
  - rewrite after_app, (surjective_pairing (after setup out w1)). apply IH, H2.
  - rewrite <-(app_nil_r (Msg <$> ms)). by rewrite (wait_items_msgs _ _ _ H1).
Qed.

End Facts.

(** ** The command line *)

Lemma parse_loop_app l1 : forall l2 k endp, (k < length endp)%nat ->
  parse_loop (l1 ++ l2) k endp = parse_loop l2 ((k + length l1) mod length endp)%nat (parse_loop l1 k endp).
Proof.
  induction l1 as [|a l1 IH]; intros l2 k endp Hk; cbn [app parse_loop length].
  { by rewrite Nat.add_0_r, Nat.mod_small. }
  rewrite IH by (rewrite length_alter; case_decide; lia). rewrite length_alter. f_equal. case_decide.
  - replace (k + S (length l1))%nat with (length l1 + 1 * length endp)%nat by lia. by rewrite Nat.Div0.mod_add.
  - f_equal. lia.
Qed.
Lemma parse_loop_snoc l a endp : (0 < length endp)%nat ->
  parse_loop (l ++ [a]) 0 endp = alter (fun e => e ++ [a]) (length l mod length endp)%nat (parse_loop l 0 endp).
Proof. intros Hk. by rewrite parse_loop_app. Qed.

Lemma parse_loop_spec l : length (parse_loop l 0 [[]; []; []]) = 3%nat /\
  forall c e, parse_loop l 0 [[]; []; []] !! c = Some e ->
    (3 * length e + c <= length l + 2 < 3 * length e + c + 3)%nat /\ forall i, (i mod 3)%nat = c -> e !! (i / 3)%nat = l !! i.
Proof.
  induction l as [|a l [IHl IH]] using rev_ind.
  { split; [done|]. intros c e Hc. assert (c < 3)%nat by (apply lookup_lt_Some in Hc; cbn in Hc; lia).
    assert (e = []) as -> by (destruct c as [|[|[|]]]; cbn in Hc; [congruence..|lia]). split; [cbn; lia|done]. }
  rewrite parse_loop_snoc by (cbn; lia). change (length [[]; []; []]) with 3%nat. rewrite length_alter, length_app. split; [done|].
  intros c e Hc. assert (c < 3)%nat by (apply lookup_lt_Some in Hc; rewrite length_alter in Hc; lia).
  pose proof (Nat.div_mod_eq (length l) 3). pose proof (Nat.mod_upper_bound (length l) 3).
  assert (forall i, i mod 3 = c -> i / 3 * 3 + c = i)%nat as Hi by (intros i ?; pose proof (Nat.div_mod_eq i 3); lia).
  destruct (decide (c = length l mod 3)%nat) as [->|Hne].
  - rewrite list_lookup_alter_eq in Hc. apply fmap_Some in Hc as (e0 & He0 & ->). destruct (IH _ _ He0) as [Hlen Hat].
    rewrite length_app. cbn [length]. split; [lia|]. intros i Hm. specialize (Hi i Hm). destruct (decide (i < length l)%nat).
    + rewrite !lookup_app_l by lia. by apply Hat.
    + destruct (decide (i = length l)) as [->|]; [|rewrite !lookup_ge_None_2; [done|rewrite length_app; cbn [length]; lia..]].
      rewrite !list_lookup_middle; [done|done|lia].
  - rewrite list_lookup_alter_ne in Hc by done. destruct (IH _ _ Hc) as [Hlen Hat]. cbn [length]. split; [lia|].
    intros i Hm. specialize (Hi i Hm). rewrite Hat by done. destruct (decide (i < length l)%nat); [by rewrite lookup_app_l|].
    destruct (decide (i = length l)) as [->|]; [done|]. rewrite !lookup_ge_None_2; [done|rewrite ?length_app; cbn [length]; lia..].
Qed.

(** What the client gives to its callback: the events up to the first that it refuses. *)
Lemma cli_events_spec callback l :
  exists rest, l = (cli_events callback l).1 ++ rest /\
  if (cli_events callback l).2 then exists l1 e, (cli_events callback l).1 = l1 ++ [e] /\ callback e = false /\ Forall (fun e => callback e = true) l1
  else rest = [] /\ Forall (fun e => callback e = true) l.
Proof.
  induction l as [|e l (rest & E & H)]; cbn [cli_events]; [by exists []|].
  destruct (callback e) eqn:Ec; [|exists l; split; [done|by exists [], e]].
  destruct (cli_events callback l) as [seen c]. cbn [fst snd] in *. exists rest. split; [by rewrite E|]. destruct c.
  - destruct H as (l1 & e1 & -> & ? & ?). exists (e :: l1), e1. split_and!; [done|done|by constructor].
  - destruct H. split; [done|by constructor].
Qed.

(** Lists of pairs *)
Lemma omap_snd_fmap {A B} (l : list (A * option B)) : omap snd l = omap id l.*2.
Proof. induction l as [|[a [b|]] l IH]; cbn; by rewrite ?IH. Qed.
Lemma omap_snd_zip {A B} (l : list A) (k : list (option B)) : length l = length k -> omap snd (zip l k) = omap id k.
Proof. intros Hl. by rewrite omap_snd_fmap, snd_zip by lia. Qed.
Lemma Forall2_zip {A B} (R : A -> B -> Prop) l k : Forall2 R l k -> Forall (fun p => R p.1 p.2) (zip l k).
Proof. by induction 1; constructor. Qed.
Lemma Forall_sublist {A} (Q : A -> Prop) l k : l `sublist_of` k -> Forall Q k -> Forall Q l.
Proof. induction 1; intros Hk; inversion Hk; subst; auto. Qed.

(** ** Theorems *)

(** C20: Events reach the remote client: let the session have sent any events, and let the thread of
    the events take them one by one, with timeouts at any places in between.  It publishes one
    message per event or timeout, and from the published messages that the socket of a call receives, all or
    only some of them, a client that is served until the timeout of its call or the shutdown of
    the service reads: one [RCPSetup] once the first message is received, then the events of the
    received messages in the order the session sent them, and one [RCPTeardown].  An event of
    the current session is shown with its type and with every field of the topic (number, broker, worker, name,
    data, type) or of the configuration (identity, number, endpoints, topics) that it carries; events of
    former sessions, invalid ones and timeouts are not shown; so a client that receives every message reads
    every event of the session.  How the messages are spread over the rounds of the poller does not
    matter. *)
Theorem events_streamed (P : Platform) (r : runner) (l : list sent_event) (os : list (option PEvent)) (bs : list bool) :
  Forall2 (shows (token_ r)) l os -> Forall2 sent l (zevr_ r) -> length (List.filter id bs) = length l ->
  exists published : list (part * option PEvent),
    runEvents (round <$> bs) r = (Ok published.*1, set_zevr [] r) /\ length published = length bs /\
    omap snd published = omap id os /\
    forall got rounds cut st, got `sublist_of` published -> mjoin rounds = got.*1 ->
      (cut, st) = (Tmeo, Status_OK) \/ (cut, st) = (Canc2, Status_CANCELLED) ->
      WaitForEvent (((fun ms => (false, Msg <$> ms)) <$> rounds) ++ [(false, [cut])]) (false, []) =
      (Ok (Some st), (match got with [] => false | _ => true end, match got with [] => [] | _ => [createEvent RCPSetup] end ++ omap snd got ++ [createEvent RCPTeardown])).
Proof.
  intros Hs Hm Hl. destruct (runEvents_sends bs r l os Hs Hm Hl) as (ps & ws & E & Hg & Ho & Hlen).
  pose proof (Forall2_length _ _ _ Hg) as Hpw. exists (zip ps ws). rewrite fst_zip by lia.
  rewrite length_zip_with, <-Hpw, Nat.min_id, omap_snd_zip by done. split_and!; [done..|].
  intros got rounds cut st Hsub Hr Hc. assert (Forall2 (fun p o => getEvent p = Ok o) (mjoin rounds) got.*2) as Hg'.
  { rewrite Hr. apply Forall2_fmap, Forall_Forall2_diag. eapply Forall_sublist; [exact Hsub|]. by apply (Forall2_zip (fun p o => getEvent p = Ok o)). }
  rewrite (wait_rounds rounds _ _ _ _ Hg'). unfold after. destruct got as [|[p o] got].
  - by destruct Hc as [[= -> ->]|[= -> ->]].
  - rewrite omap_snd_fmap. cbn [fmap list_fmap snd].
    by destruct Hc as [[= -> ->]|[= -> ->]].
Qed.

Definition sample_events : list sent_event :=
  [(3, Event.Online, Part_empty); (2, Event.Offline, Part_empty); (3, Event.Delivery, Part_bytes (@encs x86_64 (topic_fields sample_topic)))].
Definition sample_shown : list (option PEvent) :=
  [Some (mkPEvent Online no_payload); None; Some (mkPEvent Delivery (topicEvent (mkTopicEvent (seqn_ sample_topic) (broker_ sample_topic) (Topic.worker_ sample_topic)
      (mkPTopic (name_str (name_ sample_topic)) (p_data (data_ sample_topic)) 1))))].

Definition message0 (e : sent_event) : part :=
  match @event_message x86_64 e.1.1 e.1.2 e.2 with Ok m => m | _ => Part_empty end.
Definition sample_runner : runner := set_token 3 (set_zevr (message0 <$> sample_events) (Runner sample_id)).

Lemma events_streamed_witness :
  exists published : list (part * option PEvent),
    @runEvents x86_64 (round <$> [true; false; true; true]) sample_runner = (Ok published.*1, set_zevr [] sample_runner) /\
    length published = 4%nat /\ omap snd published = omap id sample_shown /\
    forall got rounds cut st, got `sublist_of` published -> mjoin rounds = got.*1 ->
      (cut, st) = (Tmeo, Status_OK) \/ (cut, st) = (Canc2, Status_CANCELLED) ->
      @WaitForEvent x86_64 (((fun ms => (false, Msg <$> ms)) <$> rounds) ++ [(false, [cut])]) (false, []) =
      (Ok (Some st), (match got with [] => false | _ => true end, match got with [] => [] | _ => [createEvent RCPSetup] end ++ omap snd got ++ [createEvent RCPTeardown])).
Proof.
  apply (events_streamed x86_64 sample_runner sample_events sample_shown).
  - repeat (apply Forall2_cons_2; [split; [repeat (split; [vm_compute; by intuition|]); by apply Nat.leb_le|]|]); [..|constructor].
    + by exists no_payload.
    + reflexivity.
    + eexists. split; [reflexivity|]. eexists sample_topic, _. split; [vm_compute; reflexivity|]. split; [|reflexivity].
      by constructor.
  - repeat (apply Forall2_cons_2; [vm_compute; reflexivity|]). constructor.
  - reflexivity.
Defined.

(** [utils::parseArgsEndpoints] deals the arguments out to the three lists in turn: argument
    number [i] from [startIdx] is element [i / 3] of list [i mod 3], and the lists hold nothing else;
    so no index is out of range and no argument is lost, for any number of arguments. *)
Theorem endpoints_round_robin (argv : list bytes) (startIdx i : nat) :
  let e := parseArgsEndpoints argv startIdx in
  ([e_delivery e; e_dispatch e; e_snapshot e] !!! (i mod 3)%nat) !! (i / 3)%nat = argv !! (startIdx + i)%nat.
Proof.
  destruct (parse_loop_spec (drop startIdx argv)) as [Hl H]. unfold parseArgsEndpoints.
  destruct (parse_loop _ _ _) as [|a [|b [|c []]]] eqn:E; try done. rewrite <-lookup_drop.
  cbn [e_delivery e_dispatch e_snapshot]. pose proof (Nat.mod_upper_bound i 3) as Hm.
  destruct (i mod 3)%nat as [|[|[|]]] eqn:Ei; [..|lia].
  - exact (proj2 (H 0%nat a eq_refl) i Ei).
  - exact (proj2 (H 1%nat b eq_refl) i Ei).
  - exact (proj2 (H 2%nat c eq_refl) i Ei).
Qed.

End GrpcEvents.
