(* ===== verification/GrpcSystem.v ===== *)
(** * The gRPC service and the session of its worker together (grpc/fuurin_worker_impl.cpp)

    The handlers of the calls, the thread that serves their requests ([runClient]) and the
    session thread of the worker, in any order.  Serving a stop waits for the session; while it
    waits the serving thread makes no other step.  Every run is one of a program that uses the
    worker through its interface ([CBindings]), so what holds of those holds of the service. *)

From S2P Require Import Prelude Part PartMulti Codec Uuid Topic Event Config Session BrokerSession Runner RunnerEvents RunnerSystem CBindings Grpc.

Local Open Scope Z_scope.

Module GrpcSystem.
Import Part PartMulti Codec Uuid Topic Config Session Runner.
Import RunnerSystem CBindings Grpc.

Abbreviation get := Prelude.get.

(** The worker with its session and the future [active_], the rest of the service, and whether
    the serving thread is waiting in [serveRPC] or has returned from [runClient] *)
Record gcsys := mkGcsys {
  gc_ : csys;
  gcanc1_ : bool;
  gcanc2_ : bool;
  greq_ : list part;
  grep_ : list part;
  blocked_ : bool;
  exited_ : bool;
}.

Definition service_of (g : gcsys) : service :=
  mkService (main (cs_ (gc_ g))) (fut_ (gc_ g)) (gcanc1_ g) (gcanc2_ g) (greq_ g) (grep_ g).

(** The worker and its session after an action of the service: the future of session number
    [gen + 1] is there when the action started it. *)
Definition csys_after (s : service) (c : csys) : csys :=
  let new := bool_decide (active_ s = Some (S (gen (cs_ c)))) in
  mkCsys
    (spawn (if new then Some (token_ (w_runner (worker_ s))) else None)
       (call (if new then S (gen (cs_ c)) else gen (cs_ c)) (worker_ s) (cs_ c)))
    (active_ s) (res_ c).
Definition after (s : service) (b : bool) (g : gcsys) : gcsys :=
  mkGcsys (csys_after s (gc_ g)) (zcanc1_ s) (zcanc2_ s) (requests_ s) (replies_ s) b (exited_ g).

Definition gcinit (id : uuid) : gcsys := mkGcsys (cinit id 0) false false [] [] false false.

Inductive slabel :=
  | HAsk (r : request)   (** a handler sends a request *)
  | HRecv                (** a handler takes a reply *)
  | HShutdown            (** the service is shut down *)
  | KServe               (** [runClient] serves the next request *)
  | KResume              (** the wait of [serveRPC] returns *)
  | KMonitor             (** [runClient] serves its timer *)
  | KExit                (** [runClient] finds [zcanc1_] and returns *)
  | WSession (l : label) (** a step of the session thread *).

Definition session_label (l : label) : bool :=
  match l with SRecv | SNotify _ | SDie => true | _ => false end.

Section WithEnv.
Context {P : Platform} {PE : Proto Endpoints} {PS : Proto Subscriptions} {PT : Proto PTopic}.

Definition exec_g (l : slabel) (g : gcsys) : option gcsys :=
  let s := service_of g in
  let ov := over (gc_ g) in
  match l with
  | HAsk r => match ask r s with (Ok _, s') => Some (after s' (blocked_ g) g) | _ => None end
  | HRecv => match recvRPC s with (Ok (Some _), s') => Some (after s' (blocked_ g) g) | _ => None end
  | HShutdown => match shutdown s with (Ok _, s') => Some (after s' (blocked_ g) g) | _ => None end
  | KServe =>
    if (blocked_ g || exited_ g)%bool then None else
    match client_request ov (S (gen (cs_ (gc_ g)))) s with
    | (Ok b, s') => Some (after s' (negb b) g)
    | _ => None
    end
  | KResume =>
    if blocked_ g then
      match waitForResult ov (-1) s with (Ok (Some _), s') => Some (after s' false g) | _ => None end
    else None
  | KMonitor =>
    if (blocked_ g || exited_ g)%bool then None else
    match client_monitor ov s with (Ok _, s') => Some (after s' false g) | _ => None end
  | KExit =>
    if (gcanc1_ g && negb (blocked_ g) && negb (exited_ g))%bool
    then Some (mkGcsys (gc_ g) (gcanc1_ g) (gcanc2_ g) (greq_ g) (grep_ g) (blocked_ g) true)
    else None
  | WSession l =>
    if session_label l then
      match exec_c (CStep l) (gc_ g) with
      | Some c => Some (mkGcsys c (gcanc1_ g) (gcanc2_ g) (greq_ g) (grep_ g) (blocked_ g) (exited_ g))
      | None => None
      end
    else None
  end.

(** The requests fit their messages; with [no_die] no session throws. *)
Definition label_ok (no_die : bool) (l : slabel) : Prop :=
  match l with HAsk r => request_ok r | WSession SDie => no_die = false | _ => True end.

Inductive greachable (no_die : bool) : gcsys -> Prop :=
  | greach_init id : greachable no_die (gcinit id)
  | greach_exec l g g' : greachable no_die g -> label_ok no_die l -> exec_g l g = Some g' -> greachable no_die g'.

Fixpoint grun_g (ls : list slabel) (g : gcsys) : option gcsys :=
  match ls with
  | [] => Some g
  | l :: ls => match exec_g l g with Some g' => grun_g ls g' | None => None end
  end.

Lemma grun_reachable b ls : forall g g', greachable b g -> Forall (label_ok b) ls -> grun_g ls g = Some g' ->
  greachable b g'.
Proof.
  induction ls as [|l ls IH]; intros g g' Hr Hl; cbn [grun_g]; [by intros [= <-]|]. apply Forall_cons in Hl as [Hl Hls].
  destruct (exec_g l g) as [g1|] eqn:E; [|done]. apply IH; [by eapply greach_exec|done].
Qed.

Lemma grun_app ls1 ls2 g g1 : grun_g ls1 g = Some g1 -> grun_g (ls1 ++ ls2) g = grun_g ls2 g1.
Proof.
  revert g. induction ls1 as [|l ls1 IH]; intros g; cbn [grun_g app]; [by intros [= ->]|].
  destruct (exec_g l g); [apply IH|done].
Qed.

(** ** What the service does is a sequence of calls of the worker *)

Lemma call_id s : call (gen s) (main s) s = s.
Proof. unfold call. rewrite drop_all. cbn [fmap list_fmap]. rewrite !app_nil_r. by destruct s. Qed.

Lemma call_call n1 n2 w1 w2 s : queued w1 = queued (main s) -> call n2 w2 (call n1 w1 s) = call n2 w2 s.
Proof.
  intros Hq. unfold call. cbn [main alive queue sent handled]. rewrite Hq, drop_all. cbn [fmap list_fmap].
  by rewrite !app_nil_r.
Qed.

(** An action that starts no session *)
Lemma after_call b s c : cinv b c -> active_ s = fut_ c \/ active_ s = None ->
  csys_after s c = mkCsys (call (gen (cs_ c)) (worker_ s) (cs_ c)) (active_ s) (res_ c).
Proof.
  intros Hi Ha. unfold csys_after. rewrite bool_decide_eq_false_2; [done|]. intros Hs.
  destruct Ha as [Ha|Ha]; [|congruence]. rewrite Ha in Hs. pose proof (ci_fut _ _ Hi _ Hs). lia.
Qed.

Lemma after_id b s c : cinv b c -> worker_ s = main (cs_ c) -> active_ s = fut_ c -> csys_after s c = c.
Proof. intros Hi Hw Ha. rewrite (after_call b) by auto. rewrite Hw, call_id, Ha. by destruct c. Qed.

Lemma exec_c_call l c w : l <> LStart -> exec l (cs_ c) = Some (call (gen (cs_ c)) w (cs_ c)) ->
  exec_c (CStep l) c = Some (mkCsys (call (gen (cs_ c)) w (cs_ c)) (fut_ c) (res_ c)).
Proof.
  intros Hl E. assert (record_end l (cs_ c) (call (gen (cs_ c)) w (cs_ c)) (res_ c) = res_ c) as Hr
    by (unfold record_end; cbn [alive call]; by destruct (alive (cs_ c)) as [[]|]).
  destruct l; try done; unfold exec_c; by rewrite E, Hr.
Qed.

(** What a serving call does, from state [c] of the worker and its session *)
Definition simulated (c : csys) (s' : service) : Prop :=
  exists ls, crun ls c = Some (csys_after s' c) /\ CStep SDie ∉ ls.

(** The service sees the worker and the future of that state. *)
Definition sees (s : service) (c : csys) : Prop := worker_ s = main (cs_ c) /\ active_ s = fut_ c.

Lemma on_worker_Ok {A} (m : M worker A) s a s' : on_worker m s = (Ok a, s') ->
  exists w, m (worker_ s) = (Ok a, w) /\ s' = set_worker w s.
Proof. unfold on_worker, zoom. destruct (m (worker_ s)) as [o w]. intros [= -> <-]. by exists w. Qed.

Lemma not_die l : l <> SDie -> CStep SDie ∉ [CStep l].
Proof. intros Hl H. apply list_elem_of_singleton in H. congruence. Qed.

Lemma sees_id b c s : cinv b c -> sees s c -> simulated c s.
Proof. intros Hi [Hw Ha]. exists []. cbn [crun]. rewrite (after_id b) by done. split; [done|apply not_elem_of_nil]. Qed.

(** One call of the worker *)
Lemma worker_sim {A} (m : M worker A) l b c s a s' : cinv b c -> sees s c -> l <> LStart -> l <> SDie ->
  (forall w, m (main (cs_ c)) = (Ok a, w) -> exec l (cs_ c) = Some (call (gen (cs_ c)) w (cs_ c))) ->
  on_worker m s = (Ok a, s') -> simulated c s'.
Proof.
  intros Hi [Hw Ha] Hl Hd Hm (w & E & ->)%on_worker_Ok. rewrite Hw in E. exists [CStep l]. split; [|by apply not_die].
  cbn [crun]. rewrite (exec_c_call l c w Hl (Hm w E)), (after_call b) by (cbn; auto). cbn [active_ worker_ set_worker]. by rewrite Ha.
Qed.

Lemma wait_active b c t s : cinv b c -> sees s c ->
  waitForResult (over c) t s =
  match alive (cs_ c) with
  | Some _ => (Ok (if 0 <=? t then Some tt else None), s)
  | None => (Ok (Some tt), set_active None s)
  end.
Proof.
  intros Hi [_ Ha]. unfold waitForResult. rewrite bind_get, Ha. destruct (alive (cs_ c)) as [[k g]|] eqn:El.
  - destruct (ci_held _ _ Hi k g El) as [Hf Hg]. rewrite Hf. unfold over.
    rewrite (proj2 (ci_res _ _ Hi g (ci_fut _ _ Hi g Hf))) by eauto. by destruct (0 <=? t).
  - destruct (fut_ c) as [g|] eqn:Ef; [|by destruct s; cbn in *; subst].
    unfold over. destruct (res_ c !! g) as [r|] eqn:Er.
    + by destruct (ci_pass _ _ Hi g r Er) as [->|[e ->]].
    + apply (ci_res _ _ Hi) in Er as [k Hk]; [congruence|by apply (ci_fut _ _ Hi)].
Qed.

(** [isRunning], and the state the rest of the call starts from *)
Lemma running_step b c : creachable b c -> exists w,
  on_runner (S := worker) isRunning (main (cs_ c)) = (Ok (bool_decide (alive (cs_ c) <> None)), w) /\
  queued w = queued (main (cs_ c)) /\
  exec_c (CStep LIsRunning) c = Some (mkCsys (call (gen (cs_ c)) w (cs_ c)) (fut_ c) (res_ c)) /\
  creachable b (mkCsys (call (gen (cs_ c)) w (cs_ c)) (fut_ c) (res_ c)).
Proof.
  intros Hc. pose proof (reachable_flag _ _ (ci_reach _ _ (creachable_inv _ _ Hc))) as Hf.
  destruct (on_isRunning _ _ _ Hf) as (w & E & _ & Hq & _). exists w.
  assert (exec_c (CStep LIsRunning) c = Some (mkCsys (call (gen (cs_ c)) w (cs_ c)) (fut_ c) (res_ c))) as Ec
    by (apply exec_c_call; [done|cbn [exec]; by rewrite E]).
  split_and!; try done. eapply creach_exec; [exact Hc| |exact Ec]. intros _; discriminate.
Qed.

Lemma on_worker_eq {A} (m : M worker A) s o w : m (worker_ s) = (o, w) -> on_worker m s = (o, set_worker w s).
Proof. intros E. unfold on_worker, zoom. by rewrite E. Qed.

(** Starting: the future held before is that of a session that is over, so it does not block. *)
Lemma held_over b c : cinv b c -> alive (cs_ c) = None ->
  fut_ c ≫= (fun j => match over c j with Some _ => None | None => Some j end) = None.
Proof.
  intros Hi Hal. destruct (fut_ c) as [g|] eqn:Ef; [|done]. cbn [mbind option_bind]. unfold over. destruct (res_ c !! g) as [r|] eqn:Er; [done|].
  apply (ci_res _ _ Hi) in Er as [k Hk]; [congruence|by apply (ci_fut _ _ Hi)].
Qed.

Lemma set_start_sim b c s o s' : creachable b c -> sees s c -> alive (cs_ c) = None ->
  set_start (over c) (S (gen (cs_ c))) s = (Ok o, s') ->
  o = Some tt /\ exec_c CStart c = Some (csys_after s' c).
Proof.
  intros Hc [Hw Ha] Hal E. pose proof (creachable_inv _ _ Hc) as Hi. unfold set_start in E.
  apply M_bind_Ok in E as (o1 & s1 & (w & Es & ->)%on_worker_Ok & E). rewrite Hw in Es.
  destruct (start_returns b c o1 w Hi Es) as [Ec _]. pose proof (start_result _ _ _ _ _ (reachable_flag _ _ (ci_reach _ _ Hi)) Es) as Hs.
  rewrite Hal in Hs. destruct Hs as (tok & m & -> & Hf & _). rewrite bind_get in E. cbn [active_ set_worker] in E. rewrite Ha in E.
  rewrite (held_over b) in E by done. injection E as <- <-. split; [done|]. cbn [exec_c exec]. rewrite Ec, Es. cbn [f_]. do 2 f_equal.
  unfold csys_after. cbn [active_ set_active worker_ set_worker]. rewrite bool_decide_eq_true_2 by done. do 2 f_equal.
  by destruct Hf as (_ & _ & _ & -> & _).
Qed.

Lemma perform_start_sim b c s o s' : creachable b c -> sees s c ->
  perform (over c) (S (gen (cs_ c))) QStart s = (Ok o, s') -> o = Some Part_empty /\ simulated c s'.
Proof.
  intros Hc [Hw Ha] E. pose proof (creachable_inv _ _ Hc) as Hi. destruct (running_step b c Hc) as (w & Er & Hq & Ec & Hc1).
  cbn [perform serveRPC] in E. rewrite <-Hw in Er. rewrite (M_bind_eq _ _ _ _ _ (on_worker_eq _ _ _ _ Er)) in E.
  destruct (alive (cs_ c)) as [a|] eqn:Hal.
  - rewrite bool_decide_eq_true_2 in E by done. injection E as <- <-. split; [done|]. exists [CStep LIsRunning].
    split; [|by apply not_die]. cbn [crun]. rewrite Ec, (after_call b) by (cbn; auto). cbn [active_ worker_ set_worker]. by rewrite Ha.
  - rewrite bool_decide_eq_false_2 in E by (intros []; done).
    apply M_bind_Ok in E as (r & s1 & E & [= <- <-]).
    destruct (set_start_sim b _ (set_worker w s) r s1 Hc1 (conj eq_refl Ha)) as [-> Es]; [done|exact E|].
    split; [done|]. exists [CStep LIsRunning; CStart]. cbn [crun]. rewrite Ec, Es. split.
    + unfold csys_after. cbn [cs_ gen call res_]. by rewrite (call_call _ _ w) by done.
    + rewrite !not_elem_of_cons. split_and!; [discriminate..|apply not_elem_of_nil].
Qed.

(** Stopping: a session that runs is sent the stop, and the call waits for it. *)
Lemma stop_running_sim b k c s : creachable b c -> sees s c -> alive (cs_ c) <> None ->
  exists s', perform (over c) k QStop s = (Ok None, s') /\ simulated c s' /\
    set_worker (worker_ s) s' = s /\
    alive (cs_ (csys_after s' c)) = alive (cs_ c) /\ stop_queued (cs_ (csys_after s' c)) /\
    length (queue (cs_ (csys_after s' c))) = S (length (queue (cs_ c))).
Proof.
  intros Hc [Hw Ha] Hal. pose proof (creachable_inv _ _ Hc) as Hi. destruct (running_step b c Hc) as (w & Er & Hq & Ec & Hc1).
  cbn [perform serveRPC]. rewrite <-Hw in Er. rewrite (M_bind_eq _ _ _ _ _ (on_worker_eq _ _ _ _ Er)).
  rewrite bool_decide_eq_true_2 by done. set (c1 := mkCsys (call (gen (cs_ c)) w (cs_ c)) (fut_ c) (res_ c)) in *.
  assert (queue (cs_ c1) = queue (cs_ c)) as Hq1 by (cbn; unfold call; rewrite Hq, drop_all; apply app_nil_r).
  destruct (stop_step b c1 Hc1 Hal) as (c2 & E2 & Hc2 & Ha2 & Hl2 & Hst). rewrite Hq1 in Hl2.
  assert (exists x w2, on_runner (S := worker) stop w = (Ok x, w2)) as (x & w2 & Es).
  { cbn [exec_c exec] in E2. change (main (cs_ c1)) with w in E2.
    destruct (on_runner (S := worker) stop w) as [[x| | |] w2]; try discriminate E2. by exists x, w2. }
  assert (exec_c (CStep LStop) c1 = Some (mkCsys (call (gen (cs_ c)) w2 (cs_ c)) (fut_ c) (res_ c))) as E2'.
  { rewrite (exec_c_call LStop c1 w2) by (try done; cbn [exec]; change (main (cs_ c1)) with w; by rewrite Es).
    change (cs_ c1) with (call (gen (cs_ c)) w (cs_ c)). by rewrite call_call. }
  rewrite E2' in E2. injection E2 as <-.
  assert ((on_worker (on_runner stop);; mret tt) (set_worker w s) = (Ok tt, set_worker w2 s)) as Eb
    by (by rewrite (M_bind_eq _ _ _ _ _ (on_worker_eq _ (set_worker w s) _ _ Es))).
  rewrite (M_bind_eq _ _ _ _ _ Eb).
  pose proof (wait_active b _ (-1) (set_worker w2 s) (creachable_inv _ _ Hc2) (conj eq_refl Ha)) as Hwait.
  cbn [cs_ alive call] in Hwait. change (over (mkCsys _ _ _)) with (over c) in Hwait.
  exists (set_worker w2 s). unfold simulated.
  assert (csys_after (set_worker w2 s) c = mkCsys (call (gen (cs_ c)) w2 (cs_ c)) (fut_ c) (res_ c)) as ->
    by (rewrite (after_call b) by (cbn; auto); cbn [active_ worker_ set_worker]; by rewrite Ha).
  split_and!; try done; [|exists [CStep LIsRunning; CStep LStop]; split|by destruct s].
  - destruct (alive (cs_ c)); [|done]. by rewrite (M_bind_eq _ _ _ _ _ Hwait).
  - cbn [crun]. by rewrite Ec, E2'.
  - rewrite !not_elem_of_cons. split_and!; [discriminate..|apply not_elem_of_nil].
Qed.

(** The wait of a stop that finds the session over, and of one that is resumed *)
Lemma wait_over_sim b c s : creachable b c -> sees s c -> alive (cs_ c) = None ->
  exec_c CWait c = Some (csys_after (set_active None s) c).
Proof.
  intros Hc [Hw _] Hal. pose proof (creachable_inv _ _ Hc) as Hi. rewrite (after_call b) by (cbn; auto).
  cbn [exec_c worker_ active_ set_active]. pose proof (wait_result b c (handle_of c) Hi eq_refl) as Hr. rewrite Hal in Hr.
  by rewrite Hr, Hw, call_id.
Qed.

Lemma stop_idle_sim b k c s : creachable b c -> sees s c -> alive (cs_ c) = None ->
  exists s', perform (over c) k QStop s = (Ok (Some Part_empty), s') /\ simulated c s' /\
    set_worker (worker_ s) (set_active (active_ s) s') = s /\
    alive (cs_ (csys_after s' c)) = None /\ fut_ (csys_after s' c) = None.
Proof.
  intros Hc [Hw Ha] Hal. pose proof (creachable_inv _ _ Hc) as Hi. destruct (running_step b c Hc) as (w & Er & Hq & Ec & Hc1).
  cbn [perform serveRPC]. rewrite <-Hw in Er. rewrite (M_bind_eq _ _ _ _ _ (on_worker_eq _ _ _ _ Er)).
  rewrite bool_decide_eq_false_2 by (intros []; done). rewrite bind_ret.
  set (c1 := mkCsys (call (gen (cs_ c)) w (cs_ c)) (fut_ c) (res_ c)) in *. assert (sees (set_worker w s) c1) as Hs1 by done.
  pose proof (wait_active b c1 (-1) _ (creachable_inv _ _ Hc1) Hs1) as Hwait.
  cbn [cs_ alive call c1] in Hwait. rewrite Hal in Hwait. change (over c1) with (over c) in Hwait.
  rewrite (M_bind_eq _ _ _ _ _ Hwait). exists (set_active None (set_worker w s)). unfold simulated.
  pose proof (wait_over_sim b c1 _ Hc1 Hs1 Hal) as Ew.
  assert (csys_after (set_active None (set_worker w s)) c1 = csys_after (set_active None (set_worker w s)) c) as Haf
    by (unfold csys_after; cbn [cs_ gen call c1 res_ active_ set_active]; by rewrite call_call).
  rewrite Haf in Ew. split_and!; try done; [exists [CStep LIsRunning; CWait]; split|by destruct s].
  - cbn [crun]. by rewrite Ec, Ew.
  - rewrite !not_elem_of_cons. split_and!; [discriminate..|apply not_elem_of_nil].
Qed.

Lemma done_with_Ok (m : M service unit) p s o s' : done_with m p s = (Ok o, s') -> o = Some p /\ m s = (Ok tt, s').
Proof. unfold done_with. intros ([] & s1 & E & [= <- <-])%M_bind_Ok. done. Qed.

(** Serving any request is a sequence of calls of the worker; only a stop of a running session
    waits, and the stop is then on its way. *)
Lemma perform_sim b c r s o s' : creachable b c -> sees s c ->
  perform (over c) (S (gen (cs_ c))) r s = (Ok o, s') ->
  simulated c s' /\
  (o = None -> r = QStop /\ alive (cs_ c) <> None /\ stop_queued (cs_ (csys_after s' c))).
Proof.
  intros Hc Hs E. pose proof (creachable_inv _ _ Hc) as Hi. destruct r as [| | |e|u| | | |t]; cbn [perform serveRPC] in E.
  - apply done_with_Ok in E as [-> [= <-]]. split; [|done]. by eapply sees_id; [|destruct Hs].
  - rewrite bind_get in E. apply M_bind_Ok in E as (p & s1 & [= _ <-] & [= <- <-]). split; [|done]. by eapply sees_id.
  - apply M_bind_Ok in E as (n & s1 & E & [= <- <-]). split; [|done].
    eapply (worker_sim seqNumber LSeqNumber); [done..| |exact E]. intros w Ew. cbn [exec]. by rewrite Ew.
  - apply done_with_Ok in E as [-> E]. split; [|done].
    eapply (worker_sim _ (LConfigure (ConfEndpoints (e_delivery e) (e_dispatch e) (e_snapshot e)))); [done..| |exact E].
    by intros w [= <-].
  - apply done_with_Ok in E as [-> E]. split; [|done]. unfold applySubscriptions in E. destruct (s_wildcard u).
    + eapply (worker_sim _ (LConfigure ConfTopicsAll)); [done..| |exact E]. by intros w [= <-].
    + eapply (worker_sim _ (LConfigure (ConfTopicsNames (Name <$> s_name u)))); [done..| |exact E]. by intros w [= <-].
  - destruct (perform_start_sim b c s o s' Hc Hs E) as [-> H]. done.
  - destruct (alive (cs_ c)) as [a|] eqn:Hal.
    + destruct (stop_running_sim b (S (gen (cs_ c))) c s Hc Hs) as (s1 & E1 & H1 & _ & _ & H2 & _); [congruence|].
      cbn [perform serveRPC] in E1. rewrite E1 in E. injection E as <- <-. done.
    + destruct (stop_idle_sim b (S (gen (cs_ c))) c s Hc Hs Hal) as (s1 & E1 & H1 & _).
      cbn [perform serveRPC] in E1. rewrite E1 in E. injection E as <- <-. done.
  - apply done_with_Ok in E as [-> E]. split; [|done].
    eapply (worker_sim sync LSync); [done..| |exact E]. intros w Ew. cbn [exec]. by rewrite Ew.
  - apply done_with_Ok in E as [-> E]. split; [|done]. unfold setDispatch in E.
    eapply (worker_sim _ (LDispatch (Name (t_name t)) (Part_bytes (t_data t)) _)); [done..| |exact E].
    intros w Ew. cbn [exec]. by rewrite Ew.
Qed.

(** ** Every step of the system *)

(** The worker side is that of a program; the requests are well formed; while the serving thread
    waits, the session is over or has a stop to take. *)
Record gcinv (b : bool) (g : gcsys) : Prop := mkGcinv {
  gi_prog : creachable b (gc_ g);
  gi_reqs : exists rs, greq_ g = message_of <$> rs /\ Forall request_ok rs;
  gi_wait : blocked_ g = true -> alive (cs_ (gc_ g)) <> None -> stop_queued (cs_ (gc_ g));
}.

Lemma sees_service g : sees (service_of g) (gc_ g).
Proof. done. Qed.

Lemma simulated_reachable b c s : creachable b c -> simulated c s -> creachable b (csys_after s c).
Proof. intros Hc (ls & E & Hd). by eapply crun_reachable. Qed.

(** Actions of the service that leave the worker alone *)
Lemma after_frame b s g : gcinv b g -> sees s (gc_ g) -> csys_after s (gc_ g) = gc_ g.
Proof. intros Hi [Hw Ha]. by eapply after_id; [apply creachable_inv, Hi|..]. Qed.

Lemma csys_after_eq s1 s2 c : worker_ s1 = worker_ s2 -> active_ s1 = active_ s2 -> csys_after s1 c = csys_after s2 c.
Proof. intros Hw Ha. unfold csys_after. by rewrite Hw, Ha. Qed.

Lemma push_frame p s o s' : push_reply p s = (o, s') ->
  o = Ok tt /\ worker_ s' = worker_ s /\ active_ s' = active_ s /\ requests_ s' = requests_ s.
Proof. unfold push_reply. destruct (empty p); by intros [= <- <-]. Qed.

(** Serving the next request *)
Lemma serve_sim b g bl s' : gcinv b g -> client_request (over (gc_ g)) (S (gen (cs_ (gc_ g)))) (service_of g) = (Ok bl, s') ->
  exists r q, greq_ g = message_of r :: q /\ request_ok r /\ requests_ s' = q /\ simulated (gc_ g) s' /\
    (bl = false -> r = QStop /\ alive (cs_ (gc_ g)) <> None /\ stop_queued (cs_ (csys_after s' (gc_ g)))).
Proof.
  intros [Hc (rs & Hrs & Hok) _] E. destruct rs as [|r rs]; cbn [fmap list_fmap] in Hrs.
  { unfold client_request in E. rewrite bind_get in E. cbn [requests_ service_of] in E. rewrite Hrs in E. discriminate E. }
  apply Forall_cons in Hok as [Hr _]. exists r, (message_of <$> rs). split; [done|]. split; [done|].
  rewrite (client_performs _ _ r (message_of <$> rs)) in E by done. apply M_bind_Ok in E as (o & s1 & Ep & E).
  pose proof (indep_perform (over (gc_ g)) (S (gen (cs_ (gc_ g)))) r ((message_of <$> rs) : list part) (service_of g)) as Hq.
  rewrite Ep in Hq. injection Hq as _ Hq.
  pose proof (fun H => perform_sim b (gc_ g) r _ o s1 Hc H Ep) as Hp. destruct (Hp (sees_service g)) as [Hsim Hblk].
  destruct o as [p|].
  - apply M_bind_Ok in E as ([] & s2 & E2 & [= <- <-]). apply push_frame in E2 as (_ & Hw & Ha & Hre).
    split; [by rewrite Hre, Hq|]. split; [|done]. destruct Hsim as (ls & El & Hd). exists ls.
    by rewrite (csys_after_eq s2 s1).
  - injection E as <- <-. split; [by rewrite Hq|]. split; [done|]. intros _. by apply Hblk.
Qed.

(** A step of the session keeps a stop in the queue until the session takes it. *)
Lemma stop_stays b g l c : creachable b (gc_ g) -> session_label l = true ->
  stop_queued (cs_ (gc_ g)) -> exec_c (CStep l) (gc_ g) = Some c -> alive (cs_ c) <> None -> stop_queued (cs_ c).
Proof.
  intros Hc Hl (m & Hm & Hst) E Ha. pose proof (creachable_inv _ _ Hc) as Hi. destruct l; try done.
  - cbn [exec_c] in E. destruct (exec SRecv (cs_ (gc_ g))) as [s'|] eqn:Es; [|done]. injection E as <-. cbn [cs_] in *.
    destruct (alive (cs_ (gc_ g))) as [[k n]|] eqn:El; [|cbn [exec] in Es; by rewrite El in Es].
    apply (cinv_alive _ _ _ _ Hc) in El.
    destruct (queue (cs_ (gc_ g))) as [|e q] eqn:Eq; [by apply not_elem_of_nil in Hm|].
    destruct (recv_step b _ k e q (ci_reach _ _ Hi) El Eq) as (s1 & E1 & Hq1 & Hg1 & _ & Hiff).
    rewrite E1 in Es. injection Es as <-. exists m. rewrite Hg1, Hq1. split; [|done].
    apply elem_of_cons in Hm as [<-|?]; [|done]. destruct Ha. by apply Hiff.
  - cbn [exec_c exec] in E. destruct (alive (cs_ (gc_ g))); [|done]. injection E as <-. by exists m.
  - cbn [exec_c exec] in E. destruct (alive (cs_ (gc_ g))) as [[]|]; [|done]. injection E as <-. by destruct Ha.
Qed.

Lemma gcinv_same b g s : gcinv b g -> sees s (gc_ g) -> (exists rs, requests_ s = message_of <$> rs /\ Forall request_ok rs) ->
  gcinv b (after s (blocked_ g) g).
Proof.
  intros Hi Hs Hr. pose proof (after_frame b s g Hi Hs) as Ha. destruct Hi as [H1 _ H3].
  constructor; cbn [after gc_ greq_ blocked_]; rewrite ?Ha; done.
Qed.

Lemma ask_gcinv b g r s : gcinv b g -> request_ok r -> requests_ s = greq_ g -> sees s (gc_ g) ->
  exists s', ask r s = (Ok tt, s') /\ gcinv b (after s' (blocked_ g) g) /\ greq_ (after s' (blocked_ g) g) = greq_ g ++ [message_of r].
Proof.
  intros Hi Hr Hq Hs. rewrite (ask_sends r s Hr). eexists. split; [done|]. split; [|cbn; by rewrite Hq].
  apply gcinv_same; [done|done|]. destruct (gi_reqs _ _ Hi) as (rs & Hrs & Hok). exists (rs ++ [r]).
  cbn [requests_ set_requests]. rewrite Hq, Hrs, fmap_app. split; [done|]. apply Forall_app. split; [done|]. by apply Forall_singleton.
Qed.

Lemma wait_gcinv b t g o s' : gcinv b g -> waitForResult (over (gc_ g)) t (service_of g) = (Ok o, s') ->
  gcinv b (after s' false g).
Proof.
  intros Hi E. destruct Hi as [Hc Hr Hw]. rewrite (wait_active b (gc_ g)) in E by (try done; by apply creachable_inv).
  assert (requests_ s' = greq_ g /\ simulated (gc_ g) s') as [Hq Hs].
  { destruct (alive (cs_ (gc_ g))) eqn:Hal; injection E as _ <-; (split; [done|]).
    - eapply (sees_id b); [by apply creachable_inv|done].
    - exists [CWait]. cbn [crun]. rewrite (wait_over_sim b (gc_ g) (service_of g) Hc) by done. split; [done|].
      intros H. apply list_elem_of_singleton in H. discriminate H. }
  constructor; cbn [after gc_ greq_ blocked_]; [by apply simulated_reachable|by rewrite Hq|done].
Qed.

Lemma exec_g_gcinv b l g g' : gcinv b g -> label_ok b l -> exec_g l g = Some g' -> gcinv b g'.
Proof.
  intros Hi Hl E. destruct l as [r| | | | | | |l]; cbn [exec_g label_ok] in *.
  - destruct (ask_gcinv b g r (service_of g) Hi Hl) as (s' & Ea & H & _); [done..|]. rewrite Ea in E. by injection E as <-.
  - unfold recvRPC in E. rewrite bind_get in E. destruct (replies_ (service_of g)) as [|p q]; [done|].
    injection E as <-. apply gcinv_same; [done|done|apply Hi].
  - unfold shutdown in E. rewrite bind_modify in E.
    destruct (ask_gcinv b g QStop (set_canc2 (service_of g)) Hi I) as (s' & Ea & H & _); [done..|].
    cbn [ask] in Ea. unfold do_Stop in Ea. rewrite Ea in E. by injection E as <-.
  - destruct (blocked_ g || exited_ g)%bool; [done|]. destruct (client_request _ _ _) as [[bl| | |] s'] eqn:Ec; try discriminate E.
    injection E as <-. destruct (serve_sim b g bl s' Hi Ec) as (r & q & Hq & Hr & Hq' & Hs & Hb).
    constructor; cbn [after gc_ greq_ blocked_].
    + apply simulated_reachable; [apply Hi|done].
    + destruct (gi_reqs _ _ Hi) as ([|r' rs] & Hrs & Hok); [by rewrite Hrs in Hq|]. exists rs.
      rewrite Hrs in Hq. injection Hq as _ Hq. apply Forall_cons in Hok as [_ Hok]. by rewrite Hq', <-Hq.
    + intros Hn _. destruct bl; [done|]. by apply Hb.
  - destruct (blocked_ g); [|done]. destruct (waitForResult _ _ _) as [[[]| | |] s'] eqn:Ew; try discriminate E.
    injection E as <-. by eapply wait_gcinv.
  - destruct (blocked_ g || exited_ g)%bool; [done|]. unfold client_monitor in E. destruct (waitForResult _ _ _) as [[o| | |] s'] eqn:Ew; try discriminate E.
    injection E as <-. by eapply wait_gcinv.
  - destruct (gcanc1_ g && negb (blocked_ g) && negb (exited_ g))%bool; [|done]. injection E as <-. by destruct Hi.
  - destruct (session_label l) eqn:Hsl; [|done]. destruct (exec_c (CStep l) (gc_ g)) as [c|] eqn:Ec; [|done]. injection E as <-.
    constructor; cbn [gc_ greq_ blocked_]; [|apply Hi|].
    + eapply creach_exec; [apply Hi| |exact Ec]. intros -> [= ->]. done.
    + intros Hb Ha. eapply stop_stays; [apply Hi|done| |exact Ec|done]. apply (gi_wait _ _ Hi); [done|].
      intros Hn. cbn [exec_c] in Ec. destruct l; try done; cbn [exec] in Ec; by rewrite Hn in Ec.
Qed.

Lemma greachable_inv b g : greachable b g -> gcinv b g.
Proof.
  induction 1 as [id|l g g' _ IH Hl E]; [|by eapply exec_g_gcinv]. constructor; [apply creach_init| |done]. by exists [].
Qed.

Lemma grun_gcinv b ls : forall g g', gcinv b g -> Forall (label_ok b) ls -> grun_g ls g = Some g' -> gcinv b g'.
Proof.
  induction ls as [|l ls IH]; intros g g' Hi Hl; cbn [grun_g]; [by intros [= <-]|]. apply Forall_cons in Hl as [Hl Hls].
  destruct (exec_g l g) as [g1|] eqn:E; [|done]. apply IH; [by eapply exec_g_gcinv|done].
Qed.

(** ** Waiting ends *)

Definition with_c (c : csys) (g : gcsys) : gcsys := mkGcsys c (gcanc1_ g) (gcanc2_ g) (greq_ g) (grep_ g) (blocked_ g) (exited_ g).

Lemma grun_session n : forall g c, crun (replicate n (CStep SRecv)) (gc_ g) = Some c ->
  grun_g (replicate n (WSession SRecv)) g = Some (with_c c g).
Proof.
  induction n as [|n IH]; intros g c; cbn [replicate crun grun_g]; [intros [= <-]; by destruct g|].
  destruct (exec_c (CStep SRecv) (gc_ g)) as [c1|] eqn:E; [|done]. intros Hc. cbn [exec_g session_label]. rewrite E.
  exact (IH (with_c c1 g) c Hc).
Qed.

(** The session takes its stop, and the serving thread goes on. *)
Lemma unblocks b g : gcinv b g -> blocked_ g = true -> exists n g1 g2,
  (n <= length (queue (cs_ (gc_ g))))%nat /\ grun_g (replicate n (WSession SRecv)) g = Some g1 /\
  exec_g KResume g1 = Some g2 /\ blocked_ g2 = false /\ greq_ g2 = greq_ g /\ exited_ g2 = exited_ g /\ gcanc1_ g2 = gcanc1_ g /\
  alive (cs_ (gc_ g2)) = None /\ fut_ (gc_ g2) = None.
Proof.
  intros Hi Hb. assert (exists n c, (n <= length (queue (cs_ (gc_ g))))%nat /\ crun (replicate n (CStep SRecv)) (gc_ g) = Some c /\
    creachable b c /\ alive (cs_ c) = None) as (n & c & Hn & Ec & Hc & Ha).
  { destruct (alive (cs_ (gc_ g))) eqn:Hal; [|exists 0%nat, (gc_ g); split_and!; [lia|done|apply Hi|done]].
    destruct (drain b (length (queue (cs_ (gc_ g)))) (gc_ g) (gi_prog _ _ Hi)) as (n & c & H); [congruence|done|apply Hi; congruence|]. by exists n, c. }
  exists n, (with_c c g). pose proof (wait_active b c (-1) (service_of (with_c c g)) (creachable_inv _ _ Hc) (sees_service (with_c c g))) as Hw.
  rewrite Ha in Hw. eexists. split; [done|]. split; [by apply grun_session|]. cbn [exec_g with_c blocked_ gc_]. rewrite Hb, Hw.
  split; [done|]. cbn [after gc_ greq_ blocked_]. rewrite (after_call b) by (try (by apply creachable_inv); cbn; auto).
  split_and!; try done.
Qed.

(** Serving a stop always succeeds. *)
Lemma serve_stop b g q : gcinv b g -> blocked_ g = false -> exited_ g = false -> greq_ g = message_of QStop :: q ->
  exists g1, exec_g KServe g = Some g1 /\ greq_ g1 = q /\ exited_ g1 = false /\ gcanc1_ g1 = gcanc1_ g /\
    match alive (cs_ (gc_ g)) with
    | Some _ => blocked_ g1 = true /\ length (queue (cs_ (gc_ g1))) = S (length (queue (cs_ (gc_ g))))
    | None => blocked_ g1 = false /\ alive (cs_ (gc_ g1)) = None /\ fut_ (gc_ g1) = None
    end.
Proof.
  intros Hi Hb Hx Hq. cbn [exec_g]. rewrite Hb, Hx, (client_performs _ _ QStop q) by done. cbn [orb].
  assert (sees (set_requests q (service_of g)) (gc_ g)) as Hs by done. pose proof (gi_prog _ _ Hi) as Hc.
  destruct (alive (cs_ (gc_ g))) as [a|] eqn:Ha.
  - destruct (stop_running_sim b (S (gen (cs_ (gc_ g)))) _ _ Hc Hs) as (s1 & E1 & _ & He & _ & _ & Hl); [congruence|].
    rewrite (M_bind_eq _ _ _ _ _ E1). eexists. split; [done|]. split_and!; try done; by injection He.
  - destruct (stop_idle_sim b (S (gen (cs_ (gc_ g)))) _ _ Hc Hs Ha) as (s1 & E1 & _ & He & Hal & Hf).
    rewrite (M_bind_eq _ _ _ _ _ E1). eexists. split; [done|]. split_and!; try done; by injection He.
Qed.

(** ** The end of the service *)

(** [WorkerServiceImpl::~WorkerServiceImpl] after [runClient] and [runEvents] returned: the members are
    destroyed in reverse order, [active_], whose destructor waits for its session, before the
    worker, whose destructor sends it the stop. *)
Definition delete_members (ov : nat -> option (outcome unit)) : M service (option unit) :=
  s ← get;
  match active_ s ≫= (fun k => match ov k with Some _ => None | None => Some k end) with
  | Some _ => mret None
  | None => modify (set_active None);; on_worker (on_runner stop);; mret (Some tt)
  end.

(** What the handlers send before it: the stop of [shutdown], and [Cancel] *)
Lemma teardown_asks b g : gcinv b g -> exists g1, grun_g [HShutdown; HAsk QCancel] g = Some g1 /\ gcinv b g1 /\
  greq_ g1 = greq_ g ++ [message_of QStop; message_of QCancel] /\ blocked_ g1 = blocked_ g /\ exited_ g1 = exited_ g /\ gc_ g1 = gc_ g.
Proof.
  intros Hi. destruct (ask_gcinv b g QStop (set_canc2 (service_of g)) Hi I) as (s1 & E1 & H1 & Hq1); [done..|].
  set (g1 := after s1 (blocked_ g) g) in *. destruct (ask_gcinv b g1 QCancel (service_of g1) H1 I) as (s2 & E2 & H2 & Hq2); [done..|].
  exists (after s2 (blocked_ g1) g1). cbn [grun_g exec_g]. unfold shutdown. rewrite bind_modify.
  assert (sendRPC SetStop Part_empty (set_canc2 (service_of g)) = (Ok tt, s1)) as E1' by exact E1.
  rewrite E1'. fold g1. rewrite E2. split_and!; try done.
  - by rewrite Hq2, Hq1, <-app_assoc.
  - rewrite (ask_sends QStop (set_canc2 (service_of g)) I) in E1. injection E1 as E1.
    rewrite (ask_sends QCancel (service_of g1) I) in E2. injection E2 as <-.
    assert (gc_ g1 = gc_ g) as Hg1 by (cbn [g1 after gc_]; apply (after_frame b); [done|by rewrite <-E1]).
    cbn [after gc_]. rewrite (after_frame b) by done. exact Hg1.
Qed.

Lemma serve_cancel b g q : gcinv b g -> blocked_ g = false -> exited_ g = false -> greq_ g = message_of QCancel :: q ->
  exists g1, grun_g [KServe; KExit] g = Some g1 /\ exited_ g1 = true /\ gc_ g1 = gc_ g.
Proof.
  intros Hi Hb Hx Hq. cbn [grun_g exec_g]. rewrite Hb, Hx, (client_performs _ _ QCancel q) by done. cbn [orb].
  change ((o ← perform (over (gc_ g)) (S (gen (cs_ (gc_ g)))) QCancel;
    match o with Some reply => push_reply reply;; mret true | None => mret false end) (set_requests q (service_of g)))
    with (@Ok bool true, set_canc1 (set_requests q (service_of g))).
  cbn [after gcanc1_ blocked_ exited_ zcanc1_ set_canc1 negb andb]. rewrite Hx. cbn [negb]. eexists. split; [done|]. split; [done|].
  cbn [gc_ after]. by apply (after_frame b).
Qed.

Lemma delete_returns b g : gcinv b g -> alive (cs_ (gc_ g)) = None -> fut_ (gc_ g) = None ->
  (delete_members (over (gc_ g)) (service_of g)).1 = Ok (Some tt).
Proof.
  intros Hi Ha Hf. unfold delete_members. rewrite bind_get. cbn [active_ service_of]. rewrite Hf. cbn [mbind option_bind].
  rewrite bind_modify. pose proof (reachable_flag _ _ (ci_reach _ _ (creachable_inv _ _ (gi_prog _ _ Hi)))) as Hfl. rewrite Ha in Hfl.
  destruct (isRunning_spec _ _ _ Hfl) as (r' & Er & _). rewrite bool_decide_eq_false_2 in Er by (intros []; done).
  assert (on_runner (S := worker) stop (main (cs_ (gc_ g))) = (Ok false, set_w_runner r' (main (cs_ (gc_ g))))) as Es
    by (unfold on_runner, zoom; cbn [runner_of set_runner worker_kind]; unfold stop; by rewrite (M_bind_eq _ _ _ _ _ Er)).
  by rewrite (M_bind_eq _ _ _ _ _ (on_worker_eq _ (set_active None (service_of g)) _ _ Es)).
Qed.

End WithEnv.

(** ** Theorems *)

(** C16: The service uses its worker as a program would: in every interleaving of the handlers, the
    serving thread and the session, ends of sessions by exception included, the state of the
    worker, its session and [active_] is one that calls of the worker's interface lead to;
    [active_] is the future of the session that runs; the only request whose serving blocks is
    a stop that finds the session running (a start never waits for an earlier session), and
    the wait returns exactly when that session is over. *)
Theorem grpc_is_a_program (P : Platform) (PE : Proto Endpoints) (PS : Proto Subscriptions) (PT : Proto PTopic)
    (b : bool) (g : gcsys) : greachable b g ->
  creachable b (gc_ g) /\
  (alive (cs_ (gc_ g)) <> None -> active_ (service_of g) = Some (gen (cs_ (gc_ g)))) /\
  (forall g', exec_g KServe g = Some g' -> blocked_ g' = true ->
     greq_ g = message_of QStop :: greq_ g' /\ alive (cs_ (gc_ g)) <> None /\ stop_queued (cs_ (gc_ g'))) /\
  (blocked_ g = true -> alive (cs_ (gc_ g)) = None <-> exists g', exec_g KResume g = Some g').
Proof.
  intros Hi%greachable_inv. pose proof (creachable_inv _ _ (gi_prog _ _ Hi)) as Hc. split_and!; [apply Hi|..].
  - intros Ha. destruct (alive (cs_ (gc_ g))) as [[k n]|] eqn:El; [|done]. cbn [service_of active_].
    by destruct (ci_held _ _ Hc k n El) as [-> ->].
  - intros g' E Hb. cbn [exec_g] in E. destruct (blocked_ g || exited_ g)%bool; [done|].
    destruct (client_request _ _ _) as [[bl| | |] s'] eqn:Ec; try discriminate E. injection E as <-.
    destruct (serve_sim b g bl s' Hi Ec) as (r & q & Hq & _ & Hq' & _ & Hbl). cbn in Hb. destruct bl; [done|].
    destruct (Hbl eq_refl) as (-> & Ha & Hst). cbn [after greq_ gc_]. by rewrite Hq, Hq'.
  - intros Hb. cbn [exec_g]. rewrite Hb, (wait_active b) by done. destruct (alive (cs_ (gc_ g))).
    + split; [done|]. by intros [g' ?].
    + split; [|done]. intros _. by eexists.
Qed.

(** C15: Stopping through the service works: when the next request is a stop, serving it sends the
    stop to the session that runs (sessions before it may have thrown), the session ends after at most one step for each operation
    it had to take, left-overs of earlier sessions included, and for the stop; then the
    serving thread goes on with the following requests, and holds no future any more. *)
Theorem grpc_stop_ends (P : Platform) (PE : Proto Endpoints) (PS : Proto Subscriptions) (PT : Proto PTopic)
    (b : bool) (g : gcsys) (q : list part) : greachable b g -> blocked_ g = false -> exited_ g = false ->
  greq_ g = message_of QStop :: q ->
  exists n g', (n <= S (length (queue (cs_ (gc_ g)))))%nat /\
    grun_g (match alive (cs_ (gc_ g)) with
            | Some _ => [KServe] ++ replicate n (WSession SRecv) ++ [KResume]
            | None => [KServe]
            end) g = Some g' /\
    blocked_ g' = false /\ greq_ g' = q /\ alive (cs_ (gc_ g')) = None /\ fut_ (gc_ g') = None.
Proof.
  intros Hr Hb Hx Hq. destruct (serve_stop b g q (greachable_inv _ _ Hr) Hb Hx Hq) as (g1 & E1 & Hq1 & Hx1 & _ & H1).
  assert (gcinv b g1) as Hi1 by (eapply exec_g_gcinv; [by apply greachable_inv| |exact E1]; done).
  destruct (alive (cs_ (gc_ g))) as [a|].
  - destruct H1 as [Hb1 Hl1]. destruct (unblocks b g1 Hi1 Hb1) as (n & g2 & g3 & Hn & E2 & E3 & H3b & H3q & _ & _ & H3).
    exists n, g3. rewrite <-Hl1. split; [done|]. split; [|by rewrite H3q]. cbn [app grun_g]. rewrite E1.
    by rewrite (grun_app _ _ _ _ E2); cbn [grun_g]; rewrite E3.
  - exists 0%nat, g1. cbn [grun_g]. rewrite E1. split; [lia|]. split; [done|]. by destruct H1 as (-> & -> & ->).
Qed.

(** C17: The service comes down: when its requests are served, [shutdown] and then the destructor
    stop the session that runs, [runClient] returns after it has served both, and the
    destructors of the members, of which the one of the future waits for the session and the
    one of the worker only comes later, return. *)
Theorem grpc_teardown (P : Platform) (PE : Proto Endpoints) (PS : Proto Subscriptions) (PT : Proto PTopic)
    (b : bool) (g : gcsys) : greachable b g -> blocked_ g = false -> exited_ g = false -> greq_ g = [] ->
  exists n g', (n <= S (length (queue (cs_ (gc_ g)))))%nat /\
    grun_g ([HShutdown; HAsk QCancel; KServe] ++
            match alive (cs_ (gc_ g)) with Some _ => replicate n (WSession SRecv) ++ [KResume] | None => [] end ++
            [KServe; KExit]) g = Some g' /\
    exited_ g' = true /\ (delete_members (over (gc_ g')) (service_of g')).1 = Ok (Some tt).
Proof.
  intros Hr Hb Hx Hq. destruct (teardown_asks b g (greachable_inv _ _ Hr)) as (g1 & E1 & H1 & Hq1 & Hb1 & Hx1 & Hg1).
  rewrite Hq in Hq1. cbn [app] in Hq1. rewrite Hb in Hb1. rewrite Hx in Hx1.
  destruct (serve_stop b g1 _ H1 Hb1 Hx1 Hq1) as (g2 & E2 & Hq2 & Hx2 & _ & H2). rewrite Hg1 in H2.
  assert (gcinv b g2) as Hi2 by (eapply exec_g_gcinv; [exact H1| |exact E2]; done).
  change ([HShutdown; HAsk QCancel; KServe] ++ ?l) with ([HShutdown; HAsk QCancel] ++ KServe :: l).
  assert (exists n g3, (n <= S (length (queue (cs_ (gc_ g)))))%nat /\
    grun_g (match alive (cs_ (gc_ g)) with Some _ => replicate n (WSession SRecv) ++ [KResume] | None => [] end) g2 = Some g3 /\
    gcinv b g3 /\ blocked_ g3 = false /\ exited_ g3 = false /\ greq_ g3 = [message_of QCancel] /\
    alive (cs_ (gc_ g3)) = None /\ fut_ (gc_ g3) = None) as (n & g3 & Hn & E3 & H3 & Hb3 & Hx3 & Hq3 & Ha3 & Hf3).
  { destruct (alive (cs_ (gc_ g))).
    - destruct H2 as [Hb2 Hl2]. destruct (unblocks b g2 Hi2 Hb2) as (n & ga & gb & Hn & Ea & Eb & ? & Hqb & Hxb & _ & ?).
      exists n, gb. rewrite (grun_app _ _ _ _ Ea). cbn [grun_g]. rewrite Eb, Hqb, Hxb, Hx2, Hq2, <-Hl2. split_and!; try tauto.
      eapply exec_g_gcinv; [| |exact Eb]; [|done]. eapply grun_gcinv; [exact Hi2| |exact Ea]. by apply Forall_replicate.
    - exists 0%nat, g2. split_and!; try tauto. lia. }
  destruct (serve_cancel b g3 [] H3 Hb3 Hx3 Hq3) as (g4 & E4 & Hx4 & Hg4). exists n, g4. split; [done|]. split_and!; [|done|].
  - rewrite (grun_app _ _ _ _ E1). cbn [grun_g]. by rewrite E2, (grun_app _ _ _ _ E3).
  - assert (gcinv b g4) as H4 by (eapply grun_gcinv; [exact H3| |exact E4]; by repeat constructor).
    apply (delete_returns b); [done|by rewrite Hg4..].
Qed.

Definition sample_g : gcsys := gcinit sample_id.
Definition sample_ls : list slabel :=
  [HAsk QStart; KServe; WSession SRecv; HAsk QStop; KServe; HAsk QStart; HShutdown; WSession SRecv; KResume; KServe].

Definition grun0_g : list slabel -> gcsys -> option gcsys := @grun_g x86_64 PE0 PS0 PT0.

Lemma sample_grun (ls : list slabel) (Q : gcsys -> bool) : Forall (@label_ok PE0 PS0 PT0 true) ls ->
  match grun0_g ls sample_g with Some g => Q g | None => false end = true ->
  exists g, grun0_g ls sample_g = Some g /\ @greachable x86_64 PE0 PS0 PT0 true g /\ Q g = true.
Proof.
  intros Hl H. destruct (grun0_g ls sample_g) as [g|] eqn:E; [|done]. exists g. split_and!; [done| |done].
  eapply grun_reachable; [apply greach_init|exact Hl|exact E].
Qed.

(** Running again, with the stop of the shut down as the next request; left-overs are possible. *)
Definition stop_next (g : gcsys) : bool :=
  is_alive (gc_ g) && negb (blocked_ g) && negb (exited_ g) && bool_decide (greq_ g = [@message_of x86_64 PE0 PS0 PT0 QStop]).

Lemma sample_ls_ok : Forall (@label_ok PE0 PS0 PT0 true) sample_ls.
Proof. unfold sample_ls. repeat (constructor; [exact I|]). constructor. Qed.

Lemma grpc_is_a_program_witness : exists g, grun0_g sample_ls sample_g = Some g /\
  active_ (service_of g) = Some (gen (cs_ (gc_ g))).
Proof.
  destruct (sample_grun sample_ls stop_next sample_ls_ok) as (g & E & Hg & HQ); [vm_compute; reflexivity|].
  exists g. split; [exact E|]. destruct (grpc_is_a_program x86_64 PE0 PS0 PT0 true g Hg) as (_ & H & _). apply H.
  unfold stop_next, is_alive in HQ. destruct (alive (cs_ (gc_ g))); [discriminate|discriminate HQ].
Defined.

Lemma grpc_stop_ends_witness : exists g n g', grun0_g sample_ls sample_g = Some g /\
  grun0_g ([KServe] ++ replicate n (WSession SRecv) ++ [KResume]) g = Some g' /\ alive (cs_ (gc_ g')) = None.
Proof.
  destruct (sample_grun sample_ls stop_next sample_ls_ok) as (g & E & Hg & HQ); [vm_compute; reflexivity|].
  unfold stop_next in HQ. apply andb_prop in HQ as [HQ Hq]. apply andb_prop in HQ as [HQ Hx]. apply andb_prop in HQ as [Ha Hb].
  apply bool_decide_eq_true in Hq. destruct (grpc_stop_ends x86_64 PE0 PS0 PT0 true g [] Hg) as (n & g' & _ & E2 & _ & _ & H & _).
  - destruct (blocked_ g); [discriminate Hb|reflexivity].
  - destruct (exited_ g); [discriminate Hx|reflexivity].
  - exact Hq.
  - exists g, n, g'. unfold is_alive in Ha. destruct (alive (cs_ (gc_ g))); [|discriminate Ha].
    split; [exact E|]. split; [exact E2|exact H].
Defined.

(** A running service with nothing to serve *)
Definition nothing_asked (g : gcsys) : bool :=
  is_alive (gc_ g) && negb (blocked_ g) && negb (exited_ g) && bool_decide (greq_ g = []).

Lemma grpc_teardown_witness : exists g n g', grun0_g (take 3 sample_ls) sample_g = Some g /\
  grun0_g ([HShutdown; HAsk QCancel; KServe] ++ (replicate n (WSession SRecv) ++ [KResume]) ++ [KServe; KExit]) g = Some g' /\
  exited_ g' = true.
Proof.
  destruct (sample_grun (take 3 sample_ls) nothing_asked (Forall_take _ 3 _ sample_ls_ok)) as (g & E & Hg & HQ); [vm_compute; reflexivity|].
  unfold nothing_asked in HQ. apply andb_prop in HQ as [HQ Hq]. apply andb_prop in HQ as [HQ Hx]. apply andb_prop in HQ as [Ha Hb].
  apply bool_decide_eq_true in Hq. destruct (grpc_teardown x86_64 PE0 PS0 PT0 true g Hg) as (n & g' & _ & E2 & H & _).
  - destruct (blocked_ g); [discriminate Hb|reflexivity].
  - destruct (exited_ g); [discriminate Hx|reflexivity].
  - exact Hq.
  - exists g, n, g'. unfold is_alive in Ha. destruct (alive (cs_ (gc_ g))); [|discriminate Ha].
    split; [exact E|]. split; [exact E2|exact H].
Defined.

End GrpcSystem.
