(* ===== verification/GrpcOrder.v ===== *)
(** * From requests to operations (grpc/fuurin_worker_impl.cpp, src/worker.cpp, src/runner.cpp)

    What remote programs ask of the service and what the sessions of its worker are sent and
    handle, over whole runs of the system of [GrpcSystem]: requests are served in the order in
    which they were asked, each becomes the operation it stands for when it finds the worker
    in the right state, and every session handles its operations in that order. *)

From S2P Require Import Prelude Part PartMulti Codec Uuid Topic Event Config Session BrokerSession Runner RunnerEvents RunnerSystem CBindings Grpc GrpcSystem.

Local Open Scope Z_scope.

Module GrpcOrder.
Import Part PartMulti Codec Uuid Topic Config Session Runner.
Import RunnerEvents RunnerSystem CBindings Grpc GrpcSystem.

Abbreviation get := Prelude.get.
Abbreviation message := (part * part)%type (only parsing).

Section WithEnv.
Context {P : Platform} {PE : Proto Endpoints} {PS : Proto Subscriptions} {PT : Proto PTopic}.

(** ** What an operation message says *)

Definition op_of (m : message) : option (Operation.type * bytes) :=
  match Operation.operation_fromPart m.2 with
  | Ok op => Some (Operation.type_ op, p_data (Operation.payld_ op))
  | _ => None
  end.

(** The topic of a dispatch request *)
Definition topic_of (id : uuid) (t : PTopic) : topic :=
  mkTopic nil_uuid id 0 (Name (t_name t)) (Part_bytes (t_data t)) (if t_type t =? Topic_Type_State then State else Topic.Event).

(** The operations that serving a request sends, to a session that runs or not *)
Definition becomes (id : uuid) (running : bool) (r : request) (ms : list message) : Prop :=
  match r, running with
  | QStart, false => exists m d, ms = [m] /\ op_of m = Some (Operation.Start, d)
  | QStop, true => exists m, ms = [m] /\ op_of m = Some (Operation.Stop, [])
  | QSync, true => exists m, ms = [m] /\ op_of m = Some (Operation.Sync, [])
  | QDispatch t, true => exists m d, ms = [m] /\ op_of m = Some (Operation.Dispatch, d) /\
      topic_fromPart (Part_bytes d) = Ok (topic_of id t)
  | _, _ => ms = []
  end.

(** A topic that fits an operation *)
Definition small_request (r : request) : Prop :=
  match r with QDispatch t => zlen (t_data t) < u32_max - 1024 | _ => True end.

(** ** Calls of the worker *)

Lemma copy_data p q : Part_copy p = Ok q -> p_data q = p_data p.
Proof.
  unfold Part_copy, setRoutingID, setGroup, zmq_msg_set_routing_id. intros H. apply bind_Ok in H as (p1 & H1 & H2).
  assert (p_data p1 = p_data p) as <- by (destruct (p_rid p =? 0); [by injection H1 as <-|by injection H1 as <-]).
  destruct (decide _); [by injection H2 as <-|]. destruct (decide _); [done|]. by injection H2 as <-.
Qed.

Lemma send_op oper pay r r' : oper <> Operation.COUNT -> sendOperation oper pay r = (Ok tt, r') ->
  exists m, zops_ r' = zops_ r ++ [m] /\ op_of m = Some (oper, p_data pay) /\ Runner.uuid_ r' = Runner.uuid_ r.
Proof.
  intros Ho. unfold sendOperation. destruct (noexcept_ (Part_copy pay)) as [q| | |] eqn:Eq; try discriminate.
  cbn [mbind outcome_bind]. destruct (Operation.operation_toPart _) as [p| | |] eqn:E; try discriminate. intros [= <-].
  pose proof (Message.pack_checked_fits _ _ _ _ _ _ E) as Hz. cbn [Operation.payld_] in Hz.
  set (op := Operation.mkOp oper Operation.Success (Part_bytes (p_data q))).
  destruct (Operation.operation_roundtrip op) as (d & Hd & _ & Hf); [by constructor|].
  change (Operation.operation_toPart op = Ok p) in E. rewrite Hd in E. injection E as <-.
  eexists. split; [done|]. split; [|done]. unfold op_of. cbn [snd]. rewrite Hf. cbn. do 2 f_equal.
  apply copy_data. revert Eq. unfold noexcept_. by destruct (Part_copy pay).
Qed.

Lemma on_send_op oper pay (w w' : worker) : oper <> Operation.COUNT -> on_runner (S := worker) (sendOperation oper pay) w = (Ok tt, w') ->
  exists m, queued w' = queued w ++ [m] /\ op_of m = Some (oper, p_data pay) /\ w_id w' = w_id w.
Proof.
  intros Ho. unfold on_runner, zoom. cbn [runner_of set_runner worker_kind].
  destruct (sendOperation oper pay (w_runner w)) as [o r'] eqn:E. intros [= -> <-]. by apply send_op.
Qed.

(** A call that does nothing unless the session runs *)
Lemma guard_split {A} (m : M worker A) (ret : A) a g w b w' : flag_ok (w_runner w) a g ->
  (b0 ← on_runner isRunning; if negb b0 then mret ret else m) w = (Ok b, w') ->
  exists w1, queued w1 = queued w /\ flag_ok (w_runner w1) a g /\ w_id w1 = w_id w /\
    match a with Some _ => m w1 = (Ok b, w') | None => w' = w1 end.
Proof.
  intros Hf E. destruct (on_isRunning a g w Hf) as (w1 & E1 & Hf1 & Hq & _).
  pose proof (frames_on_runner isRunning frames_isRunning w) as Hid. rewrite E1 in Hid. cbn [snd] in Hid.
  rewrite (M_bind_eq _ _ _ _ _ E1) in E. exists w1. split_and!; try done. destruct a as [a|].
  - by rewrite bool_decide_eq_true_2 in E by done.
  - rewrite bool_decide_eq_false_2 in E by (intros []; done). by injection E.
Qed.

(** What a call adds to the queue; the identity of the worker stays. *)
Definition adds (ms : list message) (w w' : worker) : Prop := queued w' = queued w ++ ms /\ w_id w' = w_id w.

Lemma adds_nil w w' : queued w' = queued w -> w_id w' = w_id w -> adds [] w w'.
Proof. intros Hq Hi. split; [by rewrite app_nil_r|done]. Qed.
Lemma adds_trans ms w1 w2 w3 : queued w2 = queued w1 -> w_id w2 = w_id w1 -> adds ms w2 w3 -> adds ms w1 w3.
Proof. intros Hq Hi [H1 H2]. split; congruence. Qed.

(** A guarded call that sends one operation *)
Lemma guarded_adds {A} (m : M worker A) (ret : A) oper a g w b w' : flag_ok (w_runner w) a g ->
  (forall w1 x w2, m w1 = (Ok x, w2) -> exists ms, adds ms w1 w2 /\ exists m, ms = [m] /\ op_of m = Some (oper, [])) ->
  (b0 ← on_runner isRunning; if negb b0 then mret ret else m) w = (Ok b, w') ->
  exists ms, adds ms w w' /\ match a with Some _ => exists m, ms = [m] /\ op_of m = Some (oper, []) | None => ms = [] end.
Proof.
  intros Hf Hm E. destruct (guard_split m ret a g w b w' Hf E) as (w1 & Hq & _ & Hi & H1). destruct a as [a|].
  - destruct (Hm w1 b w' H1) as (ms & Ha & Ho). exists ms. split; [by eapply adds_trans|done].
  - subst w'. exists []. split; [by apply adds_nil|done].
Qed.

Lemma sync_adds a g w w' : flag_ok (w_runner w) a g -> sync w = (Ok tt, w') ->
  exists ms, adds ms w w' /\ match a with Some _ => exists m, ms = [m] /\ op_of m = Some (Operation.Sync, []) | None => ms = [] end.
Proof.
  intros Hf. apply (guarded_adds _ tt _ a g); [done|]. intros w1 [] w2 E. apply on_send_op in E as (m & Hq & Ho & Hi); [|done].
  exists [m]. split; [done|]. by exists m.
Qed.

Lemma stop_adds a g w b w' : flag_ok (w_runner w) a g -> on_runner (S := worker) stop w = (Ok b, w') ->
  exists ms, adds ms w w' /\ match a with Some _ => exists m, ms = [m] /\ op_of m = Some (Operation.Stop, []) | None => ms = [] end.
Proof.
  intros Hf E. eapply (guarded_adds (on_runner (sendOperation Operation.Stop Part_empty);; mret true) false Operation.Stop a g w b); [done| |].
  - intros w1 x w2 E2. apply M_bind_Ok in E2 as ([] & w3 & E2 & [= _ <-]). apply on_send_op in E2 as (m & Hq & Ho & Hi); [|done].
    exists [m]. split; [done|]. by exists m.
  - revert E. unfold on_runner, zoom, stop, mbind, M_bind. cbn [runner_of set_runner worker_kind].
    destruct (isRunning (w_runner w)) as [[[]| | |] r1]; cbn [negb]; try done.
    cbn [w_runner set_w_runner]. by destruct (sendOperation _ _ r1) as [[[]| | |] r2].
Qed.

Lemma dispatch_adds t a g w w' : flag_ok (w_runner w) a g -> uuid_ok (w_id w) -> zlen (t_data t) < u32_max - 1024 ->
  dispatch (Name (t_name t)) (Part_bytes (t_data t)) (type_ (topic_of (w_id w) t)) w = (Ok tt, w') ->
  exists ms, adds ms w w' /\ becomes (w_id w) (bool_decide (a <> None)) (QDispatch t) ms.
Proof.
  intros Hf Hu Ht E. destruct a as [[k n]|].
  - destruct Hf as (_ & Hr & Hz & _). destruct (dispatch_running (t_name t) (t_data t) (type_ (topic_of (w_id w) t)) w Hz Hr Hu Ht)
      as (dt & dp & Ed & Hop & Htp). rewrite Ed in E. injection E as <-. rewrite bool_decide_eq_true_2 by done.
    eexists. split; [by split|]. cbn [becomes]. eexists _, dt. split; [done|]. split; [|exact Htp]. unfold op_of. cbn [snd]. by rewrite Hop.
  - rewrite bool_decide_eq_false_2 by (intros []; done).
    destruct (guard_split _ tt None g w tt w' Hf E) as (w1 & Hq & _ & Hi & ->). exists []. split; [by apply adds_nil|done].
Qed.

Lemma start_adds g w o w' : flag_ok (w_runner w) None g -> start w = (Ok o, w') ->
  exists ms, adds ms w w' /\ becomes (w_id w) false QStart ms.
Proof.
  intros Hf E. pose proof (frames_start w) as Hid. rewrite E in Hid. cbn [snd] in Hid. unfold start in E.
  destruct (on_isRunning None g w Hf) as (w1 & E1 & Hf1 & Hq & _).
  rewrite (M_bind_eq _ _ _ _ _ E1), bool_decide_eq_false_2 in E by (intros []; done).
  unfold on_runner, zoom, unless_commit, mbind, M_bind, modify, Prelude.get, mret, M_ret in E.
  cbn [runner_of set_runner worker_kind] in E. set (w2 := set_w_runner _ w1) in E.
  pose proof (frames_prepare w2) as Hp. destruct (prepareConfiguration w2) as [[p| | |] w3]; try discriminate E. cbn [snd] in Hp.
  destruct (sendOperation Operation.Start p (w_runner w3)) as [[[]| | |] r4] eqn:E4; try discriminate E.
  apply send_op in E4 as (m & Hz & Hop & _); [|done]. rewrite Hp in Hz. injection E as _ <-.
  exists [m]. split; [|by eexists m, _]. split; [|exact Hid]. unfold queued in *. cbn [w_runner set_w_runner]. rewrite Hz. cbn. by rewrite Hq.
Qed.

(** ** Serving a request *)

Lemma wait_worker ov n s : worker_ (waitForResult ov n s).2 = worker_ s.
Proof.
  unfold waitForResult. rewrite bind_get. destruct (active_ s) as [k|]; [|done]. destruct (ov k) as [[]|]; [done..|by destruct (0 <=? n)].
Qed.

Lemma running_split c (w : worker) : flag_ok (w_runner w) (alive (cs_ c)) (gen (cs_ c)) ->
  exists w1, on_runner (S := worker) isRunning w = (Ok (bool_decide (alive (cs_ c) <> None)), w1) /\
    queued w1 = queued w /\ w_id w1 = w_id w /\ flag_ok (w_runner w1) (alive (cs_ c)) (gen (cs_ c)).
Proof.
  intros Hf. destruct (on_isRunning _ _ w Hf) as (w1 & E1 & Hf1 & Hq & _). exists w1.
  pose proof (frames_on_runner isRunning frames_isRunning w) as Hid. by rewrite E1 in Hid.
Qed.

Lemma perform_start_adds c s o s' : flag_ok (w_runner (worker_ s)) (alive (cs_ c)) (gen (cs_ c)) ->
  perform (over c) (S (gen (cs_ c))) QStart s = (Ok o, s') ->
  exists ms, adds ms (worker_ s) (worker_ s') /\ becomes (w_id (worker_ s)) (bool_decide (alive (cs_ c) <> None)) QStart ms.
Proof.
  intros Hf E. destruct (running_split c (worker_ s) Hf) as (w1 & E1 & Hq & Hi & Hf1). cbn [perform serveRPC] in E.
  rewrite (M_bind_eq _ _ _ _ _ (on_worker_eq _ _ _ _ E1)) in E. apply M_bind_Ok in E as (x & s2 & E & [= _ <-]).
  destruct (alive (cs_ c)) as [a|].
  - rewrite bool_decide_eq_true_2 in * by done. injection E as _ <-. exists []. split; [by apply adds_nil|done].
  - rewrite bool_decide_eq_false_2 in * by (intros []; done). unfold set_start in E.
    apply M_bind_Ok in E as (y & s3 & (w2 & E2 & ->)%on_worker_Ok & E). cbn [worker_ set_worker] in E2.
    destruct (start_adds _ w1 y w2 Hf1 E2) as (ms & Ha & Hb). rewrite bind_get in E. exists ms. split; [|exact Hb].
    assert (worker_ s2 = w2) as -> by (destruct (_ ≫= _); injection E as _ <-; done). by eapply adds_trans.
Qed.

Lemma perform_stop_adds c s o s' : flag_ok (w_runner (worker_ s)) (alive (cs_ c)) (gen (cs_ c)) ->
  perform (over c) (S (gen (cs_ c))) QStop s = (Ok o, s') ->
  exists ms, adds ms (worker_ s) (worker_ s') /\ becomes (w_id (worker_ s)) (bool_decide (alive (cs_ c) <> None)) QStop ms.
Proof.
  intros Hf E. destruct (running_split c (worker_ s) Hf) as (w1 & E1 & Hq & Hi & Hf1). cbn [perform serveRPC] in E.
  rewrite (M_bind_eq _ _ _ _ _ (on_worker_eq _ _ _ _ E1)) in E. apply M_bind_Ok in E as ([] & s2 & E2 & E).
  apply M_bind_Ok in E as (x & s3 & E3 & [= _ <-]). pose proof (wait_worker (over c) (-1) s2) as Hw. rewrite E3 in Hw. cbn [snd] in Hw.
  rewrite Hw. destruct (alive (cs_ c)) as [a|].
  - rewrite bool_decide_eq_true_2 in * by done. apply M_bind_Ok in E2 as (b & s4 & (w2 & E4 & ->)%on_worker_Ok & [= <-]).
    destruct (stop_adds _ _ w1 b w2 Hf1 E4) as (ms & Ha & Hb). exists ms. split; [by eapply adds_trans|exact Hb].
  - rewrite bool_decide_eq_false_2 in * by (intros []; done). injection E2 as <-. exists []. split; [by apply adds_nil|done].
Qed.

Lemma perform_adds b c r s o s' : creachable b c -> sees s c -> uuid_ok (w_id (worker_ s)) -> small_request r ->
  perform (over c) (S (gen (cs_ c))) r s = (Ok o, s') ->
  exists ms, adds ms (worker_ s) (worker_ s') /\ becomes (w_id (worker_ s)) (bool_decide (alive (cs_ c) <> None)) r ms.
Proof.
  intros Hc [Hw _] Hu Hs E. pose proof (reachable_flag _ _ (ci_reach _ _ (creachable_inv _ _ Hc))) as Hf. rewrite <-Hw in Hf.
  destruct r as [| | |e|u| | | |t]; try (by eapply perform_start_adds); try (by eapply perform_stop_adds); cbn [perform serveRPC] in E.
  - apply done_with_Ok in E as [_ [= <-]]. exists []. split; [by apply adds_nil|done].
  - rewrite bind_get in E. apply M_bind_Ok in E as (p & s1 & [= _ <-] & [= _ <-]). exists []. split; [by apply adds_nil|done].
  - apply M_bind_Ok in E as (n & s1 & (w & E1 & ->)%on_worker_Ok & [= _ <-]). pose proof (frames_seqNumber (worker_ s)) as Hfr.
    rewrite E1 in Hfr. cbn [snd] in Hfr. exists []. split; [|done].
    apply adds_nil; unfold queued, w_id; cbn [worker_ set_worker]; by rewrite Hfr.
  - apply done_with_Ok in E as [_ [= <-]]. exists []. split; [by apply adds_nil|done].
  - apply done_with_Ok in E as [_ E]. unfold applySubscriptions in E. exists []. split; [|done].
    destruct (s_wildcard u); injection E as <-; by apply adds_nil.
  - apply done_with_Ok in E as [_ (w & E & ->)%on_worker_Ok]. destruct (sync_adds _ _ _ w Hf E) as (ms & Ha & Hb). exists ms.
    split; [done|]. destruct (alive (cs_ c)); [rewrite bool_decide_eq_true_2 by done|rewrite bool_decide_eq_false_2 by (intros []; done)]; done.
  - apply done_with_Ok in E as [_ E]. unfold setDispatch in E. apply on_worker_Ok in E as (w & E & ->). by eapply dispatch_adds.
Qed.

(** ** Runs *)

(** The requests that were asked in a run *)
Definition asks (ls : list slabel) : list request :=
  ls ≫= fun l => match l with HAsk r => [r] | HShutdown => [QStop] | _ => [] end.

(** The requests that were served in a run, each with the number of the last session then and
    whether a session was running; [rs] are those that wait at first. *)
Fixpoint served (ls : list slabel) (g : gcsys) (rs : list request) : list (nat * bool * request) :=
  match ls with
  | [] => []
  | l :: ls =>
    match exec_g l g with
    | None => []
    | Some g' =>
      match l, rs with
      | KServe, r :: rs => (gen (cs_ (gc_ g')), bool_decide (alive (cs_ (gc_ g)) <> None), r) :: served ls g' rs
      | _, _ => served ls g' (rs ++ asks [l])
      end
    end
  end.

Definition tagged (n : nat) (ms : list message) : list (nat * message) := (fun m => (n, m)) <$> ms.
Definition small_label (l : slabel) : Prop := match l with HAsk r => small_request r | _ => True end.

(** The requests that wait are [rs]; the worker is [id]. *)
Record oinv (b : bool) (id : uuid) (g : gcsys) (rs : list request) : Prop := mkOinv {
  oi_sys : gcinv b g;
  oi_reqs : greq_ g = message_of <$> rs;
  oi_ok : Forall request_ok rs;
  oi_small : Forall small_request rs;
  oi_id : w_id (main (cs_ (gc_ g))) = id;
}.

Lemma after_sent s c : sent (cs_ (csys_after s c)) =
  sent (cs_ c) ++ tagged (gen (cs_ (csys_after s c))) (drop (length (queued (main (cs_ c)))) (queued (worker_ s))) /\
  main (cs_ (csys_after s c)) = worker_ s.
Proof. unfold csys_after. cbn [cs_]. by destruct (bool_decide _). Qed.

Lemma after_adds ms s c : adds ms (main (cs_ c)) (worker_ s) ->
  sent (cs_ (csys_after s c)) = sent (cs_ c) ++ tagged (gen (cs_ (csys_after s c))) ms.
Proof. intros [Hq _]. destruct (after_sent s c) as [-> _]. by rewrite Hq, drop_app_length. Qed.

Lemma session_keeps l c c' : session_label l = true -> exec_c (CStep l) c = Some c' ->
  sent (cs_ c') = sent (cs_ c) /\ w_id (main (cs_ c')) = w_id (main (cs_ c)).
Proof.
  intros Hl E. cbn [exec_c] in E. assert (exists s, exec l (cs_ c) = Some s /\ cs_ c' = s) as (s & Es & ->).
  { destruct l; try done; (destruct (exec _ (cs_ c)) as [s|]; [|done]); injection E as <-; by exists s. }
  clear E. destruct l; try done; cbn [exec] in Es; destruct (alive (cs_ c)) as [[k n0]|]; try done.
  - destruct (queued (main (cs_ c))) as [|m q]; [done|]. destruct (recvOperation k m.1 m.2) as [op| | |]; try done.
    destruct (decide (Operation.notif_ op = Operation.Discard)); [by injection Es as <-|].
    destruct (decide (Operation.type_ op = Operation.Stop)); by injection Es as <-.
  - by injection Es as <-.
  - by injection Es as <-.
Qed.

(** A request is served. *)
Lemma serve_sends b id g rs g' : uuid_ok id -> oinv b id g rs -> exec_g KServe g = Some g' -> exists r rs' ms, rs = r :: rs' /\ oinv b id g' rs' /\
  sent (cs_ (gc_ g')) = sent (cs_ (gc_ g)) ++ tagged (gen (cs_ (gc_ g'))) ms /\
  becomes id (bool_decide (alive (cs_ (gc_ g)) <> None)) r ms.
Proof.
  intros Hu [Hi Hr Hok Hsm Hid] E. pose proof (exec_g_gcinv b KServe g g' Hi I E) as Hi'. cbn [exec_g] in E.
  destruct (blocked_ g || exited_ g)%bool; [done|]. destruct (client_request _ _ _) as [[bl| | |] s'] eqn:Ec; try discriminate E.
  injection E as <-. destruct rs as [|r rs]; cbn [fmap list_fmap] in Hr.
  { unfold client_request in Ec. rewrite bind_get in Ec. cbn [requests_ service_of] in Ec. rewrite Hr in Ec. discriminate Ec. }
  apply Forall_cons in Hok as [Hok Hoks], Hsm as [Hsm Hsms]. exists r, rs.
  rewrite (client_performs _ _ r (message_of <$> rs)) in Ec by done. apply M_bind_Ok in Ec as (o & s1 & Ep & Ec).
  pose proof (indep_perform (over (gc_ g)) (S (gen (cs_ (gc_ g)))) r ((message_of <$> rs) : list part) (service_of g)) as Hq.
  rewrite Ep in Hq. injection Hq as _ Hq.
  pose proof (fun H1 H2 => perform_adds b (gc_ g) r _ o s1 (gi_prog _ _ Hi) H1 H2 Hsm Ep) as Hp.
  destruct (Hp (sees_service g)) as (ms & Ha & Hb); [by cbn [worker_ set_requests service_of]; rewrite Hid|].
  cbn [worker_ set_requests service_of] in Ha, Hb. rewrite Hid in Hb.
  assert (worker_ s' = worker_ s1 /\ requests_ s' = requests_ s1) as [Hw' Hq'].
  { destruct o as [p|]; [|by injection Ec as _ <-]. apply M_bind_Ok in Ec as ([] & s2 & E2 & [= _ <-]).
    by apply push_frame in E2 as (_ & ? & _ & ?). }
  exists ms. split; [done|]. cbn [after gc_]. rewrite <-Hw' in Ha. split; [|split; [by apply after_adds|done]].
  constructor; try done; cbn [after gc_ greq_].
  - by rewrite Hq', Hq.
  - destruct (after_sent s' (gc_ g)) as [_ ->]. by destruct Ha as [_ ->].
Qed.

(** The other steps send nothing. *)
Lemma frame_sends b g s bl : gcinv b g -> worker_ s = main (cs_ (gc_ g)) ->
  sent (cs_ (gc_ (after s bl g))) = sent (cs_ (gc_ g)) /\ w_id (main (cs_ (gc_ (after s bl g)))) = w_id (main (cs_ (gc_ g))).
Proof.
  intros Hi Hw. cbn [after gc_]. destruct (after_sent s (gc_ g)) as [-> ->]. rewrite Hw, drop_all. cbn [tagged fmap list_fmap].
  by rewrite app_nil_r.
Qed.

Lemma step_quiet b id g rs l g' : oinv b id g rs -> label_ok b l -> small_label l -> l <> KServe -> exec_g l g = Some g' ->
  oinv b id g' (rs ++ asks [l]) /\ sent (cs_ (gc_ g')) = sent (cs_ (gc_ g)).
Proof.
  intros Ho Hl Hsl Hne E. destruct Ho as [Hi Hr Hok Hsm Hid]. pose proof (exec_g_gcinv b l g g' Hi Hl E) as Hi'.
  assert (greq_ g' = greq_ g ++ (message_of <$> asks [l]) /\ sent (cs_ (gc_ g')) = sent (cs_ (gc_ g)) /\
          w_id (main (cs_ (gc_ g'))) = w_id (main (cs_ (gc_ g)))) as (Hq & Hs & Hw).
  { destruct l as [r| | | | | | |l]; try done; cbn [exec_g label_ok] in *; cbn [asks mbind list_bind app fmap list_fmap];
      rewrite ?app_nil_r.
    - rewrite (ask_sends r _ Hl) in E. injection E as <-. split; [done|]. by apply (frame_sends b).
    - unfold recvRPC in E. rewrite bind_get in E. destruct (replies_ (service_of g)) as [|p q]; [done|]. injection E as <-.
      split; [done|]. by apply (frame_sends b).
    - unfold shutdown in E. rewrite bind_modify in E. pose proof (ask_sends QStop (set_canc2 (service_of g)) I) as Ea.
      cbn [ask] in Ea. unfold do_Stop in Ea. rewrite Ea in E. injection E as <-. split; [done|]. by apply (frame_sends b).
    - destruct (blocked_ g); [|done]. rewrite (wait_active b) in E by (try done; apply creachable_inv, Hi).
      destruct (alive (cs_ (gc_ g))); [done|]. injection E as <-. split; [done|]. by apply (frame_sends b).
    - destruct (blocked_ g || exited_ g)%bool; [done|]. unfold client_monitor in E.
      rewrite (wait_active b) in E by (try done; apply creachable_inv, Hi).
      destruct (alive (cs_ (gc_ g))); injection E as <-; (split; [done|]); by apply (frame_sends b).
    - destruct (_ && _)%bool; [|done]. by injection E as <-.
    - destruct (session_label l) eqn:Hsess; [|done]. destruct (exec_c (CStep l) (gc_ g)) as [c|] eqn:Ec; [|done]. injection E as <-.
      split; [done|]. by apply (session_keeps l). }
  rewrite Hr, <-fmap_app in Hq.
  split; [|done]. constructor; [done|done| | |congruence]; apply Forall_app; (split; [done|]); by destruct l; repeat constructor.
Qed.

Lemma run_sends b id ls : uuid_ok id -> forall g rs g', oinv b id g rs -> Forall (label_ok b) ls -> Forall small_label ls -> grun_g ls g = Some g' ->
  exists mss pending, Forall2 (fun e ms => becomes id e.1.2 e.2 ms) (served ls g rs) mss /\
    sent (cs_ (gc_ g')) = sent (cs_ (gc_ g)) ++ mjoin (zip_with (fun e ms => tagged e.1.1 ms) (served ls g rs) mss) /\
    rs ++ asks ls = (snd <$> served ls g rs) ++ pending /\ oinv b id g' pending.
Proof.
  intros Hu. induction ls as [|l ls IH]; intros g rs g' Ho Hl Hs E; cbn [grun_g served] in *.
  { injection E as <-. exists [], rs. cbn. by rewrite !app_nil_r. }
  apply Forall_cons in Hl as [Hl Hls], Hs as [Hs Hss]. destruct (exec_g l g) as [g1|] eqn:E1; [|done].
  assert (asks (l :: ls) = asks [l] ++ asks ls) as -> by (unfold asks; rewrite bind_cons; cbn [mbind list_bind]; by rewrite app_nil_r).
  assert (l = KServe \/ l <> KServe) as [->|Hne] by (destruct l; (by left) || (by right)).
  - destruct (serve_sends b id g rs g1 Hu Ho E1) as (r & rs' & ms & -> & Ho1 & Hsent & Hb).
    destruct (IH g1 rs' g' Ho1 Hls Hss E) as (mss & pending & H2 & Hs' & Hq & Hp). exists (ms :: mss), pending.
    split_and!; [by constructor| |cbn; by rewrite <-Hq|done]. cbn [zip_with mjoin list_join]. rewrite Hs', Hsent, <-app_assoc. done.
  - destruct (step_quiet b id g rs l g1 Ho Hl Hs Hne E1) as [Ho1 Hsent].
    destruct (IH g1 (rs ++ asks [l]) g' Ho1 Hls Hss E) as (mss & pending & H2 & Hs' & Hq & Hp).
    rewrite <-app_assoc in Hq. assert ((match l, rs with
      | KServe, r :: rs0 => (gen (cs_ (gc_ g1)), bool_decide (alive (cs_ (gc_ g)) <> None), r) :: served ls g1 rs0
      | _, _ => served ls g1 (rs ++ asks [l]) end) = served ls g1 (rs ++ asks [l])) as -> by (by destruct l).
    exists mss, pending. rewrite <-Hsent. done.
Qed.

End WithEnv.

(** ** Theorems *)

(** C14: From remote requests to the session, in order: in every interleaving of the handlers, the
    serving thread and the session, ends of sessions by exception included, the requests are
    served in the order in which they were asked and those not served are still waiting; each
    served request sent exactly the operation it stands for (a start when no session runs; a
    stop, a synchronisation, or the dispatch of the topic with its name, data, type and the
    worker's identity when one does; nothing otherwise); these, in this order, are all that the
    sessions were ever sent; they are handled in this order, each at most once, by the session
    they were sent to or a later one with the same 8-bit token; and when no session throws, or at
    most 256 were started, each session handles a prefix of its own.  Topics are assumed to fit an
    operation: their data is at least a kilobyte below the largest length of a part. *)
Theorem grpc_operations (P : Platform) (PE : Proto Endpoints) (PS : Proto Subscriptions) (PT : Proto PTopic)
    (b : bool) (id : uuid) (ls : list slabel) (g : gcsys) :
  uuid_ok id -> Forall (label_ok b) ls -> Forall small_label ls -> grun_g ls (gcinit id) = Some g ->
  let log := served ls (gcinit id) [] in
  exists mss pending,
    asks ls = (snd <$> log) ++ pending /\ greq_ g = message_of <$> pending /\
    Forall2 (fun e ms => becomes id e.1.2 e.2 ms) log mss /\
    sent (cs_ (gc_ g)) = mjoin (zip_with (fun e ms => tagged e.1.1 ms) log mss) /\
    (exists l, l `sublist_of` sent (cs_ (gc_ g)) /\ Forall2 taken_from l (handled (cs_ (gc_ g)))) /\
    (few b (cs_ (gc_ g)) -> forall n, msgs_of n (handled (cs_ (gc_ g))) `prefix_of` msgs_of n (sent (cs_ (gc_ g)))).
Proof.
  intros Hu Hl Hs E log. assert (oinv b id (gcinit id) []) as Ho by (constructor; try done; apply greachable_inv, greach_init).
  destruct (run_sends b id ls Hu _ [] g Ho Hl Hs E) as (mss & pending & H1 & H2 & H3 & H4). exists mss, pending.
  pose proof (ci_reach _ _ (creachable_inv _ _ (gi_prog _ _ (oi_sys _ _ _ _ H4)))) as Hr.
  split_and!; try done; [apply H4| |].
  - destruct (ai_order _ (reachable_any _ _ Hr)) as (l & Hsub & Hf). exists l. split; [|done]. etrans; [|exact Hsub].
    by apply sublist_inserts_r.
  - intros Hfew. by apply (few_exact b).
Qed.

Definition sample_ptopic : PTopic := mkPTopic (str "t") (str "v") Topic_Type_State.
Definition sample_asks : list slabel :=
  [HAsk (QDispatch sample_ptopic); KServe; HAsk QStart; HAsk (QDispatch sample_ptopic); KServe; KServe; WSession SRecv; HShutdown; WSession SDie].

Lemma sample_asks_ok : Forall (@label_ok PE0 PS0 PT0 false) sample_asks /\ Forall small_label sample_asks.
Proof.
  assert (@request_ok PE0 PS0 PT0 (QDispatch sample_ptopic)) as Hr by (split; [exact I|vm_compute; reflexivity]).
  assert (small_request (QDispatch sample_ptopic)) as Hs by (vm_compute; reflexivity).
  unfold sample_asks. split; repeat (apply Forall_cons_2; [first [exact I|exact Hr|exact Hs|reflexivity]|]); apply Forall_nil_2.
Qed.

Lemma grpc_operations_witness : exists g mss, @grun_g x86_64 PE0 PS0 PT0 sample_asks (gcinit sample_id) = Some g /\
  Forall2 (fun e ms => @becomes x86_64 sample_id e.1.2 e.2 ms) (@served x86_64 PE0 PS0 PT0 sample_asks (gcinit sample_id) []) mss /\
  @served x86_64 PE0 PS0 PT0 sample_asks (gcinit sample_id) [] =
    [(0%nat, false, QDispatch sample_ptopic); (1%nat, false, QStart); (1%nat, true, QDispatch sample_ptopic)].
Proof.
  assert (match @grun_g x86_64 PE0 PS0 PT0 sample_asks (gcinit sample_id) with Some _ => true | None => false end = true) as K
    by (vm_compute; reflexivity).
  destruct (@grun_g x86_64 PE0 PS0 PT0 sample_asks (gcinit sample_id)) as [g|] eqn:E; [|discriminate K].
  exists g. destruct sample_asks_ok as [H1 H2]. assert (uuid_ok sample_id) as Hu by reflexivity.
  destruct (grpc_operations x86_64 PE0 PS0 PT0 false sample_id sample_asks g Hu H1 H2 E) as (mss & pending & _ & _ & Hb & _).
  exists mss. split; [reflexivity|]. split; [exact Hb|vm_compute; reflexivity].
Defined.

End GrpcOrder.
