(* ===== verification/GrpcClients.v ===== *)
(** * What remote clients get over whole runs (grpc/fuurin_worker_impl.cpp, src/worker.cpp)

    The handlers of the getters, with the threads that wait for a reply and what they make of it,
    in the system of [GrpcSystem]: the other handlers, the thread that serves the requests, and the
    sessions of the worker, which report sequence numbers and may end by an exception.  The
    numbers that clients get and that later sessions start from are those that the sessions
    reported. *)

From S2P Require Import Prelude Part PartMulti Codec Uuid Topic Event Config Session BrokerSession Runner RunnerEvents RunnerSystem CBindings Grpc GrpcSystem.

Local Open Scope Z_scope.

Module GrpcClients.
Import Part PartMulti Codec Uuid Topic Config Session Runner.
Import RunnerSystem CBindings Grpc GrpcSystem.

Abbreviation get := Prelude.get.
(** The worker of the service *)
Abbreviation g_worker g := (main (cs_ (gc_ g))).

Section WithEnv.
Context {P : Platform} {PE : Proto Endpoints} {PS : Proto Subscriptions} {PT : Proto PTopic}.

(** ** The sequence number of the worker *)

(** A number as it comes out of the part it was written to *)
Definition through_part (n : Z) : Z := toUint64 (Part_uint64 n).

(** The number of a run: the last one that a session reported, 0 before *)
Definition reported (n : Z) (l : slabel) : Z :=
  match l with WSession (SNotify m) => through_part m | _ => n end.
Definition last_number (ls : list slabel) : Z := foldl reported 0 ls.

(** What [Worker::seqNumber] is going to return *)
Definition number_read (w : worker) : Z := match zseqr_ w with Some p => toUint64 p | None => seqNum_ w end.

Lemma seqNumber_reads w : seqNumber w = (Ok (number_read w), set_seq None (number_read w) w).
Proof. unfold seqNumber, number_read. rewrite bind_get. destruct w as [r [p|] n a l]; reflexivity. Qed.

Lemma number_on_runner {A} (m : M runner A) : frames number_read (on_runner (S := worker) m).
Proof. intros w. unfold on_runner, zoom. cbn [runner_of set_runner worker_kind]. by destruct (m (w_runner w)). Qed.
Lemma number_seqNumber : frames number_read seqNumber.
Proof. intros w. by rewrite seqNumber_reads. Qed.
Lemma number_commit {A} (m : M worker A) : frames number_read m -> frames number_read (unless_commit m).
Proof. intros Hm w. specialize (Hm w). unfold unless_commit. by destruct (m w) as [[] w']. Qed.
Lemma number_start : frames number_read (start (S := worker)).
Proof.
  pose proof number_seqNumber. unfold start. apply frames_bind; [apply number_on_runner|]. intros []; [apply frames_ret|].
  apply frames_bind; [apply number_on_runner|intros _]. apply frames_bind; [|intros; frame]. apply number_commit, frames_bind.
  - cbn. frame.
  - intros p. apply number_on_runner.
Qed.
Lemma number_sync : frames number_read sync.
Proof.
  unfold sync. apply frames_bind; [apply number_on_runner|]. intros b. destruct (negb b); [apply frames_ret|apply number_on_runner].
Qed.
Lemma number_dispatch n d ty : frames number_read (dispatch n d ty).
Proof.
  unfold dispatch. apply frames_bind; [apply number_on_runner|]. intros b. destruct (negb b); [apply frames_ret|].
  apply frames_bind; [apply frames_get|intros w]. apply frames_bind; [apply frames_lift|intros p]. apply number_on_runner.
Qed.

Definition svc_number (s : service) : Z := number_read (worker_ s).
Lemma number_on_worker {A} (m : M worker A) : frames number_read m -> frames svc_number (on_worker m).
Proof. intros Hm. by apply (frames_zoom_in svc_number number_read). Qed.
Lemma number_wait over t : frames svc_number (waitForResult over t).
Proof. unfold waitForResult. frame. Qed.

(** Serving a request leaves the number alone. *)
Lemma number_perform over k r : frames svc_number (perform over k r).
Proof.
  pose proof (number_wait over (-1)) as Hw.
  assert (frames svc_number (on_worker (on_runner isRunning))) as Hi by apply number_on_worker, number_on_runner.
  assert (frames svc_number (on_worker (on_runner stop))) as Hs by apply number_on_worker, number_on_runner.
  assert (frames svc_number (on_worker start)) as Hst by apply number_on_worker, number_start.
  assert (frames svc_number (on_worker seqNumber)) as Hn by apply number_on_worker, number_seqNumber.
  assert (frames svc_number (on_worker sync)) as Hy by apply number_on_worker, number_sync.
  destruct r as [| | |e|u| | | |t]; cbn [perform serveRPC]; unfold done_with, set_start; try (by frame).
  - unfold applySubscriptions. frame; apply number_on_worker; by apply frames_modify.
  - frame. apply number_on_worker, number_dispatch.
Qed.

(** ** Serving a request *)

(** The reply of a getter, to a worker with that identity and that number *)
Definition right_reply (id : uuid) (n : Z) (c : getter) (p : part) : Prop :=
  match c with
  | UuidGetter => reply_GetUuid p = Ok id
  | SeqGetter => reply_GetSeqNum p = Ok (through_part n)
  end.

Lemma perform_getter over k c s : uuid_ok (w_uuid s) -> exists p s',
  perform over k (request_of c) s = (Ok (Some p), s') /\ empty p = false /\ right_reply (w_uuid s) (svc_number s) c p.
Proof.
  intros Hu. destruct c; cbn [request_of right_reply].
  - destruct (uuid_part _ Hu) as [_ E]. eexists _, _. split; [by apply perform_uuid|]. split; [|done].
    apply empty_length. cbn [p_data Part_bytes]. rewrite Hu. unfold uuid_size. lia.
  - eexists _, _. split; [apply perform_number, seqNumber_reads|]. split; [|done].
    apply empty_length. rewrite length_uint64. lia.
Qed.

Lemma getter_request r c : getter_of r = Some c -> r = request_of c.
Proof. destruct r, c; cbn; congruence. Qed.

Lemma serve_step over k r q s bl s' : request_ok r -> requests_ s = message_of r :: q ->
  client_request over k s = (Ok bl, s') ->
  requests_ s' = q /\ w_uuid s' = w_uuid s /\ svc_number s' = svc_number s /\
  match getter_of r with
  | None => replies_ s' = replies_ s
  | Some c => uuid_ok (w_uuid s) -> exists p, replies_ s' = replies_ s ++ [p] /\ right_reply (w_uuid s) (svc_number s) c p
  end.
Proof.
  intros Hr Hq E. rewrite (client_performs over k r q s Hr Hq) in E. apply M_bind_Ok in E as (o & s1 & Ep & E).
  destruct (perform_frames over k r) as [Hf1 Hf2]. specialize (Hf1 (set_requests q s)). specialize (Hf2 (set_requests q s)).
  pose proof (number_perform over k r (set_requests q s)) as Hf3. pose proof (indep_perform over k r q s) as Hq1.
  rewrite Ep in Hf1, Hf2, Hf3, Hq1. injection Hq1 as _ Hq1. assert (requests_ s1 = q) as Hrq by (by rewrite Hq1).
  assert (requests_ s' = q /\ worker_ s' = worker_ s1) as [Hrq' Hw].
  { destruct o as [p|]; [|by injection E as _ <-]. apply M_bind_Ok in E as ([] & s2 & Epu & [= _ <-]).
    apply push_frame in Epu as (_ & -> & _ & ->). done. }
  unfold w_uuid, svc_number in *. rewrite Hw. cbn [fst snd worker_ replies_ set_requests] in Hf1, Hf2, Hf3. split_and!; [done..|].
  destruct (getter_of r) as [c|] eqn:Ec.
  - intros Hu. pose proof (getter_request r c Ec) as ->.
    destruct (perform_getter over k c (set_requests q s) Hu) as (p & s2 & Ep' & He & Hp). rewrite Ep in Ep'. injection Ep' as -> <-.
    exists p. split; [|exact Hp]. unfold push_reply in E. rewrite He in E. injection E as _ <-. cbn [replies_ set_replies]. by rewrite Hf2.
  - destruct o as [p|]; [|by injection E as _ <-]. pose proof (perform_reply _ _ _ _ _ _ Ep) as Hp. rewrite Ec in Hp. subst p.
    apply M_bind_Ok in E as ([] & s2 & [= <-] & [= _ <-]). done.
Qed.

(** ** Steps of the system *)

Lemma main_after s b g : g_worker (after s b g) = worker_ s.
Proof. cbn [after gc_]. unfold csys_after. by destruct (bool_decide _). Qed.

Lemma frames_result {S A B} (f : S -> A) (m : M S B) s o s' : frames f m -> m s = (o, s') -> f s' = f s.
Proof. intros Hf E. specialize (Hf s). by rewrite E in Hf. Qed.

Lemma frames_ask r : frames worker_ (ask r) /\ frames replies_ (ask r).
Proof. split; destruct r; unfold ask, do_Dispatch, ask_GetUuid, ask_GetSeqNum, do_SetEndpoints, do_SetSubscriptions, do_Start, do_Stop, do_Sync, sendRPC; frame. Qed.

(** What a step does to the number and the identity of the worker *)
Lemma exec_number b l g g' : gcinv b g -> exec_g l g = Some g' ->
  number_read (g_worker g') = reported (number_read (g_worker g)) l /\ w_id (g_worker g') = w_id (g_worker g).
Proof.
  intros Hi E. destruct l as [r| | | | | | |l]; cbn [exec_g] in E.
  - destruct (ask r (service_of g)) as [[[]| | |] s'] eqn:Ea; try done. injection E as <-. rewrite main_after.
    by rewrite (frames_result _ _ _ _ _ (proj1 (frames_ask r)) Ea).
  - destruct (recvRPC (service_of g)) as [[[p|]| | |] s'] eqn:Ea; try done. injection E as <-. rewrite main_after.
    unfold recvRPC in Ea. rewrite bind_get in Ea. destruct (replies_ (service_of g)); [done|]. by injection Ea as _ <-.
  - unfold shutdown in E. rewrite bind_modify in E. destruct (sendRPC _ _ _) as [[[]| | |] s'] eqn:Ea; try done. injection E as <-.
    rewrite main_after. by rewrite (frames_result _ _ _ _ _ (proj1 (frames_ask QStop)) Ea).
  - destruct (_ || _)%bool; [done|]. destruct (client_request _ _ _) as [[bl| | |] s'] eqn:Ec; try done. injection E as <-.
    destruct (serve_sim b g bl s' Hi Ec) as (r & q & Hq & Hr & _).
    destruct (serve_step _ _ r q (service_of g) _ _ Hr Hq Ec) as (_ & Hu & Hn & _). by rewrite main_after.
  - destruct (blocked_ g); [|done]. destruct (waitForResult _ _ _) as [[[]| | |] s'] eqn:Ew; try done. injection E as <-. rewrite main_after.
    split; [exact (frames_result _ _ _ _ _ (number_wait _ _) Ew)|exact (frames_result _ _ _ _ _ (proj1 (frames_wait _ _)) Ew)].
  - destruct (_ || _)%bool; [done|]. unfold client_monitor in E. destruct (waitForResult _ _ _) as [[o| | |] s'] eqn:Ew; try done.
    injection E as <-. rewrite main_after.
    split; [exact (frames_result _ _ _ _ _ (number_wait _ _) Ew)|exact (frames_result _ _ _ _ _ (proj1 (frames_wait _ _)) Ew)].
  - destruct (_ && _)%bool; [|done]. by injection E as <-.
  - destruct (session_label l) eqn:Hl; [|done]. destruct (exec_c (CStep l) (gc_ g)) as [c|] eqn:Ec; [|done]. injection E as <-.
    cbn [gc_]. destruct l; try done; cbn [exec_c exec] in Ec.
    + destruct (alive (cs_ (gc_ g))) as [[k n]|]; [|done]. destruct (queued _) as [|m q]; [done|].
      destruct (recvOperation k m.1 m.2); try done. repeat (destruct (decide _)); by injection Ec as <-.
    + destruct (alive (cs_ (gc_ g))); [|done]. by injection Ec as <-.
    + destruct (alive (cs_ (gc_ g))) as [[k n]|]; [|done]. by injection Ec as <-.
Qed.

Lemma grun_none ls1 ls2 : forall g, grun_g ls1 g = None -> grun_g (ls1 ++ ls2) g = None.
Proof.
  induction ls1 as [|l ls1 IH]; intros g; cbn [grun_g app]; [done|]. destruct (exec_g l g); [apply IH|done].
Qed.

Lemma run_number b id ls : Forall (label_ok b) ls -> forall g, grun_g ls (gcinit id) = Some g ->
  gcinv b g /\ number_read (g_worker g) = last_number ls /\ w_id (g_worker g) = id.
Proof.
  induction ls as [|l ls IH] using rev_ind; intros Hls g E.
  { injection E as <-. split; [|done]. apply greachable_inv, greach_init. }
  apply Forall_app in Hls as [Hls [Hl _]%Forall_cons].
  destruct (grun_g ls (gcinit id)) as [g1|] eqn:E1; [|by rewrite (grun_none _ _ _ E1) in E].
  rewrite (grun_app _ _ _ _ E1) in E. cbn [grun_g] in E. destruct (exec_g l g1) as [g2|] eqn:E2; [|done]. injection E as <-.
  destruct (IH Hls g1 eq_refl) as (Hi & Hn & Hu). destruct (exec_number b l g1 g2 Hi E2) as [Hn2 Hu2].
  split; [by apply (exec_g_gcinv b l g1)|]. unfold last_number. rewrite foldl_app, Hn2, Hu2. cbn [foldl]. by rewrite Hn.
Qed.

(** ** The getters *)

(** The system, the threads of the handlers that wait for a reply, and the answers they gave *)
Record clients := mkClients {
  sys_ : gcsys;
  waits_ : gmap nat getter;
  given_ : list (nat * answer);
}.

(** The handler of a getter sends its request, receives the next reply; any other step of the system *)
Inductive alabel := ACall (t : nat) (c : getter) | ARecv (t : nat) | AStep (l : slabel).

Definition other (l : slabel) : bool :=
  match l with HRecv => false | HAsk r => match getter_of r with None => true | Some _ => false end | _ => true end.

Definition exec_a (l : alabel) (a : clients) : option clients :=
  match l with
  | ACall t c =>
    match waits_ a !! t, exec_g (HAsk (request_of c)) (sys_ a) with
    | None, Some g => Some (mkClients g (<[t := c]> (waits_ a)) (given_ a))
    | _, _ => None
    end
  | ARecv t =>
    match waits_ a !! t, grep_ (sys_ a), exec_g HRecv (sys_ a) with
    | Some c, p :: _, Some g => Some (mkClients g (delete t (waits_ a)) (given_ a ++ [(t, reply_to c p)]))
    | _, _, _ => None
    end
  | AStep l =>
    if other l then (fun g => mkClients g (waits_ a) (given_ a)) <$> exec_g l (sys_ a) else None
  end.

Fixpoint run_a (ls : list alabel) (a : clients) : option clients :=
  match ls with
  | [] => Some a
  | l :: ls => match exec_a l a with Some a' => run_a ls a' | None => None end
  end.

Definition ainit (id : uuid) : clients := mkClients (gcinit id) ∅ [].

(** Runs in which a getter asks only while no other waits for its reply *)
Fixpoint one_by_one (b : bool) (ls : list alabel) (a : clients) : Prop :=
  match ls with
  | [] => True
  | l :: ls =>
    match l with ACall _ _ => waits_ a = ∅ | AStep l => label_ok b l | ARecv _ => True end /\
    match exec_a l a with Some a' => one_by_one b ls a' | None => True end
  end.

(** ** What they should answer *)

(** The requests on their way (the getters among them), the number of the worker, and the number
    at every time that a request for it was served *)
Record expected := mkExpected { asked : list (option getter); now : Z; numbers_ : list Z }.

Definition expect (e : expected) (l : alabel) : expected :=
  match l with
  | ACall _ c => mkExpected (asked e ++ [Some c]) (now e) (numbers_ e)
  | ARecv _ => e
  | AStep (HAsk _) | AStep HShutdown => mkExpected (asked e ++ [None]) (now e) (numbers_ e)
  | AStep KServe =>
    match asked e with
    | Some SeqGetter :: q => mkExpected q (now e) (numbers_ e ++ [now e])
    | _ :: q => mkExpected q (now e) (numbers_ e)
    | [] => e
    end
  | AStep l => mkExpected (asked e) (reported (now e) l) (numbers_ e)
  end.

Definition seq_numbers (ls : list alabel) : list Z := numbers_ (foldl expect (mkExpected [] 0 []) ls).

Definition seq_answers (l : list (nat * answer)) : list (outcome Z) :=
  omap (fun a => match a.2 with ASeq o => Some o | _ => None end) l.
Definition shown (l : list Z) : list (outcome Z) := (fun n => Ok (through_part n)) <$> l.

(** Where the request or the reply of the thread that waits is *)
Definition in_flight (id : uuid) (w : gmap nat getter) (gets : list getter) (replies : list part) (ans : list (outcome Z)) (nums : list Z) : Prop :=
  w = ∅ /\ gets = [] /\ replies = [] /\ ans = shown nums \/
  exists t c, w = {[t := c]} /\
    (gets = [c] /\ replies = [] /\ ans = shown nums \/
     gets = [] /\ exists p nums' n, replies = [p] /\ right_reply id n c p /\ ans = shown nums' /\
       nums = nums' ++ match c with SeqGetter => [n] | UuidGetter => [] end).

Record ainv (b : bool) (id : uuid) (e : expected) (a : clients) : Prop := mkAinv {
  ai_sys : gcinv b (sys_ a);
  ai_asked : exists rs, greq_ (sys_ a) = message_of <$> rs /\ Forall request_ok rs /\ getter_of <$> rs = asked e;
  ai_id : w_id (g_worker (sys_ a)) = id;
  ai_now : number_read (g_worker (sys_ a)) = now e;
  ai_uuids : forall t o, (t, AUuid o) ∈ given_ a -> o = Ok id;
  ai_flight : in_flight id (waits_ a) (omap (fun x => x) (asked e)) (grep_ (sys_ a)) (seq_answers (given_ a)) (numbers_ e);
}.

Lemma ask_step r g g' : request_ok r -> exec_g (HAsk r) g = Some g' ->
  greq_ g' = greq_ g ++ [message_of r] /\ grep_ g' = grep_ g.
Proof. intros Hr. cbn [exec_g]. rewrite ask_sends by done. by intros [= <-]. Qed.

Lemma shutdown_step g g' : exec_g HShutdown g = Some g' -> greq_ g' = greq_ g ++ [message_of QStop] /\ grep_ g' = grep_ g.
Proof.
  cbn [exec_g]. unfold shutdown. rewrite bind_modify. pose proof (ask_sends QStop (set_canc2 (service_of g)) I) as E.
  cbn [ask] in E. unfold do_Stop in E. rewrite E. by intros [= <-].
Qed.

Lemma wait_queues over t s o s' : waitForResult over t s = (o, s') -> requests_ s' = requests_ s /\ replies_ s' = replies_ s.
Proof.
  intros E. split; [|exact (frames_result _ _ _ _ _ (proj2 (frames_wait over t)) E)].
  eapply (frames_result requests_); [|exact E]. unfold waitForResult. frame.
Qed.

(** The other steps leave the sockets of the handlers alone. *)
Lemma quiet_step l g g' : match l with HAsk _ | HRecv | HShutdown | KServe => False | _ => True end ->
  exec_g l g = Some g' -> greq_ g' = greq_ g /\ grep_ g' = grep_ g.
Proof.
  intros Hl E. destruct l as [r| | | | | | |l]; try done; cbn [exec_g] in E.
  - destruct (blocked_ g); [|done]. destruct (waitForResult _ _ _) as [[[]| | |] s'] eqn:Ew; try done. injection E as <-.
    by apply wait_queues in Ew.
  - destruct (_ || _)%bool; [done|]. unfold client_monitor in E. destruct (waitForResult _ _ _) as [[o| | |] s'] eqn:Ew; try done.
    injection E as <-. by apply wait_queues in Ew.
  - destruct (_ && _)%bool; [|done]. by injection E as <-.
  - destruct (session_label l); [|done]. destruct (exec_c _ _); [|done]. by injection E as <-.
Qed.

Lemma omap_getters (rs : list request) (q : list (option getter)) : getter_of <$> rs = q ->
  omap getter_of rs = omap (fun x => x) q.
Proof. intros <-. induction rs as [|r rs IH]; [done|]. cbn. rewrite IH. by destruct (getter_of r). Qed.

(** A request that is no getter is asked. *)
Lemma asked_other b id e a g r : ainv b id e a -> gcinv b g -> request_ok r -> getter_of r = None ->
  greq_ g = greq_ (sys_ a) ++ [message_of r] -> grep_ g = grep_ (sys_ a) -> w_id (g_worker g) = w_id (g_worker (sys_ a)) ->
  number_read (g_worker g) = number_read (g_worker (sys_ a)) ->
  ainv b id (mkExpected (asked e ++ [None]) (now e) (numbers_ e)) (mkClients g (waits_ a) (given_ a)).
Proof.
  intros [_ (rs & Hrs & Hok & Has) Hid Hn Hu Hf] Hg Hr Hgr Hq Hp Hw Hnr. constructor; cbn [sys_ waits_ given_ asked now numbers_]; try congruence.
  - exists (rs ++ [r]). rewrite Hq, Hrs, !fmap_app, Has. cbn. rewrite Hgr. split_and!; try done. apply Forall_app. by split; [|apply Forall_singleton].
  - done.
  - rewrite omap_app, Hp, app_nil_r. done.
Qed.

Lemma serve_ainv b id e a g : uuid_ok id -> ainv b id e a -> gcinv b g -> exec_g KServe (sys_ a) = Some g ->
  ainv b id (expect e (AStep KServe)) (mkClients g (waits_ a) (given_ a)).
Proof.
  intros Huid [Hi (rs & Hrs & Hok & Has) Hid Hn Hu Hf] Hg E. pose proof (exec_number b KServe _ _ Hi E) as [Hn' Hid'].
  cbn [exec_g] in E. destruct (_ || _)%bool; [done|]. destruct (client_request _ _ _) as [[bl| | |] s'] eqn:Ec; try done. injection E as <-.
  destruct rs as [|r rs].
  { cbn [fmap list_fmap] in Hrs. unfold client_request in Ec. rewrite bind_get in Ec. cbn [requests_ service_of] in Ec. by rewrite Hrs in Ec. }
  apply Forall_cons in Hok as [Hr Hok]. cbn [fmap list_fmap] in Hrs, Has.
  destruct (serve_step _ _ r _ (service_of (sys_ a)) _ _ Hr Hrs Ec) as (Hq & _ & _ & Hre). rewrite <-Has in *.
  change (w_uuid (service_of (sys_ a))) with (w_id (g_worker (sys_ a))) in Hre. rewrite Hid in Hre.
  change (svc_number (service_of (sys_ a))) with (number_read (g_worker (sys_ a))) in Hre. rewrite Hn in Hre, Hn'.
  assert (forall nums, in_flight id (waits_ a) (omap (fun x => x) (getter_of <$> rs)) (replies_ s') (seq_answers (given_ a)) nums ->
    ainv b id (mkExpected (getter_of <$> rs) (now e) nums) (mkClients (after s' (negb bl) (sys_ a)) (waits_ a) (given_ a))) as Hall.
  { intros nums Hf'. constructor; try done; [by exists rs|by rewrite <-Hid]. }
  cbn [expect asked now numbers_ replies_ service_of] in *. rewrite <-Has. cbn [omap list_omap] in Hf. destruct (getter_of r) as [c|] eqn:Ecr.
  2:{ apply Hall. by rewrite Hre. }
  destruct (Hre Huid) as (p & Hp & Hrr). destruct Hf as [(_ & ? & _)|(t' & c' & Hw & [(Hgs & Hz & Ha)|(? & _)])]; [done| |done].
  injection Hgs as <- Hgs. assert (forall nums', nums' = numbers_ e ++ match c with SeqGetter => [now e] | UuidGetter => [] end ->
    ainv b id (mkExpected (getter_of <$> rs) (now e) nums') (mkClients (after s' (negb bl) (sys_ a)) (waits_ a) (given_ a))) as Hc.
  { intros nums' ->. apply Hall. right. exists t', c. split; [done|]. right. split; [done|]. exists p, (numbers_ e), (now e). rewrite Hp, Hz. done. }
  destruct c; apply Hc; by rewrite ?app_nil_r.
Qed.

Lemma call_ainv b id e a t c g : ainv b id e a -> gcinv b g -> waits_ a = ∅ -> exec_g (HAsk (request_of c)) (sys_ a) = Some g ->
  ainv b id (expect e (ACall t c)) (mkClients g (<[t := c]> (waits_ a)) (given_ a)).
Proof.
  intros [Hi (rs & Hrs & Hok & Has) Hid Hn Hu Hf] Hg Hw E. pose proof (exec_number b _ _ _ Hi E) as [Hn' Hid'].
  assert (request_ok (request_of c)) as Hr by (by destruct c). destruct (ask_step _ _ _ Hr E) as [Hq Hp].
  cbn [expect]. constructor; cbn [sys_ waits_ given_ asked now numbers_]; [done| |congruence|cbn [reported] in Hn'; congruence|done|].
  - exists (rs ++ [request_of c]). rewrite Hq, Hrs, !fmap_app, Has. split_and!; [done| |by destruct c].
    apply Forall_app. by split; [|apply Forall_singleton].
  - destruct Hf as [(_ & Hg0 & Hre & Ha)|(t' & c' & Hw' & _)].
    + right. exists t, c. rewrite Hw, omap_app, Hg0, Hp. split; [done|]. by left.
    + rewrite Hw in Hw'. by apply (f_equal (lookup t')) in Hw'; rewrite lookup_empty, lookup_singleton_eq in Hw'.
Qed.

Lemma recv_ainv b id e a t c p q g : ainv b id e a -> gcinv b g -> waits_ a !! t = Some c -> grep_ (sys_ a) = p :: q ->
  exec_g HRecv (sys_ a) = Some g -> ainv b id e (mkClients g (delete t (waits_ a)) (given_ a ++ [(t, reply_to c p)])).
Proof.
  intros [Hi Has Hid Hn Hu Hf] Hg Hw Hp E. pose proof (exec_number b _ _ _ Hi E) as [Hn' Hid'].
  assert (greq_ g = greq_ (sys_ a) /\ grep_ g = q) as [Hq Hp'].
  { cbn [exec_g] in E. erewrite recv_some in E by exact Hp. by injection E as <-. }
  destruct Hf as [(Hw' & _)|(t' & c' & Hw' & Hor)]; [by rewrite Hw' in Hw|].
  rewrite Hw' in Hw. apply lookup_singleton_Some in Hw as [-> ->].
  destruct Hor as [(_ & Hre & _)|(Hgs & p' & nums & n & Hre & Hrr & Ha & Hnums)]; [by rewrite Hre in Hp|].
  rewrite Hre in Hp. injection Hp as -> <-.
  constructor; cbn [sys_ waits_ given_]; [done|by rewrite Hq|congruence|cbn [reported] in Hn'; congruence|..].
  - intros t0 o [Hin|Hin]%elem_of_app; [by eapply Hu|]. apply list_elem_of_singleton in Hin.
    destruct c; [|done]. by injection Hin as _ ->.
  - left. rewrite Hw', delete_singleton_eq. split_and!; try done. unfold seq_answers. rewrite omap_app.
    change (seq_answers (given_ a) ++ omap (fun a => match a.2 with ASeq o => Some o | _ => None end) [(t, reply_to c p)] = shown (numbers_ e)).
    rewrite Ha, Hnums. destruct c; cbn in *; [by rewrite !app_nil_r|]. unfold shown. by rewrite fmap_app, Hrr.
Qed.

Lemma quiet_ainv b id e a g n : ainv b id e a -> gcinv b g -> greq_ g = greq_ (sys_ a) /\ grep_ g = grep_ (sys_ a) ->
  w_id (g_worker g) = w_id (g_worker (sys_ a)) -> number_read (g_worker g) = n ->
  ainv b id (mkExpected (asked e) n (numbers_ e)) (mkClients g (waits_ a) (given_ a)).
Proof.
  intros [_ Has Hid Hn Hu Hf] Hg [Hq Hp] Hw Hnr. constructor; cbn [sys_ waits_ given_ asked now numbers_]; congruence || by rewrite ?Hq, ?Hp.
Qed.

Lemma exec_ainv b id l e a a' : uuid_ok id -> ainv b id e a ->
  match l with ACall _ _ => waits_ a = ∅ | AStep l => label_ok b l | ARecv _ => True end ->
  exec_a l a = Some a' -> ainv b id (expect e l) a'.
Proof.
  intros Hid Hi Hl E. destruct l as [t c|t|l]; cbn [exec_a] in E.
  - rewrite Hl, lookup_empty in E. destruct (exec_g _ _) as [g|] eqn:Eg; [|done]. injection E as <-. rewrite <-Hl.
    apply call_ainv; [done| |done|done]. eapply exec_g_gcinv; [apply Hi| |exact Eg]. by destruct c.
  - destruct (waits_ a !! t) as [c|] eqn:Ew; [|done]. destruct (grep_ (sys_ a)) as [|p q] eqn:Ep; [done|].
    destruct (exec_g HRecv (sys_ a)) as [g|] eqn:Eg; [|done]. injection E as <-.
    eapply recv_ainv; try done. eapply exec_g_gcinv; [apply Hi| |exact Eg]. done.
  - destruct (other l) eqn:Eo; [|done]. apply fmap_Some in E as (g & Eg & ->).
    assert (gcinv b g) as Hg by (eapply exec_g_gcinv; [apply Hi|exact Hl|exact Eg]).
    pose proof (exec_number b _ _ _ (ai_sys _ _ _ _ Hi) Eg) as [Hn Hw]. rewrite (ai_now _ _ _ _ Hi) in Hn. destruct l as [r| | | | | | |l]; try done.
    + cbn [other label_ok] in *. destruct (getter_of r) eqn:Er; [done|]. destruct (ask_step _ _ _ Hl Eg).
      eapply (asked_other _ _ _ _ _ r); try done. by rewrite (ai_now _ _ _ _ Hi).
    + destruct (shutdown_step _ _ Eg). eapply (asked_other _ _ _ _ _ QStop); try done. by rewrite (ai_now _ _ _ _ Hi).
    + by apply serve_ainv.
    + by apply quiet_ainv; [..|eapply quiet_step; [|exact Eg]| |].
    + by apply quiet_ainv; [..|eapply quiet_step; [|exact Eg]| |].
    + by apply quiet_ainv; [..|eapply quiet_step; [|exact Eg]| |].
    + by apply quiet_ainv; [..|eapply quiet_step; [|exact Eg]| |].
Qed.

Lemma run_ainv b id ls : uuid_ok id -> forall e a a', ainv b id e a -> one_by_one b ls a -> run_a ls a = Some a' ->
  ainv b id (foldl expect e ls) a'.
Proof.
  intros Hid. induction ls as [|l ls IH]; intros e a a' Hi Ho E; cbn in *; [by injection E as <-|].
  destruct Ho as [Hl Ho]. destruct (exec_a l a) as [a1|] eqn:E1; [|done]. eapply IH; [|done..]. by eapply exec_ainv.
Qed.

Lemma ainit_inv b id : ainv b id (mkExpected [] 0 []) (ainit id).
Proof.
  constructor; try done; [apply greachable_inv, greach_init|by exists []|by intros ? ? ?%not_elem_of_nil|by left].
Qed.

(** ** Starting a session *)

(** A session that is over leaves the flag down, or its completion message. *)
Definition quieted (r : runner) : runner := set_running false (set_zfinr None r).
Lemma isRunning_over r n : flag_ok r None n -> isRunning r = (Ok false, quieted r).
Proof.
  intros Hf. pose proof (token_width _ _ _ Hf) as Hw. destruct Hf as [_ [[Hr Hz]|[Hr Hz]]]; unfold isRunning; rewrite bind_get, Hz.
  - rewrite bind_ret, bind_get. destruct r; cbn in *; by subst.
  - rewrite toUint8_Part, Z.eqb_refl by done. reflexivity.
Qed.
Lemma isRunning_quieted r : isRunning (quieted r) = (Ok false, quieted r).
Proof. reflexivity. Qed.

Lemma on_runner_eq {A} (m : M runner A) w o r : m (w_runner w) = (o, r) -> on_runner m w = (o, set_w_runner r w).
Proof. intros E. unfold on_runner, zoom. cbn [runner_of worker_kind]. by rewrite E. Qed.

(** The configuration of the next session, and the worker after a start that sent it *)
Definition start_config (w : worker) : WorkerConfig :=
  let r := w_runner w in
  mkWorkerConfig (Runner.uuid_ r) (number_read w) (subscrAll_ w) (subscrNames_ w) (endpDelivery_ r) (endpDispatch_ r) (endpSnapshot_ r).
Definition started (op : part) (w : worker) : worker :=
  let r := w_runner w in let tok := wrap8 (token_ r + 1) in
  set_w_runner (set_zops (zops_ r ++ [(Part_uint8 tok, op)]) (set_running true (set_token tok (set_zfinr None r))))
    (set_seq None (number_read w) w).

Lemma start_sends w pc op : WorkerConfig_toPart (start_config w) = Ok (Part_bytes pc) ->
  Operation.operation_toPart (Operation.mkOp Operation.Start Operation.Success (Part_bytes pc)) = Ok op ->
  start (set_w_runner (quieted (w_runner w)) w) = (Ok (Some (wrap8 (token_ (w_runner w) + 1))), started op w).
Proof.
  intros Hc Ho. unfold start. set (w0 := set_w_runner _ _).
  rewrite (M_bind_eq _ _ _ _ _ (on_runner_eq isRunning w0 _ _ (isRunning_quieted (w_runner w)))).
  rewrite (M_bind_eq _ _ _ _ _ (on_runner_eq (modify _) _ _ _ eq_refl)).
  match goal with |- (_ ≫= _) ?x = _ => set (w1 := x) end.
  assert (prepareConfiguration w1 = (Ok (Part_bytes pc), set_seq None (number_read w) w1)) as Ep.
  { cbn [prepareConfiguration worker_kind]. rewrite (M_bind_eq _ _ _ _ _ (seqNumber_reads w1)), bind_get. unfold lift. rewrite <-Hc. reflexivity. }
  set (w2 := set_seq None (number_read w) w1) in *.
  assert (sendOperation Operation.Start (Part_bytes pc) (w_runner w2) =
    (Ok tt, set_zops (zops_ (w_runner w2) ++ [(Part_uint8 (token_ (w_runner w2)), op)]) (w_runner w2))) as Es.
  { unfold sendOperation. change (Part_copy (Part_bytes pc)) with (Ok (Part_bytes pc)). cbn [noexcept_ mbind outcome_bind]. by rewrite Ho. }
  rewrite (M_bind_eq _ _ w1 tt (started op w)); [reflexivity|]. unfold unless_commit. rewrite (M_bind_eq _ _ _ _ _ Ep).
  by rewrite (on_runner_eq _ w2 _ _ Es).
Qed.

Lemma perform_start over k s n : flag_ok (w_runner (worker_ s)) None n ->
  active_ s ≫= (fun j => match over j with Some _ => None | None => Some j end) = None ->
  WorkerConfig_ok (start_config (worker_ s)) ->
  (forall p, WorkerConfig_toPart (start_config (worker_ s)) = Ok p -> zlen (p_data p) < u32_max) ->
  exists op pc, perform over k QStart s = (Ok (Some Part_empty), set_active (Some k) (set_worker (started op (worker_ s)) s)) /\
    Operation.operation_fromPart op = Ok (Operation.mkOp Operation.Start Operation.Success pc) /\
    WorkerConfig_fromPart pc = Ok (start_config (worker_ s)).
Proof.
  intros Hf Ha Hc Hsz. destruct (WorkerConfig_roundtrip _ Hc) as (pc & Ec & _ & Dc).
  destruct (Operation.operation_roundtrip (Operation.mkOp Operation.Start Operation.Success (Part_bytes pc))) as (op & Eo & _ & Do).
  { constructor; try done. by apply (Hsz (Part_bytes pc)). }
  exists (Part_bytes op), (Part_bytes pc). split; [|done]. cbn [perform serveRPC].
  rewrite (M_bind_eq _ _ _ _ _ (on_worker_eq _ _ _ _ (on_runner_eq _ _ _ _ (isRunning_over _ _ Hf)))). unfold set_start.
  set (s1 := set_worker _ s). pose proof (on_worker_eq start s1 _ _ (start_sends (worker_ s) pc (Part_bytes op) Ec Eo)) as Es.
  rewrite (M_bind_eq _ _ s1 (Some tt) (set_active (Some k) (set_worker (started (Part_bytes op) (worker_ s)) s))); [reflexivity|].
  rewrite (M_bind_eq _ _ _ _ _ Es), bind_get. cbn [active_ set_worker s1]. by rewrite Ha.
Qed.

(** Serving a request that only changes the worker *)
Lemma serve_quiet b g r q w : gcinv b g -> blocked_ g = false -> exited_ g = false -> greq_ g = message_of r :: q -> request_ok r ->
  perform (over (gc_ g)) (S (gen (cs_ (gc_ g)))) r (service_of g) = (Ok (Some Part_empty), set_worker w (service_of g)) ->
  exists g', exec_g KServe g = Some g' /\ gcinv b g' /\ blocked_ g' = false /\ exited_ g' = false /\ greq_ g' = q /\ g_worker g' = w /\
    alive (cs_ (gc_ g')) = alive (cs_ (gc_ g)) /\ gen (cs_ (gc_ g')) = gen (cs_ (gc_ g)).
Proof.
  intros Hi Hb Hx Hq Hr E. assert (exec_g KServe g = Some (after (set_requests q (set_worker w (service_of g))) false g)) as Es.
  { cbn [exec_g]. rewrite Hb, Hx, (client_performs _ _ r q) by done. cbn [orb]. pose proof (indep_perform (over (gc_ g)) (S (gen (cs_ (gc_ g)))) r q (service_of g)) as Hin.
    rewrite E in Hin. cbn [fst snd] in Hin. by rewrite (M_bind_eq _ _ _ _ _ Hin). }
  eexists. split; [exact Es|]. split; [by apply (exec_g_gcinv b KServe g)|]. rewrite main_after. cbn [after gc_].
  rewrite (after_call b) by (try (apply creachable_inv, Hi); cbn; auto). done.
Qed.

(** The requests are sent. *)
Lemma asks_step b rs : Forall request_ok rs -> forall g, gcinv b g -> exists g', grun_g (HAsk <$> rs) g = Some g' /\ gcinv b g' /\
  gc_ g' = gc_ g /\ blocked_ g' = blocked_ g /\ exited_ g' = exited_ g /\ greq_ g' = greq_ g ++ (message_of <$> rs).
Proof.
  induction 1 as [|r rs Hr Hrs IH]; intros g Hi; [exists g; by rewrite app_nil_r|]. cbn [fmap list_fmap grun_g].
  assert (exec_g (HAsk r) g = Some (after (set_requests (greq_ g ++ [message_of r]) (service_of g)) (blocked_ g) g)) as E
    by (cbn [exec_g]; by rewrite (ask_sends r _ Hr)).
  rewrite E. destruct (IH _ (exec_g_gcinv b (HAsk r) g _ Hi Hr E)) as (g' & E' & Hi' & Hc & Hb & Hx & Hq). exists g'.
  split_and!; [exact E'|done| |done|done|by rewrite Hq; cbn; rewrite <-app_assoc].
  rewrite Hc. cbn [after gc_]. by apply (after_frame b).
Qed.

(** What the settings and the worker make of the next session *)
Definition wanted (id : uuid) (n : Z) (e : Endpoints) (u : Subscriptions) : WorkerConfig :=
  mkWorkerConfig id n (s_wildcard u) (if s_wildcard u then [] else Name <$> s_name u) (e_delivery e) (e_dispatch e) (e_snapshot e).

Definition with_endpoints (e : Endpoints) (w : worker) : worker :=
  set_w_runner (setEndpoints (e_delivery e) (e_dispatch e) (e_snapshot e) (w_runner w)) w.
Definition with_subscriptions (u : Subscriptions) (w : worker) : worker :=
  if s_wildcard u then setTopicsAll w else setTopicsNames (Name <$> s_name u) w.

Lemma perform_settings over k e u s :
  perform over k (QEndpoints e) s = (Ok (Some Part_empty), set_worker (with_endpoints e (worker_ s)) s) /\
  perform over k (QSubscriptions u) s = (Ok (Some Part_empty), set_worker (with_subscriptions u (worker_ s)) s).
Proof.
  split; [reflexivity|]. cbn [perform]. unfold done_with, applySubscriptions, with_subscriptions. by destruct (s_wildcard u).
Qed.
Lemma settings_config e u w : start_config (with_subscriptions u (with_endpoints e w)) = wanted (w_id w) (number_read w) e u /\
  queued (with_subscriptions u (with_endpoints e w)) = queued w /\
  number_read (with_subscriptions u (with_endpoints e w)) = number_read w.
Proof. unfold with_subscriptions, wanted. by destruct (s_wildcard u). Qed.

(** Setting endpoints and subscriptions and starting, when no session runs *)
Lemma start_configured b g e u : gcinv b g -> alive (cs_ (gc_ g)) = None -> blocked_ g = false -> exited_ g = false -> greq_ g = [] ->
  request_ok (QEndpoints e) -> request_ok (QSubscriptions u) ->
  let cfg := wanted (w_id (g_worker g)) (number_read (g_worker g)) e u in
  WorkerConfig_ok cfg -> (forall p, WorkerConfig_toPart cfg = Ok p -> zlen (p_data p) < u32_max) ->
  exists g' tok op pc, grun_g ((HAsk <$> [QEndpoints e; QSubscriptions u; QStart]) ++ [KServe; KServe; KServe]) g = Some g' /\
    blocked_ g' = false /\ greq_ g' = [] /\
    alive (cs_ (gc_ g')) = Some (tok, S (gen (cs_ (gc_ g)))) /\ active_ (service_of g') = Some (S (gen (cs_ (gc_ g)))) /\
    queued (g_worker g') = queued (g_worker g) ++ [(Part_uint8 tok, op)] /\
    Operation.operation_fromPart op = Ok (Operation.mkOp Operation.Start Operation.Success pc) /\
    WorkerConfig_fromPart pc = Ok cfg.
Proof.
  intros Hi Ha Hb Hx Hq He Hu cfg Hc Hsz.
  destruct (asks_step b [QEndpoints e; QSubscriptions u; QStart]) with (g := g) as (g1 & E1 & Hi1 & Hg1 & Hb1 & Hx1 & Hq1);
    [do 2 (apply Forall_cons_2; [done|]); by apply Forall_cons_2|done|]. rewrite Hq in Hq1. rewrite Hb in Hb1. rewrite Hx in Hx1.
  destruct (serve_quiet b g1 _ _ _ Hi1 Hb1 Hx1 Hq1 He (proj1 (perform_settings _ _ e u _))) as (g2 & E2 & Hi2 & Hb2 & Hx2 & Hq2 & Hw2 & Ha2 & Hn2).
  destruct (serve_quiet b g2 _ _ _ Hi2 Hb2 Hx2 Hq2 Hu (proj2 (perform_settings _ _ e u _))) as (g3 & E3 & Hi3 & Hb3 & Hx3 & Hq3 & Hw3 & Ha3 & Hn3).
  cbn [worker_ service_of] in Hw2, Hw3. rewrite Hw2, Hg1 in Hw3. rewrite Ha2, Hg1, Ha in Ha3. rewrite Hn2, Hg1 in Hn3.
  destruct (settings_config e u (g_worker g)) as (Hcfg & Hqd & _). rewrite <-Hw3 in Hcfg, Hqd. fold cfg in Hcfg. rewrite <-Hcfg in Hc, Hsz.
  pose proof (creachable_inv _ _ (gi_prog _ _ Hi3)) as Hci. pose proof (reachable_flag _ _ (ci_reach _ _ Hci)) as Hf. rewrite Ha3 in Hf.
  destruct (perform_start (over (gc_ g3)) (S (gen (cs_ (gc_ g3)))) (service_of g3) _ Hf (held_over b _ Hci Ha3) Hc Hsz) as (op & pc & Ep & Do & Dc).
  pose proof (indep_perform (over (gc_ g3)) (S (gen (cs_ (gc_ g3)))) QStart [] (service_of g3)) as Hin. rewrite Ep in Hin. cbn [fst snd] in Hin.
  assert (exec_g KServe g3 = Some (after (set_requests [] (set_active (Some (S (gen (cs_ (gc_ g3))))) (set_worker (started op (g_worker g3)) (service_of g3)))) false g3)) as E4.
  { cbn [exec_g]. rewrite Hb3, Hx3, (client_performs _ _ QStart []) by done. cbn [orb]. by rewrite (M_bind_eq _ _ _ _ _ Hin). }
  eexists _, _, op, pc. rewrite (grun_app _ _ _ _ E1). cbn [grun_g]. rewrite E2, E3, E4. split; [reflexivity|].
  rewrite main_after. cbn [after gc_ blocked_ greq_ requests_ set_requests service_of active_ set_active fut_ csys_after].
  unfold csys_after. cbn [active_ set_active set_requests]. rewrite bool_decide_eq_true_2 by done. cbn [spawn call cs_ alive gen fut_].
  rewrite <-Hn3. split_and!; try done; [by rewrite <-Hqd|by rewrite <-Hcfg].
Qed.

End WithEnv.

(** ** Theorems *)

(** C22: Remote configuration takes effect, at the first start and at every later one: take any run of the
    service, with sessions that stopped or threw, at whose end no session runs and no request waits;
    when endpoints and subscriptions are set and a start is asked, a new session begins and its
    start operation is sent with the current token and a configuration that decodes to those
    endpoints, to those topics (or the wildcard), to the identity of the worker, and to the last
    number that a session of the run reported (0 when none did), as it comes out of the part
    that carries it to the worker; and the service keeps the future of that session. *)
Theorem grpc_configures (P : Platform) (PE : Proto Endpoints) (PS : Proto Subscriptions) (PT : Proto PTopic)
    (b : bool) (id : uuid) (ls : list slabel) (g : gcsys) (e : Endpoints) (u : Subscriptions) :
  Forall (label_ok b) ls -> grun_g ls (gcinit id) = Some g ->
  alive (cs_ (gc_ g)) = None -> blocked_ g = false -> exited_ g = false -> greq_ g = [] ->
  request_ok (QEndpoints e) -> request_ok (QSubscriptions u) ->
  let cfg := mkWorkerConfig id (last_number ls) (s_wildcard u) (if s_wildcard u then [] else Name <$> s_name u)
               (e_delivery e) (e_dispatch e) (e_snapshot e) in
  WorkerConfig_ok cfg -> (forall p, WorkerConfig_toPart cfg = Ok p -> zlen (p_data p) < u32_max) ->
  exists g' tok op pc, grun_g ((HAsk <$> [QEndpoints e; QSubscriptions u; QStart]) ++ [KServe; KServe; KServe]) g = Some g' /\
    blocked_ g' = false /\ greq_ g' = [] /\
    alive (cs_ (gc_ g')) = Some (tok, S (gen (cs_ (gc_ g)))) /\ active_ (service_of g') = Some (S (gen (cs_ (gc_ g)))) /\
    queued (g_worker g') = queued (g_worker g) ++ [(Part_uint8 tok, op)] /\
    Operation.operation_fromPart op = Ok (Operation.mkOp Operation.Start Operation.Success pc) /\
    WorkerConfig_fromPart pc = Ok cfg.
Proof.
  intros Hls Hg Ha Hb Hx Hq He Hu. destruct (run_number b id ls Hls g Hg) as (Hi & <- & <-).
  by apply (start_configured b g e u).
Qed.

Definition sample_endpoints : Endpoints := mkEndpoints [str "a"] [str "b"] [].
Definition sample_subscriptions : Subscriptions := mkSubscriptions false [str "t"].

(** A session reported the number 200 and threw. *)
Definition sample_run : list slabel :=
  [HAsk QStart; KServe; WSession SRecv; WSession (SNotify 200); WSession SDie].
Definition sample_state : gcsys := default (gcinit sample_id) (@grun_g x86_64 PE0 PS0 PT0 sample_run (gcinit sample_id)).

Lemma grpc_configures_witness :
  exists g' tok op pc, @grun_g x86_64 PE0 PS0 PT0
      ((HAsk <$> [QEndpoints sample_endpoints; QSubscriptions sample_subscriptions; QStart]) ++ [KServe; KServe; KServe]) sample_state = Some g' /\
    blocked_ g' = false /\ greq_ g' = [] /\
    alive (cs_ (gc_ g')) = Some (tok, S (gen (cs_ (gc_ sample_state)))) /\
    active_ (service_of g') = Some (S (gen (cs_ (gc_ sample_state)))) /\
    queued (g_worker g') = queued (g_worker sample_state) ++ [(@Part_uint8 x86_64 tok, op)] /\
    @Operation.operation_fromPart x86_64 op = Ok (Operation.mkOp Operation.Start Operation.Success pc) /\
    @WorkerConfig_fromPart x86_64 pc =
      Ok (mkWorkerConfig sample_id 18446744073709551560 false [Name (str "t")] [str "a"] [str "b"] []).
Proof.
  assert (@last_number x86_64 sample_run = 18446744073709551560) as K by (vm_compute; reflexivity). rewrite <-K.
  apply (grpc_configures x86_64 PE0 PS0 PT0 false sample_id sample_run sample_state sample_endpoints sample_subscriptions).
  - repeat (apply Forall_cons_2; [vm_compute; exact I || reflexivity|]). constructor.
  - vm_compute. reflexivity.
  - vm_compute. reflexivity.
  - vm_compute. reflexivity.
  - vm_compute. reflexivity.
  - vm_compute. reflexivity.
  - split; [exact I|vm_compute; reflexivity].
  - split; [exact I|vm_compute; reflexivity].
  - constructor; try (vm_compute; by intuition); repeat (apply Forall_cons_2; [apply Name_ok|]); constructor.
  - intros p E. vm_compute in E. injection E as <-. vm_compute. reflexivity.
Defined.

(** C25: The getters while one call is made at a time: in every run of the service in which a getter
    asks only while no other waits for its reply (other requests, the serving thread and the
    sessions of the worker, which may throw, go on at any time), every [GetUuid] answers the
    identity of the worker; and the answers of [GetSeqNum] are, in order and with at most the last
    one still on its way, the numbers that the worker had when the requests were served: the last
    one that a session had reported by then, 0 before the first.  Every number is shown as it
    comes out of a part, once from the session and once from the serving thread. *)
Theorem getters_right (P : Platform) (PE : Proto Endpoints) (PS : Proto Subscriptions) (PT : Proto PTopic)
    (b : bool) (id : uuid) (ls : list alabel) (a : clients) :
  uuid_ok id -> one_by_one b ls (ainit id) -> run_a ls (ainit id) = Some a ->
  (forall t o, (t, AUuid o) ∈ given_ a -> o = Ok id) /\
  seq_answers (given_ a) `prefix_of` shown (seq_numbers ls) /\
  (waits_ a = ∅ -> seq_answers (given_ a) = shown (seq_numbers ls) /\ grep_ (sys_ a) = []).
Proof.
  intros Hid Ho E. destruct (run_ainv b id ls Hid _ _ a (ainit_inv b id) Ho E) as [_ _ _ _ Hu Hf]. split; [exact Hu|].
  fold (seq_numbers ls) in Hf. destruct Hf as [(_ & _ & H1 & H2)|(t & c & Hw & Hor)].
  { rewrite H2. by split; [exists []; by rewrite app_nil_r|]. }
  split; [|intros He; rewrite He in Hw; by apply (f_equal (lookup t)) in Hw; rewrite lookup_empty, lookup_singleton_eq in Hw].
  destruct Hor as [(_ & _ & ->)|(_ & p & nums & n & _ & _ & -> & ->)]; [done|].
  unfold shown. rewrite fmap_app. by eexists.
Qed.

(** A session reports its number, one call asks for it, and another for the identity while the
    session throws. *)
Definition sample_calls : list alabel :=
  [ACall 0 SeqGetter; AStep (HAsk QStart); AStep KServe; ARecv 0; AStep KServe; AStep (WSession SRecv); AStep (WSession (SNotify 5));
   ACall 0 SeqGetter; AStep KServe; ARecv 0; ACall 1 UuidGetter; AStep (WSession SDie); AStep KServe; ARecv 1].
Definition sample_clients : clients := default (ainit sample_id) (@run_a x86_64 PE0 PS0 PT0 sample_calls (ainit sample_id)).

Lemma getters_right_witness :
  given_ sample_clients = [(0%nat, ASeq (Ok 0)); (0%nat, ASeq (Ok 5)); (1%nat, AUuid (Ok sample_id))] /\
  seq_answers (given_ sample_clients) = [Ok 0; Ok 5].
Proof.
  split; [vm_compute; reflexivity|].
  assert (@shown x86_64 (@seq_numbers x86_64 sample_calls) = [Ok 0; Ok 5]) as K by (vm_compute; reflexivity). rewrite <-K.
  apply (getters_right x86_64 PE0 PS0 PT0 false sample_id sample_calls sample_clients).
  - reflexivity.
  - vm_compute. repeat split.
  - vm_compute. reflexivity.
  - vm_compute. reflexivity.
Defined.

End GrpcClients.
